(* ===== verification/_CoqProject ===== *)
-Q . S2P
Prelude.v
Effects.v
Os.v
Deps.v
Locations.v
LocationTable.v
Hasher.v
DebugHistory.v
Config.v
Metadata.v
ZstdDict.v
Storage.v
State.v
FileMap.v
WritePath.v
ReadPath.v
Gc.v
Recovery.v
Interleaving.v
Deletions.v
MaintenanceSteps.v
Store.v
Instances.v
Spec.v
Layout.v
FileMapSpec.v
Invariant.v
PowerLoss.v
ReadSpec.v
WriteSpec.v
InstallSpec.v
BatchSpec.v
ShardSpec.v
RecoverySpec.v
StoreSpec.v
FrameSpec.v
GcSpec.v
MoveSpec.v
CountSpec.v
RewriteSpec.v
ClaimSpec.v
PruneSpec.v
CompactSpec.v
MaintSpec.v
SettleSpec.v
ResultSpec.v
SyncSpec.v
Refinement.v
Durability.v
Queries.v
InterleavingSpec.v
ConcurrentReads.v
DeletionsSpec.v
ObjectStore.v
Kv.v
FuzzModel.v
Bench.v
KvSpec.v
FuzzSpec.v
MarbleStore.v
BenchSpec.v
Reachable.v
Demo.v
Failures.v
ClientDemo.v
ClientWitnesses.v
BenchWitnesses.v
ConcurrencyWitnesses.v
DeletionWitnesses.v
Witnesses.v
