(* ===== verification/Prelude.v ===== *)
(** A verification development for the crate [marble], a garbage-collecting disk-backed
    object store: [src/src/] and the clients of the crate in [src/examples/] and
    [src/fuzz/].

    * The program

    A store maps 64-bit object ids to byte strings. A batch of writes and deletions becomes
    one storage file: objects with their checksums, then a trailer with the relative
    location of every object. In memory, the location table ([location_table.rs]) maps an
    id to the location of its last entry, and the file map ([file_map.rs]) maps the base
    location of a file to its descriptor, its metadata and the number of objects still
    live in it. [write_batch] ([writepath.rs]) writes a file under a temporary name, puts
    its objects into the table, writes the trailer and renames the file; [read]
    ([readpath.rs]) follows the table into a file; [maintenance] ([gc.rs]) copies the live
    objects of fragmented files into new ones with [shard_batch], replacing table entries by
    compare-and-swap, and deletes the files nobody points into; [open] ([recovery.rs])
    rebuilds both tables from the trailers.

    * The files

    Code, in the order of the calls:
    - [Effects]: the monad of the stateful code. A computation returns [Ok], [Err],
      [Panic] (a failed assertion, an overflow check or an allocation that aborts) or
      [Crash] (the process is killed at a system call), with the state it leaves; [wp] is
      its weakest precondition, [Panic] excluded.
    - [Os]: [std::fs] and [BufWriter]. A list of faults decides, call by call, whether a
      system call works, fails or kills the process, how far an interrupted write gets, and
      the file system remembers what has been synced.
    - [Deps]: what the crate imports, as classes with their documented laws: crc32fast,
      zstd, the page table, the concurrent map, and the iteration orders of [HashMap] and
      [read_dir]. [Instances] has concrete ones.
    - [Locations] ([disk_location.rs]), [LocationTable] ([location_table.rs]), [Config]
      ([config.rs] and the default partition function), [Metadata] (file names), [ZstdDict]
      ([zstd.rs]), [Storage] (objects and [trailer.rs]), [State] (the structs of [lib.rs]),
      [FileMap] ([file_map.rs]), [WritePath], [ReadPath], [Gc], [Recovery] and [Store] (the
      other methods and functions of [lib.rs]).
    - [Hasher] (the hasher of [lib.rs]) and [DebugHistory] ([debug_history.rs], the
      assertions of validation builds).
    - [Interleaving]: the accesses of concurrent writers to the shared tables ([writepath.rs],
      steps 3 to 6) as atomic steps, in a validation build. [Deletions]: the claims
      and deletions of [maintenance], and the deletion of abandoned files, as steps next to
      them.
    - Three clients, written against the class [ObjectStore]: [Kv] ([examples/kv.rs]),
      [Bench] ([examples/bench.rs]) and [FuzzModel] ([fuzz_model.rs]).

    Specifications and proofs:
    - [Spec]: a store as a finite map, which is all a client needs to know.
    - [Layout]: a file as a [LogFile], what its content means ([lf_vals], [lf_abs]), and a
      store as a sorted list of files with its table [locs] and its objects [vals].
    - [Invariant]: [disk_ok] relates the directory to such a list and holds wherever the
      process may be killed; [mem_ok] relates the tables in memory to it; [Inv] is both.
    - [PowerLoss]: what a machine that loses power leaves of a disk ([power_loss]), and the
      stores the disk may then hold ([lasting]).
    - [FileMapSpec], [ReadSpec], [WriteSpec], [InstallSpec], [BatchSpec], [ShardSpec],
      [RecoverySpec], [StoreSpec]: the operations against the invariant.
    - [FrameSpec], [GcSpec], [RewriteSpec], [ClaimSpec], [PruneSpec], [MaintSpec]:
      [maintenance], part by part. [MoveSpec] and [CountSpec] count the live objects a
      rewrite moves, [CompactSpec] the wasteful files it leaves. [SettleSpec] concludes
      that [maintenance] comes to rest, [ResultSpec] says what it returns.
    - [SyncSpec], [Queries]: [sync_all], the id iterators and the statistics.
    - [Refinement], [Durability], [Reachable]: the theorems about whole stores, what
      survives a power loss, and whole histories.
    - [InterleavingSpec]: what concurrent writers keep, how they end, and that one of them
      alone does what [WritePath] says. [ConcurrentReads]: a reader next to them.
      [MaintenanceSteps]: an uninterrupted call of [maintenance] is a pass of [Deletions].
      [DeletionsSpec]: claims and deletions next to writers and readers.
    - [ObjectStore] states what a store promises its clients; [MarbleStore] shows that the
      crate keeps it, [KvSpec], [FuzzSpec] and [BenchSpec] verify the clients against it.
    - [Demo], [ClientDemo]: concrete stores; [Failures]: runs on such stores that show what
      may go wrong; [Witnesses], [ClientWitnesses], [BenchWitnesses], [ConcurrencyWitnesses],
      [DeletionWitnesses]: the theorems at concrete inputs.

    * The theorems

    A batch is atomic under every failing system call and every kill, and reopening reads
    the old or the new contents ([write_batch_atomic]); any program of writes, reads,
    defragmentations and restarts gives the answers of a finite map ([store_refines_map]);
    [maintenance] changes no object, whatever fails ([maintenance_preserves]), and makes
    progress: without faults it leaves no empty file and in each generation fewer wasteful
    files than it takes to start a rewrite, so that with few files the next call has nothing
    to do ([maintenance_settles]). What it returns is the number of objects it has moved, and
    zero exactly if no generation had enough files worth rewriting ([maintenance_counts]);
    many small files may keep it from ever getting there. [open]
    rebuilds what the files describe ([open_recovers]); [read] is exact on every branch,
    corrupt files included. With [fsync_each_batch] a batch that returned survives a power
    loss, and without it a batch is still atomic ([write_batch_durable]); [sync_all] makes up
    for it ([sync_all_durable]), except for what recovery has found, for which it does
    nothing ([sync_all_after_open]). Over any number of processes the store holds what was
    acknowledged, and of every other batch all or nothing, in histories in which every
    [open] succeeds, a process ends with a write that fails, and power is lost only with
    [fsync_each_batch] ([history_admitted]). What a failed batch leaves in memory is exact
    ([failed_batch_tables]): the locations of the objects that were there, and, if the file
    is taken back, stale ones of those that are new. An object of [max_object_size] bytes,
    which [write_batch] accepts, makes [maintenance] fail ([maintenance_rejects_limit]).
    Writers that install concurrently trip no assertion, lose no location, count exactly, and
    finish ([concurrent_writers_accounted], [concurrent_writers_terminate]); their steps are
    those of the sequential code ([writer_steps_are_code], and [maintenance_steps_are_code]
    for what [maintenance] adds), and a read next to them returns
    what it would have returned at once ([reads_linearize]). All this stays true when any
    number of calls of [maintenance] claim and delete files next to them
    ([deletions_are_safe], [claims_are_exclusive]), except that a read is disturbed if its
    object moves and its old file goes ([reads_survive_deletions]). The key-value
    example is a finite map and its mutations are atomic ([kv_refines_map],
    [kv_mutation_atomic]); the crate's model test passes on every input
    ([fuzz_target_passes]), the threads of the load generator write what they should in any
    order ([threads_write_batches]), a reader that has read nothing divides by zero
    ([run_reader_measures]), and the final loop ends if the first round leaves few files
    ([bench_finishes]). Below that: the encodings and their round trips, the selection of
    files ([files_to_defrag_selects]), the sharding of a rewrite, dictionaries, the
    statistics, and the table operations in any order. [Failures] shows on single runs of
    the model what defects may do, among them those for which there is no theorem: a
    reader overtaken by [maintenance], an [open] that fails, a writer that fails next to
    another one, and small files in different shards.

    * Bounds and fuel

    [u64] and [usize] values are integers; where the code may wrap the model wraps
    ([wrap64]), where it panics the model panics. Theorems about writing have room
    hypotheses ([batch_fits], [maintain_fits], and those of the clients made of them): sequence numbers stay below 2^62, so
    that the bit that marks new writes is free, and the counter of temporary names below
    2^64. The loop over the objects of a file takes fuel, one more than the length of the
    buffer, and returns [None] when it has used it up. Each iteration reads a header of
    twenty bytes from the buffer: [rewrite_objects_terminates] shows that on any buffer
    the loop of the source ends, as the inductive relation [loop_ends] describes it, after
    at most as many iterations as there are headers in it, and that with this fuel the
    function gives its result and never [None]. The loop at the end of [bench.rs] takes its
    fuel as an argument and returns [false] when it has used it up; [bench_finishes] shows
    that two rounds are enough, under its condition. All other loops are over lists.

    * Not modelled

    - The operations run one at a time, except in [LocationTable], [Interleaving] and
      [Deletions], where the atomic accesses of several threads interleave; the memory
      orderings of the atomics are taken as sequentially consistent. A look at a file, its
      publication and an iteration of a validation build's installation are one step each. A
      reader is two steps, the load and the rest, and reads by several threads at once are
      not interleaved. The input and output of a writer is not a step, and so its failure is
      none: [failed_writer_harms_third_object] shows what it may do to another writer. A pass of
      [Deletions] may stop looking at files at any time, and its rewrite is not tied to it:
      the steps allow more than the code does, and only what holds of all of them is
      claimed, no progress of [maintenance]. Nor is
      the reading of the files that [maintenance] rewrites: what it writes is a writer with
      any old locations that are in the table. The record of a deleted file goes when the
      file leaves the map, as if no reader still held it; [reader_races_maintenance] shows
      what the deletion may do to a reader.
    - A power loss takes back the last changes of a directory in their order, as a
      journaling file system does, and any content that has not been synced; file systems
      that reorder changes of a directory are not covered. In [history_admitted] there are
      power losses only with [fsync_each_batch], and every [open] succeeds:
      [failed_open_deletes_files] shows what a failing one may do.
    - [fallible!] and [maybe!] are the identity outside fault-injection builds, and the
      delays of [debug_delay.rs] have no effect; log messages are left out.
    - Of the code compiled only with [runtime_validation], what [open] and
      [verify_file_uninhabited] add; the floating-point ratios of [Stats]; [Debug] and
      [Display].
    - The threads of [examples/bench.rs] take turns, each with one call of the store: that
      the calls overlap is the subject of [Interleaving] and [Deletions], not of [Bench].
      Printing is left out.
    - [benches] and the tests: drivers without logic of their own. *)
From stdpp Require Export prelude gmap strings pretty list sorting.
From Stdlib.Strings Require Export Byte.
From Stdlib Require Export ZifyBool.

#[global] Open Scope Z_scope.

Declare Scope marble_scope.
Delimit Scope marble_scope with marble.
#[global] Open Scope marble_scope.

(** * Machine integers

    [u64] and [usize] values are [Z]; the places where the code may leave the
    range use [wrap64] (release profile arithmetic and atomic read-modify-write
    operations) or return [None] where the code panics. *)

Abbreviation len l := (Z.of_nat (length l)).

Definition two64 : Z := 2 ^ 64.

Definition wrap64 (z : Z) : Z := z mod two64.

Definition is_u64 (z : Z) : Prop := 0 ≤ z < two64.

#[global] Instance is_u64_dec z : Decision (is_u64 z).
Proof. unfold is_u64; apply _. Defined.

(** [isize::MAX], the largest allocation Rust performs. *)
Definition isize_max : Z := 2 ^ 63 - 1.

(** * Bytes and little-endian integers *)

Abbreviation bytes := (list byte).

#[global] Instance byte_eq_dec : EqDecision byte := Byte.byte_eq_dec.

Definition Z_of_byte (b : byte) : Z := Z.of_N (Byte.to_N b).

Definition byte_of_Z (z : Z) : byte :=
  match Byte.of_N (Z.to_N (z mod 256)) with
  | Some b => b
  | None => x00
  end.

(** [u64::to_le_bytes] for [n = 8], [u32::to_le_bytes] for [n = 4]. *)
Fixpoint to_le_bytes (n : nat) (z : Z) : bytes :=
  match n with
  | O => []
  | S n => byte_of_Z z :: to_le_bytes n (z / 256)
  end.

(** [u64::from_le_bytes] and [u32::from_le_bytes]. *)
Fixpoint from_le_bytes (bs : bytes) : Z :=
  match bs with
  | [] => 0
  | b :: bs => Z_of_byte b + 256 * from_le_bytes bs
  end.

(** [&buf[a..b]]: [None] is the panic of an out-of-range slice. *)
Definition slice (buf : bytes) (a b : Z) : option bytes :=
  if bool_decide (0 ≤ a ≤ b ∧ b ≤ len buf)
  then Some (take (Z.to_nat (b - a)) (drop (Z.to_nat a) buf))
  else None.

(** * Tactics shared by the development *)

(** Case analysis on every boolean test and [decide] of the goal or context. *)
Ltac case_tests :=
  repeat (case_bool_decide || case_decide || case_match); simplify_eq.

(** Arithmetic with the machine-word definitions unfolded. *)
Ltac u64_lia := unfold is_u64, wrap64, two64, isize_max in *; lia.

(** The same with division and remainder by constants. *)
Ltac div_lia :=
  unfold is_u64, wrap64, two64, isize_max in *; Z.div_mod_to_equations; lia.

(** * Lemmas on machine integers *)

Lemma wrap64_small z : is_u64 z → wrap64 z = z.
Proof. intros. apply Z.mod_small; u64_lia. Qed.

Lemma wrap64_is_u64 z : is_u64 (wrap64 z).
Proof. apply Z.mod_pos_bound; done. Qed.

(** * Lemmas on bytes *)

Lemma Z_of_byte_range b : 0 ≤ Z_of_byte b < 256.
Proof.
  unfold Z_of_byte. pose proof (Byte.to_N_bounded b). lia.
Qed.

Lemma byte_of_Z_of_byte b : byte_of_Z (Z_of_byte b) = b.
Proof.
  unfold byte_of_Z. rewrite Z.mod_small by apply Z_of_byte_range.
  unfold Z_of_byte. rewrite N2Z.id, Byte.of_to_N. done.
Qed.

Lemma Z_of_byte_of_Z z : Z_of_byte (byte_of_Z z) = z mod 256.
Proof.
  unfold byte_of_Z. pose proof (Z.mod_pos_bound z 256 ltac:(lia)).
  destruct (Byte.of_N _) as [b|] eqn:E.
  - apply Byte.to_of_N in E. unfold Z_of_byte. lia.
  - apply Byte.of_N_None_iff in E. lia.
Qed.

Lemma length_to_le_bytes n z : length (to_le_bytes n z) = n.
Proof. revert z; induction n; intros z; simpl; auto. Qed.

Lemma from_le_bytes_range bs : 0 ≤ from_le_bytes bs < 256 ^ len bs.
Proof.
  induction bs as [|b bs IH]; cbn [from_le_bytes]; [simpl; lia|].
  pose proof (Z_of_byte_range b).
  rewrite length_cons, Nat2Z.inj_succ, Z.pow_succ_r by lia. lia.
Qed.

Lemma from_to_le_bytes n z :
  0 ≤ z < 256 ^ Z.of_nat n → from_le_bytes (to_le_bytes n z) = z.
Proof.
  revert z; induction n as [|n IH]; intros z Hz; simpl; [lia|].
  rewrite Z_of_byte_of_Z, IH.
  - pose proof (Z.div_mod z 256). lia.
  - rewrite Nat2Z.inj_succ, Z.pow_succ_r in Hz by lia.
    split; [apply Z.div_pos; lia|apply Z.div_lt_upper_bound; lia].
Qed.

Lemma from_to_le_bytes_8 z : is_u64 z → from_le_bytes (to_le_bytes 8 z) = z.
Proof. intros. apply from_to_le_bytes. u64_lia. Qed.

Lemma from_le_bytes_8_u64 bs : length bs = 8%nat → is_u64 (from_le_bytes bs).
Proof. intros E. pose proof (from_le_bytes_range bs). rewrite E in *. u64_lia. Qed.

Lemma byte_of_Z_add z k : byte_of_Z (z + 256 * k) = byte_of_Z z.
Proof. unfold byte_of_Z. rewrite Z.mul_comm, Z_mod_plus_full. done. Qed.

Lemma to_from_le_bytes bs : to_le_bytes (length bs) (from_le_bytes bs) = bs.
Proof.
  induction bs as [|b bs IH]; simpl; [done|].
  pose proof (Z_of_byte_range b). rewrite byte_of_Z_add, byte_of_Z_of_byte. f_equal.
  rewrite Z.mul_comm, Z.div_add, Z.div_small by lia. exact IH.
Qed.

#[global] Arguments to_le_bytes : simpl never.
#[global] Arguments from_le_bytes : simpl never.

(** * Lemmas on slices *)

Lemma slice_app_r (a b : bytes) i j :
  len a ≤ i → i ≤ j → slice (a ++ b) i j = slice b (i - len a) (j - len a).
Proof.
  intros. unfold slice. rewrite length_app.
  rewrite (bool_decide_ext _ (0 ≤ i - len a ≤ j - len a ∧ j - len a ≤ len b)) by lia.
  case_bool_decide; [|done]. rewrite drop_app_ge by lia.
  do 3 f_equal; lia.
Qed.

Lemma slice_app_l (a b : bytes) i j :
  j ≤ len a → slice (a ++ b) i j = slice a i j.
Proof.
  intros. unfold slice. rewrite length_app.
  rewrite (bool_decide_ext _ (0 ≤ i ≤ j ∧ j ≤ len a)) by lia.
  case_bool_decide; [|done]. rewrite drop_app_le, take_app_le; [done|rewrite length_drop|]; lia.
Qed.

Lemma slice_all (a : bytes) j : j = len a → slice a 0 j = Some a.
Proof.
  intros ->. unfold slice. rewrite bool_decide_eq_true_2 by lia.
  rewrite drop_0, take_ge; [done|lia].
Qed.

Lemma slice_app (a b c : bytes) i j :
  i = len a → j = len a + len b → slice (a ++ b ++ c) i j = Some b.
Proof.
  intros -> ->. rewrite slice_app_r, slice_app_l, Z.sub_diag by lia.
  apply slice_all. lia.
Qed.

Lemma slice_app_end (a b : bytes) i j :
  i = len a → j = len a + len b → slice (a ++ b) i j = Some b.
Proof. intros -> ->. rewrite <- (app_nil_r b) at 1. by apply slice_app. Qed.

Lemma slice_app_start (a b : bytes) j : j = len a → slice (a ++ b) 0 j = Some a.
Proof. intros ->. rewrite slice_app_l by lia. by apply slice_all. Qed.

Lemma slice_length (a b : bytes) i j :
  slice a i j = Some b → len b = j - i ∧ 0 ≤ i ≤ j ∧ j ≤ len a.
Proof.
  unfold slice. case_bool_decide; [|done]. intros [= <-].
  rewrite length_take, length_drop. lia.
Qed.

Create HintDb marble.
Create Rewrite HintDb marble.
#[export] Hint Resolve wrap64_is_u64 from_le_bytes_8_u64 : marble.
#[export] Hint Rewrite length_to_le_bytes wrap64_small from_to_le_bytes_8 using u64_lia : marble.
