(* ===== verification/Effects.v ===== *)
(** Effects: the state-and-outcome monad in which the stateful code is written.

    A computation over a state [S] ends in one of four ways: [Ok] with a value,
    [Err] with an [std::io::Error] (its kind; the message is for the log),
    [Panic] (an [assert!], an [unwrap] of [None], an out-of-range slice; the
    crate is built with [panic = "abort"], so a panic ends the process), or
    [Crash] (the process is killed at an operating-system call).

    [wp] is the weakest precondition of a computation with one postcondition for
    each way of ending other than [Panic]: a [wp] fact therefore says that the
    computation does not panic. *)
From S2P Require Import Prelude.

(** [std::io::ErrorKind], the kinds the crate creates or can receive. *)
Inductive ErrorKind :=
  | Unsupported
  | InvalidData
  | Other
  | NotFound
  | UnexpectedEof
  | OsError (errno : Z).

#[global] Instance ErrorKind_eq_dec : EqDecision ErrorKind.
Proof. solve_decision. Defined.

Inductive outcome (A : Type) :=
  | Ok (a : A)
  | Err (e : ErrorKind)
  | Panic
  | Crash.
Arguments Ok {A} a.
Arguments Err {A} e.
Arguments Panic {A}.
Arguments Crash {A}.

#[global] Instance outcome_eq_dec `{EqDecision A} : EqDecision (outcome A).
Proof. solve_decision. Defined.

Definition outcome_map {A B} (f : A → B) (r : outcome A) : outcome B :=
  match r with Ok a => Ok (f a) | Err e => Err e | Panic => Panic | Crash => Crash end.

Definition M (S A : Type) : Type := S → outcome A * S.

#[global] Instance M_ret S : MRet (M S) := λ A a s, (Ok a, s).

#[global] Instance M_bind S : MBind (M S) := λ A B k m s,
  match m s with
  | (Ok a, s') => k a s'
  | (Err e, s') => (Err e, s')
  | (Panic, s') => (Panic, s')
  | (Crash, s') => (Crash, s')
  end.

#[global] Instance M_fmap S : FMap (M S) := λ A B f m, a ← m; mret (f a).

(** [return Err(..)] *)
Definition fail {S A} (e : ErrorKind) : M S A := λ s, (Err e, s).

(** [panic!(..)] *)
Definition panic {S A} : M S A := λ s, (Panic, s).

Definition crash {S A} : M S A := λ s, (Crash, s).

(** [assert!(b)] *)
Definition assert_that {S} (b : bool) : M S () := if b then mret () else panic.

(** [opt.unwrap()] and [opt.expect(..)] *)
Definition unwrap {S A} (o : option A) : M S A :=
  match o with Some a => mret a | None => panic end.

Definition gets {S A} (f : S → A) : M S A := λ s, (Ok (f s), s).

Definition modify {S} (f : S → S) : M S () := λ s, (Ok (), f s).

Definition when {S} (b : bool) (m : M S ()) : M S () := if b then m else mret ().

(** [Result] as a value: what [let res = ..] holds before it is examined. *)
Definition try {S A} (m : M S A) : M S (A + ErrorKind) := λ s,
  match m s with
  | (Ok a, s') => (Ok (inl a), s')
  | (Err e, s') => (Ok (inr e), s')
  | (Panic, s') => (Panic, s')
  | (Crash, s') => (Crash, s')
  end.

(** Runs [cleanup] when [m] returns, with [Ok] or with [Err]: the [Drop] of a
    guard that lives until the function returns. Neither an abort nor a crash
    runs it. *)
Definition finally {S A} (m : M S A) (cleanup : M S ()) : M S A :=
  r ← try m;
  cleanup;;
  match r with
  | inl a => mret a
  | inr e => fail e
  end.

(** Runs [cleanup] only when [m] returns an [Err]. *)
Definition on_error {S A} (m : M S A) (cleanup : M S ()) : M S A :=
  r ← try m;
  match r with
  | inl a => mret a
  | inr e => cleanup;; fail e
  end.

(** [for x in l { .. }] with loop-carried variables. *)
Fixpoint foldM {S A B} (f : B → A → M S B) (b : B) (l : list A) : M S B :=
  match l with
  | [] => mret b
  | x :: l => b' ← f b x; foldM f b' l
  end.

(** [for x in l { .. }] without loop-carried variables. *)
Fixpoint forM {S A} (l : list A) (f : A → M S ()) : M S () :=
  match l with
  | [] => mret ()
  | x :: l => f x;; forM l f
  end.

(** Runs a computation over a part of the state. *)
Definition zoom {S T A} (get : T → S) (put : S → T → T) (m : M S A) : M T A :=
  λ t, let '(o, s) := m (get t) in (o, put s t).

(** * Runs of a sequence *)

Section runs.
Context {S A B : Type}.

Lemma bind_ok {m : M S A} {s a s'} (E : m s = (Ok a, s')) (k : A → M S B) : (m ≫= k) s = k a s'.
Proof. unfold mbind, M_bind. by rewrite E. Qed.

Lemma bind_ok_inv (m : M S A) (k : A → M S B) s b s' :
  (m ≫= k) s = (Ok b, s') → ∃ a s1, m s = (Ok a, s1) ∧ k a s1 = (Ok b, s').
Proof. unfold mbind, M_bind. destruct (m s) as [[a| | |] s1]; try done. eauto. Qed.

Lemma finally_ok_inv (m : M S A) (cleanup : M S ()) s a s' :
  finally m cleanup s = (Ok a, s') → ∃ s1, m s = (Ok a, s1) ∧ cleanup s1 = (Ok (), s').
Proof.
  unfold finally, try, mbind, M_bind. destruct (m s) as [[a1|e| |] s1]; try done;
    destruct (cleanup s1) as [[[]| | |] s2] eqn:E; intros [=]; subst; eauto.
Qed.
End runs.

(** * Weakest preconditions *)

Section wp.
Context {S : Type}.

Definition wp {A} (m : M S A) (Q : A → S → Prop) (E : ErrorKind → S → Prop)
    (C : S → Prop) (s : S) : Prop :=
  match m s with
  | (Ok a, s') => Q a s'
  | (Err e, s') => E e s'
  | (Panic, _) => False
  | (Crash, s') => C s'
  end.

Lemma wp_ret {A} (a : A) Q E C s : Q a s → wp (mret a) Q E C s.
Proof. done. Qed.

Lemma wp_bind {A B} (m : M S A) (k : A → M S B) Q E C s :
  wp m (λ a s', wp (k a) Q E C s') E C s → wp (m ≫= k) Q E C s.
Proof. unfold wp, mbind, M_bind. destruct (m s) as [[] ?]; auto. Qed.

Lemma wp_mono {A} (m : M S A) (Q Q' : A → S → Prop) (E E' : ErrorKind → S → Prop)
    (C C' : S → Prop) s :
  wp m Q E C s →
  (∀ a s', Q a s' → Q' a s') → (∀ e s', E e s' → E' e s') → (∀ s', C s' → C' s') →
  wp m Q' E' C' s.
Proof. unfold wp. destruct (m s) as [[] ?]; auto. Qed.

(** The postcondition may use that it is about this run. *)
Lemma wp_with_run {A} (m : M S A) (Q : A → S → Prop) E C s :
  wp m (λ a s', m s = (Ok a, s') → Q a s') E C s → wp m Q E C s.
Proof. unfold wp. destruct (m s) as [[] ?]; auto. Qed.

Lemma wp_fail {A} e (Q : A → S → Prop) E C s : E e s → wp (fail e) Q E C s.
Proof. done. Qed.

Lemma wp_assert b (Q : () → S → Prop) E C s :
  b = true → Q () s → wp (assert_that b) Q E C s.
Proof. intros ->. done. Qed.

Lemma wp_unwrap {A} (o : option A) a (Q : A → S → Prop) E C s :
  o = Some a → Q a s → wp (unwrap o) Q E C s.
Proof. intros ->. done. Qed.

Lemma wp_gets {A} (f : S → A) (Q : A → S → Prop) E C s :
  Q (f s) s → wp (gets f) Q E C s.
Proof. done. Qed.

Lemma wp_modify (f : S → S) (Q : () → S → Prop) E C s :
  Q () (f s) → wp (modify f) Q E C s.
Proof. done. Qed.

Lemma wp_when b (m : M S ()) (Q : () → S → Prop) E C s :
  (b = true → wp m Q E C s) → (b = false → Q () s) → wp (when b m) Q E C s.
Proof. destruct b; intros H1 H2; [by apply H1|by apply H2]. Qed.

Lemma wp_try {A} (m : M S A) (Q : A + ErrorKind → S → Prop) E C s :
  wp m (λ a, Q (inl a)) (λ e, Q (inr e)) C s → wp (try m) Q E C s.
Proof. unfold wp, try. destruct (m s) as [[] ?]; auto. Qed.

Lemma wp_finally {A} (m : M S A) cl (Q : A → S → Prop) E C s :
  wp m (λ a s', wp cl (λ _, Q a) E C s') (λ e s', wp cl (λ _, E e) E C s') C s →
  wp (finally m cl) Q E C s.
Proof.
  intros H. apply wp_bind, wp_try. eapply wp_mono; [exact H|..]; simpl; auto.
  - intros a s' Ha. apply wp_bind. eapply wp_mono; [exact Ha|..]; simpl; auto.
  - intros e s' He. apply wp_bind. eapply wp_mono; [exact He|..]; simpl; auto.
Qed.

Lemma wp_on_error {A} (m : M S A) cl (Q : A → S → Prop) E C s :
  wp m Q (λ e s', wp cl (λ _, E e) E C s') C s →
  wp (on_error m cl) Q E C s.
Proof.
  intros H. apply wp_bind, wp_try. eapply wp_mono; [exact H|..]; simpl; auto.
  intros e s' He. apply wp_bind. eapply wp_mono; [exact He|..]; simpl; auto.
Qed.

(** Loop rule: [I] is indexed by the part of the list already processed. *)
Lemma wp_foldM {A B} (f : B → A → M S B) (I : list A → B → S → Prop)
    (E : ErrorKind → S → Prop) C l b s :
  I [] b s →
  (∀ done x rest b s, l = done ++ x :: rest → I done b s →
     wp (f b x) (λ b' s', I (done ++ [x]) b' s') E C s) →
  wp (foldM f b l) (I l) E C s.
Proof.
  intros H0 Hstep.
  assert (∀ rest dn b s, l = dn ++ rest → I dn b s → wp (foldM f b rest) (I l) E C s)
    as Hgen; [|by apply (Hgen l [])].
  clear b s H0. induction rest as [|x rest IH]; intros dn b s -> HI; simpl.
  - rewrite app_nil_r. apply wp_ret. done.
  - apply wp_bind. eapply wp_mono; [by eapply Hstep|..]; simpl; auto.
    intros b' s' HI'. apply (IH (dn ++ [x])); [by rewrite <- app_assoc|done].
Qed.

Lemma wp_forM {A} (f : A → M S ()) (I : list A → S → Prop)
    (E : ErrorKind → S → Prop) C l s :
  I [] s →
  (∀ done x rest s, l = done ++ x :: rest → I done s →
     wp (f x) (λ _ s', I (done ++ [x]) s') E C s) →
  wp (forM l f) (λ _ s', I l s') E C s.
Proof.
  intros H0 Hstep.
  assert (∀ rest dn s, l = dn ++ rest → I dn s → wp (forM rest f) (λ _ s', I l s') E C s)
    as Hgen; [|by apply (Hgen l [])].
  clear s H0. induction rest as [|x rest IH]; intros dn s -> HI; simpl.
  - rewrite app_nil_r. apply wp_ret. done.
  - apply wp_bind. eapply wp_mono; [by eapply Hstep|..]; simpl; auto.
    intros _ s' HI'. apply (IH (dn ++ [x])); [by rewrite <- app_assoc|done].
Qed.
End wp.

Lemma wp_zoom {S T A} (get : T → S) (put : S → T → T) (m : M S A) Q E C t :
  wp m (λ a s', Q a (put s' t)) (λ e s', E e (put s' t)) (λ s', C (put s' t)) (get t) →
  wp (zoom get put m) Q E C t.
Proof. unfold wp, zoom. destruct (m (get t)) as [[] ?]; auto. Qed.

(** ** Proof automation: one step of symbolic execution *)

Create HintDb wp.
#[export] Hint Resolve wp_ret wp_gets wp_modify wp_fail : wp.

Ltac wp_step :=
  lazymatch goal with
  | |- wp (mret _) _ _ _ _ => apply wp_ret
  | |- wp (mbind _ _) _ _ _ _ => apply wp_bind
  | |- wp (gets _) _ _ _ _ => apply wp_gets
  | |- wp (modify _) _ _ _ _ => apply wp_modify
  | |- wp (fail _) _ _ _ _ => apply wp_fail
  | |- wp (zoom _ _ _) _ _ _ _ => apply wp_zoom
  | |- wp (try _) _ _ _ _ => apply wp_try
  | |- wp (finally _ _) _ _ _ _ => apply wp_finally
  | |- wp (on_error _ _) _ _ _ _ => apply wp_on_error
  | |- wp (let '(_, _) := (_, _) in _) _ _ _ _ => cbv beta match
  | |- wp (let '(_, _) := ?p in _) _ _ _ _ => destruct p
  end.

Ltac wp_steps := repeat (wp_step; cbn beta).

(** Where neither an error nor a crash is possible, there is a result. *)
Lemma wp_no_faults {S A} (m : M S A) Q (E : ErrorKind → S → Prop) (C : S → Prop) s :
  wp m Q E C s → (∀ e s', E e s' → False) → (∀ s', C s' → False) → ∃ a s', m s = (Ok a, s') ∧ Q a s'.
Proof. unfold wp. destruct (m s) as [[] s']; naive_solver. Qed.

(** [wp] facts determine the result of running the computation. *)
Lemma wp_run {S A} (m : M S A) Q E C s o s' :
  wp m Q E C s → m s = (o, s') →
  match o with
  | Ok a => Q a s'
  | Err e => E e s'
  | Panic => False
  | Crash => C s'
  end.
Proof. unfold wp. intros H Hm. rewrite Hm in H. by destruct o. Qed.
