(* ===== verification/Os.v ===== *)
(** Os: the operating system as the crate sees it through [std::fs].

    The state is the storage directory (names to inodes, inodes to contents,
    what has been synced), the oracle that decides which system call fails or is
    the last one before the process is killed, and the two process-wide values
    the crate reads (the temporary-file counter and the current thread).

    Every call that can return an [io::Error] consumes one entry of the oracle.
    An injected error has no effect, except that a write may have stored a
    prefix; a kill happens before the call, in the middle of a write, or after
    the call has taken effect. [std::io::BufWriter] is modelled on top. *)
From S2P Require Import Prelude Effects.

(** A file handle is an inode number: it survives renaming and unlinking. *)
Abbreviation File := Z (only parsing).

(** Changes of the directory since it was last synced. *)
Inductive dirop :=
  | Link (name : string) (ino : File)
  | Unlink (name : string)
  | Rename (from to : string).

Record fs := MkFs {
  fs_inodes : gmap File bytes;
  fs_next_ino : File;
  (* the heap directory: does it exist, and its entries *)
  fs_heap_exists : bool;
  fs_dir : gmap string File;
  (* names of the (empty) marker files next to the heap directory *)
  fs_root : gset string;
  (* contents at the last [sync_all] of each file *)
  fs_synced : gmap File bytes;
  (* directory at its last [sync_all], and the changes made since *)
  fs_dir_synced : gmap string File;
  fs_journal : list dirop;
}.

(** What the oracle decides for one call: [Fault e n] returns [Err e],
    [Kill n] ends the process; [n] is how much of the call's effect happened
    (for a write the number of bytes, otherwise zero or non-zero). *)
Inductive fault :=
  | NoFault
  | Fault (e : ErrorKind) (n : nat)
  | Kill (n : nat).

Record os := MkOs {
  os_fs : fs;
  os_faults : list fault;
  os_tmp_counter : Z;
  os_thread : Z;
}.

Abbreviation IO := (M os).

Definition set_inodes (x : gmap File bytes) (f : fs) : fs :=
  MkFs x (fs_next_ino f) (fs_heap_exists f) (fs_dir f) (fs_root f) (fs_synced f)
    (fs_dir_synced f) (fs_journal f).
Definition set_dir (op : dirop) (x : gmap string File) (f : fs) : fs :=
  MkFs (fs_inodes f) (fs_next_ino f) (fs_heap_exists f) x (fs_root f) (fs_synced f)
    (fs_dir_synced f) (fs_journal f ++ [op]).
Definition set_root (x : gset string) (f : fs) : fs :=
  MkFs (fs_inodes f) (fs_next_ino f) (fs_heap_exists f) (fs_dir f) x (fs_synced f)
    (fs_dir_synced f) (fs_journal f).
Definition set_heap_exists (f : fs) : fs :=
  MkFs (fs_inodes f) (fs_next_ino f) true (fs_dir f) (fs_root f) (fs_synced f)
    (fs_dir_synced f) (fs_journal f).
Definition set_synced (x : gmap File bytes) (f : fs) : fs :=
  MkFs (fs_inodes f) (fs_next_ino f) (fs_heap_exists f) (fs_dir f) (fs_root f) x
    (fs_dir_synced f) (fs_journal f).
Definition set_dir_synced (f : fs) : fs :=
  MkFs (fs_inodes f) (fs_next_ino f) (fs_heap_exists f) (fs_dir f) (fs_root f)
    (fs_synced f) (fs_dir f) [].

(** A new empty inode under [name]. *)
Definition fs_create (name : string) (f : fs) : fs :=
  let ino := fs_next_ino f in
  MkFs (<[ino := []]> (fs_inodes f)) (ino + 1) (fs_heap_exists f)
    (<[name := ino]> (fs_dir f)) (fs_root f) (fs_synced f) (fs_dir_synced f)
    (fs_journal f ++ [Link name ino]).

Definition fs_empty : fs := MkFs ∅ 1 false ∅ ∅ ∅ ∅ [].

Definition set_fs (f : fs) (o : os) : os :=
  MkOs f (os_faults o) (os_tmp_counter o) (os_thread o).

(** * System calls *)

(** One call: [eff] is what it does when the oracle lets it run, [part n] how far
    a call that is interrupted gets. *)
Definition syscall {A} (eff : fs → (A + ErrorKind) * fs) (perr pkill : nat → fs → fs) : IO A :=
  λ o,
    let done f fl := MkOs f fl (os_tmp_counter o) (os_thread o) in
    let run fl :=
      match eff (os_fs o) with
      | (inl a, f) => (Ok a, done f fl)
      | (inr e, f) => (Err e, done f fl)
      end in
    match os_faults o with
    | [] => run []
    | NoFault :: fl => run fl
    | Fault e n :: fl => (Err e, done (perr n (os_fs o)) fl)
    | Kill n :: fl => (Crash, done (pkill n (os_fs o)) fl)
    end.

(** A call that takes effect entirely or not at all. *)
Definition atomic_call {A} (eff : fs → (A + ErrorKind) * fs) : IO A :=
  syscall eff (λ _ f, f) (λ n f, if decide (n = 0%nat) then f else (eff f).2).

(** Overwrites [data] at [pos], filling a gap with zeros. *)
Definition write_bytes (content : bytes) (pos : nat) (data : bytes) : bytes :=
  take pos (content ++ replicate (pos - length content) x00) ++ data
    ++ drop (pos + length data) content.

Definition fs_write (file : File) (pos : nat) (data : bytes) (f : fs) : fs :=
  match fs_inodes f !! file with
  | Some c => set_inodes (<[file := write_bytes c pos data]> (fs_inodes f)) f
  | None => f
  end.

(** [file.write_all_at(&data, pos)] *)
Definition write_all_at (file : File) (data : bytes) (pos : Z) : IO () :=
  let part n f := fs_write file (Z.to_nat pos) (take n data) f in
  syscall (λ f, (inl (), fs_write file (Z.to_nat pos) data f)) part part.

(** [file.read_exact_at(&mut [0; n], pos)] *)
Definition read_exact_at (file : File) (n pos : Z) : IO bytes :=
  atomic_call (λ f,
    match fs_inodes f !! file with
    | Some c =>
        match slice c pos (pos + n) with
        | Some b => (inl b, f)
        | None => (inr UnexpectedEof, f)
        end
    | None => (inr NotFound, f)
    end).

(** [file.sync_all()] on a storage file *)
Definition sync_all_file (file : File) : IO () :=
  atomic_call (λ f,
    match fs_inodes f !! file with
    | Some c => (inl (), set_synced (<[file := c]> (fs_synced f)) f)
    | None => (inl (), f)
    end).

(** [directory_lock.sync_all()] *)
Definition sync_all_dir : IO () := atomic_call (λ f, (inl (), set_dir_synced f)).

(** [file.metadata()?.len()] *)
Definition file_metadata_len (file : File) : IO Z :=
  atomic_call (λ f,
    match fs_inodes f !! file with
    | Some c => (inl (len c), f)
    | None => (inr NotFound, f)
    end).

(** [file.try_clone()] *)
Definition try_clone (file : File) : IO File := atomic_call (λ f, (inl file, f)).

(** [OpenOptions::new().read(true).write(true).create(true).open(name)] *)
Definition open_create (name : string) : IO File :=
  atomic_call (λ f,
    if fs_heap_exists f then
      match fs_dir f !! name with
      | Some ino => (inl ino, f)
      | None => (inl (fs_next_ino f), fs_create name f)
      end
    else (inr NotFound, f)).

(** [OpenOptions::new().read(true).open(name)] *)
Definition open_read (name : string) : IO File :=
  atomic_call (λ f,
    match fs_dir f !! name with
    | Some ino => (inl ino, f)
    | None => (inr NotFound, f)
    end).

(** [File::create(name)] in the heap directory: truncates what exists. *)
Definition file_create (name : string) : IO () :=
  atomic_call (λ f,
    if fs_heap_exists f then
      match fs_dir f !! name with
      | Some ino => (inl (), set_inodes (<[ino := []]> (fs_inodes f)) f)
      | None => (inl (), fs_create name f)
      end
    else (inr NotFound, f)).

(** [File::create(name)] next to the heap directory. *)
Definition file_create_root (name : string) : IO () :=
  atomic_call (λ f, (inl (), set_root ({[ name ]} ∪ fs_root f) f)).

(** [fs::rename(from, to)] *)
Definition rename (from to : string) : IO () :=
  atomic_call (λ f,
    match fs_dir f !! from with
    | Some ino => (inl (), set_dir (Rename from to) (<[to := ino]> (delete from (fs_dir f))) f)
    | None => (inr NotFound, f)
    end).

(** [fs::remove_file(name)] *)
Definition remove_file (name : string) : IO () :=
  atomic_call (λ f,
    match fs_dir f !! name with
    | Some _ => (inl (), set_dir (Unlink name) (delete name (fs_dir f)) f)
    | None => (inr NotFound, f)
    end).

(** [fs::create_dir_all(heap_dir)] *)
Definition create_dir_all : IO () := atomic_call (λ f, (inl (), set_heap_exists f)).

(** [File::open(heap_dir)] *)
Definition open_dir : IO () :=
  atomic_call (λ f, if fs_heap_exists f then (inl (), f) else (inr NotFound, f)).

(** [fs::read_dir(heap_dir)]: the entries, in the order [ord] of the file system. *)
Definition read_dir (ord : gmap string File → list (string * File)) : IO (list (string * File)) :=
  atomic_call (λ f,
    if fs_heap_exists f then (inl (ord (fs_dir f)), f) else (inr NotFound, f)).

(** One step of an iterator of [io::Result]s, which may be an error. *)
Definition io_step : IO () := atomic_call (λ f, (inl (), f)).

(** A call of [fs2] on the directory handle: it fails when another process holds
    the lock, which the oracle decides. *)
Definition try_lock_exclusive : IO () := atomic_call (λ f, (inl (), f)).

(** [AtomicU64::fetch_add] on the process-wide counter *)
Definition tmp_counter_fetch_add (n : Z) : IO Z := λ o,
  (Ok (os_tmp_counter o),
   MkOs (os_fs o) (os_faults o) (wrap64 (os_tmp_counter o + n)) (os_thread o)).

(** [std::thread::current().id()] *)
Definition current_thread : IO Z := gets os_thread.

(** [Vec::with_capacity(n)] and [Layout::array::<u8>(n).unwrap()]: both panic above
    [isize::MAX]. *)
Definition allocate {S} (n : Z) : M S () := assert_that (bool_decide (n ≤ isize_max)).

(** * [std::io::BufWriter] *)

Record BufWriter := MkBufWriter {
  bw_file : File;
  bw_pos : Z;            (* the file's cursor *)
  bw_buf : bytes;
  bw_capacity : Z;
}.

Definition BufWriter_with_capacity (capacity : Z) (file : File) : BufWriter :=
  MkBufWriter file 0 [] capacity.

Definition bw_write_inner (bw : BufWriter) (data : bytes) : IO BufWriter :=
  write_all_at (bw_file bw) data (bw_pos bw);;
  mret (MkBufWriter (bw_file bw) (bw_pos bw + len data) (bw_buf bw) (bw_capacity bw)).

(** [buf_writer.flush()] *)
Definition bw_flush (bw : BufWriter) : IO BufWriter :=
  if bool_decide (bw_buf bw = []) then mret bw
  else
    write_all_at (bw_file bw) (bw_buf bw) (bw_pos bw);;
    mret (MkBufWriter (bw_file bw) (bw_pos bw + len (bw_buf bw)) [] (bw_capacity bw)).

Definition bw_push (bw : BufWriter) (data : bytes) : BufWriter :=
  MkBufWriter (bw_file bw) (bw_pos bw) (bw_buf bw ++ data) (bw_capacity bw).

(** [buf_writer.write_all(data)]: buffers when there is room, flushes when there is
    not, and bypasses the buffer for data of at least its capacity. *)
Definition bw_write_all (bw : BufWriter) (data : bytes) : IO BufWriter :=
  let spare := bw_capacity bw - len (bw_buf bw) in
  if bool_decide (len data < spare) then mret (bw_push bw data)
  else
    bw' ← (if bool_decide (spare < len data) then bw_flush bw else mret bw);
    if bool_decide (bw_capacity bw ≤ len data) then bw_write_inner bw' data
    else mret (bw_push bw' data).

(** Dropping a writer attempts to flush what it still buffers. *)
Definition bw_drop (bw : BufWriter) : IO () := try (bw_flush bw);; mret ().

(** * Specifications of the system calls *)

(** [o'] is [o] with file system [f], some of the oracle consumed. *)
Definition os_upd (f : fs) (o o' : os) : Prop :=
  os_fs o' = f ∧ os_tmp_counter o' = os_tmp_counter o ∧ os_thread o' = os_thread o
  ∧ os_faults o' `suffix_of` os_faults o.

(** An error that needs the oracle to inject it. *)
Definition injected (o : os) : Prop := os_faults o ≠ [].

Lemma os_upd_fs f o o' : os_upd f o o' → os_fs o' = f.
Proof. by intros []. Qed.

Lemma os_upd_refl o : os_upd (os_fs o) o o.
Proof. done. Qed.

Lemma os_upd_trans f f' o o' o'' : os_upd f o o' → os_upd f' o' o'' → os_upd f' o o''.
Proof. intros (?&?&?&?) (?&?&?&?). repeat split; try congruence. by etrans. Qed.

Lemma injected_upd f o o' : os_upd f o o' → injected o' → injected o.
Proof.
  intros (_&_&_&[k Hk]) Hi He. apply Hi. rewrite He in Hk.
  by symmetry in Hk; apply app_nil in Hk as [_ ->].
Qed.
#[export] Hint Resolve os_upd_refl os_upd_trans injected_upd : marble.

Section specs.
Context {A : Type}.

Lemma wp_syscall eff perr pkill (Q : A → os → Prop) E C o :
  (∀ a f o', eff (os_fs o) = (inl a, f) → os_upd f o o' → Q a o') →
  (∀ e f o', eff (os_fs o) = (inr e, f) → os_upd f o o' → E e o') →
  (∀ e n o', injected o → os_upd (perr n (os_fs o)) o o' → E e o') →
  (∀ n o', injected o → os_upd (pkill n (os_fs o)) o o' → C o') →
  wp (syscall eff perr pkill) Q E C o.
Proof.
  intros HQ HE HI HC. unfold wp, syscall.
  assert (∀ fl, fl `suffix_of` os_faults o →
    match (match eff (os_fs o) with
           | (inl a, f) => (Ok a, MkOs f fl (os_tmp_counter o) (os_thread o))
           | (inr e, f) => (Err e, MkOs f fl (os_tmp_counter o) (os_thread o))
           end) with
    | (Ok a, s') => Q a s' | (Err e, s') => E e s' | (Panic, _) => False | (Crash, s') => C s'
    end) as Hrun.
  { intros fl Hfl. destruct (eff (os_fs o)) as [[a|e] f] eqn:Heff.
    - eapply HQ; [done|repeat split; done].
    - eapply HE; [done|repeat split; done]. }
  destruct (os_faults o) as [|[|e n|n] fl] eqn:Hf; simpl.
  - apply Hrun. done.
  - apply Hrun. rewrite <- Hf. by eexists [_].
  - eapply HI; [by unfold injected; rewrite Hf|repeat split; simpl; rewrite ?Hf; by eexists [_]].
  - eapply HC; [by unfold injected; rewrite Hf|repeat split; simpl; rewrite ?Hf; by eexists [_]].
Qed.

Lemma wp_atomic eff (Q : A → os → Prop) E C o :
  (∀ a f o', eff (os_fs o) = (inl a, f) → os_upd f o o' → Q a o') →
  (∀ e f o', eff (os_fs o) = (inr e, f) → os_upd f o o' → E e o') →
  (∀ e o', injected o → os_upd (os_fs o) o o' → E e o') →
  (∀ o', injected o → os_upd (os_fs o) o o' ∨ os_upd (eff (os_fs o)).2 o o' → C o') →
  wp (atomic_call eff) Q E C o.
Proof.
  intros HQ HE HI HC. apply wp_syscall; eauto.
  intros n o' Hi Hu. apply HC; [done|]. case_decide; auto.
Qed.
End specs.

(** Whether the calls of the directory see the same directory, and the same contents
    of every file but [file], on disk and in memory: all that writing to [file] and
    syncing it can change. *)
Record only_file (file : File) (f f' : fs) : Prop := {
  of_dir : fs_dir f' = fs_dir f;
  of_heap : fs_heap_exists f' = fs_heap_exists f;
  of_next : fs_next_ino f' = fs_next_ino f;
  of_inode : ∀ i, i ≠ file → fs_inodes f' !! i = fs_inodes f !! i;
  of_exists : ∀ i, is_Some (fs_inodes f !! i) → is_Some (fs_inodes f' !! i);
  of_synced : ∀ i, i ≠ file → fs_synced f' !! i = fs_synced f !! i;
  of_dir_synced : fs_dir_synced f' = fs_dir_synced f;
  of_journal : fs_journal f' = fs_journal f;
}.

#[global] Instance only_file_preorder file : PreOrder (only_file file).
Proof.
  split; [by constructor|].
  intros f f' f'' H H'. destruct H, H'. constructor; try congruence; auto.
  - intros i Hi. etrans; [by apply of_inode1|auto].
  - intros i Hi. etrans; [by apply of_synced1|auto].
Qed.

Lemma only_file_write file pos data f : only_file file f (fs_write file pos data f).
Proof.
  unfold fs_write. case_match; [|done]. constructor; simpl; try done.
  - intros i Hi. by rewrite lookup_insert_ne.
  - intros i [c Hc]. rewrite lookup_insert. case_decide; eauto.
Qed.

Lemma only_file_sync file c f : only_file file f (set_synced (<[file := c]> (fs_synced f)) f).
Proof. constructor; simpl; try done. intros i Hi. by rewrite lookup_insert_ne. Qed.

(** Appending is the only kind of write the crate performs. *)
Lemma write_bytes_end c data : write_bytes c (length c) data = c ++ data.
Proof.
  unfold write_bytes. rewrite Nat.sub_diag. simpl.
  rewrite app_nil_r, take_ge, drop_ge, app_nil_r by lia. done.
Qed.

Lemma write_bytes_shorter c c' data :
  write_bytes (c ++ c') (length c) data = c ++ data ++ drop (length data) c'.
Proof.
  unfold write_bytes. rewrite <- (app_assoc c c'), take_app_length. f_equal. f_equal.
  rewrite drop_app_ge by lia. f_equal. lia.
Qed.

Lemma fs_write_end file pos c data f :
  fs_inodes f !! file = Some c → pos = length c →
  fs_inodes (fs_write file pos data f) !! file = Some (c ++ data).
Proof.
  intros Hc ->. unfold fs_write. rewrite Hc. simpl.
  rewrite lookup_insert_eq, write_bytes_end. done.
Qed.

Lemma wp_tmp_counter_fetch_add n (Q : Z → os → Prop) E C o :
  Q (os_tmp_counter o)
    (MkOs (os_fs o) (os_faults o) (wrap64 (os_tmp_counter o + n)) (os_thread o)) →
  wp (tmp_counter_fetch_add n) Q E C o.
Proof. done. Qed.

(** ** Removing a file, whatever the outcome *)

Definition fs_unlink (name : string) (f : fs) : fs :=
  set_dir (Unlink name) (delete name (fs_dir f)) f.

Lemma wp_remove_file name (Q : () → os → Prop) (E : ErrorKind → os → Prop) C o :
  (∀ o', os_upd (fs_unlink name (os_fs o)) o o' → Q () o') →
  (∀ e o', fs_dir (os_fs o) !! name = None ∨ injected o → os_upd (os_fs o) o o' → E e o') →
  (∀ o', injected o → os_upd (os_fs o) o o' ∨ os_upd (fs_unlink name (os_fs o)) o o' → C o') →
  wp (remove_file name) Q E C o.
Proof.
  intros HQ HE HC. apply wp_atomic.
  - intros [] f o'. destruct (fs_dir (os_fs o) !! name); [|done]. intros [= <-]. apply HQ.
  - intros e f o'. destruct (fs_dir (os_fs o) !! name); [done|]. intros [= <- <-]. apply HE. by left.
  - intros e o' ?. apply HE. by right.
  - intros o' Hi. destruct (fs_dir (os_fs o) !! name); simpl; intros Hu; apply HC; naive_solver.
Qed.

(** ** Reading *)

(** A call that succeeds without changing the file system. *)
Lemma wp_query {A} eff a (Q : A → os → Prop) E C o :
  eff (os_fs o) = (inl a, os_fs o) →
  (∀ o', os_upd (os_fs o) o o' → Q a o') →
  (∀ e o', injected o → os_upd (os_fs o) o o' → E e o') →
  (∀ o', injected o → os_upd (os_fs o) o o' → C o') →
  wp (atomic_call eff) Q E C o.
Proof.
  intros Heff HQ HE HC. apply wp_atomic; rewrite ?Heff; simpl; try done.
  - intros ? ? o' [= <- <-]. apply HQ.
  - by intros o' ? [?|?]; apply HC.
Qed.

Lemma wp_read_exact_at file n pos c b (Q : bytes → os → Prop) E C o :
  fs_inodes (os_fs o) !! file = Some c → slice c pos (pos + n) = Some b →
  (∀ o', os_upd (os_fs o) o o' → Q b o') →
  (∀ e o', injected o → os_upd (os_fs o) o o' → E e o') →
  (∀ o', injected o → os_upd (os_fs o) o o' → C o') →
  wp (read_exact_at file n pos) Q E C o.
Proof.
  intros Hc Hb HQ HE HC. apply wp_query with b; try done. by rewrite Hc, Hb.
Qed.

(** ** Writing to one file *)

(** [o'] is [o] after some writes to [file]. *)
Record os_only (file : File) (o o' : os) : Prop := {
  oo_fs : only_file file (os_fs o) (os_fs o');
  oo_tmp : os_tmp_counter o' = os_tmp_counter o;
  oo_thread : os_thread o' = os_thread o;
  oo_faults : os_faults o' `suffix_of` os_faults o;
}.

#[global] Instance os_only_preorder file : PreOrder (os_only file).
Proof.
  split; [by constructor|].
  intros o o' o'' [] []. constructor; [by etrans|congruence..|by etrans].
Qed.

Lemma os_upd_only file f o o' : os_upd f o o' → only_file file (os_fs o) f → os_only file o o'.
Proof. intros (<-&?&?&?) ?. by constructor. Qed.

Lemma injected_suffix o o' : os_faults o' `suffix_of` os_faults o → injected o' → injected o.
Proof.
  intros [k Hk] Hi He. apply Hi. rewrite He in Hk.
  by symmetry in Hk; apply app_nil in Hk as [_ ->].
Qed.

Lemma injected_only file o o' : os_only file o o' → injected o' → injected o.
Proof. intros []. by apply injected_suffix. Qed.
#[export] Hint Resolve injected_only injected_suffix : marble.

Lemma wp_write_all_at file data pos (Q : () → os → Prop) E C o :
  (∀ o', os_only file o o' →
     (∀ c, fs_inodes (os_fs o) !! file = Some c → pos = len c →
           fs_inodes (os_fs o') !! file = Some (c ++ data)) → Q () o') →
  (∀ e o', injected o → os_only file o o' → E e o') →
  (∀ o', injected o → os_only file o o' → C o') →
  wp (write_all_at file data pos) Q E C o.
Proof.
  intros HQ HE HC. apply wp_syscall.
  - intros [] f o' [= <-] Hu. apply HQ.
    + eapply os_upd_only; [done|apply only_file_write].
    + intros c Hc ->. rewrite (os_upd_fs _ _ _ Hu). apply fs_write_end; [done|lia].
  - done.
  - intros e n o' Hi Hu. apply HE; [done|]. eapply os_upd_only; [done|apply only_file_write].
  - intros n o' Hi Hu. apply HC; [done|]. eapply os_upd_only; [done|apply only_file_write].
Qed.

(** The writer has been given [out]: part of it is in the file, the rest is buffered. *)
Definition bw_rep (bw : BufWriter) (out : bytes) (f : fs) : Prop :=
  ∃ c, fs_inodes f !! bw_file bw = Some c ∧ len c = bw_pos bw ∧ out = c ++ bw_buf bw.

Section writer.
Implicit Types bw : BufWriter.

(** What interrupting a call on the writer leaves. *)
Definition bw_stopped bw (o o' : os) : Prop := injected o ∧ os_only (bw_file bw) o o'.

Lemma bw_stopped_trans bw o o' o'' :
  os_only (bw_file bw) o o' → bw_stopped bw o' o'' → bw_stopped bw o o''.
Proof. intros ? [? ?]. split; [by eauto with marble|by etrans]. Qed.

Lemma wp_bw_flush bw out o :
  bw_rep bw out (os_fs o) →
  wp (bw_flush bw)
    (λ bw' o', bw_rep bw' out (os_fs o') ∧ bw_file bw' = bw_file bw ∧ bw_buf bw' = []
               ∧ bw_capacity bw' = bw_capacity bw ∧ os_only (bw_file bw) o o')
    (λ _, bw_stopped bw o) (bw_stopped bw o) o.
Proof.
  intros (c & Hc & Hpos & ->). unfold bw_flush. case_bool_decide as Hb.
  - wp_steps. split_and!; try done. by exists c.
  - wp_steps. apply wp_write_all_at; [|by split..].
    intros o' Ho Hcont. wp_steps. simpl. split_and!; try done.
    exists (c ++ bw_buf bw). simpl. rewrite app_nil_r, length_app. split_and!; [auto|lia|done].
Qed.

Lemma wp_bw_drop bw o :
  wp (bw_drop bw) (λ _ o', os_only (bw_file bw) o o') (λ _ _, False) (bw_stopped bw o) o.
Proof.
  unfold bw_drop, bw_flush. wp_steps. case_bool_decide; wp_steps; [done|].
  apply wp_write_all_at; intros; wp_steps; done.
Qed.

Lemma bw_push_rep bw out data f :
  bw_rep bw out f → bw_rep (bw_push bw data) (out ++ data) f.
Proof. intros (c & ? & ? & ->). exists c. by rewrite <- app_assoc. Qed.

Lemma wp_bw_write_all bw out data o :
  bw_rep bw out (os_fs o) →
  wp (bw_write_all bw data)
    (λ bw' o', bw_rep bw' (out ++ data) (os_fs o') ∧ bw_file bw' = bw_file bw
               ∧ os_only (bw_file bw) o o')
    (λ _, bw_stopped bw o) (bw_stopped bw o) o.
Proof.
  intros Hrep. unfold bw_write_all. case_bool_decide as Hs1.
  { wp_steps. split_and!; [by apply bw_push_rep|done..]. }
  wp_steps. eapply wp_mono with (Q := λ bw' o', bw_rep bw' out (os_fs o')
    ∧ bw_file bw' = bw_file bw ∧ (bw_capacity bw ≤ len data → bw_buf bw' = [])
    ∧ os_only (bw_file bw) o o') (E := λ _, bw_stopped bw o) (C := bw_stopped bw o);
    [| |done|done].
  - case_bool_decide as Hs2.
    + eapply wp_mono; [by apply wp_bw_flush|..]; try done. intros ?? (?&?&?&?&?); done.
    + wp_steps. split_and!; try done. intros. destruct (bw_buf bw); [done|simpl in *; lia].
  - intros bw' o' (Hrep' & Hfile & Hempty & Ho). case_bool_decide as Hs3.
    + unfold bw_write_inner. wp_steps. apply wp_write_all_at.
      * intros o'' Ho' Hcont. rewrite Hfile in Ho'. wp_steps. simpl. split_and!; [|done|by etrans].
        destruct Hrep' as (c & Hc & Hpos & ->).
        exists (c ++ data). simpl. rewrite (Hempty Hs3), !app_nil_r, length_app.
        split_and!; [auto|lia|done].
      * intros e o'' Hi Ho'. rewrite Hfile in Ho'. by eapply bw_stopped_trans.
      * intros o'' Hi Ho'. rewrite Hfile in Ho'. by eapply bw_stopped_trans.
    + wp_steps. split_and!; [by apply bw_push_rep|done..].
Qed.

(** A failing call followed by the drop of the writer. *)
Lemma wp_on_error_drop {A} (m : IO A) bw (Q : A → os → Prop) E C o :
  wp m Q (λ _, bw_stopped bw o) C o →
  (∀ e o', bw_stopped bw o o' → E e o') →
  (∀ o', bw_stopped bw o o' → C o') →
  wp (on_error m (bw_drop bw)) Q E C o.
Proof.
  intros Hm HE HC. wp_steps. eapply wp_mono; [exact Hm|..]; try done. simpl.
  intros e o' [Hi Ho]. eapply wp_mono; [apply wp_bw_drop|..]; try done; simpl.
  - intros _ o'' Ho'. apply HE. split; [done|by etrans].
  - intros o'' [? Ho']. apply HC. split; [done|by etrans].
Qed.
End writer.
