(* ===== verification/Deps.v ===== *)
(** Deps: the code the crate calls and does not contain.

    Each class lists the operations of one dependency as the crate uses it, and
    a second class the documented behaviour the theorems rely on. The theorems
    are proved for every instance; [Instances] builds concrete ones. *)
From S2P Require Import Prelude.

(** * [crc32fast] *)

Class Crc32 := {
  Hasher : Type;
  hasher_new : Hasher;
  hasher_update : Hasher → bytes → Hasher;
  hasher_finalize : Hasher → Z;
  (** [crc32fast::hash] *)
  crc32fast_hash : bytes → Z;
}.

(** A checksum is a [u32]. *)
Class Crc32Laws `{Crc32} := {
  hasher_finalize_u32 h : 0 ≤ hasher_finalize h < 2 ^ 32;
  crc32fast_hash_u32 buf : 0 ≤ crc32fast_hash buf < 2 ^ 32;
}.

(** * [zstd_safe] *)

Class Zstd := {
  CCtx : Type;
  cctx_create : CCtx;
  cctx_load_dictionary : CCtx → bytes → option CCtx;
  (** the capacity that [compress] needs for a source of the given length *)
  compress_bound : Z → Z;
  (** [compressor.compress(&mut out, src, level)] *)
  cctx_compress : CCtx → bytes → Z → CCtx * option bytes;
  DCtx : Type;
  dctx_create : DCtx;
  dctx_load_dictionary : DCtx → bytes → option DCtx;
  (** [dctx.decompress(&mut out[..size], src)] *)
  dctx_decompress : DCtx → Z → bytes → DCtx * option bytes;
  (** [Err] is [None], an unknown size [Some None] *)
  find_decompressed_size : bytes → option (option Z);
  (** [train_from_buffer(&mut dict_buf, samples, sizes)] into a buffer of the given
      capacity *)
  train_from_buffer : Z → bytes → list Z → option bytes;
}.

(** What zstd promises about dictionaries: a context keeps the dictionary it was given,
    compression with a dictionary is undone by decompression with the same one, a frame
    fits the documented bound and records the size of its content, and a trained
    dictionary is not empty and fits its buffer. *)
Class ZstdLaws `{Zstd} := {
  cctx_dict : CCtx → bytes → Prop;
  dctx_dict : DCtx → bytes → Prop;
  cctx_load_ok d : ∃ c, cctx_load_dictionary cctx_create d = Some c ∧ cctx_dict c d;
  dctx_load_ok d : ∃ c, dctx_load_dictionary dctx_create d = Some c ∧ dctx_dict c d;
  cctx_compress_ok c d src level :
    cctx_dict c d → len src ≤ isize_max →
    ∃ c' out, cctx_compress c src level = (c', Some out) ∧ cctx_dict c' d
      ∧ len out ≤ compress_bound (len src)
      ∧ find_decompressed_size out = Some (Some (len src))
      ∧ ∀ x, dctx_dict x d → ∃ x', dctx_decompress x (len src) out = (x', Some src)
                                   ∧ dctx_dict x' d;
  compress_bound_le n : 0 ≤ n → compress_bound n ≤ n + n / 256 + 64;
  train_len cap buf sizes d :
    train_from_buffer cap buf sizes = Some d → d ≠ [] ∧ len d ≤ cap;
}.

(** * [pagetable]: an array of [AtomicU64] indexed by all of [u64], zero at first *)

Class PageTable := {
  PT : Type;
  pt_default : PT;
  (** the value of the cell [get(id)] refers to *)
  pt_read : PT → Z → Z;
  (** the table after the cell [get(id)] refers to is set *)
  pt_write : PT → Z → Z → PT;
}.

Class PageTableLaws `{PageTable} := {
  pt_read_default i : pt_read pt_default i = 0;
  pt_read_write t i v j : pt_read (pt_write t i v) j = if decide (i = j) then v else pt_read t j;
}.

(** * [concurrent_map]: an ordered map

    The crate's keys are [Reverse<DiskLocation>], here the location itself, so the
    order of the map is that of decreasing locations. The values are [Arc]s, here
    pointers into a heap that belongs to the file map. *)

Class ConcurrentMap := {
  CM : Type;
  cm_default : CM;
  cm_get : CM → Z → option Z;
  cm_insert : CM → Z → Z → CM;
  cm_remove : CM → Z → CM;
  (** [iter()] *)
  cm_iter : CM → list (Z * Z);
  (** [range((Included(Reverse(k)), Unbounded))] *)
  cm_range_from : CM → Z → list (Z * Z);
  (** [len()], which is exact when nobody else uses the map *)
  cm_len : CM → Z;
}.

Class ConcurrentMapLaws `{ConcurrentMap} := {
  cm_get_default k : cm_get cm_default k = None;
  cm_get_insert m k v j : cm_get (cm_insert m k v) j = if decide (k = j) then Some v else cm_get m j;
  cm_get_remove m k j : cm_get (cm_remove m k) j = if decide (k = j) then None else cm_get m j;
  cm_iter_elem m k v : (k, v) ∈ cm_iter m ↔ cm_get m k = Some v;
  cm_iter_sorted m : StronglySorted (λ a b, b.1 < a.1) (cm_iter m);
  cm_range_from_iter m k : cm_range_from m k = filter (λ kv, kv.1 ≤ k) (cm_iter m);
  cm_len_iter m : cm_len m = len (cm_iter m);
}.

(** * Orders the standard library leaves open

    [HashMap] iteration and [read_dir] produce their elements in some order. *)

Class IterOrder := {
  iter_order : ∀ {K A} `{Countable K}, gmap K A → list (K * A);
}.

Class IterOrderLaws `{IterOrder} := {
  iter_order_perm {K A} `{Countable K} (m : gmap K A) : iter_order m ≡ₚ map_to_list m;
}.

(** * All of them *)

Class Deps := {
  deps_crc32 :: Crc32;
  deps_zstd :: Zstd;
  deps_pagetable :: PageTable;
  deps_concurrent_map :: ConcurrentMap;
  deps_iter_order :: IterOrder;
}.

Class DepsLaws `{Deps} := {
  deps_crc32_laws :: Crc32Laws;
  deps_zstd_laws :: ZstdLaws;
  deps_pagetable_laws :: PageTableLaws;
  deps_concurrent_map_laws :: ConcurrentMapLaws;
  deps_iter_order_laws :: IterOrderLaws;
}.

(** * Consequences shared by the components *)

Section facts.
Context `{Deps, !DepsLaws}.

Lemma iter_order_elem {K A} `{Countable K} (m : gmap K A) k a :
  (k, a) ∈ iter_order m ↔ m !! k = Some a.
Proof. rewrite iter_order_perm. apply elem_of_map_to_list. Qed.

Lemma iter_order_nodup {K A} `{Countable K} (m : gmap K A) : NoDup (iter_order m).*1.
Proof. rewrite iter_order_perm. apply NoDup_fst_map_to_list. Qed.

Lemma iter_order_length {K A} `{Countable K} (m : gmap K A) : length (iter_order m) = size m.
Proof. rewrite iter_order_perm. apply length_map_to_list. Qed.

Lemma iter_order_to_map {K A} `{Countable K} (m : gmap K A) : list_to_map (iter_order m) = m.
Proof.
  rewrite (list_to_map_proper _ (map_to_list m)); [apply list_to_map_to_list| |apply iter_order_perm].
  apply iter_order_nodup.
Qed.

Lemma cm_iter_nodup m : NoDup (cm_iter m).*1.
Proof.
  generalize (cm_iter_sorted m). generalize (cm_iter m). induction 1 as [|x l ? IH HF]; csimpl; constructor; auto.
  rewrite list_elem_of_fmap. intros ([k v] & E & Hin).
  rewrite Forall_forall in HF. specialize (HF _ Hin). simpl in *. lia.
Qed.

(** The first entry of a range is the greatest location at or below the bound. *)
Lemma cm_range_from_head m k :
  (∀ j v, cm_get m j = Some v → k < j) ∧ cm_range_from m k = []
  ∨ ∃ j v rest, cm_range_from m k = (j, v) :: rest ∧ cm_get m j = Some v ∧ j ≤ k
      ∧ ∀ j' v', cm_get m j' = Some v' → j' ≤ k → j' ≤ j.
Proof.
  rewrite cm_range_from_iter. pose proof (cm_iter_sorted m) as Hs.
  assert (∀ j v, (j, v) ∈ filter (λ kv, kv.1 ≤ k) (cm_iter m) ↔ cm_get m j = Some v ∧ j ≤ k) as Hel.
  { intros. rewrite list_elem_of_filter, cm_iter_elem. simpl. tauto. }
  assert (StronglySorted (λ a b : Z * Z, b.1 < a.1) (filter (λ kv, kv.1 ≤ k) (cm_iter m))) as Hf.
  { revert Hs. generalize (cm_iter m). induction 1 as [|x l ? IH HF]; [constructor|].
    rewrite filter_cons. case_decide; [|done]. constructor; [done|].
    rewrite Forall_forall in *. intros y [_ Hy]%list_elem_of_filter. auto. }
  destruct (filter _ _) as [|[j v] rest].
  - left. split; [|done]. intros j v Hj.
    destruct (decide (j ≤ k)); [|lia]. by assert ((j, v) ∈ []) as ?%not_elem_of_nil by (by apply Hel).
  - right. exists j, v, rest. split; [done|].
    assert (cm_get m j = Some v ∧ j ≤ k) as [??] by (apply Hel; left).
    repeat split; try done. intros j' v' Hj' Hle.
    assert ((j', v') ∈ (j, v) :: rest) as Hin by (by apply Hel).
    inversion Hf as [|?? _ HF]; subst. rewrite Forall_forall in HF.
    apply elem_of_cons in Hin as [[= -> ->]|Hin]; [done|]. specialize (HF _ Hin). simpl in *. lia.
Qed.
End facts.
