(* ===== verification/Locations.v ===== *)
(** Locations: [src/disk_location.rs], and the constants of [src/lib.rs] that split
    the sequence-number space between new writes and garbage collection.

    A location packs a log sequence number and a deletion flag into one [u64]: the
    number shifted left by one, the flag in bit 0. Bit 62 of the number tells files
    created by [write_batch] from files created by [maintenance]. *)
From S2P Require Import Prelude.

(** ** [HEADER_LEN], [NEW_WRITE_BATCH_BIT], [NEW_WRITE_BATCH_MASK] *)

Definition HEADER_LEN : Z := 20.
Definition NEW_WRITE_BATCH_BIT : Z := Z.shiftl 1 62.
Definition NEW_WRITE_BATCH_MASK : Z := (two64 - 1) - NEW_WRITE_BATCH_BIT.

(** ** Shifting *)

(** [None] is the failed assertion: the top bit of the location would be lost. *)
Definition shift_location (location : Z) (is_delete : bool) : option Z :=
  if wrap64 (Z.shiftl location 1) ≫ 1 =? location then
    Some (if is_delete then wrap64 (Z.shiftl location 1) + 1 else wrap64 (Z.shiftl location 1))
  else None.

Definition unshift_location (location : Z) : Z * bool :=
  if location `mod` 2 =? 1 then (location ≫ 1, true) else (location ≫ 1, false).

(** A newtype around [NonZeroU64], by its raw value. *)
Module DiskLocation.
Abbreviation t := Z (only parsing).

Definition MAX : t := two64 - 1.

(** [None] is a panic: the location does not fit, or it is zero. *)
Definition new (location : Z) (is_delete : bool) : option t :=
  raw ← shift_location location is_delete;
  if raw =? 0 then None else Some raw.

Definition new_fam (location : Z) : option t := new location false.

Definition from_raw (u : Z) : option t := if u =? 0 then None else Some u.

Definition to_raw (l : t) : Z := l.

Definition lsn (l : t) : Z := (unshift_location l).1.

Definition is_delete (l : t) : bool := (unshift_location l).2.
End DiskLocation.

(** A newtype around [u64]. *)
Module RelativeDiskLocation.
Abbreviation t := Z (only parsing).

Definition new (offset : Z) (is_delete : bool) : option t := shift_location offset is_delete.

Definition to_raw (l : t) : Z := l.

Definition from_raw (raw : Z) : t := raw.

(** [None] is a panic: [checked_add] overflows, or the sum does not fit. *)
Definition to_absolute (l : t) (base : Z) : option DiskLocation.t :=
  let '(offset, is_delete) := unshift_location l in
  if offset + base <? two64 then DiskLocation.new (offset + base) is_delete else None.

Definition is_delete (l : t) : bool := (unshift_location l).2.
End RelativeDiskLocation.

(** * Lemmas *)

Lemma shift_location_spec l d :
  0 ≤ l < 2 ^ 63 → shift_location l d = Some (2 * l + Z.b2z d).
Proof.
  intros Hl. unfold shift_location.
  rewrite Z.shiftl_mul_pow2, Z.shiftr_div_pow2 by done. change (2 ^ 1) with 2.
  rewrite wrap64_small, Z.div_mul, Z.eqb_refl by u64_lia.
  destruct d; cbn [Z.b2z]; f_equal; lia.
Qed.

Lemma shift_location_None l d : 2 ^ 63 ≤ l < two64 → shift_location l d = None.
Proof.
  intros Hl. unfold shift_location.
  assert (wrap64 (Z.shiftl l 1) = 2 * l - two64) as ->.
  { rewrite Z.shiftl_mul_pow2 by done. change (2 ^ 1) with 2. unfold wrap64. symmetry.
    apply (Z.mod_unique_pos _ _ 1); u64_lia. }
  rewrite Z.shiftr_div_pow2 by done. change (2 ^ 1) with 2.
  destruct (Z.eqb_spec ((2 * l - two64) / 2) l) as [E|]; [|done]. div_lia.
Qed.

Lemma unshift_location_spec l d : unshift_location (2 * l + Z.b2z d) = (l, d).
Proof.
  unfold unshift_location. rewrite Z.shiftr_div_pow2 by done. change (2 ^ 1) with 2.
  assert ((2 * l + Z.b2z d) / 2 = l) as -> by (destruct d; cbn [Z.b2z]; div_lia).
  assert ((2 * l + Z.b2z d) mod 2 = Z.b2z d) as -> by (destruct d; cbn [Z.b2z]; div_lia).
  by destruct d.
Qed.

Lemma unshift_location_inv r l d : unshift_location r = (l, d) → r = 2 * l + Z.b2z d.
Proof.
  unfold unshift_location. rewrite Z.shiftr_div_pow2 by done. change (2 ^ 1) with 2.
  destruct (Z.eqb_spec (r mod 2) 1); intros [= <- <-]; cbn [Z.b2z]; div_lia.
Qed.

Lemma new_spec l d :
  0 ≤ l < 2 ^ 63 → (0 < l ∨ d = true) → DiskLocation.new l d = Some (2 * l + Z.b2z d).
Proof.
  intros Hl H0. unfold DiskLocation.new. rewrite shift_location_spec by done. simpl.
  destruct (Z.eqb_spec (2 * l + Z.b2z d) 0); [|done]. destruct d; simpl in *; destruct H0; lia || done.
Qed.

Lemma new_fam_spec l : 0 < l < 2 ^ 63 → DiskLocation.new_fam l = Some (2 * l).
Proof. intros. unfold DiskLocation.new_fam. rewrite new_spec by lia. f_equal. simpl. lia. Qed.

Lemma lsn_spec l d : DiskLocation.lsn (2 * l + Z.b2z d) = l.
Proof. unfold DiskLocation.lsn. by rewrite unshift_location_spec. Qed.

Lemma lsn_fam l : DiskLocation.lsn (2 * l) = l.
Proof. rewrite <- (Z.add_0_r (2 * l)). apply (lsn_spec l false). Qed.

Lemma is_delete_spec l d : DiskLocation.is_delete (2 * l + Z.b2z d) = d.
Proof. unfold DiskLocation.is_delete. by rewrite unshift_location_spec. Qed.

Lemma relative_is_delete_spec l d : RelativeDiskLocation.is_delete (2 * l + Z.b2z d) = d.
Proof. unfold RelativeDiskLocation.is_delete. by rewrite unshift_location_spec. Qed.

Lemma to_absolute_spec off base d :
  0 ≤ off → 0 ≤ base → off + base < 2 ^ 63 → (0 < off + base ∨ d = true) →
  RelativeDiskLocation.to_absolute (2 * off + Z.b2z d) base = Some (2 * (off + base) + Z.b2z d).
Proof.
  intros. unfold RelativeDiskLocation.to_absolute. rewrite unshift_location_spec.
  destruct (Z.ltb_spec (off + base) two64); [|u64_lia]. apply new_spec; [lia|done].
Qed.

Lemma lor_new_write_bit l :
  0 ≤ l < 2 ^ 62 → Z.lor l NEW_WRITE_BATCH_BIT = l + 2 ^ 62.
Proof.
  intros Hl. unfold NEW_WRITE_BATCH_BIT. rewrite Z.shiftl_1_l, Z.add_nocarry_lxor, Z.lxor_lor; try done.
  all: apply Z.bits_inj_0; intros n; rewrite Z.land_spec, Z.pow2_bits_eqb by lia;
    destruct (Z.eqb_spec 62 n) as [<-|]; [|apply andb_false_r]; rewrite andb_true_r;
    apply Z.bits_above_log2; [lia|]; destruct (decide (l = 0)) as [->|]; [done|];
    apply Z.log2_lt_pow2; lia.
Qed.

Lemma land_new_write_mask l d :
  0 ≤ l < 2 ^ 62 → Z.land (l + Z.b2z d * 2 ^ 62) NEW_WRITE_BATCH_MASK = l.
Proof.
  intros Hl. rewrite <- (Z.mod_small l (2 ^ 62)) at 2 by lia.
  rewrite <- Z.land_ones by lia.
  apply Z.bits_inj'. intros n Hn. rewrite !Z.land_spec.
  assert (NEW_WRITE_BATCH_MASK = Z.ones 62 + 2 ^ 63) as -> by done.
  destruct (decide (n < 62)) as [Hlt|Hge].
  - rewrite (Z.ones_spec_low 62) by lia.
    rewrite <- (Z.mod_pow2_bits_low _ 62 n), Z_mod_plus_full, Z.mod_pow2_bits_low by lia.
    rewrite <- (Z.mod_pow2_bits_low (Z.ones 62 + 2 ^ 63) 62 n) by lia.
    change ((Z.ones 62 + 2 ^ 63) mod 2 ^ 62) with (Z.ones 62).
    by rewrite Z.ones_spec_low by lia.
  - rewrite (Z.ones_spec_high 62 n) by lia. rewrite andb_false_r.
    destruct (decide (n = 62)) as [->|]; [by rewrite andb_false_r|].
    assert (Z.testbit (l + Z.b2z d * 2 ^ 62) n = false) as ->; [|done].
    apply Z.bits_above_log2; [destruct d; simpl; lia|].
    destruct (decide (l + Z.b2z d * 2 ^ 62 = 0)) as [->|]; [simpl; lia|].
    apply Z.log2_lt_pow2; [destruct d; simpl in *; lia|].
    apply Z.lt_le_trans with (2 ^ 63); [destruct d; simpl; lia|].
    apply Z.pow_le_mono_r; lia.
Qed.

(** * Theorems *)

(** A location can be built exactly when the sequence number keeps its top bit clear
    and the result is not the niche value zero; the number and the flag are then read
    back unchanged, and the raw value is a non-zero [u64]. Every other input panics. *)
Theorem disk_location_new_decodes l d :
  is_u64 l →
  match DiskLocation.new l d with
  | Some r =>
      l < 2 ^ 63 ∧ DiskLocation.lsn r = l ∧ DiskLocation.is_delete r = d ∧
      0 < DiskLocation.to_raw r < two64 ∧
      DiskLocation.from_raw (DiskLocation.to_raw r) = Some r
  | None => 2 ^ 63 ≤ l ∨ (l = 0 ∧ d = false)
  end.
Proof.
  intros Hl. destruct (decide (l < 2 ^ 63)) as [Hlt|Hge].
  - destruct (decide (0 < l ∨ d = true)) as [Hpos|Hz].
    + rewrite new_spec, lsn_spec, is_delete_spec by (done || u64_lia).
      unfold DiskLocation.to_raw, DiskLocation.from_raw.
      destruct (Z.eqb_spec (2 * l + Z.b2z d) 0) as [E|];
        destruct d; cbn [Z.b2z] in *; destruct Hpos; try done; repeat split; u64_lia.
    + destruct d; [naive_solver|]. assert (l = 0) as -> by (unfold is_u64 in *; lia).
      cbv. by right.
  - unfold DiskLocation.new. rewrite shift_location_None by (unfold is_u64 in *; lia).
    simpl. lia.
Qed.

(** Adding a file's base to a relative location: the result is the location of that
    offset in the file, with the same flag, or a panic when the sum does not fit. *)
Theorem to_absolute_adds_base off d base r :
  is_u64 off → is_u64 base → 0 < base → RelativeDiskLocation.new off d = Some r →
  RelativeDiskLocation.is_delete r = d ∧
  RelativeDiskLocation.to_absolute r base
  = if bool_decide (off + base < 2 ^ 63) then DiskLocation.new (off + base) d else None.
Proof.
  intros Hoff Hbase Hpos Hr. unfold RelativeDiskLocation.new in Hr.
  destruct (decide (off < 2 ^ 63)) as [Hlt|].
  - rewrite shift_location_spec in Hr by (unfold is_u64 in *; lia). simplify_eq.
    rewrite relative_is_delete_spec. split; [done|].
    unfold RelativeDiskLocation.to_absolute. rewrite unshift_location_spec.
    case_bool_decide; destruct (Z.ltb_spec (off + base) two64); try done; [u64_lia|].
    unfold DiskLocation.new. rewrite shift_location_None by u64_lia. done.
  - rewrite shift_location_None in Hr by (unfold is_u64 in *; lia). done.
Qed.

(** C26. Locations of new writes are above every location of garbage collection, whatever
    their sequence numbers, while the mask of recovery gives back the order in which
    the sequence numbers were assigned. *)
Theorem new_writes_above_gc a b off off' d d' :
  0 ≤ a < 2 ^ 62 → 0 < b → 0 ≤ off → 0 ≤ off' →
  a + off < 2 ^ 62 → b + off' < 2 ^ 62 →
  ∃ new_write gc,
    RelativeDiskLocation.to_absolute (2 * off + Z.b2z d) (Z.lor a NEW_WRITE_BATCH_BIT) = Some new_write ∧
    RelativeDiskLocation.to_absolute (2 * off' + Z.b2z d') b = Some gc ∧
    gc < new_write ∧
    Z.land (DiskLocation.lsn new_write) NEW_WRITE_BATCH_MASK = a + off ∧
    Z.land (DiskLocation.lsn gc) NEW_WRITE_BATCH_MASK = b + off'.
Proof.
  intros. rewrite lor_new_write_bit by done.
  rewrite !to_absolute_spec by lia. do 2 eexists. do 2 (split; [done|]).
  rewrite !lsn_spec. split; [destruct d, d'; simpl; lia|]. split.
  - rewrite Z.add_assoc, (Z.add_comm off a). apply (land_new_write_mask (a + off) true). lia.
  - pose proof (land_new_write_mask (b + off') false) as E. rewrite Z.add_0_r, Z.add_comm in E.
    rewrite E; lia.
Qed.
