(* ===== verification/LocationTable.v ===== *)
(** LocationTable: [src/location_table.rs], the map from object ids to locations.

    A table cell is an [AtomicU64] of the page table; zero means "never written".
    Every operation is one atomic access, so the operations compose sequentially
    even when they come from several threads. *)
From S2P Require Import Prelude Deps Locations.

Section operations.
Context `{Deps}.

(** [AtomicU64::compare_exchange] *)
Definition compare_exchange (cell current new : Z) : (Z + Z) * Z :=
  if cell =? current then (inl cell, new) else (inr cell, cell).

(** [AtomicU64::fetch_max] *)
Definition atomic_fetch_max (cell value : Z) : Z * Z := (cell, Z.max cell value).

Definition load (t : PT) (object_id : Z) : option DiskLocation.t :=
  DiskLocation.from_raw (pt_read t object_id).

Definition store (t : PT) (object_id : Z) (location : DiskLocation.t) : PT :=
  pt_write t object_id (DiskLocation.to_raw location).

(** [None] is a panic: the exchange fails although the cell is empty. *)
Definition cas (t : PT) (object_id : Z) (old_location new_location : DiskLocation.t)
    : option (() + DiskLocation.t) * PT :=
  let '(res, cell) :=
    compare_exchange (pt_read t object_id) (DiskLocation.to_raw old_location)
      (DiskLocation.to_raw new_location) in
  let t' := pt_write t object_id cell in
  match res with
  | inl _ => (Some (inl ()), t')
  | inr r => (inr <$> DiskLocation.from_raw r, t')
  end.

(** [None] is a panic: the location was already installed. *)
Definition fetch_max (t : PT) (object_id : Z) (new_location : DiskLocation.t)
    : option (option DiskLocation.t + option DiskLocation.t) * PT :=
  let '(max_result, cell) :=
    atomic_fetch_max (pt_read t object_id) (DiskLocation.to_raw new_location) in
  let t' := pt_write t object_id cell in
  if max_result <? DiskLocation.to_raw new_location then
    (Some (inl (DiskLocation.from_raw max_result)), t')
  else if max_result =? DiskLocation.to_raw new_location then (None, t')
  else (Some (inr (DiskLocation.from_raw max_result)), t').
End operations.

Section lemmas.
Context `{Deps, !DepsLaws}.
Implicit Types t : PT.

Lemma load_default i : load pt_default i = None.
Proof. unfold load. by rewrite pt_read_default. Qed.

Lemma load_Some t i l : load t i = Some l ↔ pt_read t i = l ∧ l ≠ 0.
Proof.
  unfold load, DiskLocation.from_raw. by destruct (Z.eqb_spec (pt_read t i) 0); split; intros; destruct_and?; simplify_eq.
Qed.

Lemma load_None t i : load t i = None ↔ pt_read t i = 0.
Proof.
  unfold load, DiskLocation.from_raw. by destruct (Z.eqb_spec (pt_read t i) 0); split; intros; destruct_and?; simplify_eq.
Qed.

Lemma load_write t i v j :
  load (pt_write t i v) j = if decide (i = j) then DiskLocation.from_raw v else load t j.
Proof. unfold load. rewrite pt_read_write. by case_decide. Qed.

Lemma from_raw_pos l : 0 < l → DiskLocation.from_raw l = Some l.
Proof. intros. unfold DiskLocation.from_raw. destruct (Z.eqb_spec l 0); [lia|done]. Qed.

Lemma load_store t i l j :
  0 < l → load (store t i l) j = if decide (i = j) then Some l else load t j.
Proof.
  intros. unfold store. rewrite load_write. unfold DiskLocation.to_raw.
  by rewrite from_raw_pos.
Qed.

(** The cell after [fetch_max], in every case. *)
Lemma fetch_max_cell t i l : (fetch_max t i l).2 = pt_write t i (Z.max (pt_read t i) l).
Proof. unfold fetch_max, atomic_fetch_max, DiskLocation.to_raw. by repeat case_match. Qed.

Lemma fetch_max_above t i l :
  pt_read t i < l →
  fetch_max t i l = (Some (inl (load t i)), pt_write t i l).
Proof.
  intros Hlt. unfold fetch_max, atomic_fetch_max, DiskLocation.to_raw, load.
  destruct (Z.ltb_spec (pt_read t i) l); [|lia]. by rewrite Z.max_r by lia.
Qed.

Lemma cas_hit t i old new :
  0 < old → load t i = Some old → cas t i old new = (Some (inl ()), pt_write t i new).
Proof.
  intros Hpos [Hr ?]%load_Some. unfold cas, compare_exchange, DiskLocation.to_raw.
  by rewrite Hr, Z.eqb_refl.
Qed.

(** On a cell that is not empty [cas] never panics, and leaves it not empty. *)
Lemma cas_total t i old new :
  pt_read t i ≠ 0 → new ≠ 0 →
  ∃ r v, cas t i old new = (Some r, pt_write t i v) ∧ v ≠ 0.
Proof.
  intros Hr Hn. unfold cas, compare_exchange, DiskLocation.to_raw, DiskLocation.from_raw.
  destruct (pt_read t i =? old); [by exists (inl ()), new|].
  exists (inr (pt_read t i)), (pt_read t i).
  by destruct (Z.eqb_spec (pt_read t i) 0).
Qed.

Lemma cas_miss t i old new cur :
  load t i = Some cur → cur ≠ old →
  cas t i old new = (Some (inr cur), pt_write t i cur).
Proof.
  intros [Hr ?]%load_Some Hne. unfold cas, compare_exchange, DiskLocation.to_raw. rewrite Hr.
  destruct (Z.eqb_spec cur old); [done|]. unfold DiskLocation.from_raw.
  by destruct (Z.eqb_spec cur 0).
Qed.
End lemmas.

(** * Theorems *)

Section theorems.
Context `{Deps, !DepsLaws}.

(** The installs of any number of writers, in the order they reach the table. *)
Definition install_all (t : PT) (installs : list (Z * DiskLocation.t)) : PT :=
  foldl (λ t kl, (fetch_max t kl.1 kl.2).2) t installs.

Lemma install_all_read t installs i :
  pt_read (install_all t installs) i
  = foldl Z.max (pt_read t i) (omap (λ kl, if decide (kl.1 = i) then Some kl.2 else None) installs).
Proof.
  revert t. induction installs as [|[k l] installs IH]; intros t; csimpl; [done|].
  rewrite IH, fetch_max_cell, pt_read_write. simpl. by repeat case_decide; subst.
Qed.

Lemma foldl_max_spec z ls :
  z ≤ foldl Z.max z ls ∧ (∀ l, l ∈ ls → l ≤ foldl Z.max z ls) ∧
  (foldl Z.max z ls = z ∨ foldl Z.max z ls ∈ ls).
Proof.
  revert z. induction ls as [|l ls IH]; intros z; simpl; [set_solver by lia|].
  destruct (IH (Z.max z l)) as (?&?&Hc). split_and!; [lia| |].
  - intros l' [->|]%elem_of_cons; [lia|auto].
  - rewrite elem_of_cons. destruct Hc as [->|]; [|auto]. destruct (Z.max_spec z l) as [[? ->]|[? ->]]; auto.
Qed.

Lemma foldl_max_perm z ls ls' : ls ≡ₚ ls' → foldl Z.max z ls = foldl Z.max z ls'.
Proof.
  intros Hp. destruct (foldl_max_spec z ls) as (H1&H2&H3), (foldl_max_spec z ls') as (H1'&H2'&H3').
  apply Z.le_antisymm.
  - destruct H3 as [->|Hin]; [done|]. apply H2'. by rewrite <- Hp.
  - destruct H3' as [->|Hin]; [done|]. apply H2. by rewrite Hp.
Qed.

(** [fetch_max] on every branch: it installs a greater location and returns what it
    replaced, leaves a greater location in place and returns it, and panics on the
    location that is already there. Other objects are never affected. *)
Theorem fetch_max_behaviour t i l :
  is_u64 (pt_read t i) → 0 < l →
  let '(r, t') := fetch_max t i l in
  r = (if bool_decide (pt_read t i < l) then Some (inl (load t i))
       else if bool_decide (pt_read t i = l) then None else Some (inr (load t i))) ∧
  load t' i = Some (Z.max (pt_read t i) l) ∧
  ∀ j, j ≠ i → load t' j = load t j.
Proof.
  intros Hu Hl. pose proof (fetch_max_cell t i l) as Hcell.
  destruct (fetch_max t i l) as [r t'] eqn:E. simpl in Hcell. subst t'.
  split_and!.
  - unfold fetch_max, atomic_fetch_max, DiskLocation.to_raw in E. unfold load.
    destruct (Z.ltb_spec (pt_read t i) l), (Z.eqb_spec (pt_read t i) l); simplify_eq;
      by repeat case_bool_decide; try lia.
  - rewrite load_write, decide_True by done. apply from_raw_pos. lia.
  - intros j Hj. by rewrite load_write, decide_False.
Qed.

(** Whatever order concurrent writers reach the table in, it ends up the same: every
    object is at the greatest of its initial location and the installed ones. *)
Theorem installs_commute t installs installs' :
  installs ≡ₚ installs' →
  ∀ i, load (install_all t installs) i = load (install_all t installs') i ∧
       (∀ l, (i, l) ∈ installs → l ≤ pt_read (install_all t installs) i) ∧
       (pt_read (install_all t installs) i = pt_read t i
        ∨ (i, pt_read (install_all t installs) i) ∈ installs).
Proof.
  intros Hp i.
  assert (∀ (ks : list (Z * Z)) l, l ∈ omap (λ kl : Z * Z, if decide (kl.1 = i) then Some kl.2 else None) ks
                  ↔ (i, l) ∈ ks) as Hel.
  { intros ks l. rewrite list_elem_of_omap. split.
    - intros ([k l'] & Hin & E). by case_decide; simplify_eq/=.
    - intros. exists (i, l). split; [done|]. by rewrite decide_True. }
  split_and!.
  - unfold load. f_equal. rewrite !install_all_read.
    apply foldl_max_perm. by rewrite Hp.
  - intros l Hl. rewrite install_all_read. apply foldl_max_spec. by apply Hel.
  - destruct (foldl_max_spec (pt_read t i)
      (omap (λ kl : Z * Z, if decide (kl.1 = i) then Some kl.2 else None) installs))
      as (_&_&[E|E]); rewrite install_all_read; [by left|right; by apply Hel].
Qed.

(** Garbage collection moves an object with [cas]. A writer that got there first makes
    it fail and stays in place; a writer that comes later, with a location of a new
    write, replaces the moved location. Either way the writer's location survives. *)
Theorem gc_never_hides_a_write t i old moved written :
  load t i = Some old → 0 < old → 0 < moved → old < written → moved < written →
  (let t1 := (fetch_max t i written).2 in
   cas t1 i old moved = (Some (inr written), pt_write t1 i written) ∧
   load (cas t1 i old moved).2 i = Some written) ∧
  (let '(r, t1) := cas t i old moved in
   r = Some (inl ()) ∧
   fetch_max t1 i written = (Some (inl (Some moved)), pt_write t1 i written) ∧
   load (fetch_max t1 i written).2 i = Some written).
Proof.
  intros Hold ????. assert (pt_read t i = old) as Hr by (by apply load_Some in Hold as []).
  split.
  - cbv zeta. rewrite fetch_max_cell, Hr, Z.max_r by lia.
    assert (cas (pt_write t i written) i old moved
            = (Some (inr written), pt_write (pt_write t i written) i written)) as ->.
    { apply cas_miss; [|lia]. rewrite load_write, decide_True by done. apply from_raw_pos. lia. }
    simpl. rewrite load_write, decide_True by done. split; [done|]. apply from_raw_pos. lia.
  - rewrite cas_hit by done. split; [done|].
    rewrite fetch_max_above by (rewrite pt_read_write, decide_True by done; lia). simpl.
    rewrite !load_write, !decide_True, !from_raw_pos by (done || lia). done.
Qed.
End theorems.
