(* ===== verification/Hasher.v ===== *)
(** Hasher: [LocationHasher] of [src/lib.rs], the hasher of the crate's maps ([Map<K, V>]).
    It keeps the integer it is given and refuses everything else, so the type of the keys
    decides whether a map can be used at all. *)
From S2P Require Import Prelude Effects.

(** ** Operations *)

(** [struct LocationHasher(u64)] and its [Default] *)
Record LocationHasher := MkLocationHasher { hasher_state : Z }.

Definition LocationHasher_default : LocationHasher := MkLocationHasher 0.

(** [finish], [write_u8], [write_u64] and [write] of [impl Hasher for LocationHasher] *)
Definition finish : M LocationHasher Z := gets hasher_state.

Definition write_u8 (n : Z) : M LocationHasher () := modify (λ _, MkLocationHasher n).

Definition write_u64 (n : Z) : M LocationHasher () := modify (λ _, MkLocationHasher n).

Definition write (_ : bytes) : M LocationHasher () := panic.

(** The methods the crate does not override, as the standard library's trait provides them:
    the bytes of the integer go to [write]. *)
Definition write_int (size : nat) (n : Z) : M LocationHasher () := write (to_le_bytes size n).

(** ** Keys

    What [Hash] of a key type feeds to a hasher. The keys of the crate's maps are object ids
    and shards; a newtype derives [Hash] from its field. *)
Inductive key :=
  | KeyU8 (n : Z)
  | KeyU64 (n : Z)
  | KeyInt (size : nat) (n : Z)      (* [u16], [u32], [u128], [usize] and signed integers *)
  | KeyBytes (bs : bytes).           (* slices and strings *)

(** [Hash::hash] *)
Definition hash_key (k : key) : M LocationHasher () :=
  match k with
  | KeyU8 n => write_u8 n
  | KeyU64 n => write_u64 n
  | KeyInt size n => write_int size n
  | KeyBytes bs => write bs
  end.

(** [BuildHasher::hash_one] of [BuildHasherDefault<LocationHasher>] *)
Definition hash_one (k : key) : outcome Z * LocationHasher := (hash_key k;; finish) LocationHasher_default.

(** The type of a key is one the maps of the crate use. *)
Definition map_key (k : key) : bool := match k with KeyU8 _ | KeyU64 _ => true | _ => false end.

Definition key_value (k : key) : Z :=
  match k with KeyU8 n | KeyU64 n | KeyInt _ n => n | KeyBytes bs => from_le_bytes bs end.

(** ** Theorem *)

(** The hash of an object id or of a shard is the integer itself, so that different keys
    never share a hash; any other key aborts. *)
Theorem hash_one_map_keys k :
  (hash_one k).1 = if map_key k then Ok (key_value k) else Panic.
Proof. by destruct k. Qed.
