(* ===== verification/DebugHistory.v ===== *)
(** DebugHistory: [src/debug_history.rs], the bookkeeping of validation builds. It asserts
    that an object gets each location at most once, and loses each at most once, after it
    got it. *)
From S2P Require Import Prelude Effects.

(** ** Operations *)

(** The maps are from object ids to sets of locations (raw, as 64-bit integers); an absent key stands for the empty
    set except where the code indexes with it. *)
Record DebugHistory := MkDebugHistory {
  adds : gmap Z (gset Z);
  removes : gmap Z (gset Z);
}.

Definition DebugHistory_default : DebugHistory := MkDebugHistory ∅ ∅.

(** [self.adds.entry(object_id).or_default().insert(location)] *)
Definition entry_insert (m : gmap Z (gset Z)) (object_id : Z) (location : Z)
    : bool * gmap Z (gset Z) :=
  let entry := default ∅ (m !! object_id) in
  (bool_decide (location ∉ entry), <[object_id := {[location]} ∪ entry]> m).

(** [DebugHistory::mark_add] *)
Definition mark_add (object_id : Z) (location : Z) : M DebugHistory () :=
  rs ← gets (λ h, removes h !! object_id);
  match rs with
  | Some rs =>
      let present_in_removes := bool_decide (location ∈ (rs : gset Z)) in
      assert_that (negb present_in_removes)
  | None => mret ()
  end;;
  h ← gets (λ h, h);
  let '(new_addition, adds) := entry_insert (adds h) object_id location in
  modify (λ h, MkDebugHistory adds (removes h));;
  assert_that new_addition.

(** [DebugHistory::mark_remove] *)
Definition mark_remove (object_id : Z) (location : Z) : M DebugHistory () :=
  h ← gets (λ h, h);
  entry ← unwrap (adds h !! object_id);
  let present_in_adds := bool_decide (location ∈ (entry : gset Z)) in
  assert_that present_in_adds;;
  let '(new_addition, removes) := entry_insert (removes h) object_id location in
  modify (λ h, MkDebugHistory (adds h) removes);;
  assert_that new_addition.

(** ** What the assertions check *)

Definition added (h : DebugHistory) (oid loc : Z) : Prop := loc ∈ default ∅ (adds h !! oid).
Definition removed (h : DebugHistory) (oid loc : Z) : Prop := loc ∈ default ∅ (removes h !! oid).

#[global] Instance added_dec h oid loc : Decision (added h oid loc).
Proof. unfold added; apply _. Defined.
#[global] Instance removed_dec h oid loc : Decision (removed h oid loc).
Proof. unfold removed; apply _. Defined.

Lemma entry_insert_elem m oid loc i l :
  l ∈ default ∅ ((entry_insert m oid loc).2 !! i) ↔ l ∈ default ∅ (m !! i) ∨ (i = oid ∧ l = loc).
Proof.
  unfold entry_insert. simpl. rewrite lookup_insert. case_decide as Hd; simpl; [subst i|].
  - rewrite elem_of_union, elem_of_singleton. naive_solver.
  - naive_solver.
Qed.

(** The history after adding, or removing, a location. *)
Definition history_add (oid loc : Z) (h : DebugHistory) : DebugHistory :=
  MkDebugHistory (entry_insert (adds h) oid loc).2 (removes h).
Definition history_remove (oid loc : Z) (h : DebugHistory) : DebugHistory :=
  MkDebugHistory (adds h) (entry_insert (removes h) oid loc).2.

Lemma added_add oid loc h i l : added (history_add oid loc h) i l ↔ added h i l ∨ (i = oid ∧ l = loc).
Proof. apply entry_insert_elem. Qed.
Lemma removed_add oid loc h i l : removed (history_add oid loc h) i l ↔ removed h i l.
Proof. done. Qed.
Lemma added_remove oid loc h i l : added (history_remove oid loc h) i l ↔ added h i l.
Proof. done. Qed.
Lemma removed_remove oid loc h i l :
  removed (history_remove oid loc h) i l ↔ removed h i l ∨ (i = oid ∧ l = loc).
Proof. apply entry_insert_elem. Qed.

Lemma mark_add_spec oid loc h :
  (added h oid loc ∨ removed h oid loc → (mark_add oid loc h).1 = Panic) ∧
  (¬ (added h oid loc ∨ removed h oid loc) → mark_add oid loc h = (Ok (), history_add oid loc h)).
Proof.
  assert (∀ (b : bool) (h' : DebugHistory), assert_that b h' = (if b then Ok () else Panic, h')) as Hassert'.
  { by intros []. }
  unfold mark_add, removed, added, mbind, M_bind. unfold gets at 1 3. unfold gets, modify, history_add.
  destruct (removes h !! oid) as [rs|]; cbn [default from_option].
  - rewrite Hassert'. destruct (decide (loc ∈ rs)) as [Hr|Hr].
    + rewrite bool_decide_eq_true_2 by done. cbn [negb]. split; [done|]. naive_solver.
    + rewrite bool_decide_eq_false_2 by done. cbn [negb]. unfold entry_insert. rewrite Hassert'.
      destruct (decide (loc ∈ default ∅ (adds h !! oid))) as [Ha|Ha].
      * rewrite bool_decide_eq_false_2 by tauto. split; [done|]. naive_solver.
      * rewrite bool_decide_eq_true_2 by done. split; [naive_solver|done].
  - unfold mret, M_ret, entry_insert. rewrite Hassert'.
    destruct (decide (loc ∈ default ∅ (adds h !! oid))) as [Ha|Ha].
    + rewrite bool_decide_eq_false_2 by tauto. split; [done|]. naive_solver.
    + rewrite bool_decide_eq_true_2 by done. split; [set_solver|done].
Qed.

Lemma mark_remove_spec oid loc h :
  (¬ (added h oid loc ∧ ¬ removed h oid loc) → (mark_remove oid loc h).1 = Panic) ∧
  (added h oid loc ∧ ¬ removed h oid loc → mark_remove oid loc h = (Ok (), history_remove oid loc h)).
Proof.
  assert (∀ (b : bool) (h' : DebugHistory), assert_that b h' = (if b then Ok () else Panic, h')) as Hassert.
  { by intros []. }
  unfold mark_remove, removed, added, mbind, M_bind, gets, unwrap, modify, history_remove, entry_insert.
  destruct (adds h !! oid) as [es|]; cbn [default from_option].
  - unfold mret, M_ret. rewrite Hassert. destruct (decide (loc ∈ es)) as [Ha|Ha].
    + rewrite bool_decide_eq_true_2 by done. rewrite Hassert.
      destruct (decide (loc ∈ default ∅ (removes h !! oid))) as [Hr|Hr].
      * rewrite bool_decide_eq_false_2 by tauto. split; [done|]. naive_solver.
      * rewrite bool_decide_eq_true_2 by done. split; [naive_solver|done].
    + rewrite bool_decide_eq_false_2 by done. split; [done|]. naive_solver.
  - split; [done|]. set_solver.
Qed.

(** ** Legal histories *)

Inductive mark :=
  | Add (oid loc : Z)
  | Remove (oid loc : Z).

Definition run_mark (m : mark) : M DebugHistory () :=
  match m with
  | Add oid loc => mark_add oid loc
  | Remove oid loc => mark_remove oid loc
  end.

Definition run_marks (ms : list mark) : M DebugHistory () := forM ms run_mark.

(** A trace is legal if no mark occurs twice and every removal comes after its addition. *)
Definition legal (ms : list mark) : Prop :=
  ∀ before m after, ms = before ++ m :: after →
    match m with
    | Add oid loc => Add oid loc ∉ before ∧ Remove oid loc ∉ before
    | Remove oid loc => Add oid loc ∈ before ∧ Remove oid loc ∉ before
    end.

#[global] Instance mark_eq_dec : EqDecision mark.
Proof. solve_decision. Defined.

Lemma legal_snoc ms m :
  legal (ms ++ [m]) ↔ legal ms ∧
    match m with
    | Add oid loc => Add oid loc ∉ ms ∧ Remove oid loc ∉ ms
    | Remove oid loc => Add oid loc ∈ ms ∧ Remove oid loc ∉ ms
    end.
Proof.
  split.
  - intros Hl. split; [|by apply (Hl ms m [])].
    intros b x a ->. apply (Hl b x (a ++ [m])). by rewrite <- app_assoc.
  - intros [Hl Hm] b x a E. destruct a as [|y a _] using rev_ind.
    + apply app_inj_tail in E as [-> ->]. done.
    + rewrite (app_comm_cons a [y] x), (app_assoc b (x :: a) [y]) in E. apply app_inj_tail in E as [-> _]. by apply (Hl b x a).
Qed.

Lemma forM_snoc {S A} (f : A → M S ()) l x s :
  forM (l ++ [x]) f s = (forM l f ≫= λ _, f x) s.
Proof.
  revert s. induction l as [|y l IH]; intros s; unfold mbind, M_bind in *; simpl.
  - unfold mbind, M_bind, mret, M_ret. by destruct (f x s) as [[[]| | |] s'].
  - unfold mbind, M_bind. destruct (f y s) as [[[]| | |] s']; [|done..]. apply IH.
Qed.

Lemma run_marks_legal ms :
  match run_marks ms DebugHistory_default with
  | (Ok _, h) => legal ms ∧ ∀ oid loc, (added h oid loc ↔ Add oid loc ∈ ms) ∧ (removed h oid loc ↔ Remove oid loc ∈ ms)
  | (Panic, _) => ¬ legal ms
  | _ => False
  end.
Proof.
  induction ms as [|m ms IH] using rev_ind.
  - simpl. split; [by intros [|? b] ? ? ?|]. intros oid loc. unfold added, removed. simpl.
    rewrite lookup_empty. set_solver.
  - unfold run_marks in *. rewrite forM_snoc. unfold mbind, M_bind.
    destruct (forM ms run_mark DebugHistory_default) as [[[]| | |] h]; try done.
    + destruct IH as [Hl Hh]. pose proof (legal_snoc ms m) as Hls. destruct m as [oid loc|oid loc]; cbn [run_mark];
        destruct (Hh oid loc) as [Ea Er].
      * destruct (mark_add_spec oid loc h) as [Hbad Hok].
        destruct (decide (added h oid loc ∨ removed h oid loc)) as [Hd|Hd].
        -- specialize (Hbad Hd). destruct (mark_add oid loc h) as [r h']. simpl in Hbad. subst r. tauto.
        -- rewrite (Hok Hd). split; [tauto|]. intros i l. destruct (Hh i l) as [Ha Hb].
           rewrite added_add, removed_add, Ha, Hb, !elem_of_app, !list_elem_of_singleton. naive_solver.
      * destruct (mark_remove_spec oid loc h) as [Hbad Hok].
        destruct (decide (added h oid loc ∧ ¬ removed h oid loc)) as [Hd|Hd].
        -- rewrite (Hok Hd). split; [tauto|]. intros i l. destruct (Hh i l) as [Ha Hb].
           rewrite added_remove, removed_remove, Ha, Hb, !elem_of_app, !list_elem_of_singleton. naive_solver.
        -- specialize (Hbad Hd). destruct (mark_remove oid loc h) as [r h']. simpl in Hbad. subst r. tauto.
    + intros Hl%legal_snoc. tauto.
Qed.

(** ** Theorem *)

(** C30. The assertions of the debug history accept exactly the legal traces: those in which an
    object is given each location at most once, and loses it at most once and only after
    it was given it. *)
Theorem debug_history_accepts ms :
  (∃ h, run_marks ms DebugHistory_default = (Ok (), h)) ↔ legal ms.
Proof.
  pose proof (run_marks_legal ms) as Hr. split.
  - intros [h E]. rewrite E in Hr. apply Hr.
  - intros Hl. destruct (run_marks ms DebugHistory_default) as [[[]| | |] h]; try done. by exists h.
Qed.
