(* ===== verification/Config.v ===== *)
(** Config: [src/config.rs], and [default_partition_function] of [src/lib.rs]. *)
From S2P Require Import Prelude Effects.

(** ** [default_partition_function] *)

Definition PAGE_MIN : Z := 2048.
Definition SUBPAGE_MAX : Z := PAGE_MIN - 1.
Definition PAGE_MAX : Z := 16 * 1024.
Definition BLOCK_MIN : Z := PAGE_MAX + 1.
Definition BLOCK_MAX : Z := 4 * 1024 * 1024.

Definition default_partition_function (_object_id size : Z) : Z :=
  if (0 <=? size) && (size <=? SUBPAGE_MAX) then 0
  else if (PAGE_MIN <=? size) && (size <=? PAGE_MAX) then 1
  else if (BLOCK_MIN <=? size) && (size <=? BLOCK_MAX) then 2
  else 3.

Record Config := MkConfig {
  path : string;
  zstd_compression_level : option Z;
  fsync_each_batch : bool;
  target_file_size : Z;
  file_compaction_percent : Z;
  max_object_size : Z;
  small_file_cleanup_threshold : Z;
  partition_function : Z → Z → Z;
  min_compaction_files : Z;
}.

Definition Config_default : Config := {|
  path := "";
  target_file_size := Z.shiftl 1 28;
  file_compaction_percent := 66;
  partition_function := default_partition_function;
  max_object_size := 16 * 1024 * 1024 * 1024;
  small_file_cleanup_threshold := 64;
  min_compaction_files := 2;
  fsync_each_batch := false;
  zstd_compression_level := None;
|}.

Definition validate (self : Config) : () + ErrorKind :=
  if target_file_size self =? 0 then inr Unsupported
  else if 99 <? file_compaction_percent self then inr Unsupported
  else inl ().

(** The types of the fields: what any [Config] value of the program satisfies. *)
Record Config_typed (c : Config) : Prop := {
  ct_target : is_u64 (target_file_size c);
  ct_percent : 0 ≤ file_compaction_percent c < 256;
  ct_max_object : is_u64 (max_object_size c);
  ct_threshold : is_u64 (small_file_cleanup_threshold c);
  ct_min_files : is_u64 (min_compaction_files c);
  ct_partition : ∀ i n, 0 ≤ partition_function c i n < 256;
}.

(** * Theorems *)

(** The default partition function is total on sizes, monotone, and its four shards are
    the documented size ranges. *)
Theorem default_partition_ranges i size :
  is_u64 size →
  let shard := default_partition_function i size in
  (shard = 0 ↔ size < 2048) ∧
  (shard = 1 ↔ 2048 ≤ size ≤ 16384) ∧
  (shard = 2 ↔ 16385 ≤ size ≤ 4194304) ∧
  (shard = 3 ↔ 4194304 < size) ∧
  ∀ j size', size ≤ size' → shard ≤ default_partition_function j size'.
Proof.
  intros [H0 _]. unfold default_partition_function, SUBPAGE_MAX, BLOCK_MIN, BLOCK_MAX, PAGE_MIN, PAGE_MAX.
  repeat split; intros; repeat case_match; lia.
Qed.

(** The default configuration is accepted, and [validate] accepts exactly the
    configurations whose target size is not zero and whose percentage is below 100. *)
Theorem validate_accepts c :
  validate Config_default = inl () ∧
  (validate c = inl () ↔ target_file_size c ≠ 0 ∧ file_compaction_percent c < 100) ∧
  (validate c ≠ inl () → validate c = inr Unsupported).
Proof.
  split; [done|]. unfold validate.
  destruct (Z.eqb_spec (target_file_size c) 0), (Z.ltb_spec 99 (file_compaction_percent c));
    split; try done; split; try done; lia.
Qed.
