(* ===== verification/Metadata.v ===== *)
(** Metadata: the [Metadata] of [src/lib.rs] and the file names that carry it.

    A storage file is named [lsn-trailer_offset-present_objects-generation] in
    hexadecimal; recovery parses the names and ignores what does not parse. *)
From Stdlib Require Import Ascii String.
From S2P Require Import Prelude.

Record Metadata := MkMetadata {
  lsn : Z;
  trailer_offset : Z;
  present_objects : Z;
  generation : Z;
  file_size : Z;
}.

#[global] Instance Metadata_eq_dec : EqDecision Metadata.
Proof. solve_decision. Defined.

(** [u64] fields, and a [u8] generation. *)
Record Metadata_typed (m : Metadata) : Prop := {
  mt_lsn : is_u64 (lsn m);
  mt_trailer_offset : is_u64 (trailer_offset m);
  mt_present_objects : is_u64 (present_objects m);
  mt_generation : 0 ≤ generation m < 256;
}.

(** ** The string functions of the standard library *)

Definition ascii_of_digit (d : Z) : ascii :=
  if d <? 10 then ascii_of_N (48 + Z.to_N d) else ascii_of_N (87 + Z.to_N d).

Definition digit_of_ascii (c : ascii) : option Z :=
  let n := Z.of_N (N_of_ascii c) in
  if (48 <=? n) && (n <=? 57) then Some (n - 48)
  else if (97 <=? n) && (n <=? 102) then Some (n - 87)
  else if (65 <=? n) && (n <=? 70) then Some (n - 55)
  else None.

(** [str::split("-")] *)
Fixpoint split (s : string) : list string :=
  match s with
  | EmptyString => [EmptyString]
  | String c s =>
      if decide (c = "-"%char) then EmptyString :: split s
      else match split s with
           | [] => [String c EmptyString]
           | x :: xs => String c x :: xs
           end
  end.

Fixpoint parse_digits (max acc : Z) (s : string) : option Z :=
  match s with
  | EmptyString => Some acc
  | String c s =>
      d ← digit_of_ascii c;
      if acc * 16 + d <=? max then parse_digits max (acc * 16 + d) s else None
  end.

(** [from_str_radix(s, 16)] at the unsigned type with largest value [max] *)
Definition from_str_radix_16 (max : Z) (s : string) : option Z :=
  match s with
  | EmptyString => None
  | String c EmptyString =>
      if decide (c = "+"%char ∨ c = "-"%char) then None else parse_digits max 0 s
  | String c s' => if decide (c = "+"%char) then parse_digits max 0 s' else parse_digits max 0 s
  end.

(** [n] hexadecimal digits of [z] before [acc] *)
Fixpoint hex_digits (n : nat) (z : Z) (acc : string) : string :=
  match n with
  | O => acc
  | S n => hex_digits n (z / 16) (String (ascii_of_digit (z `mod` 16)) acc)
  end.

(** the number of hexadecimal digits of [z] *)
Definition hex_width (z : Z) : nat := Z.to_nat (Z.log2 z / 4 + 1).

(** [format!("{:0wx}", z)] *)
Definition format_hex (w : nat) (z : Z) : string := hex_digits (w `max` hex_width z) z "".

(** [s.ends_with(suffix)] *)
Definition ends_with (s suffix : string) : bool :=
  bool_decide (list_ascii_of_string suffix `suffix_of` list_ascii_of_string s).

(** ** [Metadata::parse] and [Metadata::to_file_name] *)

Definition parse (name : string) (file_size : Z) : option Metadata :=
  let splits := split name in
  s0 ← splits !! 0%nat;
  lsn ← from_str_radix_16 (two64 - 1) s0;
  s1 ← splits !! 1%nat;
  trailer_offset ← from_str_radix_16 (two64 - 1) s1;
  s2 ← splits !! 2%nat;
  present_objects ← from_str_radix_16 (two64 - 1) s2;
  s3 ← splits !! 3%nat;
  generation ← from_str_radix_16 255 s3;
  Some (MkMetadata lsn trailer_offset present_objects generation file_size).

Definition to_file_name (self : Metadata) : string :=
  format_hex 16 (lsn self) +:+ "-" +:+ format_hex 16 (trailer_offset self) +:+ "-"
    +:+ format_hex 16 (present_objects self) +:+ "-" +:+ format_hex 1 (generation self).

(** [format!("{}-tmp", n)] *)
Definition tmp_file_name (n : Z) : string := pretty n +:+ "-tmp".

(** the marker file in the heap directory *)
Definition LEGEND : string := "             lsn   trailer_offset  present_objects generation".

(** the marker file next to it *)
Definition WARN : string := "DO_NOT_PUT_YOUR_FILES_HERE".

(** * Lemmas *)

Lemma digit_of_ascii_of_digit d : 0 ≤ d < 16 → digit_of_ascii (ascii_of_digit d) = Some d.
Proof.
  intros Hd.
  assert (d ∈ seqZ 0 16) as Hin by (apply elem_of_seqZ; lia).
  revert d Hin Hd. change (∀ d, d ∈ seqZ 0 16 → (λ d, 0 ≤ d < 16 → digit_of_ascii (ascii_of_digit d) = Some d) d).
  apply Forall_forall. repeat constructor.
Qed.

Lemma ascii_of_digit_not_sign d :
  0 ≤ d < 16 → ascii_of_digit d ≠ "-"%char ∧ ascii_of_digit d ≠ "+"%char ∧ ascii_of_digit d ≠ "p"%char.
Proof.
  intros Hd. assert (digit_of_ascii (ascii_of_digit d) = Some d) as E by by apply digit_of_ascii_of_digit.
  split_and!; intros E'; rewrite E' in E; vm_compute in E; discriminate.
Qed.

Lemma append_cons x (a b : string) : String x a +:+ b = String x (a +:+ b).
Proof. done. Qed.

Lemma append_assoc (a b c : string) : a +:+ b +:+ c = (a +:+ b) +:+ c.
Proof. induction a as [|x a IH]; [done|]. by rewrite !append_cons, IH. Qed.

Lemma append_empty (a : string) : a +:+ "" = a.
Proof. induction a as [|x a IH]; [done|]. by rewrite append_cons, IH. Qed.

Lemma list_ascii_append (a b : string) :
  list_ascii_of_string (a +:+ b) = list_ascii_of_string a ++ list_ascii_of_string b.
Proof. induction a as [|x a IH]; [done|]. rewrite append_cons. csimpl. by rewrite IH. Qed.

Lemma hex_digits_app n z acc : hex_digits n z acc = hex_digits n z "" +:+ acc.
Proof.
  revert z acc. induction n as [|n IH]; intros z acc; simpl; [done|].
  rewrite (IH _ (String _ acc)), (IH _ (String _ "")), <- append_assoc. done.
Qed.

Lemma split_digits n z s :
  split (hex_digits n z s)
  = match split s with [] => [] | x :: xs => hex_digits n z x :: xs end.
Proof.
  revert z s. induction n as [|n IH]; intros z s; cbn [hex_digits]; [by destruct (split s)|].
  rewrite IH. cbn [split].
  rewrite decide_False by (apply ascii_of_digit_not_sign, Z.mod_pos_bound; lia).
  destruct (split s) eqn:E; [|done].
  by destruct s; simpl in E; repeat case_match.
Qed.

Lemma split_app_digits n z s :
  split (hex_digits n z "" +:+ s)
  = match split s with [] => [] | x :: xs => (hex_digits n z "" +:+ x) :: xs end.
Proof.
  rewrite <- hex_digits_app, split_digits. destruct (split s); [done|].
  by rewrite <- hex_digits_app.
Qed.

Lemma parse_hex_digits n z s acc mx :
  0 ≤ acc → 0 ≤ z < 16 ^ Z.of_nat n → acc * 16 ^ Z.of_nat n + z ≤ mx →
  parse_digits mx acc (hex_digits n z s) = parse_digits mx (acc * 16 ^ Z.of_nat n + z) s.
Proof.
  revert z s. induction n as [|n IH]; intros z s Ha Hz Hm.
  { simpl in *. f_equal. lia. }
  rewrite Nat2Z.inj_succ, Z.pow_succ_r in * by lia.
  pose proof (Z.div_mod z 16). pose proof (Z.mod_pos_bound z 16).
  cbn [hex_digits]. rewrite IH; [|lia|split; [apply Z.div_pos|apply Z.div_lt_upper_bound]; lia|].
  2: { assert (0 ≤ acc * 16 ^ Z.of_nat n) by lia. nia. }
  cbn [parse_digits]. rewrite digit_of_ascii_of_digit by lia. simpl.
  replace ((acc * 16 ^ Z.of_nat n + z / 16) * 16 + z mod 16)
    with (acc * (16 * 16 ^ Z.of_nat n) + z) by lia.
  destruct (Z.leb_spec (acc * (16 * 16 ^ Z.of_nat n) + z) mx); [done|lia].
Qed.

Lemma hex_digits_first n z acc :
  ∃ d s, 0 ≤ d < 16 ∧ hex_digits (S n) z acc = String (ascii_of_digit d) s.
Proof.
  revert z acc. induction n as [|n IH]; intros z acc.
  - exists (z mod 16), acc. split; [apply Z.mod_pos_bound; lia|done].
  - cbn [hex_digits]. apply IH.
Qed.

Lemma hex_digits_last n z acc :
  ∃ d s, 0 ≤ d < 16 ∧ hex_digits (S n) z acc = s +:+ String (ascii_of_digit d) acc.
Proof.
  exists (z mod 16), (hex_digits n (z / 16) ""). split; [apply Z.mod_pos_bound; lia|].
  cbn [hex_digits]. apply hex_digits_app.
Qed.

Lemma from_str_radix_hex_digits n z mx :
  0 ≤ z < 16 ^ Z.of_nat (S n) → z ≤ mx →
  from_str_radix_16 mx (hex_digits (S n) z "") = Some z.
Proof.
  intros Hz Hm.
  assert (from_str_radix_16 mx (hex_digits (S n) z "") = parse_digits mx 0 (hex_digits (S n) z "")) as ->.
  { destruct (hex_digits_first n z "") as (d & s & Hd & ->).
    pose proof (ascii_of_digit_not_sign d Hd) as (?&?&?). unfold from_str_radix_16.
    destruct s; rewrite decide_False by (by try intros [|]); done. }
  rewrite parse_hex_digits by lia. simpl. f_equal.
Qed.

Lemma hex_width_pos z : (0 < hex_width z)%nat.
Proof.
  unfold hex_width. pose proof (Z.log2_nonneg z). pose proof (Z.div_pos (Z.log2 z) 4). lia.
Qed.

Lemma hex_width_spec z : 0 ≤ z → z < 16 ^ Z.of_nat (hex_width z).
Proof.
  intros Hz. unfold hex_width. pose proof (Z.log2_nonneg z).
  pose proof (Z.div_pos (Z.log2 z) 4). rewrite Z2Nat.id by lia.
  destruct (decide (z = 0)) as [->|]; [done|].
  apply Z.lt_le_trans with (2 ^ Z.succ (Z.log2 z)); [apply Z.log2_spec; lia|].
  change 16 with (2 ^ 4). rewrite <- Z.pow_mul_r by lia.
  apply Z.pow_le_mono_r; div_lia.
Qed.

Lemma hex_width_le z n : 0 ≤ z < 16 ^ Z.of_nat n → (0 < n)%nat → (hex_width z ≤ n)%nat.
Proof.
  intros Hz Hn. unfold hex_width. pose proof (Z.log2_nonneg z).
  assert (Z.log2 z < 4 * Z.of_nat n); [|div_lia].
  destruct (decide (z = 0)) as [->|]; [simpl; lia|].
  apply Z.log2_lt_pow2; [lia|]. rewrite Z.pow_mul_r by lia. change (2 ^ 4) with 16. lia.
Qed.

Lemma format_hex_digits w z : (0 < w)%nat → 0 ≤ z → ∃ n,
  format_hex w z = hex_digits (S n) z "" ∧ z < 16 ^ Z.of_nat (S n).
Proof.
  intros Hw Hz. unfold format_hex. exists (pred (w `max` hex_width z)).
  rewrite Nat.succ_pred by lia. split; [done|].
  eapply Z.lt_le_trans; [by apply hex_width_spec|]. apply Z.pow_le_mono_r; lia.
Qed.

Lemma from_str_radix_format_hex w z mx :
  (0 < w)%nat → 0 ≤ z ≤ mx → from_str_radix_16 mx (format_hex w z) = Some z.
Proof.
  intros Hw Hz. destruct (format_hex_digits w z) as (n & -> & Hn); [done|lia|].
  apply from_str_radix_hex_digits; lia.
Qed.

Lemma split_format_hex w z s :
  (0 < w)%nat → 0 ≤ z →
  split (format_hex w z +:+ "-" +:+ s) = format_hex w z :: split s.
Proof.
  intros Hw Hz. change ("-" +:+ s) with (String "-" s). destruct (format_hex_digits w z) as (n & -> & _); [done..|].
  rewrite split_app_digits. cbn [split]. rewrite decide_True by done. by rewrite append_empty.
Qed.

Lemma split_to_file_name m :
  Metadata_typed m →
  split (to_file_name m) =
    [format_hex 16 (lsn m); format_hex 16 (trailer_offset m);
     format_hex 16 (present_objects m); format_hex 1 (generation m)].
Proof.
  intros [[]  [] [] []]. unfold to_file_name.
  rewrite !split_format_hex by (done || lia).
  do 3 f_equal. destruct (format_hex_digits 1 (generation m)) as (n & -> & _); [lia..|].
  by rewrite split_digits.
Qed.

(** The last character of a file name is a digit. *)
Lemma to_file_name_last m :
  0 ≤ generation m →
  ∃ d l, 0 ≤ d < 16 ∧ list_ascii_of_string (to_file_name m) = l ++ [ascii_of_digit d].
Proof.
  intros Hg. destruct (format_hex_digits 1 (generation m)) as (n & E & _); [lia..|].
  unfold to_file_name. rewrite E.
  destruct (hex_digits_last n (generation m) "") as (d & s & Hd & ->).
  exists d. rewrite !append_assoc, list_ascii_append. eexists. split; [done|]. done.
Qed.

(** The size of the file only ends up in the metadata. *)
Lemma parse_size name size size' m :
  parse name size = Some m →
  parse name size' = Some (MkMetadata (lsn m) (trailer_offset m) (present_objects m) (generation m) size').
Proof.
  unfold parse. intros Hp. repeat (apply bind_Some in Hp as (? & E & Hp); rewrite E; clear E; cbn -[split from_str_radix_16]).
  by simplify_eq.
Qed.

Lemma to_file_name_lsn m m' :
  Metadata_typed m → Metadata_typed m' → to_file_name m = to_file_name m' → lsn m = lsn m'.
Proof.
  intros Hm Hm' E. pose proof (split_to_file_name m Hm) as Hs.
  rewrite E, split_to_file_name in Hs by done. injection Hs as E1 _ _ _.
  destruct Hm as [[] _ _ _], Hm' as [[] _ _ _].
  assert (from_str_radix_16 (two64 - 1) (format_hex 16 (lsn m)) = Some (lsn m)) as E2
    by (apply from_str_radix_format_hex; lia).
  rewrite <- E1, from_str_radix_format_hex in E2 by lia. congruence.
Qed.

Lemma parse_to_file_name m :
  Metadata_typed m → parse (to_file_name m) (file_size m) = Some m.
Proof.
  intros Hm. unfold parse. rewrite split_to_file_name by done. destruct Hm as [[] [] [] []].
  simpl. rewrite !from_str_radix_format_hex by (lia || unfold two64 in *; lia). simpl.
  by destruct m.
Qed.

Lemma tmp_file_name_tmp n : ends_with (tmp_file_name n) "tmp" = true.
Proof.
  apply bool_decide_eq_true. unfold tmp_file_name. rewrite list_ascii_append.
  eexists (_ ++ ["-"%char]). rewrite <- app_assoc. done.
Qed.

Lemma to_file_name_not_tmp m : 0 ≤ generation m → ends_with (to_file_name m) "tmp" = false.
Proof.
  intros Hg. apply bool_decide_eq_false. intros [l Hl].
  destruct (to_file_name_last m Hg) as (d & l' & Hd & E). rewrite E in Hl.
  change (list_ascii_of_string "tmp") with (["t"%char; "m"%char] ++ ["p"%char]) in Hl.
  rewrite app_assoc in Hl. apply app_inj_tail in Hl as [_ E'].
  by apply (ascii_of_digit_not_sign d Hd).
Qed.

Lemma tmp_file_name_inj n n' : tmp_file_name n = tmp_file_name n' → n = n'.
Proof.
  unfold tmp_file_name. intros E. apply (inj pretty).
  assert (list_ascii_of_string (pretty n) = list_ascii_of_string (pretty n')) as E'.
  { apply (f_equal list_ascii_of_string) in E. rewrite !list_ascii_append in E.
    by apply app_inv_tail in E. }
  apply (f_equal string_of_list_ascii) in E'. by rewrite !string_of_list_ascii_of_string in E'.
Qed.

(** * Theorems *)

(** C32. Parsing the name of a file gives back the metadata it was named after, so the name
    determines the metadata up to the size of the file. *)
Theorem file_name_roundtrip m m' :
  Metadata_typed m → Metadata_typed m' →
  parse (to_file_name m) (file_size m) = Some m ∧
  (to_file_name m = to_file_name m' → file_size m = file_size m' → m = m').
Proof.
  intros Hm Hm'. split; [by apply parse_to_file_name|]. intros E Es.
  pose proof (parse_to_file_name m Hm) as P. rewrite E, Es, parse_to_file_name in P by done. congruence.
Qed.

(** Recovery can tell the names apart: temporary files are recognised by their suffix, a
    storage file never is, and the marker file does not parse. *)
Theorem file_names_distinguished m n size :
  0 ≤ generation m →
  ends_with (tmp_file_name n) "tmp" = true ∧
  ends_with (to_file_name m) "tmp" = false ∧
  ends_with LEGEND "tmp" = false ∧
  parse LEGEND size = None.
Proof.
  intros Hg. split_and!; [apply tmp_file_name_tmp|by apply to_file_name_not_tmp|done..].
Qed.
