(* ===== verification/ZstdDict.v ===== *)
(** ZstdDict: [src/zstd.rs], dictionaries for compression, and [uninit_boxed_slice]
    of [src/lib.rs].

    A dictionary holds one decompression context per thread, created the first time
    the thread decompresses with it. *)
From S2P Require Import Prelude Effects Os Deps.

(** [uninit_boxed_slice(len)]: the layout does not exist above [isize::MAX]. The
    contents are overwritten by every caller, so only the check is left. *)
Definition uninit_boxed_slice {S} (n : Z) : M S () := allocate n.

Section operations.
Context `{Deps}.

Record ThreadLocalDict := MkThreadLocalDict {
  dict_bytes : bytes;
  tls : gmap Z DCtx;
}.

Record ZstdDict := MkZstdDict { decompressor : option ThreadLocalDict }.

Definition ZstdDict_default : ZstdDict := MkZstdDict None.

Definition from_dict_bytes (dict : bytes) : ZstdDict :=
  MkZstdDict (Some (MkThreadLocalDict dict ∅)).

(** [DictInABox::decompress] *)
Definition DictInABox_decompress {S} (dctx : DCtx) (buf : bytes) : M S (bytes * DCtx) :=
  frame ← unwrap (find_decompressed_size buf);
  exact_size ← unwrap frame;
  uninit_boxed_slice exact_size;;
  let '(dctx', res) := dctx_decompress dctx exact_size buf in
  out ← unwrap res;
  mret (out, dctx').

(** [ThreadLocalDict::decompress], called from thread [tid] *)
Definition ThreadLocalDict_decompress {S} (self : ThreadLocalDict) (tid : Z) (buf : bytes)
    : M S (bytes * ThreadLocalDict) :=
  match tls self !! tid with
  | Some dict =>
      '(ret, dict') ← DictInABox_decompress dict buf;
      mret (ret, MkThreadLocalDict (dict_bytes self) (<[tid := dict']> (tls self)))
  | None =>
      dict ← unwrap (dctx_load_dictionary dctx_create (dict_bytes self));
      '(ret, diab) ← DictInABox_decompress dict buf;
      mret (ret, MkThreadLocalDict (dict_bytes self) (<[tid := diab]> (tls self)))
  end.

(** [ZstdDict::decompress] *)
Definition decompress {S} (self : ZstdDict) (tid : Z) (buf : bytes) : M S (bytes * ZstdDict) :=
  match decompressor self with
  | Some d =>
      '(ret, d') ← ThreadLocalDict_decompress d tid buf;
      mret (ret, MkZstdDict (Some d'))
  | None => mret (buf, self)
  end.

(** the samples: present, not deleted, not empty *)
Definition samples_iter (samples : gmap Z (option bytes)) : list bytes :=
  filter (λ v, v ≠ []) (omap snd (iter_order samples)).

Definition from_samples {S} (samples : gmap Z (option bytes)) : M S (option bytes) :=
  let sizes := (λ v : bytes, len v) <$> samples_iter samples in
  let total_size := foldl (λ acc n, wrap64 (acc + n)) 0 sizes in
  if bool_decide (len sizes < 8) || bool_decide (total_size / len sizes ≤ 8) then mret None
  else
    allocate total_size;;
    let buffer := concat (samples_iter samples) in
    assert_that (bool_decide (foldl (λ acc n, wrap64 (acc + n)) 0 sizes = len buffer));;
    let max_size := Z.max (Z.min (total_size / 100) (128 * 1024)) 4096 in
    match train_from_buffer max_size buffer sizes with
    | Some dict_buf => mret (Some dict_buf)
    | None => mret None
    end.
End operations.

Section theorems.
Context `{Deps, !DepsLaws}.

(** [z] decompresses with the dictionary [d], whatever its threads have cached. *)
Definition zstd_dict_for (z : ZstdDict) (d : option bytes) : Prop :=
  match decompressor z, d with
  | None, None => True
  | Some t, Some d => dict_bytes t = d ∧ map_Forall (λ _ x, dctx_dict x d) (tls t)
  | _, _ => False
  end.

(** [stored] is what the writer stores for [raw] under the dictionary [d]. *)
Definition stored_as (d : option bytes) (raw stored : bytes) : Prop :=
  match d with
  | None => stored = raw
  | Some d =>
      ∃ c level c', cctx_dict c d ∧ len raw ≤ isize_max ∧
        cctx_compress c raw level = (c', Some stored)
  end.

Lemma zstd_dict_for_default : zstd_dict_for ZstdDict_default None.
Proof. done. Qed.

Lemma zstd_dict_for_bytes d : zstd_dict_for (from_dict_bytes d) (Some d).
Proof. by split; [|apply map_Forall_empty]. Qed.

Lemma DictInABox_decompress_stored {S} x d raw stored (s : S) :
  dctx_dict x d → stored_as (Some d) raw stored →
  wp (DictInABox_decompress x stored) (λ r s', s' = s ∧ r.1 = raw ∧ dctx_dict r.2 d)
    (λ _ _, False) (λ _, False) s.
Proof.
  intros Hx (c & level & c' & Hc & Hlen & E).
  destruct (cctx_compress_ok c d raw level Hc Hlen) as (c'' & out & E' & _ & _ & Hsize & Hdec).
  rewrite E in E'. simplify_eq. destruct (Hdec x Hx) as (x' & Ex & Hx').
  unfold DictInABox_decompress. rewrite Hsize. wp_steps. eapply wp_unwrap; [done|]. wp_steps.
  eapply wp_unwrap; [done|]. wp_steps. unfold uninit_boxed_slice, allocate.
  apply wp_assert; [by apply bool_decide_eq_true|]. rewrite Ex. wp_steps.
  eapply wp_unwrap; [done|]. wp_steps. done.
Qed.

Lemma wp_decompress {S} z d tid raw stored (Q : bytes * ZstdDict → S → Prop) E C s :
  zstd_dict_for z d → stored_as d raw stored →
  (∀ z', zstd_dict_for z' d → Q (raw, z') s) →
  wp (decompress z tid stored) Q E C s.
Proof.
  intros Hz Hst HQ.
  eapply wp_mono with (Q := λ r s', s' = s ∧ r.1 = raw ∧ zstd_dict_for r.2 d)
    (E := λ _ _, False) (C := λ _, False); [| |done..].
  2: { intros [r z'] s' (-> & E' & ?). simpl in *. subst. auto. }
  clear HQ Q. destruct z as [[t|]], d as [d|]; try done; unfold decompress; simpl.
  destruct Hz as [Hd Hc]. simpl in *. wp_steps. unfold ThreadLocalDict_decompress.
  assert (∀ x, dctx_dict x d →
    wp ('(ret, x') ← DictInABox_decompress x stored;
        mret (ret, MkThreadLocalDict (dict_bytes t) (<[tid := x']> (tls t))))
      (λ r s', s' = s ∧ r.1 = raw ∧ zstd_dict_for (MkZstdDict (Some r.2)) (Some d))
      (λ _ _, False) (λ _, False) s) as Hrun.
  { intros x Hx. wp_steps. eapply wp_mono; [by apply DictInABox_decompress_stored|..]; try done.
    intros [r x'] s' (-> & Er & Hx'). wp_steps. split_and!; [done..|]. split; [done|].
    by apply map_Forall_insert_2. }
  eapply wp_mono with (Q := λ r s', s' = s ∧ r.1 = raw ∧ zstd_dict_for (MkZstdDict (Some r.2)) (Some d))
    (E := λ _ _, False) (C := λ _, False); [| |done..].
  + destruct (tls t !! tid) as [x|] eqn:Et; [by apply Hrun, (Hc tid)|]. wp_steps.
    destruct (dctx_load_ok d) as (x & Ex & Hx). eapply wp_unwrap; [by rewrite Hd|]. auto.
  + intros [r t'] s' (-> & ? & ?). by wp_steps.
Qed.

(** C29. Decompression undoes compression: an object stored under a dictionary (or under
    none) is read back exactly, from any thread and whatever contexts earlier calls
    have cached; the cache stays usable, and nothing panics. *)
Theorem decompress_stored {S} z d tid raw stored (s : S) :
  zstd_dict_for z d → stored_as d raw stored →
  ∃ z', decompress z tid stored s = (Ok (raw, z'), s) ∧ zstd_dict_for z' d.
Proof.
  intros Hz Hst.
  assert (wp (decompress z tid stored) (λ r s', s' = s ∧ r.1 = raw ∧ zstd_dict_for r.2 d)
         (λ _ _, False) (λ _, False) s) as Hwp by (by eapply wp_decompress).
  unfold wp in Hwp. destruct (decompress z tid stored s) as [[[r z']| | |] s']; try done.
  destruct Hwp as (-> & E & ?). simpl in E. subst. eauto.
Qed.

Lemma foldl_wrap_sum ns z :
  is_u64 z → foldl (λ acc n, wrap64 (acc + n)) z ns = wrap64 (z + foldr Z.add 0 ns).
Proof.
  revert z. induction ns as [|n ns IH]; intros z Hz; simpl.
  - by rewrite Z.add_0_r, wrap64_small.
  - rewrite IH by apply wrap64_is_u64. unfold wrap64. rewrite Zplus_mod_idemp_l. f_equal. lia.
Qed.

Lemma len_concat (ls : list bytes) : len (concat ls) = foldr Z.add 0 ((λ v : bytes, len v) <$> ls).
Proof. induction ls as [|l ls IH]; csimpl; [done|]. rewrite length_app, <- IH. lia. Qed.

Lemma samples_total samples :
  foldr Z.add 0 ((λ v : bytes, len v) <$> samples_iter samples) = len (concat (samples_iter samples)).
Proof. by rewrite len_concat. Qed.

Lemma wp_from_samples {S} samples (Q : option bytes → S → Prop) E C s :
  len (concat (samples_iter samples)) ≤ isize_max →
  (∀ r, (len (samples_iter samples) < 8
         ∨ len (concat (samples_iter samples)) / len (samples_iter samples) ≤ 8 → r = None) →
        (∀ d, r = Some d → d ≠ [] ∧ len d ≤ 128 * 1024) → Q r s) →
  wp (from_samples samples) Q E C s.
Proof.
  intros Htotal HQ. unfold from_samples. rewrite foldl_wrap_sum by u64_lia.
  rewrite samples_total, Z.add_0_l, length_fmap, wrap64_small by u64_lia.
  set (total := len (concat (samples_iter samples))) in *.
  set (n := len (samples_iter samples)) in *.
  destruct (bool_decide (n < 8) || bool_decide (total / n ≤ 8)) eqn:E'.
  { wp_steps. apply HQ; [done|]. intros d [=]. }
  apply orb_false_iff in E' as [E1%bool_decide_eq_false E2%bool_decide_eq_false].
  wp_steps. apply wp_assert; [by apply bool_decide_eq_true|]. wp_steps.
  apply wp_assert; [by apply bool_decide_eq_true|].
  destruct (train_from_buffer _ _ _) as [d|] eqn:Et; wp_steps; apply HQ; try lia; [|intros d [=]].
  intros d' [= <-]. apply train_len in Et as [??]. split; [done|]. lia.
Qed.

End theorems.
