(* ===== verification/Storage.v ===== *)
(** Storage: the layout of a storage file. [hash] and [read_range_at] of [src/lib.rs],
    the trailer of [src/trailer.rs], and the byte layout of an object that
    [src/writepath.rs] writes and [src/readpath.rs] and [src/gc.rs] read back.

    A file is a sequence of objects (checksum, object id, length, data) followed by
    one trailer (checksum, number of entries, dictionary length, entries, dictionary)
    that lists every object of the file, deletions included. *)
From S2P Require Import Prelude Effects Os Deps Locations ZstdDict.

Section operations.
Context `{Deps}.

(** [hash]: the checksum of an object, as it is stored *)
Definition hash (len_buf pid_buf object_buf : bytes) : bytes :=
  let hasher := hasher_new in
  let hasher := hasher_update hasher len_buf in
  let hasher := hasher_update hasher pid_buf in
  let hasher := hasher_update hasher object_buf in
  to_le_bytes 4 (hasher_finalize hasher).

(** [read_range_at] *)
Definition read_range_at (file : File) (start end_ : Z) : IO bytes :=
  let buf_sz := wrap64 (end_ - start) in
  allocate buf_sz;;
  read_exact_at file buf_sz start.

(** [buf.chunks(16)], with the number of bytes left as fuel *)
Fixpoint chunks16 (fuel : nat) (buf : bytes) : list bytes :=
  match fuel, buf with
  | S fuel, _ :: _ => take 16 buf :: chunks16 fuel (drop 16 buf)
  | _, _ => []
  end.

(** one entry of the offset table; the conversions to arrays panic on a short chunk *)
Definition read_entry {S} (sub_buf : bytes) : M S (Z * RelativeDiskLocation.t) :=
  oid ← unwrap (slice sub_buf 0 8);
  raw ← unwrap (slice sub_buf 8 (len sub_buf));
  assert_that (bool_decide (len raw = 8));;
  mret (from_le_bytes oid, RelativeDiskLocation.from_raw (from_le_bytes raw)).

Definition push_entry {S} (ret : list (Z * RelativeDiskLocation.t)) (sub_buf : bytes)
    : M S (list (Z * RelativeDiskLocation.t)) :=
  e ← read_entry sub_buf; mret (ret ++ [e]).

(** [read_trailer_from_buf] *)
Definition read_trailer_from_buf {S} (buf : bytes)
    : M S (list (Z * RelativeDiskLocation.t) * ZstdDict) :=
  if bool_decide (len buf < 20) then fail InvalidData
  else
    b0 ← unwrap (slice buf 0 4);
    let expected_crc := from_le_bytes b0 in
    let actual_crc := crc32fast_hash (drop 4 buf) in
    if negb (actual_crc =? expected_crc) then fail InvalidData
    else
      b1 ← unwrap (slice buf 4 12);
      b2 ← unwrap (slice buf 12 20);
      let offsets := from_le_bytes b1 in
      let zstd_dict_size := from_le_bytes b2 in
      let offsets_begin := 4 + 8 + 8 in
      let offsets_end := wrap64 (offsets_begin + wrap64 (offsets * 16)) in
      let zstd_dict_buf_start := offsets_end in
      let zstd_dict_buf_end := wrap64 (zstd_dict_buf_start + zstd_dict_size) in
      table ← unwrap (slice buf offsets_begin offsets_end);
      ret ← foldM push_entry [] (chunks16 (length table) table);
      zstd_dict ←
        (if bool_decide (zstd_dict_size > 0) then
           dict_buf ← unwrap (slice buf zstd_dict_buf_start zstd_dict_buf_end);
           mret (from_dict_bytes dict_buf)
         else mret ZstdDict_default);
      mret (ret, zstd_dict).

(** [read_trailer] *)
Definition read_trailer (file : File) (trailer_offset file_size : Z)
    : IO (list (Z * RelativeDiskLocation.t) * ZstdDict) :=
  buf ← read_range_at file trailer_offset file_size;
  read_trailer_from_buf buf.

(** the buffer [write_trailer] builds, for the entries in the order they are iterated *)
Definition trailer_entry (e : Z * RelativeDiskLocation.t) : bytes :=
  to_le_bytes 8 e.1 ++ to_le_bytes 8 (RelativeDiskLocation.to_raw e.2).

Definition trailer_buf (entries : list (Z * RelativeDiskLocation.t)) (dict_bytes_opt : option bytes)
    : bytes :=
  let zstd_dict_buffer := default [] dict_bytes_opt in
  let buf := replicate 4 x00 ++ to_le_bytes 8 (len entries)
    ++ to_le_bytes 8 (len zstd_dict_buffer)
    ++ concat (trailer_entry <$> entries) ++ zstd_dict_buffer in
  let crc := crc32fast_hash (drop 4 buf) in
  to_le_bytes 4 crc ++ drop 4 buf.

(** [write_trailer] *)
Definition write_trailer (file : File) (trailer_offset : Z)
    (new_shifted_relative_locations : gmap Z RelativeDiskLocation.t)
    (dict_bytes_opt : option bytes) : IO () :=
  let buf := trailer_buf (iter_order new_shifted_relative_locations) dict_bytes_opt in
  write_all_at file buf trailer_offset;;
  sync_all_file file.

(** the bytes of one object: what the four [write_all] calls of the writer append *)
Definition encode_object (object_id : Z) (output_object : bytes) : bytes :=
  let len_buf := to_le_bytes 8 (len output_object) in
  let pid_buf := to_le_bytes 8 object_id in
  hash len_buf pid_buf output_object ++ pid_buf ++ len_buf ++ output_object.
End operations.

#[global] Arguments trailer_entry _ : simpl never.
#[global] Arguments encode_object {_} _ _ : simpl never.

Section lemmas.
Context `{Deps, !DepsLaws}.

Lemma length_hash a b c : length (hash a b c) = 4%nat.
Proof. apply length_to_le_bytes. Qed.

Lemma length_trailer_entry e : length (trailer_entry e) = 16%nat.
Proof. unfold trailer_entry. by rewrite length_app, !length_to_le_bytes. Qed.

Lemma concat_trailer_cons e es :
  concat (trailer_entry <$> e :: es) = trailer_entry e ++ concat (trailer_entry <$> es).
Proof. done. Qed.

Lemma length_trailer_entries es : length (concat (trailer_entry <$> es)) = (16 * length es)%nat.
Proof.
  induction es as [|e es IH]; [done|]. rewrite concat_trailer_cons.
  rewrite length_app, length_trailer_entry, IH, length_cons. lia.
Qed.

Lemma len_trailer_buf es d :
  len (trailer_buf es d) = 20 + 16 * len es + len (default [] d).
Proof.
  unfold trailer_buf. rewrite drop_app_length' by done.
  rewrite !length_app, !length_to_le_bytes, length_trailer_entries. lia.
Qed.

Lemma len_encode_object oid b : len (encode_object oid b) = HEADER_LEN + len b.
Proof.
  unfold encode_object, HEADER_LEN. rewrite !length_app, length_hash, !length_to_le_bytes. lia.
Qed.

Lemma chunks16_entries es fuel :
  (length es ≤ fuel)%nat →
  chunks16 fuel (concat (trailer_entry <$> es)) = trailer_entry <$> es.
Proof.
  revert fuel. induction es as [|e es IH]; intros fuel Hf; [by destruct fuel|].
  rewrite concat_trailer_cons, fmap_cons.
  destruct fuel as [|fuel]; [simpl in Hf; lia|].
  pose proof (length_trailer_entry e) as Hl.
  destruct (trailer_entry e) as [|b bs] eqn:E; [done|]. rewrite <- E in *. 
  assert (chunks16 (S fuel) (trailer_entry e ++ concat (trailer_entry <$> es))
          = take 16 (trailer_entry e ++ concat (trailer_entry <$> es))
            :: chunks16 fuel (drop 16 (trailer_entry e ++ concat (trailer_entry <$> es)))) as ->
    by by rewrite E.
  rewrite take_app_length', drop_app_length' by done. f_equal. apply IH. simpl in Hf. lia.
Qed.

Lemma read_entry_spec {S} e (s : S) :
  is_u64 e.1 → is_u64 e.2 → read_entry (trailer_entry e) s = (Ok e, s).
Proof.
  intros H1 H2. unfold read_entry, trailer_entry.
  rewrite slice_app_start by (rewrite length_to_le_bytes; lia).
  rewrite slice_app_end by (rewrite ?length_app, !length_to_le_bytes; lia).
  unfold mbind, M_bind, unwrap, mret, M_ret. rewrite length_to_le_bytes. simpl.
  unfold RelativeDiskLocation.from_raw, RelativeDiskLocation.to_raw.
  rewrite !from_to_le_bytes_8 by done. by destruct e.
Qed.

Lemma push_entry_spec {S} e acc (s : S) :
  is_u64 e.1 → is_u64 e.2 → push_entry acc (trailer_entry e) s = (Ok (acc ++ [e]), s).
Proof. intros. unfold push_entry, mbind, M_bind. by rewrite read_entry_spec. Qed.

Lemma read_entries_spec {S} es (acc : list (Z * Z)) (s : S) :
  Forall (λ e, is_u64 e.1 ∧ is_u64 e.2) es →
  foldM push_entry acc (trailer_entry <$> es) s = (Ok (acc ++ es), s).
Proof.
  intros Hes. revert acc. induction Hes as [|e es [? ?] _ IH]; intros acc.
  - simpl. by rewrite app_nil_r.
  - rewrite fmap_cons. cbn [foldM]. unfold mbind, M_bind. rewrite push_entry_spec by done.
    rewrite IH. by rewrite <- app_assoc.
Qed.
End lemmas.

Section theorems.
Context `{Deps, !DepsLaws}.

(** The dictionary a trailer carries: an empty one counts as none. *)
Definition trailer_dict (dict_bytes_opt : option bytes) : ZstdDict :=
  match dict_bytes_opt with
  | None | Some [] => ZstdDict_default
  | Some d => from_dict_bytes d
  end.

Definition trailer_body (es : list (Z * RelativeDiskLocation.t)) (d : bytes) : bytes :=
  to_le_bytes 8 (len es) ++ to_le_bytes 8 (len d) ++ concat (trailer_entry <$> es) ++ d.

Lemma trailer_buf_shape es d :
  trailer_buf es d
  = to_le_bytes 4 (crc32fast_hash (trailer_body es (default [] d))) ++ trailer_body es (default [] d).
Proof. unfold trailer_buf. by rewrite drop_app_length' by done. Qed.

(** The reader's slices of the body fall on the fields of the writer. *)
Lemma trailer_body_slices es d c :
  length c = 4%nat →
  let buf := c ++ trailer_body es d in
  slice buf 0 4 = Some c ∧
  slice buf 4 12 = Some (to_le_bytes 8 (len es)) ∧
  slice buf 12 20 = Some (to_le_bytes 8 (len d)) ∧
  slice buf 20 (20 + 16 * len es) = Some (concat (trailer_entry <$> es)) ∧
  slice buf (20 + 16 * len es) (20 + 16 * len es + len d) = Some d.
Proof.
  intros Hc buf. subst buf. unfold trailer_body.
  pose proof (length_trailer_entries es) as He.
  set (e := concat (trailer_entry <$> es)) in *. clearbody e.
  set (x := to_le_bytes 8 (len es)). set (y := to_le_bytes 8 (len d)).
  assert (length x = 8%nat ∧ length y = 8%nat) as [Hx Hy] by (split; apply length_to_le_bytes).
  clearbody x y. split_and!.
  - apply slice_app_start. lia.
  - apply slice_app; lia.
  - rewrite app_assoc. apply slice_app; rewrite length_app; lia.
  - rewrite (app_assoc x), (app_assoc c). apply slice_app; rewrite !length_app; lia.
  - rewrite (app_assoc y), (app_assoc x), (app_assoc c).
    apply slice_app_end; rewrite !length_app; lia.
Qed.

Lemma read_trailer_from_buf_written {S} es d (s : S) :
  Forall (λ e, is_u64 e.1 ∧ is_u64 e.2) es →
  20 + 16 * len es + len (default [] d) < two64 →
  read_trailer_from_buf (trailer_buf es d) s = (Ok (es, trailer_dict d), s).
Proof.
  intros Hes Hlen. rewrite trailer_buf_shape. set (dd := default [] d) in *.
  pose proof (crc32fast_hash_u32 (trailer_body es dd)) as Hc.
  set (c := crc32fast_hash (trailer_body es dd)) in *.
  destruct (trailer_body_slices es dd (to_le_bytes 4 c)) as (E0&E1&E2&E3&E4);
    [apply length_to_le_bytes|].
  assert (len (to_le_bytes 4 c ++ trailer_body es dd) = 20 + 16 * len es + len dd) as Hl.
  { unfold trailer_body. rewrite !length_app, !length_to_le_bytes, length_trailer_entries. lia. }
  unfold read_trailer_from_buf. rewrite bool_decide_eq_false_2 by lia.
  rewrite drop_app_length' by (by rewrite length_to_le_bytes). fold c.
  rewrite E0, E1, E2. unfold mbind, M_bind, unwrap, mret, M_ret.
  rewrite (from_to_le_bytes 4) by (simpl; lia). rewrite Z.eqb_refl. cbn [negb].
  rewrite !from_to_le_bytes_8 by u64_lia.
  replace (wrap64 (len es * 16)) with (16 * len es) by (rewrite wrap64_small; u64_lia).
  change (4 + 8 + 8) with 20. rewrite !(wrap64_small (20 + _)) by u64_lia.
  rewrite wrap64_small by u64_lia. rewrite E3, E4.
  rewrite chunks16_entries by (rewrite length_trailer_entries; lia).
  rewrite read_entries_spec by done.
  unfold trailer_dict. subst dd. destruct d as [[|b bs]|]; simpl; done.
Qed.

(** C27. What [write_trailer] writes, [read_trailer_from_buf] reads back: the same entries
    in the same order, and the same dictionary. *)
Theorem trailer_roundtrip {S} locations d (s : S) :
  map_Forall (λ oid loc, is_u64 oid ∧ is_u64 loc) locations →
  Z.of_nat (size locations) < 2 ^ 59 → len (default [] d) < 2 ^ 62 →
  ∃ entries,
    read_trailer_from_buf (trailer_buf (iter_order locations) d) s
    = (Ok (entries, trailer_dict d), s) ∧
    list_to_map entries = locations ∧ NoDup entries.*1.
Proof.
  intros Hu Hsize Hd. exists (iter_order locations). split_and!.
  - apply read_trailer_from_buf_written; [|rewrite iter_order_length; u64_lia].
    rewrite Forall_forall. intros [k v] Hin%iter_order_elem. exact (Hu _ _ Hin).
  - apply iter_order_to_map.
  - apply iter_order_nodup.
Qed.

(** C28. A trailer that is too short or whose checksum does not match is an error, never a
    panic and never accepted. *)
Theorem read_trailer_rejects {S} buf (s : S) :
  (len buf < 20 ∨ ∃ b, slice buf 0 4 = Some b ∧ from_le_bytes b ≠ crc32fast_hash (drop 4 buf)) →
  read_trailer_from_buf buf s = (Err InvalidData, s).
Proof.
  intros Hbad. unfold read_trailer_from_buf. case_bool_decide; [done|].
  destruct Hbad as [?|(b & Eb & Hne)]; [lia|]. rewrite Eb.
  unfold mbind, M_bind, unwrap, mret, M_ret.
  destruct (Z.eqb_spec (crc32fast_hash (drop 4 buf)) (from_le_bytes b)); [congruence|done].
Qed.
End theorems.
