(* ===== verification/State.v ===== *)
(** State: the data of [src/lib.rs]. [FileAndMetadata], [FileMap] and [Marble], and the
    state in which the methods of [Marble] run.

    An [Arc<FileAndMetadata>] is a pointer into the heap [arcs], because the file map
    and its users share and mutate the same object; atomics are plain fields.
    [World] is one open store together with the operating system. *)
From S2P Require Import Prelude Effects Os Deps Locations Metadata ZstdDict.

Section state.
Context `{Deps}.

Record FileAndMetadata := MkFam {
  fam_file : File;
  fam_location : DiskLocation.t;
  fam_path : option string;           (* null until installed *)
  fam_metadata : option Metadata;     (* null until installed *)
  fam_live_objects : Z;
  fam_generation : Z;
  fam_rewrite_claim : bool;
  fam_synced : bool;
  fam_zstd_dict : ZstdDict;
}.

Record Counters := MkCounters {
  decompressed_bytes_read : Z;
  compressed_bytes_read : Z;
  decompressed_bytes_written : Z;
  compressed_bytes_written : Z;
  high_level_user_bytes_written : Z;
}.

Definition Counters_zero : Counters := MkCounters 0 0 0 0 0.

(** [FileMap]: the ordered map of files, the heap behind its [Arc]s, and the next
    sequence number. *)
Record FileMap := MkFileMap {
  fams : CM;
  arcs : gmap Z FileAndMetadata;
  next_arc : Z;
  next_file_lsn : Z;
}.

(** [Marble], less the configuration, which is an argument of its methods. *)
Record Marble := MkMarble {
  location_table : PT;
  max_object_id : Z;
  file_map : FileMap;
  counters : Counters;
}.

Record World := MkWorld {
  w_os : os;
  w_marble : Marble;
}.

(** ** Updates of one field *)

Definition set_fam_path (x : option string) (f : FileAndMetadata) : FileAndMetadata :=
  MkFam (fam_file f) (fam_location f) x (fam_metadata f) (fam_live_objects f)
    (fam_generation f) (fam_rewrite_claim f) (fam_synced f) (fam_zstd_dict f).
Definition set_fam_metadata (x : option Metadata) (f : FileAndMetadata) : FileAndMetadata :=
  MkFam (fam_file f) (fam_location f) (fam_path f) x (fam_live_objects f)
    (fam_generation f) (fam_rewrite_claim f) (fam_synced f) (fam_zstd_dict f).
Definition set_fam_live_objects (x : Z) (f : FileAndMetadata) : FileAndMetadata :=
  MkFam (fam_file f) (fam_location f) (fam_path f) (fam_metadata f) x
    (fam_generation f) (fam_rewrite_claim f) (fam_synced f) (fam_zstd_dict f).
Definition set_fam_rewrite_claim (x : bool) (f : FileAndMetadata) : FileAndMetadata :=
  MkFam (fam_file f) (fam_location f) (fam_path f) (fam_metadata f) (fam_live_objects f)
    (fam_generation f) x (fam_synced f) (fam_zstd_dict f).
Definition set_fam_synced (x : bool) (f : FileAndMetadata) : FileAndMetadata :=
  MkFam (fam_file f) (fam_location f) (fam_path f) (fam_metadata f) (fam_live_objects f)
    (fam_generation f) (fam_rewrite_claim f) x (fam_zstd_dict f).
Definition set_fam_zstd_dict (x : ZstdDict) (f : FileAndMetadata) : FileAndMetadata :=
  MkFam (fam_file f) (fam_location f) (fam_path f) (fam_metadata f) (fam_live_objects f)
    (fam_generation f) (fam_rewrite_claim f) (fam_synced f) x.

Definition set_fams (x : CM) (m : FileMap) : FileMap :=
  MkFileMap x (arcs m) (next_arc m) (next_file_lsn m).
Definition set_arcs (x : gmap Z FileAndMetadata) (m : FileMap) : FileMap :=
  MkFileMap (fams m) x (next_arc m) (next_file_lsn m).
Definition set_next_file_lsn (x : Z) (m : FileMap) : FileMap :=
  MkFileMap (fams m) (arcs m) (next_arc m) x.

Definition set_os (x : os) (w : World) : World := MkWorld x (w_marble w).
Definition set_location_table (x : PT) (w : World) : World :=
  let m := w_marble w in MkWorld (w_os w) (MkMarble x (max_object_id m) (file_map m) (counters m)).
Definition set_max_object_id (x : Z) (w : World) : World :=
  let m := w_marble w in MkWorld (w_os w) (MkMarble (location_table m) x (file_map m) (counters m)).
Definition set_file_map (x : FileMap) (w : World) : World :=
  let m := w_marble w in
  MkWorld (w_os w) (MkMarble (location_table m) (max_object_id m) x (counters m)).
Definition set_counters (x : Counters) (w : World) : World :=
  let m := w_marble w in
  MkWorld (w_os w) (MkMarble (location_table m) (max_object_id m) (file_map m) x).

Definition w_table (w : World) : PT := location_table (w_marble w).
Definition w_fm (w : World) : FileMap := file_map (w_marble w).

(** ** Running the parts in the whole *)

Definition io {A} (m : IO A) : M World A := zoom w_os set_os m.

Definition fm {A} (m : M FileMap A) : M World A := zoom w_fm set_file_map m.

(** one access to the location table; [None] is a panic inside it *)
Definition table {A} (f : PT → option A * PT) : M World A :=
  r ← (λ w, let '(r, t) := f (w_table w) in (Ok r, set_location_table t w));
  unwrap r.
End state.

(** ** Symbolic execution in the whole *)

Section wp.
Context `{Deps}.

Lemma set_file_map_id w : set_file_map (w_fm w) w = w.
Proof. by destruct w as [? []]. Qed.

Lemma w_fm_set m w : w_fm (set_file_map m w) = m.
Proof. done. Qed.

Lemma set_file_map_twice m m' w : set_file_map m (set_file_map m' w) = set_file_map m w.
Proof. done. Qed.

Lemma set_os_id w : set_os (w_os w) w = w.
Proof. by destruct w. Qed.

Lemma wp_io {A} (m : IO A) (Q : A → World → Prop) E C w :
  wp m (λ a o, Q a (set_os o w)) (λ e o, E e (set_os o w)) (λ o, C (set_os o w)) (w_os w) →
  wp (io m) Q E C w.
Proof. apply wp_zoom. Qed.

Lemma wp_fm {A} (m : M FileMap A) (Q : A → World → Prop) E C w :
  wp m (λ a x, Q a (set_file_map x w)) (λ e x, E e (set_file_map x w))
    (λ x, C (set_file_map x w)) (w_fm w) →
  wp (fm m) Q E C w.
Proof. apply wp_zoom. Qed.

Lemma wp_table {A} (f : PT → option A * PT) a t (Q : A → World → Prop) E C w :
  f (w_table w) = (Some a, t) → Q a (set_location_table t w) → wp (table f) Q E C w.
Proof. intros Hf HQ. unfold table, wp, mbind, M_bind. rewrite Hf. exact HQ. Qed.
End wp.

Ltac w_step :=
  lazymatch goal with
  | |- wp (io _) _ _ _ _ => apply wp_io
  | |- wp (fm _) _ _ _ _ => apply wp_fm
  | _ => wp_step
  end.

Ltac w_steps := repeat (w_step; cbn beta).

(** Merges the updates of the file map that execution has accumulated. *)
Ltac w_clean := rewrite ?w_fm_set, ?set_file_map_twice, ?set_file_map_id.
