(* ===== verification/FileMap.v ===== *)
(** FileMap: [src/file_map.rs], the files of an open store.

    The map is ordered by decreasing location, so the file that holds a location is the
    first one at or after it. A file is claimed while somebody writes or rewrites it; the
    claims are released when their [DeferUnclaim] is dropped. *)
From S2P Require Import Prelude Effects Os Deps Locations Metadata ZstdDict Config State.

Section operations.
Context `{Deps}.

(** [DeferUnclaim]: the claimed locations *)
Abbreviation DeferUnclaim := (list Z) (only parsing).

(** [*arc] *)
Definition deref (p : Z) : M FileMap FileAndMetadata :=
  o ← gets (λ m, arcs m !! p);
  unwrap o.

(** an atomic access to the object behind an [Arc] *)
Definition update_fam (p : Z) (f : FileAndMetadata → FileAndMetadata) : M FileMap () :=
  modify (λ m, set_arcs (alter f p (arcs m)) m).

(** [Drop for FileAndMetadata] *)
Definition drop_fam (fam : FileAndMetadata) : M World () :=
  let empty := fam_live_objects fam =? 0 in
  if empty then
    p ← unwrap (fam_path fam);
    try (io (remove_file p));;
    mret ()
  else mret ().

(** the last [Arc] goes away *)
Definition drop_arc (p : Z) : M World () :=
  fam ← fm (deref p);
  fm (modify (λ m, set_arcs (delete p (arcs m)) m));;
  drop_fam fam.

(** [Drop for DeferUnclaim] *)
Definition drop_claims (claims : DeferUnclaim) : M FileMap () :=
  forM claims (λ claim,
    o ← gets (λ m, cm_get (fams m) claim);
    match o with
    | Some p =>
        fam ← deref p;
        update_fam p (set_fam_rewrite_claim false);;
        assert_that (fam_rewrite_claim fam)
    | None => mret ()
    end).

(** [FileAndMetadata::install_metadata_and_path] *)
Definition install_metadata_and_path (p : Z) (metadata : Metadata) (new_path : string)
    : M FileMap () :=
  fam ← deref p;
  update_fam p (set_fam_path (Some new_path));;
  assert_that (bool_decide (fam_path fam = None));;
  update_fam p (set_fam_metadata (Some metadata));;
  assert_that (bool_decide (fam_metadata fam = None)).

Definition MAX_GENERATION : Z := 3.

(** the tests of [files_to_defrag] on one file *)
Definition should_defrag (config : Config) (approximate_fam_len : Z) (fam : FileAndMetadata)
    (metadata : Metadata) : bool :=
  let live_objects := fam_live_objects fam in
  let live_and_dead_objects := present_objects metadata in
  let non_empty := negb (live_objects =? 0) in
  let live_percent := wrap64 (live_objects * 100) / Z.max live_and_dead_objects 1 in
  let candidate_by_percent := live_percent <? file_compaction_percent config in
  let is_small_file :=
    wrap64 (file_size metadata * min_compaction_files config) <? target_file_size config in
  let over_small_file_cleanup_threshold :=
    small_file_cleanup_threshold config <=? approximate_fam_len in
  let candidate_by_size := over_small_file_cleanup_threshold && is_small_file in
  non_empty && (candidate_by_percent || candidate_by_size).

(** one iteration of the loop of [files_to_defrag] *)
Definition defrag_visit (config : Config) (approximate_fam_len : Z)
    (acc : gmap Z (list Z) * DeferUnclaim) (entry : Z * Z) : M FileMap (gmap Z (list Z) * DeferUnclaim) :=
  let '(files_to_defrag, claims) := acc in
  let '(location, p) := entry in
  fam ← deref p;
  assert_that (bool_decide (location = fam_location fam));;
  match fam_metadata fam with
  | None => mret acc
  | Some metadata =>
      if should_defrag config approximate_fam_len fam metadata then
        update_fam p (set_fam_rewrite_claim true);;
        if fam_rewrite_claim fam then mret acc
        else
          assert_that (negb (present_objects metadata =? 0));;
          let generation := Z.min (Z.min (fam_generation fam + 1) 255) MAX_GENERATION in
          mret (<[generation := default [] (files_to_defrag !! generation) ++ [p]]> files_to_defrag,
                claims ++ [location])
      else mret acc
  end.

(** [FileMap::files_to_defrag] *)
Definition files_to_defrag (config : Config) : M FileMap (gmap Z (list Z) * DeferUnclaim) :=
  approximate_fam_len ← gets (λ m, cm_len (fams m));
  entries ← gets (λ m, cm_iter (fams m));
  foldM (defrag_visit config approximate_fam_len) (∅, []) entries.

(** [range((Included(Reverse(location)), Unbounded)).next()] *)
Definition range_next (location : DiskLocation.t) (m : FileMap) : option (Z * Z) :=
  head (cm_range_from (fams m) location).

(** [FileMap::fam_for_location] *)
Definition fam_for_location (location : DiskLocation.t) : M FileMap Z :=
  o ← gets (range_next location);
  '(_, fam) ← unwrap o;
  mret fam.

(** [FileMap::insert] *)
Definition insert (file : File) (written_bytes initial_capacity generation : Z) (is_gc : bool)
    (config : Config) (decompressor : ZstdDict) : M FileMap (DiskLocation.t * DeferUnclaim) :=
  lsn_base ← gets next_file_lsn;
  modify (λ m, set_next_file_lsn (wrap64 (lsn_base + (written_bytes + 1))) m);;
  let lsn := if is_gc then lsn_base else Z.lor lsn_base NEW_WRITE_BATCH_BIT in
  location ← unwrap (DiskLocation.new_fam lsn);
  let fam := {|
    fam_file := file;
    fam_live_objects := initial_capacity;
    fam_generation := generation;
    fam_location := location;
    fam_synced := fsync_each_batch config;
    fam_metadata := None;
    fam_path := None;
    fam_rewrite_claim := true;
    fam_zstd_dict := decompressor;
  |} in
  p ← gets next_arc;
  old ← gets (λ m, cm_get (fams m) location);
  modify (λ m, MkFileMap (cm_insert (fams m) location p) (<[p := fam]> (arcs m)) (p + 1)
                 (next_file_lsn m));;
  assert_that (bool_decide (old = None));;
  let claim := [location] in
  assert_that (negb (lsn =? 0));;
  base ← unwrap (DiskLocation.new_fam lsn);
  mret (base, claim).

(** [FileMap::sync_all] *)
Definition file_map_sync_all : M World bool :=
  entries ← gets (λ w, cm_iter (fams (w_fm w)));
  foldM (λ synced_files '(_, p),
    fam ← fm (deref p);
    if negb (fam_synced fam) then
      io (sync_all_file (fam_file fam));;
      fm (update_fam p (set_fam_synced true));;
      mret true
    else mret synced_files) false entries.

(** [FileMap::verify_file_uninhabited]: empty unless built for validation *)
Definition verify_file_uninhabited (_location : DiskLocation.t) (_location_table : PT)
    : M World () := mret ().

(** [FileMap::verify_files_uninhabited] *)
Definition verify_files_uninhabited (locations : list Z) (location_table : PT) : M World () :=
  forM locations (λ location, verify_file_uninhabited location location_table).

(** the first loop of [prune_empty_files]: claim the empty files *)
Definition prune_visit (acc : list (Z * string) * DeferUnclaim) (entry : Z * Z)
    : M FileMap (list (Z * string) * DeferUnclaim) :=
  let '(paths_to_remove, claims) := acc in
  let '(location, p) := entry in
  fam ← deref p;
  match fam_path fam with
  | None => mret acc
  | Some path =>
      if fam_live_objects fam =? 0 then
        update_fam p (set_fam_rewrite_claim true);;
        if fam_rewrite_claim fam then mret acc
        else mret (paths_to_remove ++ [(location, path)], claims ++ [location])
      else mret acc
  end.

(** [self.fams.remove(&Reverse(location)).unwrap()], its result dropped *)
Definition remove_and_drop (location : Z) : M World () :=
  o ← gets (λ w, cm_get (fams (w_fm w)) location);
  fm (modify (λ m, set_fams (cm_remove (fams m) location) m));;
  p ← unwrap o;
  drop_arc p.

(** [FileMap::prune_empty_files] *)
Definition prune_empty_files : M World () :=
  entries ← gets (λ w, cm_iter (fams (w_fm w)));
  '(paths_to_remove, claims) ← fm (foldM prune_visit ([], []) entries);
  forM paths_to_remove (λ '(location, _),
    location_table ← gets w_table;
    verify_file_uninhabited location location_table;;
    remove_and_drop location);;
  fm (drop_claims claims).

(** one iteration of the loop of [stats] *)
Definition stats_step (acc : Z * Z * Z * Z) (entry : Z * Z) : M FileMap (Z * Z * Z * Z) :=
  let '(fams_len, total_file_size, stored_objects, live_objects) := acc in
  let '(_, p) := entry in
  fam ← deref p;
  match fam_metadata fam with
  | Some metadata =>
      mret (fams_len + 1,
            wrap64 (total_file_size + file_size metadata),
            wrap64 (stored_objects + present_objects metadata),
            wrap64 (live_objects + fam_live_objects fam))
  | None => mret acc
  end.

(** [FileMap::stats]: files, total file size, stored objects, live objects *)
Definition file_map_stats : M FileMap (Z * Z * Z * Z) :=
  entries ← gets (λ m, cm_iter (fams m));
  foldM stats_step (0, 0, 0, 0) entries.

(** [FileMap::delete_partially_installed_fam] *)
Definition delete_partially_installed_fam (location : DiskLocation.t) (tmp_path : string)
    : M World () :=
  o ← gets (λ w, cm_get (fams (w_fm w)) location);
  fm (modify (λ m, set_fams (cm_remove (fams m) location) m));;
  p ← unwrap o;
  fm (update_fam p (set_fam_live_objects 0));;
  fam ← fm (deref p);
  fm (update_fam p (set_fam_path (Some tmp_path)));;
  assert_that (bool_decide (fam_path fam = None));;
  drop_arc p.

(** [FileMap::finalize_fam] *)
Definition finalize_fam (location : DiskLocation.t) (metadata : Metadata)
    (subtract_from_len : Z) (new_path : string) : M FileMap () :=
  o ← gets (λ m, cm_get (fams m) location);
  p ← unwrap o;
  install_metadata_and_path p metadata new_path;;
  fam ← deref p;
  let old := fam_live_objects fam in
  update_fam p (set_fam_live_objects (wrap64 (old - subtract_from_len)));;
  assert_that (subtract_from_len <=? old).

(** [FileMap::decrement_evacuated_fams] *)
Definition decrement_evacuated_fams (new_base_location : DiskLocation.t)
    (replaced_locations : list (Z * DiskLocation.t)) : M FileMap () :=
  forM replaced_locations (λ '(_object_id, replaced_location),
    o ← gets (range_next replaced_location);
    '(fam_location, p) ← unwrap o;
    assert_that (negb (fam_location =? new_base_location));;
    fam ← deref p;
    let old := fam_live_objects fam in
    update_fam p (set_fam_live_objects (wrap64 (old - 1)));;
    assert_that (1 <=? old)).
End operations.
