(* ===== verification/WritePath.v ===== *)
(** WritePath: [src/writepath.rs]. [write_batch] writes one batch into one file;
    [shard_batch] is shared with [maintenance], which may split its batch over several
    shards; [write_batch_inner] writes one file and installs it. *)
From S2P Require Import Prelude Effects Os Deps Locations LocationTable Config Metadata.
From S2P Require Import ZstdDict Storage State FileMap.

Section operations.
Context `{Deps}.

Definition NEW_WRITE_GENERATION : Z := 0.

Abbreviation objects_map := (gmap Z (option bytes)) (only parsing).

(** ** [shard_batch] *)

Record Sharding := MkSharding {
  shards : gmap Z (Z * objects_map);
  fragmented_shards : list (Z * objects_map);
  high_level_bytes : Z;
  max_oid : Z;
}.

Definition Sharding_empty : Sharding := MkSharding ∅ [] 0 0.

(** one iteration of the loop over the batch *)
Definition shard_step (config : Config) (gen : Z) (old_locations : gmap Z DiskLocation.t)
    (acc : Sharding) (item : Z * option bytes) : Sharding :=
  let '(object_id, data_opt) := item in
  let max_oid := Z.max (max_oid acc) object_id in
  let '(object_size, shard_id, high_level_bytes) :=
    match data_opt with
    | Some data =>
        let length := len data in
        let bytes_written :=
          if bool_decide (old_locations = ∅) then wrap64 (high_level_bytes acc + length)
          else high_level_bytes acc in
        let shard :=
          if gen =? NEW_WRITE_GENERATION then 0
          else partition_function config object_id length in
        (wrap64 (length + HEADER_LEN), shard, bytes_written)
    | None => (0, 0, high_level_bytes acc)
    end in
  let '(size, objects) := default (0, ∅) (shards acc !! shard_id) in
  let is_rewrite := NEW_WRITE_GENERATION <? gen in
  let over_size_preference := target_file_size config <? size in
  let '(size, objects, fragmented_shards) :=
    if is_rewrite && over_size_preference
    then (0, ∅, fragmented_shards acc ++ [(shard_id, objects)])
    else (size, objects, fragmented_shards acc) in
  let size := wrap64 (size + object_size) in
  let size :=
    match objects !! object_id with
    | Some (Some replaced) => wrap64 (size - len replaced)
    | _ => size
    end in
  MkSharding (<[shard_id := (size, <[object_id := data_opt]> objects)]> (shards acc))
    fragmented_shards high_level_bytes max_oid.

Definition shard_objects (config : Config) (gen : Z) (old_locations : gmap Z DiskLocation.t)
    (write_batch : list (Z * option bytes)) : Sharding :=
  foldl (shard_step config gen old_locations) Sharding_empty write_batch.

(** the batches to write, one per file *)
Definition sharding_iter (s : Sharding) : list objects_map :=
  ((λ e, e.2.2) <$> iter_order (shards s)) ++ (fragmented_shards s).*2.

(** ** [write_batch_inner] *)

(** the loop-carried variables of step 1 *)
Record WriteState := MkWriteState {
  buf_writer : BufWriter;
  new_relative_locations : gmap Z RelativeDiskLocation.t;
  written_bytes : Z;
  compressed_bytes : Z;
  compressor : option CCtx;
}.

(** [fallible!(buf_writer.write_all(..))]: returning drops the writer *)
Definition write_all_or_drop (bw : BufWriter) (data : bytes) : IO BufWriter :=
  on_error (bw_write_all bw data) (bw_drop bw).

(** the compression of one object: what to store, and how much was saved *)
Definition compress_object (level : Z) (cctx : option CCtx) (raw_object : bytes)
    : IO (option bytes * option CCtx * Z) :=
  match cctx with
  | Some c =>
      allocate (compress_bound (len raw_object));;
      let '(c', res) := cctx_compress c raw_object level in
      out ← unwrap res;
      mret (Some out, Some c', len raw_object - len out)
  | None => mret (None, None, 0)
  end.

(** one iteration of the loop of step 1 *)
Definition write_object (config : Config) (level : Z) (st : WriteState)
    (object : Z * option bytes) : IO WriteState :=
  let '(object_id, raw_object_opt) := object in
  match raw_object_opt with
  | None =>
      rel ← unwrap (RelativeDiskLocation.new 0 true);
      mret (MkWriteState (buf_writer st) (<[object_id := rel]> (new_relative_locations st))
              (written_bytes st) (compressed_bytes st) (compressor st))
  | Some raw_object =>
      if max_object_size config <? len raw_object then
        bw_drop (buf_writer st);;
        fail Unsupported
      else
        let relative_address := written_bytes st in
        '(compressed_object, compressor', saved) ←
          compress_object level (compressor st) raw_object;
        relative_location ← unwrap (RelativeDiskLocation.new relative_address false);
        let output_object := default raw_object compressed_object in
        let len_buf := to_le_bytes 8 (len output_object) in
        let pid_buf := to_le_bytes 8 object_id in
        let crc := hash len_buf pid_buf output_object in
        bw ← write_all_or_drop (buf_writer st) crc;
        bw ← write_all_or_drop bw pid_buf;
        bw ← write_all_or_drop bw len_buf;
        bw ← write_all_or_drop bw output_object;
        mret (MkWriteState bw (<[object_id := relative_location]> (new_relative_locations st))
                (wrap64 (written_bytes st + (HEADER_LEN + len output_object)))
                (compressed_bytes st + saved) compressor')
  end.

Definition BUF_WRITER_CAPACITY : Z := 8 * 1024 * 1024.

(** the dictionary of the batch, its compressor, and the decompressor for readers *)
Definition make_dictionary (config : Config) (objects : objects_map)
    : M World (option bytes * option CCtx * ZstdDict) :=
  match zstd_compression_level config with
  | Some _ =>
      dict_bytes_opt ← from_samples objects;
      match dict_bytes_opt with
      | Some dict_bytes =>
          c ← unwrap (cctx_load_dictionary cctx_create dict_bytes);
          mret (dict_bytes_opt, Some c, from_dict_bytes dict_bytes)
      | None => mret (dict_bytes_opt, None, ZstdDict_default)
      end
  | None => mret (None, None, ZstdDict_default)
  end.

(** the loop-carried variables of step 3 *)
Record Installed := MkInstalled {
  replaced_locations : list (Z * DiskLocation.t);
  failed_gc_locations : list Z;
  subtract_from_len : Z;
}.

(** one iteration of the loop of step 3 *)
Definition install_object (old_locations : gmap Z DiskLocation.t) (base_location : DiskLocation.t)
    (acc : Installed) (entry : Z * RelativeDiskLocation.t) : M World Installed :=
  let '(object_id, new_relative_location) := entry in
  new_location ← unwrap
    (RelativeDiskLocation.to_absolute new_relative_location (DiskLocation.lsn base_location));
  match old_locations !! object_id with
  | Some old_location =>
      res ← table (λ t, cas t object_id old_location new_location);
      match res with
      | inl _ =>
          mret (MkInstalled (replaced_locations acc ++ [(object_id, old_location)])
                  (failed_gc_locations acc) (subtract_from_len acc))
      | inr _current =>
          mret (MkInstalled (replaced_locations acc) (failed_gc_locations acc ++ [object_id])
                  (subtract_from_len acc + 1))
      end
  | None =>
      res ← table (λ t, fetch_max t object_id new_location);
      match res with
      | inl (Some old) =>
          mret (MkInstalled (replaced_locations acc ++ [(object_id, old)])
                  (failed_gc_locations acc) (subtract_from_len acc))
      | inl None => mret acc
      | inr _ =>
          mret (MkInstalled (replaced_locations acc) (failed_gc_locations acc)
                  (subtract_from_len acc + 1))
      end
  end.

(** [new_relative_locations.remove(failed).unwrap()] *)
Definition remove_failed (m : gmap Z RelativeDiskLocation.t) (object_id : Z)
    : M World (gmap Z RelativeDiskLocation.t) :=
  unwrap (m !! object_id);;
  mret (delete object_id m).

(** one iteration of the loop that undoes the installation *)
Definition undo_install (new_relative_locations : gmap Z RelativeDiskLocation.t)
    (base_location : DiskLocation.t) (entry : Z * DiskLocation.t) : M World () :=
  let '(object_id, old_location) := entry in
  new_relative_location ← unwrap (new_relative_locations !! object_id);
  new_location ← unwrap
    (RelativeDiskLocation.to_absolute new_relative_location (DiskLocation.lsn base_location));
  table (λ t, cas t object_id new_location old_location);;
  mret ().

Definition add_counters (compressed decompressed : Z) (c : Counters) : Counters :=
  MkCounters (decompressed_bytes_read c) (compressed_bytes_read c)
    (wrap64 (decompressed_bytes_written c + decompressed))
    (wrap64 (compressed_bytes_written c + compressed))
    (high_level_user_bytes_written c).

(** step 1: the data of the batch in a temporary file, and its dictionary *)
Definition write_data (config : Config) (objects : objects_map) (tmp_path : string)
    : M World (File * WriteState * option bytes * ZstdDict) :=
  file ← io (open_create tmp_path);
  let writer := BufWriter_with_capacity BUF_WRITER_CAPACITY file in
  '(dict_bytes_opt, compressor_opt, decompressor) ← make_dictionary config objects;
  st ← io (foldM (write_object config (default 0 (zstd_compression_level config)))
             (MkWriteState writer ∅ 0 0 compressor_opt) (iter_order objects));
  assert_that (bool_decide (size (new_relative_locations st) = size objects));;
  io (on_error (bw_flush (buf_writer st)) (bw_drop (buf_writer st)));;
  mret (file, st, dict_bytes_opt, decompressor).

(** steps 5 and 6: the trailer, the rename, and the accounting; or the undoing *)
Definition write_trailer_and_rename (config : Config) (objects : objects_map) (generation : Z)
    (tmp_path : string) (file_2 : File) (st : WriteState) (dict_bytes_opt : option bytes)
    (base_location : DiskLocation.t) (new_relative_locations : gmap Z RelativeDiskLocation.t)
    (installed : Installed) : M World () :=
  let dict_len := len (default [] dict_bytes_opt) in
  let expected_file_len :=
    wrap64 (written_bytes st + 4 + 8 + 8
            + 16 * Z.of_nat (size new_relative_locations) + dict_len) in
  let metadata := {|
    lsn := DiskLocation.lsn base_location;
    trailer_offset := written_bytes st;
    present_objects := Z.of_nat (size objects);
    Metadata.generation := generation;
    file_size := expected_file_len;
  |} in
  let new_path := to_file_name metadata in
  res ← try (io (
    write_trailer file_2 (written_bytes st) new_relative_locations dict_bytes_opt;;
    sync_all_file file_2;;
    rename tmp_path new_path));
  match res with
  | inr e =>
      forM (replaced_locations installed) (undo_install new_relative_locations base_location);;
      delete_partially_installed_fam base_location tmp_path;;
      fail e
  | inl _ =>
      file_len ← io (file_metadata_len file_2);
      assert_that (file_len =? expected_file_len);;
      fm (decrement_evacuated_fams base_location (replaced_locations installed));;
      fm (finalize_fam base_location metadata (subtract_from_len installed) new_path)
  end.

(** steps 3 and 4: installation into the location table *)
Definition install_and_finish (config : Config) (objects : objects_map) (generation : Z)
    (old_locations : gmap Z DiskLocation.t) (tmp_path : string) (file_2 : File)
    (st : WriteState) (dict_bytes_opt : option bytes) (base_location : DiskLocation.t)
    : M World () :=
  installed ← foldM (install_object old_locations base_location) (MkInstalled [] [] 0)
    (iter_order (new_relative_locations st));
  new_relative_locations ←
    foldM remove_failed (new_relative_locations st) (failed_gc_locations installed);
  let trailer_items := size new_relative_locations in
  if bool_decide (trailer_items = 0%nat) then
    delete_partially_installed_fam base_location tmp_path
  else
    write_trailer_and_rename config objects generation tmp_path file_2 st dict_bytes_opt
      base_location new_relative_locations installed.

(** steps 2 to 6, with the file that step 1 has written *)
Definition sync_and_install (config : Config) (objects : objects_map) (generation : Z)
    (old_locations : gmap Z DiskLocation.t) (is_gc : bool) (tmp_path : string)
    (file : File) (st : WriteState) (dict_bytes_opt : option bytes) (decompressor : ZstdDict)
    : M World () :=
  file_2 ← io (try_clone file);
  when (fsync_each_batch config) (io (sync_all_file file));;
  decompressed ← unwrap
    (if bool_decide (0 ≤ written_bytes st + compressed_bytes st)
     then Some (written_bytes st + compressed_bytes st) else None);
  modify (λ w, set_counters
    (add_counters (written_bytes st) decompressed (counters (w_marble w))) w);;
  (* 2. assign LSN and add to fams *)
  let initial_capacity := Z.of_nat (size (new_relative_locations st)) in
  '(base_location, fam_claim) ←
    fm (FileMap.insert file (written_bytes st) initial_capacity generation is_gc config
          decompressor);
  (* the claim is dropped on every way out *)
  finally
    (install_and_finish config objects generation old_locations tmp_path file_2 st
       dict_bytes_opt base_location)
    (fm (drop_claims fam_claim)).

(** [write_batch_inner] *)
Definition write_batch_inner (config : Config) (objects : objects_map) (generation : Z)
    (old_locations : gmap Z DiskLocation.t) : M World () :=
  assert_that (bool_decide (objects ≠ ∅));;
  is_gc ←
    (if generation =? NEW_WRITE_GENERATION then
       assert_that (bool_decide (old_locations = ∅));;
       mret false
     else
       assert_that (bool_decide (old_locations ≠ ∅));;
       mret true);
  (* 1. write data to tmp *)
  n ← io (tmp_counter_fetch_add 1);
  let tmp_path := tmp_file_name n in
  '(file, st, dict_bytes_opt, decompressor) ← write_data config objects tmp_path;
  sync_and_install config objects generation old_locations is_gc tmp_path file st
    dict_bytes_opt decompressor.

(** [shard_batch] *)
Definition shard_batch (config : Config) (write_batch : list (Z * option bytes)) (gen : Z)
    (old_locations : gmap Z DiskLocation.t) : M World () :=
  let sharding := shard_objects config gen old_locations write_batch in
  modify (λ w,
    let c := counters (w_marble w) in
    set_counters (MkCounters (decompressed_bytes_read c) (compressed_bytes_read c)
      (decompressed_bytes_written c) (compressed_bytes_written c)
      (wrap64 (high_level_user_bytes_written c + high_level_bytes sharding))) w);;
  modify (λ w, set_max_object_id (Z.max (max_object_id (w_marble w)) (max_oid sharding)) w);;
  forM (sharding_iter sharding) (λ objects,
    write_batch_inner config objects gen old_locations);;
  when (fsync_each_batch config) (io sync_all_dir).

(** [Marble::write_batch] *)
Definition write_batch (config : Config) (batch : list (Z * option bytes)) : M World () :=
  let old_locations := ∅ in
  shard_batch config batch NEW_WRITE_GENERATION old_locations.
End operations.
