(* ===== verification/ReadPath.v ===== *)
(** ReadPath: [src/readpath.rs], reading one object. *)
From S2P Require Import Prelude Effects Os Deps Locations LocationTable Config Metadata.
From S2P Require Import ZstdDict Storage State FileMap.

Section operations.
Context `{Deps}.

Definition add_read_compressed (n : Z) (c : Counters) : Counters :=
  MkCounters (decompressed_bytes_read c) (wrap64 (compressed_bytes_read c + n))
    (decompressed_bytes_written c) (compressed_bytes_written c)
    (high_level_user_bytes_written c).

Definition add_read_decompressed (n : Z) (c : Counters) : Counters :=
  MkCounters (wrap64 (decompressed_bytes_read c + n)) (compressed_bytes_read c)
    (decompressed_bytes_written c) (compressed_bytes_written c)
    (high_level_user_bytes_written c).

(** [Marble::read], once it has looked the object up in the location table *)
Definition read_located (object_id : Z) (o : option DiskLocation.t) : M World (option bytes) :=
  match o with
  | None => mret None
  | Some location =>
      if DiskLocation.is_delete location then mret None
      else
        p ← fm (fam_for_location location);
        fam ← fm (deref p);
        let file_offset :=
          wrap64 (DiskLocation.lsn location - DiskLocation.lsn (fam_location fam)) in
        header_buf ← io (read_exact_at (fam_file fam) HEADER_LEN file_offset);
        crc_expected ← unwrap (slice header_buf 0 4);
        pid_buf ← unwrap (slice header_buf 4 12);
        len_buf ← unwrap (slice header_buf 12 20);
        (* a u64 always converts to a 64-bit usize *)
        let length := from_le_bytes len_buf in
        uninit_boxed_slice length;;
        let object_offset := wrap64 (file_offset + HEADER_LEN) in
        compressed_buf ← io (read_exact_at (fam_file fam) length object_offset);
        let crc_actual := hash len_buf pid_buf compressed_buf in
        if bool_decide (crc_expected ≠ crc_actual) then fail InvalidData
        else
          let read_pid := from_le_bytes pid_buf in
          assert_that (object_id =? read_pid);;
          modify (λ w, set_counters
            (add_read_compressed (len compressed_buf) (counters (w_marble w))) w);;
          tid ← io current_thread;
          '(decompressed_buf, dict) ← decompress (fam_zstd_dict fam) tid compressed_buf;
          fm (update_fam p (set_fam_zstd_dict dict));;
          modify (λ w, set_counters
            (add_read_decompressed (len decompressed_buf) (counters (w_marble w))) w);;
          mret (Some decompressed_buf)
  end.

(** [Marble::read] *)
Definition read (object_id : Z) : M World (option bytes) :=
  location ← gets (λ w, load (w_table w) object_id);
  read_located object_id location.
End operations.
