(* ===== verification/Gc.v ===== *)
(** Gc: [src/gc.rs], the defragmentation of storage files. *)
From S2P Require Import Prelude Effects Os Deps Locations LocationTable Config Metadata.
From S2P Require Import ZstdDict Storage State FileMap WritePath.

Section operations.
Context `{Deps}.

(** what the rewriting of one generation accumulates *)
Record Rewrite := MkRewrite {
  batch : gmap Z (option bytes);
  old_locations : gmap Z DiskLocation.t;
}.

(** [self.location_table.load(object_id).expect(..)] *)
Definition load_expect (object_id : Z) : M World DiskLocation.t :=
  o ← gets (λ w, load (w_table w) object_id);
  unwrap o.

(** one iteration of the [while] loop over the objects of a file: [buf] is what the
    cursor has not read yet, [offset] its position *)
Definition rewrite_object (config : Config) (tid : Z) (fam : FileAndMetadata)
    (buf : bytes) (offset : Z) (zstd_dict : ZstdDict) (acc : Rewrite)
    : M World (bytes * Z * ZstdDict * Rewrite) :=
  if bool_decide (len buf < HEADER_LEN) then fail UnexpectedEof
  else
    let header := take 20 buf in
    let buf := drop 20 buf in
    crc_expected ← unwrap (slice header 0 4);
    pid_buf ← unwrap (slice header 4 12);
    let object_id := from_le_bytes pid_buf in
    len_buf ← unwrap (slice header 12 20);
    let length := from_le_bytes len_buf in
    if max_object_size config <=? length then fail InvalidData
    else
      current_location ← load_expect object_id;
      rel ← unwrap (RelativeDiskLocation.new offset false);
      rewritten_location ← unwrap
        (RelativeDiskLocation.to_absolute rel (DiskLocation.lsn (fam_location fam)));
      uninit_boxed_slice length;;
      if bool_decide (len buf < length) then fail UnexpectedEof
      else
        let object_buf := take (Z.to_nat length) buf in
        let buf := drop (Z.to_nat length) buf in
        let crc_actual := hash len_buf pid_buf object_buf in
        if bool_decide (crc_expected ≠ crc_actual) then fail InvalidData
        else
          '(zstd_dict, acc) ←
            (if rewritten_location =? current_location then
               '(data, zstd_dict) ← decompress zstd_dict tid object_buf;
               mret (zstd_dict,
                     MkRewrite (<[object_id := Some data]> (batch acc))
                       (<[object_id := rewritten_location]> (old_locations acc)))
             else mret (zstd_dict, acc));
          mret (buf, wrap64 (offset + (HEADER_LEN + length)), zstd_dict, acc).

(** [while offset < metadata.trailer_offset { .. }], or [None] when the fuel is used up.
    Every iteration reads at least a header from the buffer, so that the length of the
    buffer is more than enough: [rewrite_objects_terminates] below. *)
Fixpoint rewrite_objects (fuel : nat) (config : Config) (tid : Z) (fam : FileAndMetadata)
    (trailer_offset : Z) (buf : bytes) (offset : Z) (zstd_dict : ZstdDict) (acc : Rewrite)
    : M World (option Rewrite) :=
  if offset <? trailer_offset then
    match fuel with
    | O => mret None
    | S fuel =>
        '(buf, offset, zstd_dict, acc) ←
          rewrite_object config tid fam buf offset zstd_dict acc;
        rewrite_objects fuel config tid fam trailer_offset buf offset zstd_dict acc
    end
  else mret (Some acc).

(** one iteration of the loop over the trailer, which rewrites the deletions *)
Definition rewrite_delete (fam : FileAndMetadata) (acc : Rewrite)
    (entry : Z * RelativeDiskLocation.t) : M World Rewrite :=
  let '(object_id, relative_location) := entry in
  if RelativeDiskLocation.is_delete relative_location then
    rewritten_location ← unwrap
      (RelativeDiskLocation.to_absolute relative_location (DiskLocation.lsn (fam_location fam)));
    current_location ← load_expect object_id;
    if rewritten_location =? current_location then
      mret (MkRewrite (<[object_id := None]> (batch acc))
              (<[object_id := rewritten_location]> (old_locations acc)))
    else mret acc
  else mret acc.

(** one iteration of the loop over the files of a generation; the fuel of the inner loop is
    enough, so that the second [unwrap] never sees [None] *)
Definition rewrite_file (config : Config) (acc : Rewrite) (p : Z) : M World Rewrite :=
  fam ← fm (deref p);
  metadata ← unwrap (fam_metadata fam);
  unwrap (fam_path fam);;
  file_buf ← io (read_range_at (fam_file fam) 0 (file_size metadata));
  trailer_bytes ← unwrap (slice file_buf (trailer_offset metadata) (len file_buf));
  '(trailer, zstd_dict) ← read_trailer_from_buf trailer_bytes;
  tid ← io current_thread;
  acc ← rewrite_objects (S (length file_buf)) config tid fam (trailer_offset metadata)
          file_buf 0 zstd_dict acc;
  acc ← unwrap acc;
  foldM (rewrite_delete fam) acc trailer.

(** one iteration of the loop over the generations; the old locations are cleared
    between generations, so a skipped generation leaves none *)
Definition rewrite_generation (config : Config) (rewritten_objects : Z)
    (entry : Z * list Z) : M World Z :=
  let '(generation, file_to_defrag) := entry in
  if len file_to_defrag <? min_compaction_files config then mret rewritten_objects
  else
    rewritten_fam_locations ← foldM (λ locations p,
      fam ← fm (deref p);
      mret (locations ++ [fam_location fam])) [] file_to_defrag;
    acc ← foldM (rewrite_file config) (MkRewrite ∅ ∅) file_to_defrag;
    let rewritten_objects := wrap64 (rewritten_objects + Z.of_nat (size (batch acc))) in
    shard_batch config (iter_order (batch acc)) generation (old_locations acc);;
    location_table ← gets w_table;
    verify_files_uninhabited rewritten_fam_locations location_table;;
    mret rewritten_objects.

(** [Marble::maintenance] *)
Definition maintenance (config : Config) : M World Z :=
  '(files_to_defrag, claims) ← fm (files_to_defrag config);
  rewritten_objects ←
    on_error (foldM (rewrite_generation config) 0 (iter_order files_to_defrag))
      (fm (drop_claims claims));
  (* drop(claims) *)
  fm (drop_claims claims);;
  prune_empty_files;;
  mret rewritten_objects.
End operations.

(** ** The loop over the objects terminates *)

Section fuel.
Context `{Deps}.

(** What an iteration leaves of the buffer is shorter by a header at least. *)
Lemma rewrite_object_consumes config tid fam buf offset z acc w buf' offset' z' acc' w' :
  rewrite_object config tid fam buf offset z acc w = (Ok (buf', offset', z', acc'), w') →
  (length buf' + 20 ≤ length buf)%nat.
Proof.
  unfold rewrite_object. case_bool_decide as Hb; [done|]. unfold HEADER_LEN in Hb.
  set (rest := drop 20 buf).
  assert (length rest + 20 = length buf)%nat as Hrest by (unfold rest; rewrite length_drop; lia).
  clearbody rest. revert Hrest. clear Hb. intros Hrest Hrun.
  assert (∃ n, buf' = drop n rest) as [n ->]; [|rewrite length_drop; lia].
  revert Hrun. unfold mbind, M_bind, unwrap, load_expect, uninit_boxed_slice, allocate, assert_that, gets, fail, mret, M_ret.
  unfold mbind, M_bind, unwrap, panic, mret, M_ret.
  repeat (case_match; try done); intros; simplify_eq; eauto.
Qed.

Section loop.
Context (config : Config) (tid : Z) (fam : FileAndMetadata) (trailer_offset : Z).

(** The loop as it is written, without fuel: [n] iterations come to their end, then the
    condition fails or the next iteration leaves the function. *)
Inductive loop_ends : nat → bytes → Z → ZstdDict → Rewrite → World → outcome Rewrite → World → Prop :=
  | loop_condition buf offset z acc w :
      trailer_offset ≤ offset → loop_ends 0 buf offset z acc w (Ok acc) w
  | loop_returns buf offset z acc w r w' :
      offset < trailer_offset →
      rewrite_object config tid fam buf offset z acc w = (r, w') → (∀ next, r ≠ Ok next) →
      loop_ends 0 buf offset z acc w (outcome_map snd r) w'
  | loop_iterates n buf offset z acc w buf1 offset1 z1 acc1 w1 r w' :
      offset < trailer_offset →
      rewrite_object config tid fam buf offset z acc w = (Ok (buf1, offset1, z1, acc1), w1) →
      loop_ends n buf1 offset1 z1 acc1 w1 r w' →
      loop_ends (S n) buf offset z acc w r w'.

(** C25. The loop over the objects of a file ends, whatever the file holds: after at most as many
    iterations as there are headers in the buffer its condition fails or an iteration
    returns an error or panics. With one unit of fuel more than that, [rewrite_objects]
    gives this very result, and is never out of fuel. *)
Theorem rewrite_objects_terminates fuel buf offset z acc w :
  (length buf < 20 * fuel)%nat →
  ∃ n r w', loop_ends n buf offset z acc w r w' ∧ (20 * n ≤ length buf)%nat ∧
    rewrite_objects fuel config tid fam trailer_offset buf offset z acc w = (outcome_map Some r, w') ∧
    outcome_map Some r ≠ Ok None.
Proof.
  revert buf offset z acc w. induction fuel as [|fuel IH]; intros buf offset z acc w Hf; [lia|]. simpl.
  destruct (Z.ltb_spec offset trailer_offset) as [Hlt|Hge].
  2: { exists 0%nat, (Ok acc), w. split_and!; [by constructor|lia|done..]. }
  unfold mbind, M_bind.
  destruct (rewrite_object config tid fam buf offset z acc w) as [r w1] eqn:E.
  destruct r as [[[[buf1 offset1] z1] acc1]|e| |].
  2-4: eexists 0%nat, _, w1; split_and!; [by eapply loop_returns; [| exact E|]|lia|done..].
  pose proof (rewrite_object_consumes _ _ _ _ _ _ _ _ _ _ _ _ _ E).
  destruct (IH buf1 offset1 z1 acc1 w1) as (n & r & w' & Hn & ? & ? & ?); [lia|].
  exists (S n), r, w'. split_and!; [by eapply loop_iterates|lia|done..].
Qed.
End loop.
End fuel.
