(* ===== verification/Recovery.v ===== *)
(** Recovery: [src/recovery.rs], opening a store. *)
From S2P Require Import Prelude Effects Os Deps Locations LocationTable Config Metadata.
From S2P Require Import ZstdDict Storage State FileMap.

Section operations.
Context `{Deps}.

(** [sort_by_key]: a stable sort *)
Fixpoint insert_by {A} (key : A → Z) (x : A) (l : list A) : list A :=
  match l with
  | [] => [x]
  | y :: l => if key x <? key y then x :: y :: l else y :: insert_by key x l
  end.

Definition sort_by_key {A} (key : A → Z) (l : list A) : list A :=
  foldl (λ acc x, insert_by key x acc) [] l.

Definition masked_lsn (m : Metadata) : Z := Z.land (lsn m) NEW_WRITE_BATCH_MASK.

(** one iteration of the loop of [read_storage_directory] *)
Definition visit_entry (files : list (Metadata * string)) (entry : string * File)
    : IO (list (Metadata * string)) :=
  let '(name, ino) := entry in
  io_step;;
  file_size ← file_metadata_len ino;
  if ends_with name "tmp" then
    remove_file name;;
    mret files
  else
    match parse name file_size with
    | Some metadata => mret (files ++ [(metadata, name)])
    | None => mret files
    end.

(** [read_storage_directory] *)
Definition read_storage_directory : IO (list (Metadata * string)) :=
  entries ← read_dir iter_order;
  files ← foldM visit_entry [] entries;
  mret (sort_by_key (λ e, masked_lsn e.1) files).

(** the loop-carried variables of the first loop of [open] *)
Record Recovering := MkRecovering {
  rec_fams : FileMap;
  max_file_lsn : Z;
  max_file_size : Z;
  recovery_page_table : gmap Z DiskLocation.t;
}.

(** the insertion of one trailer entry into the recovered page table *)
Definition recover_object (lsn : Z) (pt : gmap Z DiskLocation.t)
    (entry : Z * RelativeDiskLocation.t) : IO (gmap Z DiskLocation.t) :=
  let '(object_id, relative_loc) := entry in
  location ← unwrap (RelativeDiskLocation.to_absolute relative_loc lsn);
  match pt !! object_id with
  | Some old =>
      assert_that (Z.land (DiskLocation.lsn old) NEW_WRITE_BATCH_MASK
                   <? Z.land (DiskLocation.lsn location) NEW_WRITE_BATCH_MASK)
  | None => mret ()
  end;;
  mret (<[object_id := location]> pt).

(** one iteration of the loop over the files *)
Definition recover_file (st : Recovering) (entry : Metadata * string) : IO Recovering :=
  let '(metadata, name) := entry in
  file ← open_read name;
  '(trailer, zstd_dict) ← read_trailer file (trailer_offset metadata) (file_size metadata);
  pt ← foldM (recover_object (lsn metadata)) (recovery_page_table st) trailer;
  file_len ← file_metadata_len file;
  let max_file_size := Z.max (max_file_size st) file_len in
  let max_file_lsn := Z.max (max_file_lsn st) (masked_lsn metadata) in
  file_location ← unwrap (DiskLocation.new_fam (lsn metadata));
  let fam := {|
    fam_live_objects := 0;
    fam_metadata := Some metadata;
    fam_path := Some name;
    fam_file := file;
    fam_location := file_location;
    fam_generation := generation metadata;
    fam_rewrite_claim := false;
    fam_synced := true;
    fam_zstd_dict := zstd_dict;
  |} in
  let m := rec_fams st in
  assert_that (bool_decide (cm_get (fams m) file_location = None));;
  mret (MkRecovering
    (MkFileMap (cm_insert (fams m) file_location (next_arc m))
       (<[next_arc m := fam]> (arcs m)) (next_arc m + 1) (next_file_lsn m))
    max_file_lsn max_file_size pt).

(** Returning from [open] with an error drops [fams], and with it every file recovered
    so far; their counts of live objects are still zero. *)
Definition drop_recovered (m : FileMap) : IO () :=
  forM (cm_iter (fams m)) (λ '(_, p),
    fam ← unwrap (arcs m !! p);
    if fam_live_objects fam =? 0 then
      name ← unwrap (fam_path fam);
      try (remove_file name);;
      mret ()
    else mret ()).

(** the loop over the files *)
Fixpoint recover_files (st : Recovering) (files : list (Metadata * string)) : IO Recovering :=
  match files with
  | [] => mret st
  | entry :: files =>
      st ← on_error (recover_file st entry) (drop_recovered (rec_fams st));
      recover_files st files
  end.

(** one iteration of the loop over the recovered page table *)
Definition recover_location (acc : FileMap * PT * Z) (entry : Z * DiskLocation.t)
    : IO (FileMap * PT * Z) :=
  let '(m, location_table, max_object_id) := acc in
  let '(object_id, disk_location) := entry in
  let max_object_id := Z.max max_object_id object_id in
  '(_, p) ← unwrap (range_next disk_location m);
  fam ← unwrap (arcs m !! p);
  let m := set_arcs (<[p := set_fam_live_objects (wrap64 (fam_live_objects fam + 1)) fam]> (arcs m)) m in
  mret (m, store location_table object_id disk_location, max_object_id).

(** the directory, when it is not there *)
Definition prepare_heap : IO () :=
  r ← try (read_dir iter_order);
  match r with
  | inr NotFound => try create_dir_all;; mret ()
  | _ => mret ()
  end.

(** the marker files and the lock *)
Definition prepare_lock : IO () :=
  try (file_create LEGEND);;
  try (file_create_root WARN);;
  open_dir;;
  try_lock_exclusive.

(** [Config::open] *)
Definition open (config : Config) : IO Marble :=
  match validate config with
  | inr e => fail e
  | inl _ =>
      prepare_heap;;
      prepare_lock;;
      files ← read_storage_directory;
      st ← recover_files (MkRecovering (MkFileMap cm_default ∅ 0 0) 0 0 ∅) files;
      '(m, location_table, max_object_id) ←
        foldM recover_location (rec_fams st, pt_default, 0) (iter_order (recovery_page_table st));
      let next_file_lsn := wrap64 (max_file_lsn st + max_file_size st + 1) in
      mret (MkMarble location_table max_object_id (set_next_file_lsn next_file_lsn m)
              Counters_zero)
  end.
End operations.
