(* ===== verification/Interleaving.v ===== *)
(** Interleaving: several writers at once. Once it has inserted its file into the file map, a
    writer touches the shared tables only with single atomic accesses: one per object while
    it installs, one per replaced location when it decrements the files it has evacuated,
    one when it publishes its own file and one when it releases its claim. Those are the
    steps; steps of different writers come in any order. [maintenance] is a writer
    with old locations.

    The steps are those of a validation build: they also mark the debug history, whose lock
    a writer holds during an iteration. [install_object_erased] says that the marks change
    nothing else. *)
From S2P Require Import Prelude Effects Os Deps Locations LocationTable Config Metadata.
From S2P Require Import ZstdDict Storage State FileMap WritePath DebugHistory.

(** ** The steps of a writer *)

Section steps.
Context `{Deps}.

(** The state of a validation build. *)
Definition VWorld : Type := World * DebugHistory.

Definition wrld {A} (m : M World A) : M VWorld A := zoom fst (λ w s, (w, s.2)) m.
Definition hist {A} (m : M DebugHistory A) : M VWorld A := zoom snd (λ h s, (s.1, h)) m.

(** one iteration of the loop of step 3, with [runtime_validation] *)
Definition install_object_validated (old_locations : gmap Z DiskLocation.t)
    (base_location : DiskLocation.t) (acc : Installed) (entry : Z * RelativeDiskLocation.t)
    : M VWorld Installed :=
  let '(object_id, new_relative_location) := entry in
  new_location ← unwrap
    (RelativeDiskLocation.to_absolute new_relative_location (DiskLocation.lsn base_location));
  match old_locations !! object_id with
  | Some old_location =>
      res ← wrld (table (λ t, cas t object_id old_location new_location));
      match res with
      | inl _ =>
          hist (mark_add object_id new_location);;
          hist (mark_remove object_id old_location);;
          mret (MkInstalled (replaced_locations acc ++ [(object_id, old_location)])
                  (failed_gc_locations acc) (subtract_from_len acc))
      | inr _current =>
          mret (MkInstalled (replaced_locations acc) (failed_gc_locations acc ++ [object_id])
                  (subtract_from_len acc + 1))
      end
  | None =>
      res ← wrld (table (λ t, fetch_max t object_id new_location));
      match res with
      | inl (Some old) =>
          hist (mark_add object_id new_location);;
          hist (mark_remove object_id old);;
          mret (MkInstalled (replaced_locations acc ++ [(object_id, old)])
                  (failed_gc_locations acc) (subtract_from_len acc))
      | inl None =>
          hist (mark_add object_id new_location);;
          mret acc
      | inr _ =>
          mret (MkInstalled (replaced_locations acc) (failed_gc_locations acc)
                  (subtract_from_len acc + 1))
      end
  end.

(** Where a writer is. [Installing]: entries still to install, and what step 3 has
    accumulated; [Decrementing]: replaced locations still to account for, and what is to be
    subtracted from the count of its own file; [Releasing]: the file is published, and still
    claimed; [Abandoned]: nothing of a rewrite has been installed, and the file is about to
    be deleted. *)
Inductive phase :=
  | Installing (todo : list (Z * RelativeDiskLocation.t)) (acc : Installed)
  | Decrementing (todo : list (Z * DiskLocation.t)) (subtract_from_len : Z)
  | Releasing
  | Abandoned (subtract_from_len : Z)
  | Finished.

Record Writer := MkWriter {
  wr_base : DiskLocation.t;
  wr_old : gmap Z DiskLocation.t;
  wr_rels : gmap Z RelativeDiskLocation.t;
  wr_md : Metadata;
  wr_path : string;
  wr_phase : phase;
}.

Definition set_phase (x : phase) (wr : Writer) : Writer :=
  MkWriter (wr_base wr) (wr_old wr) (wr_rels wr) (wr_md wr) (wr_path wr) x.

Definition start_phase (rels : gmap Z RelativeDiskLocation.t) : phase :=
  Installing (iter_order rels) (MkInstalled [] [] 0).

(** The next step of a writer that still has one. *)
Definition writer_step (wr : Writer) : M VWorld Writer :=
  match wr_phase wr with
  | Installing (e :: todo) acc =>
      acc ← install_object_validated (wr_old wr) (wr_base wr) acc e;
      mret (set_phase (Installing todo acc) wr)
  | Installing [] acc =>
      rels ← wrld (foldM remove_failed (wr_rels wr) (failed_gc_locations acc));
      if bool_decide (size rels = 0%nat) then mret (set_phase (Abandoned (subtract_from_len acc)) wr)
      else mret (set_phase (Decrementing (replaced_locations acc) (subtract_from_len acc)) wr)
  | Decrementing (e :: todo) s =>
      wrld (fm (decrement_evacuated_fams (wr_base wr) [e]));;
      mret (set_phase (Decrementing todo s) wr)
  | Decrementing [] s =>
      wrld (fm (finalize_fam (wr_base wr) (wr_md wr) s (wr_path wr)));;
      mret (set_phase Releasing wr)
  | Releasing =>
      wrld (fm (drop_claims [wr_base wr]));;
      mret (set_phase Finished wr)
  | Abandoned _ | Finished => mret wr
  end.

Definition finished (wr : Writer) : bool :=
  match wr_phase wr with Abandoned _ | Finished => true | _ => false end.

(** ** The system *)

Definition system : Type := VWorld * list Writer.

Inductive sys_step : system → system → Prop :=
  | sys_step_writer s s' ws i wr wr' :
      ws !! i = Some wr → finished wr = false → writer_step wr s = (Ok wr', s') →
      sys_step (s, ws) (s', <[i := wr']> ws).

(** *** New writers

    A writer joins with [FileMap::insert], once its file is written: [rels] are the
    locations of its objects relative to the file, [written] is their total length, and
    the old locations of a rewrite are in the table. [md] is what the file will be published
    with; [write_batch_inner] asserts that the batch is not empty. *)
Record joins (w : World) (written : Z) (old : gmap Z DiskLocation.t)
    (rels : gmap Z RelativeDiskLocation.t) : Prop := {
  jo_written : 0 ≤ written;
  jo_room : next_file_lsn (w_fm w) + written + 1 < 2 ^ 62;
  jo_size : Z.of_nat (size rels) < two64;
  jo_rels oid rel : rels !! oid = Some rel → ∃ off d, rel = 2 * off + Z.b2z d ∧ 0 ≤ off ≤ written;
  jo_old oid : is_Some (old !! oid) → is_Some (load (w_table w) oid);
}.

Inductive sys_join : system → system → Prop :=
  | sys_join_writer w h ws file written generation is_gc config decompressor old rels md path base claims m :
      joins w written old rels → present_objects md ≠ 0 →
      FileMap.insert file written (Z.of_nat (size rels)) generation is_gc config decompressor (w_fm w)
      = (Ok (base, claims), m) →
      sys_join ((w, h), ws)
        ((set_file_map m w, h), ws ++ [MkWriter base old rels md path (start_phase rels)]).

(** What happens in a process: a writer takes a step, or a new one joins. *)
Definition sys_next (sys sys' : system) : Prop := sys_step sys sys' ∨ sys_join sys sys'.

(** Some writer's next step is an abort. *)
Definition sys_panics (sys : system) : Prop :=
  ∃ i wr s', sys.2 !! i = Some wr ∧ finished wr = false ∧ writer_step wr sys.1 = (Panic, s').

(** *** One writer on its own *)

(** Runs a writer to its end; the fuel is the number of its steps. *)
Fixpoint run_writer (fuel : nat) (wr : Writer) : M VWorld Writer :=
  match fuel with
  | O => mret wr
  | S fuel => if finished wr then mret wr else wr ← writer_step wr; run_writer fuel wr
  end.

(** How many steps a writer has left, at most. *)
Definition steps_left (wr : Writer) : nat :=
  match wr_phase wr with
  | Installing todo acc => 2 * length todo + length (replaced_locations acc) + 3
  | Decrementing todo _ => length todo + 2
  | Releasing => 1
  | Abandoned _ | Finished => 0
  end.
End steps.
