(* ===== verification/Deletions.v ===== *)
(** Deletions: what else happens in a process next to the writers of [Interleaving]: calls
    of [maintenance], any number of them at once, and the deletion of the files of
    collectors that have installed nothing.

    A call of [maintenance] claims files ([FileMap::files_to_defrag]), rewrites them, which
    is what the writers with old locations do, releases its claims and then deletes the
    files that have become empty ([FileMap::prune_empty_files]). It is cut at its accesses
    to the shared file map: one step per file it looks at, one per claim it releases, one
    per file it removes. It may look at the files in any order and as often as it likes,
    which covers every order in which the iterator of the concurrent map may show them; the
    last [Arc] of a file goes away when the file leaves the map. A rewrite that fails
    releases the claims and deletes nothing. Deleting a file is a system call, which may
    fail and end the process. *)
From S2P Require Import Prelude Effects Os Deps Locations LocationTable Config Metadata.
From S2P Require Import ZstdDict Storage State FileMap WritePath DebugHistory Interleaving.

Section deletions.
Context `{Deps}.

(** Where a call of [maintenance] is: it claims the files to rewrite, and holds the claims
    until it has; it collects the files to remove and their claims, then removes them. *)
Inductive Pass :=
  | Claiming (acc : gmap Z (list Z) * list Z)
  | Rewriting (claims : list Z)
  | Choosing (acc : list (Z * string) * list Z)
  | Removing (paths_to_remove : list (Z * string)) (claims : list Z)
  | Over.

(** one iteration of the loop of [files_to_defrag] *)
Definition defrag_choose (config : Config) (approximate_fam_len : Z) (acc : gmap Z (list Z) * list Z)
    (entry : Z * Z) : M VWorld Pass :=
  acc ← wrld (fm (defrag_visit config approximate_fam_len acc entry));
  mret (Claiming acc).

(** [drop(claims)] after the rewrite: one claim *)
Definition release_one (claim : Z) (claims : list Z) : M VWorld Pass :=
  wrld (fm (drop_claims [claim]));;
  mret (Rewriting claims).

(** one iteration of the first loop of [prune_empty_files] *)
Definition prune_choose (acc : list (Z * string) * list Z) (entry : Z * Z) : M VWorld Pass :=
  acc ← wrld (fm (prune_visit acc entry));
  mret (Choosing acc).

(** the second loop, one iteration, and what follows it *)
Definition prune_remove (paths_to_remove : list (Z * string)) (claims : list Z) : M VWorld Pass :=
  match paths_to_remove with
  | (location, _) :: rest =>
      location_table ← wrld (gets w_table);
      wrld (verify_file_uninhabited location location_table);;
      wrld (remove_and_drop location);;
      mret (Removing rest claims)
  | [] =>
      wrld (fm (drop_claims claims));;
      mret Over
  end.

(** the end of a write that has installed nothing *)
Definition abandon (tmp_path : string) (wr : Writer) : M VWorld Writer :=
  wrld (delete_partially_installed_fam (wr_base wr) tmp_path);;
  wrld (fm (drop_claims [wr_base wr]));;
  mret (set_phase Finished wr).

(** ** The process *)

Definition process : Type := system * list Pass.

(** What may happen next besides the steps of writers: a computation, and what becomes of
    the writers and the calls of [maintenance] with its result. *)
Inductive action : process → M VWorld (list Writer * list Pass) → Prop :=
  | action_start s ws prs :
      action ((s, ws), prs) (mret (ws, prs ++ [Claiming (∅, [])]))
  | action_claim s ws prs i config n acc b p :
      prs !! i = Some (Claiming acc) → cm_get (fams (w_fm s.1)) b = Some p →
      action ((s, ws), prs) (pr ← defrag_choose config n acc (b, p); mret (ws, <[i := pr]> prs))
  | action_claimed s ws prs i acc :
      prs !! i = Some (Claiming acc) →
      action ((s, ws), prs) (mret (ws, <[i := Rewriting acc.2]> prs))
  | action_release s ws prs i claim claims :
      prs !! i = Some (Rewriting (claim :: claims)) →
      action ((s, ws), prs) (pr ← release_one claim claims; mret (ws, <[i := pr]> prs))
  | action_rewritten s ws prs i :
      prs !! i = Some (Rewriting []) →
      action ((s, ws), prs) (mret (ws, <[i := Choosing ([], [])]> prs))
  | action_failed s ws prs i :
      prs !! i = Some (Rewriting []) →
      action ((s, ws), prs) (mret (ws, <[i := Over]> prs))
  | action_choose s ws prs i acc b p :
      prs !! i = Some (Choosing acc) → cm_get (fams (w_fm s.1)) b = Some p →
      action ((s, ws), prs) (pr ← prune_choose acc (b, p); mret (ws, <[i := pr]> prs))
  | action_chosen s ws prs i acc :
      prs !! i = Some (Choosing acc) →
      action ((s, ws), prs) (mret (ws, <[i := Removing acc.1 acc.2]> prs))
  | action_remove s ws prs i todo claims :
      prs !! i = Some (Removing todo claims) →
      action ((s, ws), prs) (pr ← prune_remove todo claims; mret (ws, <[i := pr]> prs))
  | action_abandon s ws prs i wr x tmp :
      ws !! i = Some wr → wr_phase wr = Abandoned x →
      action ((s, ws), prs) (wr ← abandon tmp wr; mret (<[i := wr]> ws, prs)).

Inductive process_next : process → process → Prop :=
  | process_next_writers sys sys' prs : sys_next sys sys' → process_next (sys, prs) (sys', prs)
  | process_next_action pr m s' ws' prs' :
      action pr m → m pr.1.1 = (Ok (ws', prs'), s') → process_next pr ((s', ws'), prs').

(** An assertion is about to fail. *)
Definition process_panics (pr : process) : Prop :=
  sys_panics pr.1 ∨ ∃ m s', action pr m ∧ m pr.1.1 = (Panic, s').

(** The files a call has claimed and not yet released or removed. *)
Definition chosen (pr : Pass) : list Z :=
  match pr with
  | Claiming acc => acc.2
  | Rewriting claims => claims
  | Choosing acc => acc.1.*1
  | Removing todo _ => todo.*1
  | Over => []
  end.

(** Those among them that it is going to remove. *)
Definition doomed (pr : Pass) : list Z :=
  match pr with Choosing acc => acc.1.*1 | Removing todo _ => todo.*1 | _ => [] end.

(** The claims it is going to release. *)
Definition claimed_by (pr : Pass) : list Z :=
  match pr with
  | Claiming acc | Choosing acc => acc.2
  | Rewriting claims | Removing _ claims => claims
  | Over => []
  end.

Definition marked (prs : list Pass) : list Z := concat (chosen <$> prs).
Definition to_remove (prs : list Pass) : list Z := concat (doomed <$> prs).

#[export] Instance finished_dec (x : phase) : Decision (x = Finished).
Proof. destruct x; (by left) || (by right). Defined.

(** The files of the writers that have not let go of them, and those that calls of
    [maintenance] have claimed: once for each holder. *)
Definition held_by_all (pr : process) : list Z :=
  (wr_base <$> filter (λ wr, wr_phase wr ≠ Finished) pr.1.2) ++ marked pr.2.
End deletions.
