(* ===== verification/MaintenanceSteps.v ===== *)
(** MaintenanceSteps: a call of [maintenance] that nobody interrupts is one of the passes of
    [Deletions]. Its claims, the release of its claims and its deletions are the steps of a
    pass, one after the other; between them is the rewrite of the files it has claimed. *)
From S2P Require Import Prelude Effects Os Deps Locations LocationTable Config Metadata.
From S2P Require Import ZstdDict Storage State FileMap WritePath Gc DebugHistory Interleaving Deletions.

Lemma lookup_last {A} (l : list A) x : (l ++ [x]) !! length l = Some x.
Proof. by induction l. Qed.

Lemma insert_last {A} (l : list A) x y : <[length l := y]> (l ++ [x]) = l ++ [y].
Proof. induction l as [|z l IH]; [done|]. simpl. by rewrite IH. Qed.

Section steps.
Context `{Deps, !DepsLaws}.

(** ** The file map while files are looked at *)

Lemma defrag_visit_fams config n acc e m acc' m' :
  defrag_visit config n acc e m = (Ok acc', m') → fams m' = fams m.
Proof.
  unfold defrag_visit, deref, update_fam, unwrap, assert_that, panic, gets, modify, mbind, M_bind, mret, M_ret.
  repeat case_match; intros; simplify_eq/=; done.
Qed.

Lemma prune_visit_fams acc e m acc' m' :
  prune_visit acc e m = (Ok acc', m') → fams m' = fams m.
Proof.
  unfold prune_visit, deref, update_fam, unwrap, panic, gets, modify, mbind, M_bind, mret, M_ret.
  repeat case_match; intros; simplify_eq/=; done.
Qed.

(** ** One pass, the last one, in a process *)

Section pass.
Context (h : DebugHistory) (ws : list Writer) (prs : list Pass).

Definition at_pass (w : World) (x : Pass) : process := (((w, h), ws), prs ++ [x]).

(** An action of the pass takes it on. *)
Lemma pass_step w x (m : M VWorld Pass) w' x' :
  action (at_pass w x) (y ← m; mret (ws, <[length prs := y]> (prs ++ [x]))) →
  m (w, h) = (Ok x', (w', h)) → process_next (at_pass w x) (at_pass w' x').
Proof.
  intros Ha Em. unfold at_pass. rewrite <- (insert_last prs x x').
  apply (process_next_action _ _ _ _ _ Ha). cbn [fst snd at_pass]. by rewrite (bind_ok Em).
Qed.

Lemma pass_moves w x x' :
  action (at_pass w x) (mret (ws, <[length prs := x']> (prs ++ [x]))) →
  process_next (at_pass w x) (at_pass w x').
Proof.
  intros Ha. unfold at_pass. rewrite <- (insert_last prs x x'). by apply (process_next_action _ _ _ _ _ Ha).
Qed.

Lemma wrld_run {A} (m : M World A) w r w' : m w = (r, w') → wrld m (w, h) = (r, (w', h)).
Proof. intros E. unfold wrld, zoom. simpl. by rewrite E. Qed.

Lemma fm_run {A} (m : M FileMap A) w r m' : m (w_fm w) = (r, m') → fm m w = (r, set_file_map m' w).
Proof. intros E. unfold fm, zoom. by rewrite E. Qed.

Lemma claiming_steps config n entries acc w acc' m' :
  (∀ e, e ∈ entries → cm_get (fams (w_fm w)) e.1 = Some e.2) →
  foldM (defrag_visit config n) acc entries (w_fm w) = (Ok acc', m') →
  rtc process_next (at_pass w (Claiming acc)) (at_pass (set_file_map m' w) (Claiming acc')).
Proof.
  revert acc w. induction entries as [|[b p] entries IH]; intros acc w Hin Hrun.
  - injection Hrun as <- <-. by rewrite set_file_map_id.
  - apply bind_ok_inv in Hrun as (acc1 & m1 & Hv & Hrun). eapply (rtc_l _ _ (at_pass (set_file_map m1 w) (Claiming acc1))).
    + apply (pass_step _ _ (defrag_choose config n acc (b, p))).
      * apply action_claim; [apply lookup_last|]. apply (Hin (b, p)). by left.
      * unfold defrag_choose. by rewrite (bind_ok (wrld_run _ _ _ _ (fm_run _ _ _ _ Hv))).
    + apply (IH acc1 (set_file_map m1 w)); [|by rewrite w_fm_set].
      intros e He. rewrite w_fm_set, (defrag_visit_fams _ _ _ _ _ _ _ Hv). apply Hin. by right.
Qed.

Lemma choosing_steps entries acc w acc' m' :
  (∀ e, e ∈ entries → cm_get (fams (w_fm w)) e.1 = Some e.2) →
  foldM prune_visit acc entries (w_fm w) = (Ok acc', m') →
  rtc process_next (at_pass w (Choosing acc)) (at_pass (set_file_map m' w) (Choosing acc')).
Proof.
  revert acc w. induction entries as [|[b p] entries IH]; intros acc w Hin Hrun.
  - injection Hrun as <- <-. by rewrite set_file_map_id.
  - apply bind_ok_inv in Hrun as (acc1 & m1 & Hv & Hrun). eapply (rtc_l _ _ (at_pass (set_file_map m1 w) (Choosing acc1))).
    + apply (pass_step _ _ (prune_choose acc (b, p))).
      * apply action_choose; [apply lookup_last|]. apply (Hin (b, p)). by left.
      * unfold prune_choose. by rewrite (bind_ok (wrld_run _ _ _ _ (fm_run _ _ _ _ Hv))).
    + apply (IH acc1 (set_file_map m1 w)); [|by rewrite w_fm_set].
      intros e He. rewrite w_fm_set, (prune_visit_fams _ _ _ _ _ Hv). apply Hin. by right.
Qed.

Lemma releasing_steps claims w m' :
  drop_claims claims (w_fm w) = (Ok (), m') →
  rtc process_next (at_pass w (Rewriting claims)) (at_pass (set_file_map m' w) (Rewriting [])).
Proof.
  revert w. induction claims as [|c claims IH]; intros w Hrun.
  - injection Hrun as <-. by rewrite set_file_map_id.
  - unfold drop_claims in Hrun. cbn [forM] in Hrun. apply bind_ok_inv in Hrun as ([] & m1 & Hc & Hrun).
    assert (drop_claims [c] (w_fm w) = (Ok (), m1)) as Hone.
    { unfold drop_claims. cbn [forM]. by rewrite (bind_ok Hc). }
    eapply (rtc_l _ _ (at_pass (set_file_map m1 w) (Rewriting claims))).
    + apply (pass_step _ _ (release_one c claims)); [apply action_release, lookup_last|].
      unfold release_one. by rewrite (bind_ok (wrld_run _ _ _ _ (fm_run _ _ _ _ Hone))).
    + apply (IH (set_file_map m1 w)). by rewrite w_fm_set.
Qed.

Lemma removing_steps todo claims w w' :
  forM todo (λ '(location, _),
    location_table ← gets w_table;
    verify_file_uninhabited location location_table;;
    remove_and_drop location) w = (Ok (), w') →
  rtc process_next (at_pass w (Removing todo claims)) (at_pass w' (Removing [] claims)).
Proof.
  revert w. induction todo as [|[b path] todo IH]; intros w Hrun.
  - injection Hrun as <-. done.
  - cbn [forM] in Hrun. apply bind_ok_inv in Hrun as ([] & w1 & Hb & Hrun).
    eapply (rtc_l _ _ (at_pass w1 (Removing todo claims))); [|by apply IH].
    apply (pass_step _ _ (prune_remove ((b, path) :: todo) claims)); [apply action_remove, lookup_last|].
    apply bind_ok_inv in Hb as (t & w2 & Ht & Hb). apply bind_ok_inv in Hb as ([] & w3 & Hv & Hb).
    unfold prune_remove. rewrite (bind_ok (wrld_run _ _ _ _ Ht)), (bind_ok (wrld_run _ _ _ _ Hv)).
    by rewrite (bind_ok (wrld_run _ _ _ _ Hb)).
Qed.

(** *** The parts of [maintenance] *)

Lemma iter_here w e : e ∈ cm_iter (fams (w_fm w)) → cm_get (fams (w_fm w)) e.1 = Some e.2.
Proof. destruct e as [b p]. apply cm_iter_elem. Qed.

Lemma files_to_defrag_steps config w ftd claims m' :
  files_to_defrag config (w_fm w) = (Ok (ftd, claims), m') →
  rtc process_next (((w, h), ws), prs) (at_pass (set_file_map m' w) (Rewriting claims)).
Proof.
  intros Hrun. unfold files_to_defrag in Hrun.
  apply bind_ok_inv in Hrun as (n & m1 & [= <- <-] & Hrun). apply bind_ok_inv in Hrun as (es & m1 & [= <- <-] & Hrun).
  eapply (rtc_l _ _ (at_pass w (Claiming (∅, [])))); [by eapply process_next_action; [apply action_start|]|].
  etrans; [eapply claiming_steps; [apply iter_here|exact Hrun]|].
  apply rtc_once. apply pass_moves. apply (action_claimed _ _ _ _ (ftd, claims)), lookup_last.
Qed.

Lemma prune_empty_files_steps w w' :
  prune_empty_files w = (Ok (), w') →
  rtc process_next (at_pass w (Choosing ([], []))) (at_pass w' Over).
Proof.
  intros Hrun. unfold prune_empty_files in Hrun.
  apply bind_ok_inv in Hrun as (es & w1 & [= <- <-] & Hrun).
  apply bind_ok_inv in Hrun as ([todo claims] & w1 & Hc & Hrun). apply bind_ok_inv in Hrun as ([] & w2 & Hrm & Hdrop).
  unfold fm, zoom in Hc. destruct (foldM _ _ _ (w_fm w)) as [r m1] eqn:Ec. injection Hc as -> <-.
  etrans; [eapply choosing_steps; [apply iter_here|exact Ec]|].
  eapply (rtc_l _ _ (at_pass (set_file_map m1 w) (Removing todo claims))).
  { apply pass_moves. apply (action_chosen _ _ _ _ (todo, claims)), lookup_last. }
  etrans; [by apply removing_steps|]. apply rtc_once.
  apply (pass_step _ _ (prune_remove [] claims)); [apply action_remove, lookup_last|].
  unfold prune_remove. by rewrite (bind_ok (wrld_run _ _ _ _ Hdrop)).
Qed.
End pass.

(** C20. A call of [maintenance] that succeeds is a pass: from where it begins the process can go
    to where its files are claimed and are to be rewritten, and from where they have been
    rewritten to where it ends, whoever else is in the process. *)
Theorem maintenance_steps_are_code config w n w' :
  maintenance config w = (Ok n, w') →
  ∃ ftd claims w1 w2,
    (∀ h ws prs, rtc process_next (((w, h), ws), prs) (((w1, h), ws), prs ++ [Rewriting claims])) ∧
    foldM (rewrite_generation config) 0 (iter_order ftd) w1 = (Ok n, w2) ∧
    (∀ h ws prs, rtc process_next (((w2, h), ws), prs ++ [Rewriting claims]) (((w', h), ws), prs ++ [Over])).
Proof.
  intros Hrun. unfold maintenance in Hrun.
  apply bind_ok_inv in Hrun as ([ftd claims] & w1 & Hc & Hrun). apply bind_ok_inv in Hrun as (k & w2 & Hrw & Hrun).
  apply bind_ok_inv in Hrun as ([] & w3 & Hdrop & Hrun). apply bind_ok_inv in Hrun as ([] & w4 & Hprune & [= -> ->]).
  exists ftd, claims, w1, w2. split_and!.
  - intros h ws prs. unfold fm, zoom in Hc. destruct (files_to_defrag config (w_fm w)) as [r m1] eqn:Ec.
    injection Hc as -> <-. by eapply files_to_defrag_steps.
  - unfold on_error in Hrw. apply bind_ok_inv in Hrw as (r & w5 & Htry & Hr). unfold try in Htry.
    destruct (foldM _ _ _ w1) as [[k'|e| |] w6]; simplify_eq; [by injection Hr as -> ->|].
    by apply bind_ok_inv in Hr as (? & ? & _ & ?).
  - intros h ws prs. unfold fm, zoom in Hdrop. destruct (drop_claims claims (w_fm w2)) as [r m3] eqn:Ed.
    injection Hdrop as -> <-. etrans; [by eapply (releasing_steps h ws prs)|].
    eapply rtc_l; [|by eapply (prune_empty_files_steps h ws prs)].
    apply pass_moves, action_rewritten, lookup_last.
Qed.
End steps.
