(* ===== verification/Store.v ===== *)
(** Store: the remaining methods of [Marble] in [src/lib.rs], and the life of a store:
    [open_store] opens one over an operating system, [drop_store] is its [Drop]. *)
From S2P Require Import Prelude Effects Os Deps Locations LocationTable Config Metadata.
From S2P Require Import ZstdDict Storage State FileMap WritePath ReadPath Gc Recovery.

Section operations.
Context `{Deps}.

(** [Stats], less the floating-point ratios derived from the other fields *)
Record Stats := MkStats {
  live_objects : Z;
  stored_objects : Z;
  dead_objects : Z;
  files : Z;
  total_file_size : Z;
  stats_counters : Counters;
}.

(** [Marble::stats] *)
Definition stats : M World Stats :=
  '(fams_len, total_file_size, stored_objects, live_objects) ← fm file_map_stats;
  c ← gets (λ w, counters (w_marble w));
  mret {|
    live_objects := live_objects;
    stored_objects := stored_objects;
    dead_objects := wrap64 (stored_objects - live_objects);
    files := fams_len;
    total_file_size := total_file_size;
    stats_counters := c;
  |}.

(** [Marble::sync_all] *)
Definition sync_all : M World () :=
  synced_files ← file_map_sync_all;
  when synced_files (io sync_all_dir).

(** [0..=max], filtered *)
Definition object_ids (max : Z) (keep : Z → bool) : list Z :=
  filter (λ oid, keep oid = true) (seqZ 0 (max + 1)).

(** [Marble::free_object_ids] *)
Definition free_object_ids : M World (Z * list Z) :=
  max ← gets (λ w, max_object_id (w_marble w));
  t ← gets w_table;
  mret (wrap64 (max + 1), object_ids max (λ oid, bool_decide (load t oid = None))).

(** [Marble::allocated_object_ids] *)
Definition allocated_object_ids : M World (list Z) :=
  max ← gets (λ w, max_object_id (w_marble w));
  t ← gets w_table;
  mret (object_ids max (λ oid, bool_decide (load t oid ≠ None))).

(** ** Opening and dropping *)

Definition open_store (config : Config) (o : os) : outcome World * os :=
  match open config o with
  | (Ok m, o') => (Ok (MkWorld o' m), o')
  | (Err e, o') => (Err e, o')
  | (Panic, o') => (Panic, o')
  | (Crash, o') => (Crash, o')
  end.

(** [marble::open]: the default configuration at a path *)
Definition marble_open (p : string) (o : os) : outcome World * os :=
  open_store {|
    path := p;
    zstd_compression_level := zstd_compression_level Config_default;
    fsync_each_batch := fsync_each_batch Config_default;
    target_file_size := target_file_size Config_default;
    file_compaction_percent := file_compaction_percent Config_default;
    max_object_size := max_object_size Config_default;
    small_file_cleanup_threshold := small_file_cleanup_threshold Config_default;
    partition_function := partition_function Config_default;
    min_compaction_files := min_compaction_files Config_default;
  |} o.

(** Dropping the last handle drops every file of the map. *)
Definition drop_store : M World () :=
  entries ← gets (λ w, cm_iter (fams (w_fm w)));
  forM entries (λ '(_, p), drop_arc p).

(** A new process over the same file system. *)
Definition new_process (faults : list fault) (thread : Z) (o : os) : os :=
  MkOs (os_fs o) faults 0 thread.
End operations.
