(* ===== verification/Instances.v ===== *)
(** Instances: concrete dependencies, for the witnesses of the theorems.

    The checksum is CRC-32 itself; the compressor puts the length and a checksum of
    the dictionary in front of the data; the page table and the ordered map are finite maps. *)
From S2P Require Import Prelude Deps.

(** ** CRC-32, bit by bit *)

Definition crc_bit (c : Z) : Z :=
  if Z.testbit c 0 then Z.lxor (Z.shiftr c 1) 0xEDB88320 else Z.shiftr c 1.

Definition crc_byte (c : Z) (b : byte) : Z :=
  Nat.iter 8 crc_bit (Z.lxor c (Z_of_byte b)).

Definition crc32_update (c : Z) (buf : bytes) : Z :=
  Z.lxor (foldl crc_byte (Z.lxor c 0xFFFFFFFF) buf) 0xFFFFFFFF.

Definition crc32_mask (c : Z) : Z := c `mod` 2 ^ 32.

#[export] Instance crc32_instance : Crc32 := {|
  Hasher := Z;
  hasher_new := 0;
  hasher_update := crc32_update;
  hasher_finalize := crc32_mask;
  crc32fast_hash buf := crc32_mask (crc32_update 0 buf);
|}.

#[export] Instance crc32_laws : Crc32Laws.
Proof. split; intros; by apply Z.mod_pos_bound. Qed.

(** The check value of CRC-32: the checksum of "123456789". *)
Example crc32_check :
  crc32fast_hash (byte_of_Z <$> [0x31; 0x32; 0x33; 0x34; 0x35; 0x36; 0x37; 0x38; 0x39]) = 0xCBF43926.
Proof. vm_compute. reflexivity. Qed.

(** ** A compressor: length, checksum of the dictionary, data *)

Definition dict_tag (d : bytes) : bytes := to_le_bytes 4 (crc32fast_hash d).

Definition frame_decompress (d : bytes) (size : Z) (src : bytes) : option bytes :=
  if bool_decide (take 12 src = to_le_bytes 8 size ++ dict_tag d)
  then Some (drop 12 src) else None.

#[export] Instance zstd_instance : Zstd := {|
  CCtx := bytes;
  cctx_create := [];
  cctx_load_dictionary _ d := Some d;
  compress_bound n := n + n / 256 + 64;
  cctx_compress d src _ := (d, Some (to_le_bytes 8 (len src) ++ dict_tag d ++ src));
  DCtx := bytes;
  dctx_create := [];
  dctx_load_dictionary _ d := Some d;
  dctx_decompress d size src := (d, frame_decompress d size src);
  find_decompressed_size src :=
    if bool_decide (len src < 8) then None else Some (Some (from_le_bytes (take 8 src)));
  train_from_buffer cap buf _ :=
    if bool_decide (buf = [] ∨ cap ≤ 0) then None else Some (take (Z.to_nat cap) buf);
|}.

#[export] Instance zstd_laws : ZstdLaws.
Proof.
  refine {| cctx_dict (c : @CCtx zstd_instance) d := c = d;
            dctx_dict (x : @DCtx zstd_instance) d := x = d |}.
  - eauto.
  - eauto.
  - intros c d src level -> Hlen.
    cbn [cctx_compress dctx_decompress find_decompressed_size zstd_instance]. do 2 eexists.
    assert (length (dict_tag d) = 4%nat) as Ht by apply length_to_le_bytes.
    split; [done|]. split; [done|]. split; [|split].
    + cbn [compress_bound zstd_instance]. rewrite !length_app, length_to_le_bytes, Ht.
      pose proof (Z.div_pos (len src) 256). lia.
    + rewrite bool_decide_eq_false_2 by (rewrite length_app, length_to_le_bytes; lia).
      rewrite take_app_length' by (by rewrite length_to_le_bytes).
      rewrite from_to_le_bytes_8 by u64_lia. done.
    + intros x ->. eexists. split; [|done]. f_equal. unfold frame_decompress.
      rewrite (app_assoc (to_le_bytes 8 _)).
      rewrite take_app_length', drop_app_length' by (rewrite length_app, length_to_le_bytes, Ht; done).
      by rewrite bool_decide_eq_true_2.
  - done.
  - intros cap buf sizes d. cbn [train_from_buffer zstd_instance]. case_bool_decide as Hb; [done|]. intros [= <-].
    assert (buf ≠ [] ∧ 0 < cap) as [Hb1 Hb2] by (split; [naive_solver|apply Znot_ge_lt; intros ?; apply Hb; right; lia]). split.
    + destruct buf; [done|]. destruct (Z.to_nat cap) eqn:E; [lia|done].
    + rewrite length_take. lia.
Qed.

(** ** A page table *)

#[export] Instance pagetable_instance : PageTable := {|
  PT := gmap Z Z;
  pt_default := ∅;
  pt_read t i := default 0 (t !! i);
  pt_write t i v := <[i := v]> t;
|}.

#[export] Instance pagetable_laws : PageTableLaws.
Proof.
  split; simpl; [done|]. intros t i v j. rewrite lookup_insert. by case_decide.
Qed.

(** ** An ordered map *)

Definition decreasing (a b : Z * Z) : Prop := b.1 ≤ a.1.

#[export] Instance decreasing_dec a b : Decision (decreasing a b).
Proof. unfold decreasing; apply _. Defined.

Definition sorted_entries (m : gmap Z Z) : list (Z * Z) :=
  merge_sort decreasing (map_to_list m).

#[export] Instance concurrent_map_instance : ConcurrentMap := {|
  CM := gmap Z Z;
  cm_default := ∅;
  cm_get m k := m !! k;
  cm_insert m k v := <[k := v]> m;
  cm_remove m k := delete k m;
  cm_iter := sorted_entries;
  cm_range_from m k := filter (λ kv, kv.1 ≤ k) (sorted_entries m);
  cm_len m := len (sorted_entries m);
|}.

Lemma strictly_decreasing (l : list (Z * Z)) :
  NoDup l.*1 → StronglySorted decreasing l → StronglySorted (λ a b : Z * Z, b.1 < a.1) l.
Proof.
  intros Hn Hs. induction Hs as [|x l _ IH HF]; [constructor|].
  apply NoDup_cons in Hn as [Hx Hn]. constructor; [auto|].
  rewrite Forall_forall in *. intros y Hy. specialize (HF y Hy). unfold decreasing in HF.
  assert (y.1 ≠ x.1); [|lia]. intros E. apply Hx. rewrite <- E. by apply list_elem_of_fmap_2.
Qed.

#[export] Instance concurrent_map_laws : ConcurrentMapLaws.
Proof.
  split; simpl; try done.
  - intros m k v j. rewrite lookup_insert. by case_decide.
  - intros m k j. rewrite lookup_delete. by case_decide.
  - intros m k v. unfold sorted_entries. rewrite merge_sort_Permutation. apply elem_of_map_to_list.
  - intros m. apply strictly_decreasing.
    + unfold sorted_entries. rewrite merge_sort_Permutation. apply NoDup_fst_map_to_list.
    + apply StronglySorted_merge_sort.
      * intros [] [] []; unfold decreasing; simpl; lia.
      * intros [] []; unfold decreasing; simpl; lia.
Qed.

(** ** Iteration in the order of the finite map *)

#[export] Instance iter_order_instance : IterOrder := {|
  iter_order K A _ _ m := map_to_list m;
|}.

#[export] Instance iter_order_laws : IterOrderLaws.
Proof. split. done. Qed.

#[export] Instance deps_instance : Deps := {|
  deps_crc32 := crc32_instance;
  deps_zstd := zstd_instance;
  deps_pagetable := pagetable_instance;
  deps_concurrent_map := concurrent_map_instance;
  deps_iter_order := iter_order_instance;
|}.

#[export] Instance deps_laws : DepsLaws.
Proof. split; apply _. Qed.
