(* ===== verification/Spec.v ===== *)
(** Spec: what a store promises, without files, locations or tables. The state of the
    store is a finite map; a batch updates it entry by entry; nothing else changes it. *)
From S2P Require Import Prelude.

Definition AbsStore : Type := gmap Z bytes.

(** One entry of a batch: a value, or a deletion. *)
Definition spec_set (m : AbsStore) (e : Z * option bytes) : AbsStore :=
  match e.2 with
  | Some v => <[e.1 := v]> m
  | None => delete e.1 m
  end.

Definition spec_write (batch : list (Z * option bytes)) (m : AbsStore) : AbsStore :=
  foldl spec_set m batch.

Definition spec_read (oid : Z) (m : AbsStore) : option bytes := m !! oid.

(** ** Consequences *)

Lemma spec_write_app a b m : spec_write (a ++ b) m = spec_write b (spec_write a m).
Proof. unfold spec_write. apply foldl_app. Qed.

Lemma spec_write_snoc l e m : spec_write (l ++ [e]) m = spec_set (spec_write l m) e.
Proof. by rewrite spec_write_app. Qed.

Lemma spec_set_lookup m e oid :
  spec_set m e !! oid = if decide (e.1 = oid) then e.2 else m !! oid.
Proof.
  destruct e as [k [v|]]; unfold spec_set; simpl; [apply lookup_insert|apply lookup_delete].
Qed.
