(* ===== verification/Layout.v ===== *)
(** Layout: what the files of a store mean.

    A [LogFile] is the logical content of one storage file: its metadata, the objects in
    front of the trailer, the trailer's entries and dictionary, and the values the
    entries denote. A store is a list of such files in the order of their sequence
    numbers; [locs] is the location table it stands for, [vals] the objects. *)
From S2P Require Import Prelude Effects Os Deps Locations Metadata ZstdDict Storage State.
From S2P Require Import Recovery.

Section layout.
Context `{Deps, !DepsLaws}.

Record LogFile := MkLogFile {
  lf_md : Metadata;
  lf_ino : File;
  lf_objs : list (Z * bytes);
  lf_entries : list (Z * RelativeDiskLocation.t);
  lf_dict : option bytes;
  lf_vals : gmap Z (option bytes);
}.

Definition encode_objects (objs : list (Z * bytes)) : bytes :=
  concat ((λ o, encode_object o.1 o.2) <$> objs).

Definition lf_data (f : LogFile) : bytes := encode_objects (lf_objs f).
Definition lf_content (f : LogFile) : bytes :=
  lf_data f ++ trailer_buf (lf_entries f) (lf_dict f).
Definition lf_rels (f : LogFile) : gmap Z Z := list_to_map (lf_entries f).
Definition lf_lsn (f : LogFile) : Z := lsn (lf_md f).
Definition lf_base (f : LogFile) : Z := masked_lsn (lf_md f).
Definition lf_end (f : LogFile) : Z := trailer_offset (lf_md f).
Definition lf_name (f : LogFile) : string := to_file_name (lf_md f).
Definition lf_location (f : LogFile) : DiskLocation.t := 2 * lf_lsn f.

(** the absolute locations of a file's entries *)
Definition lf_abs (f : LogFile) : gmap Z Z := (λ rel, rel + lf_location f) <$> lf_rels f.

(** An entry is a deletion, or the offset of an object that decompresses to the value. *)
Definition entry_ok (dict : option bytes) (objs : list (Z * bytes)) (oid rel : Z)
    (v : option (option bytes)) : Prop :=
  (rel = 1 ∧ v = Some None) ∨
  ∃ before stored after raw,
    objs = before ++ (oid, stored) :: after ∧
    rel = 2 * len (encode_objects before) ∧
    stored_as dict raw stored ∧ v = Some (Some raw).

Record rels_ok (dict : option bytes) (objs : list (Z * bytes)) (rels : gmap Z Z)
    (vals : gmap Z (option bytes)) : Prop := {
  ro_entry oid rel : rels !! oid = Some rel → entry_ok dict objs oid rel (vals !! oid);
  ro_dom oid : is_Some (rels !! oid) ↔ is_Some (vals !! oid);
  ro_objs oid stored :
    (oid, stored) ∈ objs → is_Some (rels !! oid) ∧ is_u64 oid ∧ len stored ≤ isize_max;
}.

Record lf_wf (f : LogFile) : Prop := {
  wf_lsn : ∃ d : bool, lf_lsn f = lf_base f + Z.b2z d * 2 ^ 62;
  wf_base : 0 < lf_base f;
  wf_top : lf_base f + lf_end f < 2 ^ 62;
  wf_end : lf_end f = len (lf_data f);
  wf_size : file_size (lf_md f) = len (lf_content f);
  wf_alloc : len (lf_content f) ≤ isize_max;
  wf_typed : Metadata_typed (lf_md f);
  wf_present : len (lf_entries f) ≤ present_objects (lf_md f);
  wf_dict : lf_dict f ≠ Some [];
  wf_nodup : NoDup (lf_entries f).*1;
  wf_oids : ∀ oid rel, (oid, rel) ∈ lf_entries f → is_u64 oid;
  wf_rels : rels_ok (lf_dict f) (lf_objs f) (lf_rels f) (lf_vals f);
}.

Definition before (f g : LogFile) : Prop := lf_base f + lf_end f < lf_base g.

Definition sorted (L : list LogFile) : Prop := StronglySorted before L.

(** the location table and the objects of a store *)
Definition locs (L : list LogFile) : gmap Z Z := foldl (λ m f, lf_abs f ∪ m) ∅ L.
Definition vals (L : list LogFile) : gmap Z (option bytes) := foldl (λ m f, lf_vals f ∪ m) ∅ L.

(** the locations that belong to a file, and how many objects are there *)
Definition in_file (f : LogFile) (loc : Z) : Prop :=
  2 * lf_lsn f ≤ loc ≤ 2 * (lf_lsn f + lf_end f) + 1.

#[global] Instance in_file_dec f loc : Decision (in_file f loc).
Proof. unfold in_file; apply _. Defined.

Definition live (m : gmap Z Z) (f : LogFile) : Z :=
  Z.of_nat (size (filter (λ kv : Z * Z, in_file f kv.2) m)).
End layout.

#[global] Arguments lf_base : simpl never.
#[global] Arguments lf_location : simpl never.

Section lemmas.
Context `{Deps, !DepsLaws}.
Implicit Types f g : LogFile.

(** ** Encoded objects *)

Lemma encode_objects_app a b : encode_objects (a ++ b) = encode_objects a ++ encode_objects b.
Proof. unfold encode_objects. by rewrite fmap_app, concat_app. Qed.

Lemma encode_objects_cons o a : encode_objects (o :: a) = encode_object o.1 o.2 ++ encode_objects a.
Proof. done. Qed.

Lemma len_encode_objects_cons o a :
  len (encode_objects (o :: a)) = HEADER_LEN + len o.2 + len (encode_objects a).
Proof. rewrite encode_objects_cons, length_app, Nat2Z.inj_add, len_encode_object. lia. Qed.

(** An offset determines the object that starts there. *)
Lemma encode_objects_position a x b a' x' b' :
  a ++ x :: b = a' ++ x' :: b' →
  len (encode_objects a) = len (encode_objects a') → a = a' ∧ x = x' ∧ b = b'.
Proof.
  revert a'. induction a as [|y a IH]; intros [|y' a'] E Hlen;
    rewrite ?len_encode_objects_cons in Hlen; unfold HEADER_LEN in Hlen;
    change (len (encode_objects [])) with 0 in Hlen; try lia.
  - by injection E as -> ->.
  - injection E as -> E. destruct (IH a') as (-> & -> & ->); [done|lia|done].
Qed.

(** Where the header and the data of an object are. *)
Lemma content_object f a oid stored b :
  lf_objs f = a ++ (oid, stored) :: b →
  let off := len (encode_objects a) in
  let len_buf := to_le_bytes 8 (len stored) in
  let pid_buf := to_le_bytes 8 oid in
  slice (lf_content f) off (off + HEADER_LEN)
  = Some (hash len_buf pid_buf stored ++ pid_buf ++ len_buf) ∧
  slice (lf_content f) (off + HEADER_LEN) (off + HEADER_LEN + len stored) = Some stored.
Proof.
  intros E off len_buf pid_buf.
  assert (∃ rest, lf_content f
    = encode_objects a ++ (hash len_buf pid_buf stored ++ pid_buf ++ len_buf) ++ stored ++ rest)
    as [rest ->].
  { eexists. unfold lf_content, lf_data. rewrite E, encode_objects_app, encode_objects_cons.
    unfold encode_object. rewrite <- !app_assoc. cbn [fst snd]. reflexivity. }
  assert (len (hash len_buf pid_buf stored ++ pid_buf ++ len_buf) = HEADER_LEN) as Hh.
  { rewrite !length_app, length_hash. subst len_buf pid_buf. rewrite !length_to_le_bytes. unfold HEADER_LEN. lia. }
  set (h := hash len_buf pid_buf stored ++ pid_buf ++ len_buf) in *. split.
  - apply slice_app; lia.
  - rewrite app_assoc. apply slice_app; rewrite length_app; lia.
Qed.

(** ** One file *)

Lemma lf_rels_elem f oid rel :
  lf_wf f → lf_rels f !! oid = Some rel ↔ (oid, rel) ∈ lf_entries f.
Proof. intros Hwf. symmetry. apply elem_of_list_to_map, Hwf. Qed.

Lemma lf_abs_lookup f oid :
  lf_abs f !! oid = (λ rel, rel + lf_location f) <$> lf_rels f !! oid.
Proof. apply lookup_fmap. Qed.

Lemma lf_abs_dom f oid : lf_wf f → is_Some (lf_abs f !! oid) ↔ is_Some (lf_vals f !! oid).
Proof. intros Hwf. rewrite lf_abs_lookup, fmap_is_Some. apply (wf_rels f Hwf). Qed.

Lemma lf_end_pos f : lf_wf f → 0 ≤ lf_end f.
Proof. intros Hwf. rewrite (wf_end f Hwf). lia. Qed.

Lemma lf_lsn_range f : lf_wf f → 0 < lf_lsn f ∧ lf_lsn f + lf_end f < 2 ^ 63.
Proof.
  intros Hwf. destruct (wf_lsn f Hwf) as [d E]. pose proof (wf_base f Hwf). pose proof (wf_top f Hwf).
  pose proof (lf_end_pos f Hwf). destruct d; simpl in E; lia.
Qed.

(** An entry's relative location: an offset below the trailer, or the start of the file
    for a deletion. *)
Lemma lf_rels_form f oid rel :
  lf_wf f → lf_rels f !! oid = Some rel →
  ∃ off d, rel = 2 * off + Z.b2z d ∧ 0 ≤ off ≤ lf_end f ∧
    lf_vals f !! oid = Some (if d then None else mjoin (lf_vals f !! oid)) ∧
    (d = false → is_Some (mjoin (lf_vals f !! oid))).
Proof.
  intros Hwf Hr. pose proof (lf_end_pos f Hwf).
  destruct (ro_entry _ _ _ _ (wf_rels f Hwf) _ _ Hr) as [[-> Hv]|(a & st & b & raw & E & -> & _ & Hv)].
  - exists 0, true. by rewrite Hv.
  - exists (len (encode_objects a)), false. rewrite Hv. split_and!; eauto; [simpl; lia|lia|].
    rewrite (wf_end f Hwf). unfold lf_data. rewrite E, encode_objects_app, length_app. lia.
Qed.

Lemma lf_abs_in_file f oid loc : lf_wf f → lf_abs f !! oid = Some loc → in_file f loc.
Proof.
  intros Hwf. rewrite lf_abs_lookup, fmap_Some. intros (rel & Hr & ->).
  destruct (lf_rels_form f oid rel Hwf Hr) as (off & d & -> & ? & _).
  unfold in_file, lf_location. destruct d; simpl; lia.
Qed.

Lemma in_file_range f loc : lf_wf f → in_file f loc → 0 < loc < two64.
Proof. intros Hwf [? ?]. pose proof (lf_lsn_range f Hwf). unfold two64. lia. Qed.

(** The location of an entry, as [to_absolute] computes it. *)
Lemma lf_to_absolute f oid rel :
  lf_wf f → lf_rels f !! oid = Some rel →
  RelativeDiskLocation.to_absolute rel (lf_lsn f) = Some (rel + lf_location f).
Proof.
  intros Hwf Hr. pose proof (lf_lsn_range f Hwf).
  destruct (lf_rels_form f oid rel Hwf Hr) as (off & d & -> & ? & _).
  rewrite to_absolute_spec by lia. f_equal. unfold lf_location. lia.
Qed.

(** ** Two files *)

(** If a location is in [f] and not below the start of [g], [g] does not start after [f]. *)
Lemma in_file_order f g loc :
  lf_wf f → lf_wf g → f = g ∨ before f g ∨ before g f →
  in_file f loc → lf_location g ≤ loc → lf_lsn g ≤ lf_lsn f.
Proof.
  unfold in_file, before, lf_location. intros Hf Hg Hord [? ?] ?.
  destruct Hord as [->|Hord]; [lia|].
  pose proof (wf_base f Hf). pose proof (wf_top f Hf). pose proof (lf_end_pos f Hf).
  pose proof (wf_base g Hg). pose proof (wf_top g Hg). pose proof (lf_end_pos g Hg).
  destruct (wf_lsn f Hf) as [[] E], (wf_lsn g Hg) as [[] E']; simpl in *; lia.
Qed.

Lemma before_lsn_ne f g : lf_wf f → before f g → lf_lsn f ≠ lf_lsn g.
Proof.
  unfold before, lf_base, lf_lsn, masked_lsn. intros Hf Hb E. rewrite E in Hb.
  pose proof (lf_end_pos f Hf). lia.
Qed.

Lemma in_file_disjoint f g loc :
  lf_wf f → lf_wf g → before f g ∨ before g f → in_file f loc → ¬ in_file g loc.
Proof.
  intros Hf Hg Hord Hif Hig. assert (before g f ∨ before f g) as Hord' by tauto.
  pose proof (in_file_order f g loc Hf Hg (or_intror Hord) Hif (proj1 Hig)).
  pose proof (in_file_order g f loc Hg Hf (or_intror Hord') Hig (proj1 Hif)).
  destruct Hord as [Ho|Ho]; [apply (before_lsn_ne f g)|apply (before_lsn_ne g f)]; auto; lia.
Qed.
End lemmas.

Section lists.
Context `{Deps, !DepsLaws}.
Implicit Types f g : LogFile.
Implicit Types L : list LogFile.

Lemma locs_acc m L : foldl (λ m f, lf_abs f ∪ m) m L = locs L ∪ m.
Proof.
  unfold locs. induction L as [|f L IH] using rev_ind; simpl; [by rewrite (left_id_L ∅ _)|].
  by rewrite !foldl_app, IH; simpl; rewrite (assoc_L (∪)).
Qed.

Lemma locs_app L L' : locs (L ++ L') = locs L' ∪ locs L.
Proof. unfold locs at 1. by rewrite foldl_app, locs_acc. Qed.

Lemma locs_snoc L f : locs (L ++ [f]) = lf_abs f ∪ locs L.
Proof. rewrite locs_app. unfold locs at 1. simpl. by rewrite (right_id_L ∅ (∪)). Qed.

Lemma vals_acc m L : foldl (λ m f, lf_vals f ∪ m) m L = vals L ∪ m.
Proof.
  unfold vals. induction L as [|f L IH] using rev_ind; simpl; [by rewrite (left_id_L ∅ _)|].
  by rewrite !foldl_app, IH; simpl; rewrite (assoc_L (∪)).
Qed.

Lemma vals_app L L' : vals (L ++ L') = vals L' ∪ vals L.
Proof. unfold vals at 1. by rewrite foldl_app, vals_acc. Qed.

Lemma vals_snoc L f : vals (L ++ [f]) = lf_vals f ∪ vals L.
Proof. rewrite vals_app. unfold vals at 1. simpl. by rewrite (right_id_L ∅ (∪)). Qed.

Lemma lookup_union_cases {A} (m1 m2 : gmap Z A) i :
  (is_Some (m1 !! i) ∧ (m1 ∪ m2) !! i = m1 !! i)
  ∨ (m1 !! i = None ∧ (m1 ∪ m2) !! i = m2 !! i).
Proof.
  destruct (m1 !! i) as [x|] eqn:E.
  - left. split; [eauto|]. by apply lookup_union_Some_l.
  - right. split; [done|]. by apply lookup_union_r.
Qed.

Lemma sorted_snoc L f : sorted (L ++ [f]) ↔ sorted L ∧ ∀ g, g ∈ L → before g f.
Proof.
  unfold sorted. induction L as [|h L IH]; simpl.
  - split; [intros _; split; [constructor|set_solver]|intros _; repeat constructor].
  - split.
    + intros [Hs HF]%StronglySorted_inv. apply IH in Hs as [Hs Hb].
      rewrite Forall_app, Forall_singleton in HF. destruct HF as [HF Hf]. split.
      * by constructor.
      * intros g [->|Hg]%elem_of_cons; auto.
    + intros [[Hs HF]%StronglySorted_inv Hb]. constructor.
      * apply IH. split; [done|]. intros g Hg. apply Hb. by right.
      * rewrite Forall_app, Forall_singleton. split; [done|]. apply Hb. by left.
Qed.

Lemma sorted_app L L' : sorted (L ++ L') → sorted L ∧ sorted L'.
Proof.
  unfold sorted. induction L as [|h L IH]; simpl; [split; [constructor|done]|].
  intros [Hs HF]%StronglySorted_inv. destruct (IH Hs). split; [|done].
  constructor; [done|]. by apply Forall_app in HF as [? _].
Qed.

Lemma sorted_delete L f L' : sorted (L ++ f :: L') → sorted (L ++ L').
Proof.
  unfold sorted. induction L as [|h L IH]; simpl.
  - by intros [Hs _]%StronglySorted_inv.
  - intros [Hs HF]%StronglySorted_inv. constructor; [auto|].
    rewrite Forall_app, Forall_cons in HF. rewrite Forall_app. tauto.
Qed.

Lemma sorted_irrefl L f L' :
  sorted (L ++ f :: L') → Forall lf_wf (L ++ f :: L') → f ∉ L ++ L'.
Proof.
  assert (∀ g, lf_wf g → ¬ before g g) as Hirr.
  { unfold before. intros g Hg. pose proof (lf_end_pos g Hg). lia. }
  unfold sorted. induction L as [|h L IH]; simpl.
  - intros [_ HF]%StronglySorted_inv [Hf _]%Forall_cons Hin.
    rewrite Forall_forall in HF. by apply (Hirr f), HF.
  - intros [Hs HF]%StronglySorted_inv [Hh Hwf]%Forall_cons [->|Hin]%elem_of_cons.
    + rewrite Forall_forall in HF. apply (Hirr h), HF; [done|set_solver].
    + by apply IH.
Qed.

Lemma sorted_nodup L : sorted L → Forall lf_wf L → NoDup L.
Proof.
  induction 1 as [|f L Hs IH HF]; intros Hwf; [constructor|].
  apply Forall_cons in Hwf as [Hf Hwf]. constructor; [|auto]. intros Hin.
  rewrite Forall_forall in HF. specialize (HF f Hin). unfold before in HF.
  pose proof (lf_end_pos f Hf). lia.
Qed.

Lemma sorted_elem L f g :
  sorted L → f ∈ L → g ∈ L → f = g ∨ before f g ∨ before g f.
Proof.
  induction 1 as [|h L _ IH HF]; [set_solver|]. rewrite Forall_forall in HF.
  intros [->|Hf]%elem_of_cons [->|Hg]%elem_of_cons; auto.
Qed.

(** The files of a store have different sequence numbers. *)
Lemma sorted_lsn L f g :
  sorted L → Forall lf_wf L → f ∈ L → g ∈ L → lf_lsn f = lf_lsn g → f = g.
Proof.
  intros Hs HF Hf Hg E. rewrite Forall_forall in HF.
  destruct (sorted_elem L f g Hs Hf Hg) as [|[Hb|Hb]]; [done|..].
  - by apply before_lsn_ne in Hb; [|auto].
  - apply before_lsn_ne in Hb; [|auto]. congruence.
Qed.

(** ** Owners *)

Lemma locs_vals_dom L oid :
  Forall lf_wf L → is_Some (locs L !! oid) ↔ is_Some (vals L !! oid).
Proof.
  induction L as [|f L IH] using rev_ind; [by intros _; split; intros []|].
  rewrite Forall_app, Forall_singleton, locs_snoc, vals_snoc, !lookup_union_is_Some.
  intros [HL Hf]. rewrite (lf_abs_dom f oid Hf), IH by done. done.
Qed.

Lemma locs_owner L oid loc :
  Forall lf_wf L → locs L !! oid = Some loc →
  ∃ f, f ∈ L ∧ lf_abs f !! oid = Some loc ∧ vals L !! oid = lf_vals f !! oid.
Proof.
  induction L as [|f L IH] using rev_ind; [done|].
  rewrite Forall_app, Forall_singleton, locs_snoc, vals_snoc. intros [HL Hf] Hloc.
  destruct (lookup_union_cases (lf_abs f) (locs L) oid) as [[Hs E]|[Hn E]];
    rewrite E in Hloc.
  - exists f. split_and!; [set_solver|done|].
    apply lf_abs_dom in Hs as [v Hv]; [|done]. by rewrite (lookup_union_Some_l _ _ _ _ Hv).
  - destruct (IH HL Hloc) as (g & ? & ? & Hv). exists g. split_and!; [set_solver|done|].
    assert (lf_vals f !! oid = None) as Hvn.
    { apply eq_None_not_Some. rewrite <- lf_abs_dom, Hn by done. by intros []. }
    rewrite lookup_union_r by done. done.
Qed.

(** The file a location falls into is the one that owns it. *)
Lemma locs_in_file L f oid loc :
  sorted L → Forall lf_wf L → f ∈ L → locs L !! oid = Some loc → in_file f loc →
  lf_abs f !! oid = Some loc ∧ vals L !! oid = lf_vals f !! oid.
Proof.
  intros Hs HF Hf Hloc Hin. destruct (locs_owner L oid loc HF Hloc) as (g & Hg & Ha & Hv).
  rewrite Forall_forall in HF. destruct (sorted_elem L f g Hs Hf Hg) as [->|Hord]; [done|].
  exfalso. apply (in_file_disjoint f g loc); auto. by apply (lf_abs_in_file g oid); auto.
Qed.

Lemma locs_range L oid loc : Forall lf_wf L → locs L !! oid = Some loc → 0 < loc < two64.
Proof.
  intros HF Hloc. destruct (locs_owner L oid loc HF Hloc) as (f & Hf & Ha & _).
  rewrite Forall_forall in HF. apply (in_file_range f); auto. by apply (lf_abs_in_file f oid); auto.
Qed.

Lemma locs_oid_u64 L oid loc : Forall lf_wf L → locs L !! oid = Some loc → is_u64 oid.
Proof.
  intros HF Hloc. destruct (locs_owner L oid loc HF Hloc) as (f & Hf & Ha & _).
  rewrite Forall_forall in HF. rewrite lf_abs_lookup, fmap_Some in Ha.
  destruct Ha as (rel & Hr & _). apply (wf_oids f (HF f Hf) oid rel).
  by apply lf_rels_elem; auto.
Qed.

(** A file nobody points into can be left out. *)
Lemma live_zero m f : live m f = 0 → ∀ oid loc, m !! oid = Some loc → ¬ in_file f loc.
Proof.
  unfold live. intros Hl oid loc Hm Hin.
  assert (filter (λ kv : Z * Z, in_file f kv.2) m !! oid = Some loc) as Hf
    by by apply map_lookup_filter_Some.
  assert (filter (λ kv : Z * Z, in_file f kv.2) m = ∅) as E
    by (apply map_size_empty_inv; lia).
  by rewrite E in Hf.
Qed.

Lemma dead_file_irrelevant L1 f L2 :
  let L := L1 ++ f :: L2 in
  sorted L → Forall lf_wf L → live (locs L) f = 0 →
  locs (L1 ++ L2) = locs L ∧ vals (L1 ++ L2) = vals L.
Proof.
  intros L Hs HF Hlive. subst L.
  assert (Forall lf_wf L2 ∧ lf_wf f) as [HF2 Hf]
    by by apply Forall_app in HF as [_ [??]%Forall_cons].
  assert (∀ oid, is_Some (lf_abs f !! oid) → is_Some (locs L2 !! oid)) as Hover.
  { intros oid [loc Ha]. destruct (locs L2 !! oid) as [loc'|] eqn:E; [eauto|]. exfalso.
    apply (live_zero _ _ Hlive oid loc); [|by apply (lf_abs_in_file f oid)].
    rewrite locs_app. change (f :: L2) with ([f] ++ L2). rewrite locs_app.
    rewrite lookup_union_l'; [rewrite lookup_union_r by done|].
    - unfold locs; simpl. by rewrite (right_id_L ∅ (∪)).
    - apply lookup_union_is_Some. right. unfold locs; simpl.
      rewrite (right_id_L ∅ (∪)). eauto. }
  change (f :: L2) with ([f] ++ L2) in *. rewrite !locs_app, !vals_app.
  split; apply map_eq; intros oid; rewrite <- (assoc_L (∪)).
  - destruct (lookup_union_cases (locs L2) (locs L1) oid) as [[Hs2 ->]|[Hn ->]].
    + symmetry. by apply lookup_union_l'.
    + rewrite lookup_union_r by done. unfold locs at 2; simpl. rewrite (right_id_L ∅ (∪)).
      rewrite lookup_union_r; [done|]. apply eq_None_not_Some. intros Hx%Hover.
      rewrite Hn in Hx. by destruct Hx.
  - destruct (lookup_union_cases (vals L2) (vals L1) oid) as [[Hs2 ->]|[Hn ->]].
    + symmetry. by apply lookup_union_l'.
    + rewrite lookup_union_r by done. unfold vals at 2; simpl. rewrite (right_id_L ∅ (∪)).
      rewrite lookup_union_r; [done|]. apply eq_None_not_Some.
      rewrite <- lf_abs_dom by done. intros Hx%Hover%locs_vals_dom; [|done].
      rewrite Hn in Hx. by destruct Hx.
Qed.

(** ** Counting live objects *)

Lemma live_delete m f oid loc :
  m !! oid = Some loc →
  live (delete oid m) f = live m f - (if decide (in_file f loc) then 1 else 0).
Proof.
  intros Hm. unfold live. rewrite map_filter_delete. case_decide as Hin.
  - assert (filter (λ kv : Z * Z, in_file f kv.2) m !! oid = Some loc) as Hf
      by by apply map_lookup_filter_Some.
    rewrite map_size_delete_Some by eauto.
    assert (size (filter (λ kv : Z * Z, in_file f kv.2) m) ≠ 0%nat); [|lia].
    intros E%map_size_empty_inv. by rewrite E in Hf.
  - rewrite delete_id; [lia|]. apply map_lookup_filter_None. right. naive_solver.
Qed.

(** At most the objects of a file are live in it. *)
Lemma live_le L m f :
  sorted L → Forall lf_wf L → f ∈ L → m ⊆ locs L → live m f ≤ len (lf_entries f).
Proof.
  intros Hs HF Hf Hm. unfold live.
  assert (filter (λ kv : Z * Z, in_file f kv.2) m ⊆ lf_abs f) as Hsub.
  { apply map_subseteq_spec. intros oid loc [Hl Hin]%map_lookup_filter_Some. simpl in Hin.
    apply (locs_in_file L f oid loc); try done. by eapply lookup_weaken. }
  apply map_subseteq_size in Hsub. unfold lf_abs, lf_rels in Hsub. rewrite map_size_fmap in Hsub.
  rewrite Forall_forall in HF. specialize (HF f Hf).
  rewrite map_size_list_to_map in Hsub by apply HF. lia.
Qed.

Lemma entries_u64 f : lf_wf f → len (lf_entries f) < 2 ^ 60.
Proof.
  intros Hwf. pose proof (wf_alloc f Hwf) as Ha. unfold lf_content in Ha.
  rewrite length_app, Nat2Z.inj_add, len_trailer_buf in Ha. unfold isize_max in Ha. lia.
Qed.

Lemma live_nonneg m f : 0 ≤ live m f.
Proof. unfold live. lia. Qed.

Lemma live_ext m m' f :
  (∀ oid loc, in_file f loc → m !! oid = Some loc ↔ m' !! oid = Some loc) → live m f = live m' f.
Proof.
  intros Hm. unfold live. do 2 f_equal. apply map_eq. intros oid. apply option_eq. intros loc.
  rewrite !map_lookup_filter_Some. simpl. naive_solver.
Qed.
End lists.
