(* ===== verification/FileMapSpec.v ===== *)
(** FileMapSpec: the file map without its pointers.

    [fam_at] is the file registered at a location. Each operation of [FileMap] is
    described by what it does to [fam_at]; the well-formedness [fm_wf] (every key maps
    to a live [Arc] of the file with that location) is what keeps the files apart. *)
From S2P Require Import Prelude Effects Os Deps Locations Metadata ZstdDict Config State.
From S2P Require Import FileMap.

Section view.
Context `{Deps}.
Implicit Types m : FileMap.

Definition fam_at m (k : Z) : option FileAndMetadata :=
  p ← cm_get (fams m) k;
  arcs m !! p.

Record fm_wf m : Prop := {
  fw_ptr k p : cm_get (fams m) k = Some p → ∃ fam, arcs m !! p = Some fam ∧ fam_location fam = k;
  fw_fresh p fam : arcs m !! p = Some fam → p < next_arc m;
}.
End view.

Section lemmas.
Context `{Deps, !DepsLaws}.
Implicit Types m : FileMap.

Lemma fam_at_Some m k fam :
  fam_at m k = Some fam ↔ ∃ p, cm_get (fams m) k = Some p ∧ arcs m !! p = Some fam.
Proof. unfold fam_at. by rewrite bind_Some. Qed.

Lemma fm_wf_ext m m' :
  fams m' = fams m → arcs m' = arcs m → next_arc m' = next_arc m → fm_wf m → fm_wf m'.
Proof. intros Ef Ea En []. split; by rewrite ?Ef, ?Ea, ?En. Qed.

Lemma fam_at_ext m m' k : fams m' = fams m → arcs m' = arcs m → fam_at m' k = fam_at m k.
Proof. intros Ef Ea. unfold fam_at. by rewrite Ef, Ea. Qed.

Lemma fam_at_key m k : fm_wf m → is_Some (fam_at m k) ↔ is_Some (cm_get (fams m) k).
Proof.
  intros Hwf. unfold fam_at. destruct (cm_get (fams m) k) as [p|] eqn:E; simpl; [|done].
  destruct (fw_ptr m Hwf k p E) as (fam & -> & _). by split; eexists.
Qed.

Lemma fam_at_location m k fam : fm_wf m → fam_at m k = Some fam → fam_location fam = k.
Proof.
  intros Hwf (p & Hk & Hp)%fam_at_Some. destruct (fw_ptr m Hwf k p Hk) as (fam' & ? & ?). congruence.
Qed.

(** Two keys never share a pointer. *)
Lemma fm_wf_inj m k k' p :
  fm_wf m → cm_get (fams m) k = Some p → cm_get (fams m) k' = Some p → k = k'.
Proof.
  intros Hwf Hk Hk'. destruct (fw_ptr m Hwf k p Hk) as (? & ? & ?), (fw_ptr m Hwf k' p Hk') as (? & ? & ?).
  congruence.
Qed.

(** ** Updating the object behind a pointer *)

Definition updated (p : Z) (f : FileAndMetadata → FileAndMetadata) m : FileMap :=
  set_arcs (alter f p (arcs m)) m.

Lemma updated_fam_at m k p f fam :
  fm_wf m → cm_get (fams m) k = Some p → arcs m !! p = Some fam →
  fam_location (f fam) = fam_location fam →
  fm_wf (updated p f m) ∧
  ∀ j, fam_at (updated p f m) j = if decide (j = k) then Some (f fam) else fam_at m j.
Proof.
  intros Hwf Hk Hp Hloc. unfold updated. split.
  - split; simpl.
    + intros j q Hj. destruct (fw_ptr m Hwf j q Hj) as (fam' & Hq & <-).
      rewrite lookup_alter. case_decide; subst; rewrite Hq; simpl; eauto.
      exists (f fam'). split; [done|]. congruence.
    + intros q fam'. rewrite lookup_alter. case_decide; subst.
      * rewrite fmap_Some. intros (? & Hq & _). by eapply fw_fresh.
      * by apply fw_fresh.
  - intros j. unfold fam_at; simpl. case_decide as Hj.
    + subst. rewrite Hk. simpl. by rewrite lookup_alter_eq, Hp.
    + destruct (cm_get (fams m) j) as [q|] eqn:Eq; simpl; [|done].
      rewrite lookup_alter_ne; [done|]. intros <-. by apply Hj, (fm_wf_inj m _ _ p).
Qed.

Lemma wp_update_fam p f m (Q : () → FileMap → Prop) E C :
  Q () (updated p f m) → wp (update_fam p f) Q E C m.
Proof. done. Qed.

Lemma wp_deref p m fam (Q : FileAndMetadata → FileMap → Prop) E C :
  arcs m !! p = Some fam → Q fam m → wp (deref p) Q E C m.
Proof. intros Hp HQ. unfold deref. wp_steps. by eapply wp_unwrap. Qed.

Lemma updated_compose p f g m : updated p f (updated p g m) = updated p (f ∘ g) m.
Proof. unfold updated, set_arcs. simpl. by rewrite alter_alter_eq. Qed.

Lemma updated_arc p f m fam : arcs m !! p = Some fam → arcs (updated p f m) !! p = Some (f fam).
Proof. intros Hp. unfold updated. simpl. by rewrite lookup_alter_eq, Hp. Qed.

(** ** The entries of the map, in its order *)

Lemma cm_iter_key m k p : (k, p) ∈ cm_iter (fams m) ↔ cm_get (fams m) k = Some p.
Proof. apply cm_iter_elem. Qed.

(** ** Adding and removing *)

Lemma inserted_fam_at m k fam lsn' :
  fm_wf m → fam_location fam = k →
  let m' := MkFileMap (cm_insert (fams m) k (next_arc m)) (<[next_arc m := fam]> (arcs m))
              (next_arc m + 1) lsn' in
  fm_wf m' ∧ ∀ j, fam_at m' j = if decide (j = k) then Some fam else fam_at m j.
Proof.
  intros Hwf Hloc m'. subst m'.
  assert (∀ p fam', arcs m !! p = Some fam' → p ≠ next_arc m) as Hfresh.
  { intros p fam' Hp ->. pose proof (fw_fresh m Hwf _ _ Hp). lia. }
  split.
  - split; simpl.
    + intros j p. rewrite cm_get_insert. case_decide as Hj.
      * intros [= <-]. rewrite lookup_insert_eq. naive_solver.
      * intros Hp. destruct (fw_ptr m Hwf j p Hp) as (fam' & Hq & ?).
        rewrite lookup_insert_ne by (intros E; by apply (Hfresh _ _ Hq)). eauto.
    + intros p fam'. rewrite lookup_insert. case_decide; [lia|].
      intros Hp. pose proof (fw_fresh m Hwf _ _ Hp). lia.
  - intros j. unfold fam_at; simpl. rewrite cm_get_insert. destruct (decide (k = j)) as [->|Hj].
    + rewrite decide_True by done. simpl. by rewrite lookup_insert_eq.
    + rewrite decide_False by done. destruct (cm_get (fams m) j) as [p|] eqn:E; simpl; [|done].
      destruct (fw_ptr m Hwf j p E) as (fam' & Hq & ?).
      by rewrite lookup_insert_ne by (intros E'; by apply (Hfresh _ _ Hq)).
Qed.

Lemma removed_fam_at m k p :
  fm_wf m → cm_get (fams m) k = Some p →
  let m' := set_arcs (delete p (arcs m)) (set_fams (cm_remove (fams m) k) m) in
  fm_wf m' ∧ ∀ j, fam_at m' j = if decide (j = k) then None else fam_at m j.
Proof.
  intros Hwf Hk m'. subst m'.
  assert (∀ j q, cm_get (cm_remove (fams m) k) j = Some q → j ≠ k ∧ q ≠ p ∧ cm_get (fams m) j = Some q) as Hother.
  { intros j q. rewrite cm_get_remove. case_decide; [done|]. intros Hq. split_and!; [done| |done].
    intros ->. by eapply fm_wf_inj in Hq; [|..|exact Hk]. }
  split.
  - split; simpl.
    + intros j q (? & ? & Hq)%Hother. rewrite lookup_delete_ne by done. by apply fw_ptr.
    + intros q fam. rewrite lookup_delete. case_decide; [done|]. by apply fw_fresh.
  - intros j. unfold fam_at; simpl. destruct (decide (j = k)) as [->|Hj].
    + rewrite cm_get_remove, decide_True by done. done.
    + rewrite cm_get_remove, decide_False by done.
      destruct (cm_get (fams m) j) as [q|] eqn:E; simpl; [|done].
      rewrite lookup_delete_ne; [done|]. intros <-. by eapply fm_wf_inj in E; [|..|exact Hk].
Qed.

(** [FileMap::insert] adds an unpublished, claimed file at a fresh sequence number. *)
Lemma wp_insert file written capacity gen is_gc config decompressor m
    (Q : DiskLocation.t * list Z → FileMap → Prop) E C :
  fm_wf m →
  let base := next_file_lsn m in
  0 < base → 0 ≤ written → base + written + 1 < 2 ^ 62 →
  let location := 2 * (base + Z.b2z (negb is_gc) * 2 ^ 62) in
  fam_at m location = None →
  (∀ m', fm_wf m' →
    (∀ j, fam_at m' j = if decide (j = location) then
       Some (MkFam file location None None capacity gen true (fsync_each_batch config) decompressor)
     else fam_at m j) →
    next_file_lsn m' = base + written + 1 →
    Q (location, [location]) m') →
  wp (insert file written capacity gen is_gc config decompressor) Q E C m.
Proof.
  intros Hwf base Hbase Hw Htop location Hnone HQ. unfold insert. wp_steps. fold base.
  assert ((if is_gc then base else Z.lor base NEW_WRITE_BATCH_BIT) = base + Z.b2z (negb is_gc) * 2 ^ 62) as ->.
  { destruct is_gc; simpl; [lia|]. rewrite lor_new_write_bit; lia. }
  assert (DiskLocation.new_fam (base + Z.b2z (negb is_gc) * 2 ^ 62) = Some location) as Hnew.
  { rewrite new_fam_spec; [done|]. destruct is_gc; simpl; lia. }
  eapply wp_unwrap; [exact Hnew|]. wp_steps. simpl.
  apply wp_assert.
  { apply bool_decide_eq_true. apply eq_None_not_Some.
    rewrite <- (fam_at_key m), Hnone by done. by intros []. }
  wp_steps. apply wp_assert.
  { apply negb_true_iff, Z.eqb_neq. destruct is_gc; simpl; lia. }
  wp_steps. eapply wp_unwrap; [exact Hnew|]. wp_steps. simpl.
  destruct (inserted_fam_at (set_next_file_lsn (wrap64 (base + (written + 1))) m) location
    (MkFam file location None None capacity gen true (fsync_each_batch config) decompressor)
    (wrap64 (base + (written + 1)))) as [Hwf' Hat]; [by destruct Hwf; split|done|].
  apply HQ; [exact Hwf'|exact Hat|]. simpl. rewrite wrap64_small; u64_lia.
Qed.

(** ** Claims *)

Lemma wp_drop_claim m k fam (Q : () → FileMap → Prop) E C :
  fm_wf m → fam_at m k = Some fam → fam_rewrite_claim fam = true →
  (∀ m', fm_wf m' → fams m' = fams m → next_file_lsn m' = next_file_lsn m →
     (∀ j, fam_at m' j = if decide (j = k) then Some (set_fam_rewrite_claim false fam) else fam_at m j) →
     Q () m') →
  wp (drop_claims [k]) Q E C m.
Proof.
  intros Hwf (p & Hk & Hp)%fam_at_Some Hc HQ. unfold drop_claims. wp_steps. cbn [forM]. wp_steps.
  rewrite Hk. wp_steps. eapply wp_deref; [done|]. wp_steps. apply wp_update_fam.
  destruct (updated_fam_at m k p (set_fam_rewrite_claim false) fam Hwf Hk Hp eq_refl).
  apply wp_assert; [done|]. wp_steps. by apply HQ.
Qed.

(** A claim on a file that is gone is not an error. *)
Lemma wp_drop_claim_gone m k (Q : () → FileMap → Prop) E C :
  fm_wf m → fam_at m k = None → Q () m → wp (drop_claims [k]) Q E C m.
Proof.
  intros Hwf Hk HQ. unfold drop_claims. cbn [forM]. wp_steps.
  assert (cm_get (fams m) k = None) as ->; [|by wp_steps].
  apply eq_None_not_Some. rewrite <- (fam_at_key m), Hk by done. by intros [].
Qed.
End lemmas.
