(* ===== verification/Invariant.v ===== *)
(** Invariant: what holds of an open store between calls.

    [disk_ok] relates the directory to a list of files; it is all that recovery needs, and
    it holds at every point where the process may be killed. [mem_ok] relates the tables
    in memory to the same list. [Inv] is both. *)
From S2P Require Import Prelude Effects Os Deps Locations LocationTable Metadata Config.
From S2P Require Import ZstdDict Storage State FileMap Recovery FileMapSpec Layout.

Section invariant.
Context `{Deps, !DepsLaws}.

(** Names recovery skips or deletes. *)
Definition ignored_name (name : string) : Prop :=
  ends_with name "tmp" = true ∨ ∀ size, parse name size = None.

Record disk_ok (F : fs) (L : list LogFile) : Prop := {
  dk_heap : fs_heap_exists F = false → fs_dir F = ∅;
  dk_sorted : sorted L;
  dk_wf : Forall lf_wf L;
  dk_file f : f ∈ L → fs_dir F !! lf_name f = Some (lf_ino f);
  dk_content f : f ∈ L → fs_inodes F !! lf_ino f = Some (lf_content f);
  dk_name name ino :
    fs_dir F !! name = Some ino → (∃ f, f ∈ L ∧ name = lf_name f) ∨ ignored_name name;
  dk_inj name name' ino :
    fs_dir F !! name = Some ino → fs_dir F !! name' = Some ino → name = name';
  dk_inode name ino :
    fs_dir F !! name = Some ino → is_Some (fs_inodes F !! ino) ∧ ino < fs_next_ino F;
}.

(** The file a reader or the collector sees for [f]; [tbl] is the location table whose
    entries are counted, [claimed] the locations somebody has claimed. *)
Record fam_ok (tbl : gmap Z Z) (claimed : Z → bool) (f : LogFile) (fam : FileAndMetadata)
    : Prop := {
  fo_file : fam_file fam = lf_ino f;
  fo_location : fam_location fam = lf_location f;
  fo_path : fam_path fam = Some (lf_name f);
  fo_metadata : fam_metadata fam = Some (lf_md f);
  fo_live : fam_live_objects fam = live tbl f;
  fo_generation : fam_generation fam = generation (lf_md f);
  fo_claim : fam_rewrite_claim fam = claimed (lf_location f);
  fo_dict : zstd_dict_for (fam_zstd_dict fam) (lf_dict f);
}.

(** The file map has one entry for each file, related to it by [Φ]. *)
Record fams_ok (m : FileMap) (L : list LogFile) (Φ : LogFile → FileAndMetadata → Prop)
    : Prop := {
  fs_wf : fm_wf m;
  fs_fam f : f ∈ L → ∃ fam, fam_at m (lf_location f) = Some fam ∧ Φ f fam;
  fs_key k fam : fam_at m k = Some fam → ∃ f, f ∈ L ∧ k = lf_location f;
  fs_next : 0 < next_file_lsn m ∧ ∀ f, f ∈ L → lf_base f + lf_end f < next_file_lsn m;
}.

Definition table_ok (t : PT) (tbl : gmap Z Z) : Prop :=
  ∀ oid, pt_read t oid = default 0 (tbl !! oid).

(** The temporary names still to be handed out are free. *)
Definition tmp_ok (o : os) : Prop :=
  0 ≤ os_tmp_counter o ∧
  ∀ n, os_tmp_counter o ≤ n → fs_dir (os_fs o) !! tmp_file_name n = None.

Record mem_ok (w : World) (L : list LogFile) (claimed : Z → bool) : Prop := {
  mo_heap : fs_heap_exists (os_fs (w_os w)) = true;
  mo_table : table_ok (w_table w) (locs L);
  mo_fams : fams_ok (w_fm w) L (fam_ok (locs L) claimed);
  mo_max oid : is_Some (locs L !! oid) → oid ≤ max_object_id (w_marble w);
  mo_max_u64 : is_u64 (max_object_id (w_marble w));
  mo_tmp : tmp_ok (w_os w);
}.

Record Inv (w : World) (L : list LogFile) (claimed : Z → bool) : Prop := {
  inv_disk : disk_ok (os_fs (w_os w)) L;
  inv_mem : mem_ok w L claimed;
}.

Definition unclaimed : Z → bool := λ _, false.
End invariant.

Section disk.
Context `{Deps, !DepsLaws}.
Implicit Types f g : LogFile.
Implicit Types L : list LogFile.
Implicit Types F : fs.

Lemma lf_name_inj L f g :
  sorted L → Forall lf_wf L → f ∈ L → g ∈ L → lf_name f = lf_name g → f = g.
Proof.
  intros Hs HF Hf Hg E. apply (sorted_lsn L); try done. rewrite Forall_forall in HF.
  apply to_file_name_lsn; [apply wf_typed..|done]; auto.
Qed.

Lemma lf_name_kept f : lf_wf f → ¬ ignored_name (lf_name f).
Proof.
  intros Hwf. pose proof (wf_typed f Hwf) as Ht. intros [E|E].
  - unfold lf_name in E. rewrite to_file_name_not_tmp in E; [done|]. destruct Ht; lia.
  - specialize (E (file_size (lf_md f))). unfold lf_name in E. by rewrite parse_to_file_name in E.
Qed.

Lemma ignored_tmp n : ignored_name (tmp_file_name n).
Proof. left. apply tmp_file_name_tmp. Qed.

Lemma ignored_legend : ignored_name LEGEND.
Proof. right. intros size. reflexivity. Qed.

Section one.
Context F L (Hok : disk_ok F L).

Lemma disk_file_wf f : f ∈ L → lf_wf f.
Proof. intros Hf. pose proof (dk_wf _ _ Hok) as HF. rewrite Forall_forall in HF. auto. Qed.

Lemma disk_file_name f name : f ∈ L → ignored_name name → lf_name f ≠ name.
Proof. intros Hf Hi <-. by apply (lf_name_kept f); [apply disk_file_wf|]. Qed.

(** An inode some ignored name points to, or a fresh one, is not that of a file. *)
Lemma disk_ino_ignored f name ino :
  f ∈ L → ignored_name name → fs_dir F !! name = Some ino → lf_ino f ≠ ino.
Proof.
  intros Hf Hi Hn E. apply (disk_file_name f name Hf Hi). subst ino.
  by apply (dk_inj _ _ Hok _ _ (lf_ino f)); [apply (dk_file _ _ Hok)|].
Qed.

Lemma disk_ino_fresh f : f ∈ L → lf_ino f ≠ fs_next_ino F.
Proof.
  intros Hf. destruct (dk_inode _ _ Hok _ _ (dk_file _ _ Hok f Hf)). lia.
Qed.

Lemma disk_ok_ext F' :
  fs_dir F' = fs_dir F → fs_heap_exists F' = fs_heap_exists F →
  fs_next_ino F' = fs_next_ino F → fs_inodes F' = fs_inodes F → disk_ok F' L.
Proof.
  intros Ed Eh En Ei. destruct Hok. split; rewrite ?Ed, ?Eh, ?En, ?Ei; done.
Qed.

Lemma disk_ok_only ino F' :
  (∀ f, f ∈ L → lf_ino f ≠ ino) → only_file ino F F' → disk_ok F' L.
Proof.
  intros Hne [Ed Eh En Ei Ee _ _ _]. destruct Hok. split; rewrite ?Ed, ?Eh, ?En; try done.
  - intros f Hf. rewrite Ei by auto. auto.
  - intros name i Hn. destruct (dk_inode0 name i Hn). auto.
Qed.

Lemma disk_ok_create name :
  ignored_name name → fs_dir F !! name = None → fs_heap_exists F = true →
  disk_ok (fs_create name F) L.
Proof.
  intros Hi Hn Hh. pose proof disk_ino_fresh as Hfresh. pose proof disk_file_name as Hname.
  destruct Hok. split; simpl; try done.
  - by rewrite Hh.
  - intros f Hf. rewrite lookup_insert_ne; [auto|]. intros E. by apply (Hname f name).
  - intros f Hf. rewrite lookup_insert_ne; [auto|]. intros E. by apply (Hfresh f).
  - intros nm ino. rewrite lookup_insert_Some. intros [[<- <-]|[? ?]]; eauto.
  - intros nm nm' ino. rewrite !lookup_insert_Some.
    intros [[<- <-]|[? E]] [[<- E']|[? E']]; try done; [..|by eauto].
    + apply dk_inode0 in E' as [_ ?]. lia.
    + subst. apply dk_inode0 in E as [_ ?]. lia.
  - intros nm ino. rewrite lookup_insert_Some. intros [[-> <-]|[? E]].
    + rewrite lookup_insert_eq. split; [eauto|lia].
    + apply dk_inode0 in E as [? ?]. rewrite lookup_insert_is_Some. split; [|lia].
      right. split; [lia|done].
Qed.

(** [File::create] on an ignored name that exists *)
Lemma disk_ok_truncate name ino :
  ignored_name name → fs_dir F !! name = Some ino →
  disk_ok (set_inodes (<[ino := []]> (fs_inodes F)) F) L.
Proof.
  intros Hi Hn. apply (disk_ok_only ino).
  - intros f Hf. by apply (disk_ino_ignored f name).
  - split; simpl; try done.
    + intros i ?. by rewrite lookup_insert_ne.
    + intros i ?. rewrite lookup_insert_is_Some'. auto.
Qed.

Lemma disk_ok_unlink name :
  ignored_name name → disk_ok (set_dir (Unlink name) (delete name (fs_dir F)) F) L.
Proof.
  intros Hi. pose proof disk_file_name as Hname. destruct Hok. split; simpl; try done.
  - intros E. rewrite dk_heap0 by done. apply delete_empty.
  - intros f Hf. rewrite lookup_delete_ne; [auto|]. intros E. by apply (Hname f name).
  - intros nm ino. rewrite lookup_delete_Some. intros [? ?]; eauto.
  - intros nm nm' ino. rewrite !lookup_delete_Some. intros [? ?] [? ?]; eauto.
  - intros nm ino. rewrite lookup_delete_Some. intros [? ?]; eauto.
Qed.

(** Renaming a finished temporary file adds it to the store. *)
Lemma disk_ok_rename f tmp :
  ignored_name tmp → lf_wf f → (∀ g, g ∈ L → before g f) →
  fs_dir F !! tmp = Some (lf_ino f) → fs_inodes F !! lf_ino f = Some (lf_content f) →
  disk_ok (set_dir (Rename tmp (lf_name f)) (<[lf_name f := lf_ino f]> (delete tmp (fs_dir F))) F)
    (L ++ [f]).
Proof.
  intros Hi Hwf Hb Ht Hc. pose proof (lf_name_kept f Hwf) as Hkept.
  pose proof disk_file_wf as HwfL. pose proof disk_file_name as Hname.
  assert (∀ g, g ∈ L → lf_name g ≠ lf_name f) as Hne.
  { intros g Hg E. apply (before_lsn_ne g f); [auto..|].
    apply to_file_name_lsn; [apply wf_typed..|done]; auto. }
  assert (fs_dir F !! lf_name f = None) as Hnone.
  { destruct (fs_dir F !! lf_name f) as [i|] eqn:E; [exfalso|done].
    destruct (dk_name _ _ Hok _ _ E) as [(g & Hg & E')|]; [|done]. by apply (Hne g). }
  destruct Hok. split; simpl.
  - intros E. rewrite dk_heap0 in Ht by done. done.
  - by apply sorted_snoc.
  - apply Forall_app. split; [done|]. by apply Forall_singleton.
  - intros g [Hg| ->%list_elem_of_singleton]%elem_of_app; [|by rewrite lookup_insert_eq].
    rewrite lookup_insert_ne, lookup_delete_ne; [auto|..]; intros E; [by apply (Hname g tmp)|].
    by apply (Hne g).
  - intros g [Hg| ->%list_elem_of_singleton]%elem_of_app; auto.
  - intros nm ino. rewrite lookup_insert_Some, lookup_delete_Some.
    intros [[<- <-]|(?&?&E)]; [left; exists f; set_solver|].
    destruct (dk_name0 nm ino E) as [(g & ? & ?)|]; [left; exists g; set_solver|by right].
  - intros nm nm' ino. rewrite !lookup_insert_Some, !lookup_delete_Some.
    intros [[<- <-]|(?&?&E)] [[<- E']|(?&?&E')]; try done; [..|by eauto]; exfalso; subst; eauto.
  - intros nm ino. rewrite lookup_insert_Some, lookup_delete_Some.
    intros [[<- <-]|(?&?&E)]; eauto.
Qed.
End one.

(** Removing a file of the store. *)
Lemma disk_ok_remove F L f L' :
  disk_ok F (L ++ f :: L') →
  disk_ok (set_dir (Unlink (lf_name f)) (delete (lf_name f) (fs_dir F)) F) (L ++ L').
Proof.
  intros Hok. assert (∀ g, g ∈ L ++ L' → g ∈ L ++ f :: L' ∧ lf_name g ≠ lf_name f) as Hin.
  { intros g Hg. assert (g ∈ L ++ f :: L') as Hg' by set_solver. split; [done|].
    intros E. assert (g = f) as ->.
    { apply (lf_name_inj (L ++ f :: L')); [apply Hok..|done|set_solver|done]. }
    destruct Hok. apply (sorted_irrefl L f L'); done. }
  destruct Hok. split; simpl; try done.
  - intros E. rewrite dk_heap0 by done. apply delete_empty.
  - by eapply sorted_delete.
  - apply Forall_app in dk_wf0 as [? [_ ?]%Forall_cons]. by apply Forall_app.
  - intros g [Hg ?]%Hin. rewrite lookup_delete_ne by congruence. auto.
  - intros g [Hg ?]%Hin. auto.
  - intros nm ino. rewrite lookup_delete_Some. intros [? E].
    destruct (dk_name0 nm ino E) as [(g & Hg & ->)|]; [|by right].
    left. exists g. split; [|done].
    apply elem_of_app in Hg as [?|[->|?]%elem_of_cons]; set_solver.
  - intros nm nm' ino. rewrite !lookup_delete_Some. intros [? ?] [? ?]; eauto.
  - intros nm ino. rewrite lookup_delete_Some. intros [? ?]; eauto.
Qed.
End disk.

(** ** The file map and the files *)

Section fams.
Context `{Deps, !DepsLaws}.
Implicit Types f g : LogFile.
Implicit Types L : list LogFile.
Implicit Types m : FileMap.

Lemma fams_ok_mono m L Φ Ψ :
  fams_ok m L Φ → (∀ f fam, f ∈ L → Φ f fam → Ψ f fam) → fams_ok m L Ψ.
Proof.
  intros [] Hmono. split; try done. intros f Hf. destruct (fs_fam0 f Hf) as (fam & ? & ?). eauto.
Qed.

Lemma fams_ok_ext m m' L Φ :
  fams m' = fams m → arcs m' = arcs m → next_arc m' = next_arc m →
  next_file_lsn m' = next_file_lsn m → fams_ok m L Φ → fams_ok m' L Φ.
Proof. destruct m, m'; simpl. by intros -> -> -> ->. Qed.

(** The entries of the map, file by file. *)
Definition entry_for m Φ (e : Z * Z) f : Prop :=
  e.1 = lf_location f ∧ ∃ fam, arcs m !! e.2 = Some fam ∧ Φ f fam.

Section ordered.
Context m L Φ (Hs : sorted L) (Hwf : Forall lf_wf L) (Hm : fams_ok m L Φ).

Lemma lf_location_inj f g : f ∈ L → g ∈ L → lf_location f = lf_location g → f = g.
Proof. intros Hf Hg E. apply (sorted_lsn L); try done. unfold lf_location in E. lia. Qed.

(** A location that falls into a file is looked up in that file. *)
Lemma range_next_owner f loc :
  f ∈ L → in_file f loc →
  ∃ p fam, range_next loc m = Some (lf_location f, p) ∧
    cm_get (fams m) (lf_location f) = Some p ∧ arcs m !! p = Some fam ∧ Φ f fam.
Proof.
  intros Hf Hin. destruct (fs_fam m L Φ Hm f Hf) as (fam & Hat & Hfam).
  destruct (proj1 (fam_at_Some m _ _) Hat) as (p & Hk & Hp).
  assert (lf_location f ≤ loc) as Hle by (destruct Hin; unfold lf_location; lia).
  unfold range_next. destruct (cm_range_from_head (fams m) loc)
    as [[Hlt _]|(j & v & rest & -> & Hj & Hjle & Hmax)].
  { specialize (Hlt _ _ Hk). lia. }
  simpl. assert (j = lf_location f) as ->.
  { destruct (proj2 (fam_at_key m j (fs_wf _ _ _ Hm)) (mk_is_Some _ _ Hj)) as [famj Hatj].
    destruct (fs_key m L Φ Hm j famj Hatj) as (g & Hg & ->).
    assert (lf_lsn g ≤ lf_lsn f) as Hlsn.
    { rewrite Forall_forall in Hwf. apply (in_file_order f g loc); auto.
      by apply (sorted_elem L). }
    specialize (Hmax _ _ Hk Hle). unfold lf_location in *. lia. }
  exists p, fam. split_and!; [by simplify_eq|done..].
Qed.

Lemma iter_entry e : e ∈ cm_iter (fams m) → ∃ f, f ∈ L ∧ entry_for m Φ e f.
Proof.
  destruct e as [k p]. intros Hk%cm_iter_elem.
  destruct (fw_ptr m (fs_wf _ _ _ Hm) k p Hk) as (fam & Hp & _).
  destruct (fs_key m L Φ Hm k fam) as (f & Hf & ->); [apply fam_at_Some; eauto|].
  destruct (fs_fam m L Φ Hm f Hf) as (fam' & (p' & Hk' & Hp')%fam_at_Some & Hfam).
  exists f. split; [done|]. split; [done|]. simplify_eq. eauto.
Qed.

Lemma iter_files : ∃ fs, fs ≡ₚ L ∧ Forall2 (entry_for m Φ) (cm_iter (fams m)) fs.
Proof.
  assert (∀ es, (∀ e, e ∈ es → e ∈ cm_iter (fams m)) →
    ∃ fs, Forall2 (entry_for m Φ) es fs ∧ ∀ f, f ∈ fs → f ∈ L) as Hgen.
  { induction es as [|e es IH]; intros Hes; [exists []; split; [constructor|set_solver]|].
    destruct IH as (fs & HF & Hfs); [intros; apply Hes; by right|].
    destruct (iter_entry e) as (f & Hf & He); [apply Hes; by left|].
    exists (f :: fs). split; [by constructor|]. intros g [->|?]%elem_of_cons; auto. }
  destruct (Hgen (cm_iter (fams m))) as (fs & HF & Hfs); [done|]. exists fs. split; [|done].
  assert ((cm_iter (fams m)).*1 = lf_location <$> fs) as E.
  { clear -HF. induction HF as [|e f es fs [He _] _ IH]; csimpl; congruence. }
  apply NoDup_Permutation.
  - apply (NoDup_fmap_1 lf_location). rewrite <- E. apply cm_iter_nodup.
  - by apply sorted_nodup.
  - intros f. split; [apply Hfs|]. intros Hf.
    destruct (fs_fam m L Φ Hm f Hf) as (fam & (p & Hk & _)%fam_at_Some & _).
    apply cm_iter_elem, (list_elem_of_fmap_2 fst) in Hk. rewrite E in Hk.
    apply list_elem_of_fmap in Hk as (g & El & Hg). simpl in El.
    apply lf_location_inj in El as ->; auto.
Qed.

(** Updating the entry of one file. *)
Lemma fams_ok_updated f p fam h Ψ :
  f ∈ L → cm_get (fams m) (lf_location f) = Some p → arcs m !! p = Some fam →
  fam_location (h fam) = fam_location fam → Ψ f (h fam) →
  (∀ g fam', g ∈ L → g ≠ f → Φ g fam' → Ψ g fam') →
  fams_ok (updated p h m) L Ψ.
Proof.
  intros Hf Hk Hp Hloc HΨ Hother.
  destruct (updated_fam_at m (lf_location f) p h fam) as [Hwf' Hat']; try done; [apply Hm|].
  split; [done|..].
  - intros g Hg. rewrite Hat'. case_decide as E.
    + apply lf_location_inj in E as ->; eauto.
    + destruct (fs_fam m L Φ Hm g Hg) as (fam' & ? & ?). exists fam'. split; [done|].
      apply Hother; try done. by intros ->.
  - intros k fam'. rewrite Hat'. case_decide; [eauto|]. apply (fs_key m L Φ Hm).
  - apply (fs_next m L Φ Hm).
Qed.
End ordered.
End fams.

(** ** The invariant *)

Section inv.
Context `{Deps, !DepsLaws}.
Implicit Types L : list LogFile.

Lemma inv_sorted w L claimed : Inv w L claimed → sorted L.
Proof. intros []. by eapply dk_sorted. Qed.

Lemma inv_wf w L claimed : Inv w L claimed → Forall lf_wf L.
Proof. intros []. by eapply dk_wf. Qed.

Lemma inv_lf_wf w L claimed f : Inv w L claimed → f ∈ L → lf_wf f.
Proof. intros Hi. pose proof (inv_wf w L claimed Hi) as HF. rewrite Forall_forall in HF. auto. Qed.

Lemma inv_fams w L claimed : Inv w L claimed → fams_ok (w_fm w) L (fam_ok (locs L) claimed).
Proof. intros []. by eapply mo_fams. Qed.

(** The invariant depends on the disk, the tables and the counters of names only. *)
Lemma inv_ext w w' L claimed claimed' :
  Inv w L claimed → os_fs (w_os w') = os_fs (w_os w) →
  os_tmp_counter (w_os w') = os_tmp_counter (w_os w) → w_table w' = w_table w →
  max_object_id (w_marble w') = max_object_id (w_marble w) →
  fams_ok (w_fm w') L (fam_ok (locs L) claimed') → Inv w' L claimed'.
Proof.
  intros [Hd []] Ef Et Etab Emax Hfams. split; [by rewrite Ef|].
  split; rewrite ?Ef, ?Etab, ?Emax; try done. unfold tmp_ok. by rewrite Ef, Et.
Qed.

Lemma inv_os w o L claimed :
  Inv w L claimed → os_upd (os_fs (w_os w)) (w_os w) o → Inv (set_os o w) L claimed.
Proof. intros Hi (?&?&_). eapply inv_ext; try done. exact (inv_fams _ _ _ Hi). Qed.

(** Syncing changes nothing that the invariant mentions. *)
Lemma inv_sync w F o L claimed :
  Inv w L claimed → fs_dir F = fs_dir (os_fs (w_os w)) →
  fs_heap_exists F = fs_heap_exists (os_fs (w_os w)) →
  fs_next_ino F = fs_next_ino (os_fs (w_os w)) → fs_inodes F = fs_inodes (os_fs (w_os w)) →
  os_upd F (w_os w) o → Inv (set_os o w) L claimed.
Proof.
  intros [Hd []] Ed Eh En Ei (Ef & Et & _). split; simpl; [rewrite Ef; by eapply disk_ok_ext|].
  split; simpl; try done; [congruence|]. destruct mo_tmp0 as [? Hfree].
  split; simpl; rewrite Et; [done|]. intros n Hn. rewrite Ef, Ed. by apply Hfree.
Qed.

(** Raising the bound on object ids. *)
Lemma inv_max w L claimed x :
  Inv w L claimed → max_object_id (w_marble w) ≤ x → is_u64 x →
  Inv (set_max_object_id x w) L claimed.
Proof.
  intros [Hd []] Hle Hx. split; [done|]. split; simpl; try done.
  intros oid Ho. specialize (mo_max0 oid Ho). lia.
Qed.

(** What a location in the table refers to. *)
Lemma inv_load w L claimed oid :
  Inv w L claimed → load (w_table w) oid = locs L !! oid.
Proof.
  intros Hi. pose proof (mo_table _ _ _ (inv_mem _ _ _ Hi) oid) as Ht.
  destruct (locs L !! oid) as [loc|] eqn:E; simpl in Ht.
  - apply load_Some. split; [done|]. apply locs_range in E; [lia|by eapply inv_wf].
  - by apply load_None.
Qed.
End inv.
