(* ===== verification/PowerLoss.v ===== *)
(** PowerLoss: what a machine that loses power leaves of a disk.

    The changes of the directory reach the disk in their order, so a directory may come
    back as it was at any moment since it was last synced; a file comes back with its
    content if that content has been synced, and with arbitrary bytes otherwise. The
    stores a disk may come back as are described by a predicate ([lasting]), and what an
    operation adds to them by a list of stores it goes through ([passes]). *)
From S2P Require Import Prelude Effects Os Deps Metadata Storage State Recovery Layout Invariant.

(** ** The directories since the last sync *)

Definition apply_op (d : gmap string File) (op : dirop) : gmap string File :=
  match op with
  | Link name ino => <[name := ino]> d
  | Unlink name => delete name d
  | Rename from to =>
      match d !! from with
      | Some ino => <[to := ino]> (delete from d)
      | None => d
      end
  end.

Definition replay (d : gmap string File) (ops : list dirop) : gmap string File := foldl apply_op d ops.

Lemma replay_snoc d ops op : replay d (ops ++ [op]) = apply_op (replay d ops) op.
Proof. unfold replay. by rewrite foldl_app. Qed.

(** The directory after the first [k] changes since it was last synced. *)
Definition past_dir (k : nat) (F : fs) : gmap string File :=
  replay (fs_dir_synced F) (take k (fs_journal F)).

(** [F] with the directory [d]. *)
Definition with_dir (d : gmap string File) (F : fs) : fs :=
  MkFs (fs_inodes F) (fs_next_ino F) (fs_heap_exists F) d (fs_root F) (fs_synced F)
    (fs_dir_synced F) (fs_journal F).

(** [F'] is what may be found of [F] after a power loss. *)
Record power_loss (F F' : fs) : Prop := {
  pl_dir : ∃ k, fs_dir F' = past_dir k F;
  pl_heap : fs_heap_exists F' = false → fs_dir F' = ∅;
  pl_next : fs_next_ino F ≤ fs_next_ino F';
  pl_exists ino : is_Some (fs_inodes F !! ino) → is_Some (fs_inodes F' !! ino);
  pl_content ino c :
    fs_inodes F !! ino = Some c → fs_synced F !! ino = Some c → fs_inodes F' !! ino = Some c;
  (** nothing is pending on a disk that has just been found *)
  pl_synced : fs_synced F' = fs_inodes F';
  pl_dir_synced : fs_dir_synced F' = fs_dir F';
  pl_journal : fs_journal F' = [];
}.

(** A power loss after which the directory is back at its [k]-th change, and every file
    that was not synced is empty. *)
Definition lose (k : nat) (F : fs) : fs :=
  let inodes := map_imap (λ ino c, Some (if decide (fs_synced F !! ino = Some c) then c else [])) (fs_inodes F) in
  MkFs inodes (fs_next_ino F) (fs_heap_exists F) (past_dir k F) (fs_root F) inodes (past_dir k F) [].

Lemma lose_power_loss k F : fs_heap_exists F = true → power_loss F (lose k F).
Proof.
  intros Hh. split; simpl; try done.
  - by exists k.
  - congruence.
  - intros ino [c Hc]. rewrite map_lookup_imap, Hc. by eexists.
  - intros ino c Hc Hs. rewrite map_lookup_imap, Hc. simpl. by rewrite decide_True.
Qed.

(** ** The stores a disk may come back as *)

Section lasting.
Context `{Deps, !DepsLaws}.
Implicit Types f g : LogFile.
Implicit Types L : list LogFile.
Implicit Types F : fs.
Implicit Types P Q : list LogFile → Prop.

(** The disk holds the store, and the contents of its files are synced. *)
Record settled (F : fs) L : Prop := {
  st_disk : disk_ok F L;
  st_synced f : f ∈ L → fs_synced F !! lf_ino f = Some (lf_content f);
}.

(** No file of the store ends up under a name that recovery ignores. *)
Definition kept_apart (d d' : gmap string File) : Prop :=
  ∀ name name' ino, d !! name = Some ino → d' !! name' = Some ino → ignored_name name' → ignored_name name.

(** Whichever moment since the last sync the directory comes back from, [P] holds of the
    store that is found. *)
Record lasting P F : Prop := {
  la_dir : replay (fs_dir_synced F) (fs_journal F) = fs_dir F;
  la_past k : ∃ L, P L ∧ settled (with_dir (past_dir k F) F) L;
  la_apart k : kept_apart (past_dir k F) (fs_dir F);
}.

Lemma kept_apart_same F L : disk_ok F L → kept_apart (fs_dir F) (fs_dir F).
Proof. intros Hok name name' ino H1 H2 Hi. by rewrite (dk_inj _ _ Hok name name' ino). Qed.

Lemma kept_apart_sub d d1 d2 :
  kept_apart d d1 →
  (∀ name ino, d2 !! name = Some ino → ignored_name name → d1 !! name = Some ino) →
  kept_apart d d2.
Proof. intros Hk Hsub name name' ino H1 H2 Hi. eapply Hk; eauto. Qed.

(** From [F] to [F'] the disk has only been through the stores [Ls]. *)
Definition passes F F' (Ls : list (list LogFile)) : Prop :=
  ∀ P, lasting P F → Forall P Ls → lasting P F'.

Lemma lasting_mono P Q F : lasting P F → (∀ L, P L → Q L) → lasting Q F.
Proof. intros [Hd Hp Ha] HPQ. split; [done| |done]. intros k. destruct (Hp k) as (L & ? & ?). eauto. Qed.

Lemma passes_refl F Ls : passes F F Ls.
Proof. by intros P. Qed.

Lemma passes_trans F F1 F2 Ls Ls' : passes F F1 Ls → passes F1 F2 Ls' → passes F F2 (Ls ++ Ls').
Proof. intros H1 H2 P HP [? ?]%Forall_app. by apply H2; [apply H1|]. Qed.

Lemma passes_mono F F' Ls Ls' : passes F F' Ls → Ls ⊆ Ls' → passes F F' Ls'.
Proof.
  intros Hp Hsub P HP HF. apply Hp; [done|]. rewrite Forall_forall in HF |- *. auto.
Qed.

Lemma disk_ok_empty : disk_ok fs_empty [].
Proof.
  split; try done; try (by intros f ?%not_elem_of_nil); try (by intros ?? [=]); constructor.
Qed.

Lemma lasting_empty P : P [] → lasting P fs_empty.
Proof.
  intros HP. split; [done| |]; intros k; unfold past_dir; simpl; rewrite take_nil.
  - exists []. split; [done|]. split; [apply disk_ok_empty|by intros f ?%not_elem_of_nil].
  - by intros name name' ino [=].
Qed.

(** A settled store stays one on another disk that keeps its files. *)
Lemma settled_transfer F F' L :
  settled F L → fs_dir F' = fs_dir F → (fs_heap_exists F' = false → fs_dir F' = ∅) →
  fs_next_ino F ≤ fs_next_ino F' →
  (∀ ino, is_Some (fs_inodes F !! ino) → is_Some (fs_inodes F' !! ino)) →
  (∀ f, f ∈ L → fs_inodes F' !! lf_ino f = Some (lf_content f) ∧
                fs_synced F' !! lf_ino f = Some (lf_content f)) →
  settled F' L.
Proof.
  intros [Hok Hs] Ed Hh Hn He Hf. split; [|intros f Hx; by apply Hf].
  destruct Hok as [_ ? ? ? ? ? ? Hino]. split; rewrite ?Ed; try done.
  - by rewrite <- Ed.
  - intros f Hx. by apply Hf.
  - intros name ino Hx. destruct (Hino name ino Hx). split; [auto|lia].
Qed.

(** What is on the disk now is one of the stores it may come back as, so its files are
    synced. *)
Lemma lasting_settled P F L : lasting P F → disk_ok F L → settled F L.
Proof.
  intros [Ed Hp _] Hok. split; [done|]. intros f Hf.
  destruct (Hp (length (fs_journal F))) as (L' & _ & [Hok' Hs]). unfold past_dir in *.
  rewrite firstn_all, Ed in *.
  pose proof (dk_file _ _ Hok f Hf) as Hn.
  destruct (dk_name _ _ Hok' (lf_name f) (lf_ino f) Hn) as [(g & Hg & En)|Hi].
  - pose proof (dk_file _ _ Hok' g Hg) as E1. pose proof (dk_file _ _ Hok f Hf) as E2. simpl in *.
    assert (lf_ino g = lf_ino f) as Ei by congruence.
    pose proof (dk_content _ _ Hok' g Hg) as E3. pose proof (dk_content _ _ Hok f Hf) as E4.
    simpl in *. rewrite <- Ei, (Hs g Hg). congruence.
  - destruct (lf_name_kept f); [by apply (disk_file_wf F L)|done].
Qed.

Lemma lasting_power_loss P F F' :
  lasting P F → power_loss F F' → ∃ L, P L ∧ settled F' L ∧ lasting P F'.
Proof.
  intros [Ed Hp _] [[k Edir] Hheap Hnext Hex Hc Hs Hds Hj]. destruct (Hp k) as (L & HP & Hset).
  assert (settled F' L) as Hset'.
  { apply (settled_transfer (with_dir (past_dir k F) F)); try done.
    intros f Hf. pose proof (dk_content _ _ (st_disk _ _ Hset) f Hf) as E. simpl in E.
    pose proof (st_synced _ _ Hset f Hf) as E'. simpl in E'. rewrite Hs. split; by apply Hc. }
  exists L. split_and!; [done..|]. destruct Hset' as [Hok' Hs'].
  split; [by rewrite Hj| |]; intros j; unfold past_dir; rewrite Hj, take_nil; simpl; rewrite Hds.
  - exists L. split; [done|]. split; [|done]. by eapply disk_ok_ext.
  - by eapply kept_apart_same.
Qed.

(** After the directory is synced only the present counts. *)
Lemma lasting_dir_synced P Q F L :
  lasting Q F → disk_ok F L → P L → lasting P (set_dir_synced F).
Proof.
  intros HQ Hok HP. destruct (lasting_settled Q F L HQ Hok) as [_ Hs].
  split; [done| |]; intros k; unfold past_dir; simpl; rewrite take_nil; simpl.
  - exists L. split; [done|]. split; [|done]. by eapply disk_ok_ext.
  - by eapply kept_apart_same.
Qed.

Lemma lasting_clean P Q F L :
  lasting Q F → fs_journal F = [] → disk_ok F L → P L → lasting P F.
Proof.
  intros HQ Hj Hok HP. pose proof (lasting_settled Q F L HQ Hok) as [_ Hs]. destruct HQ as [Ed _ _].
  split; [done| |]; intros k; unfold past_dir; rewrite Hj in *; rewrite take_nil, Ed.
  - exists L. split; [done|]. split; [|done]. by eapply disk_ok_ext.
  - by eapply kept_apart_same.
Qed.

(** ** The steps of the operations *)

(** A change of the directory that leads to the store [L]. *)
Lemma passes_set_dir F op d L :
  apply_op (fs_dir F) op = d → disk_ok (set_dir op d F) L →
  (∀ f, f ∈ L → fs_synced F !! lf_ino f = Some (lf_content f)) →
  (∀ name ino, d !! name = Some ino → ignored_name name → fs_dir F !! name = Some ino) →
  passes F (set_dir op d F) [L].
Proof.
  intros Eop Hok Hs Hsub P [Ed Hp Ha] [HP _]%Forall_cons. split.
  - simpl. by rewrite replay_snoc, Ed.
  - intros k. destruct (decide (k ≤ length (fs_journal F))%nat) as [Hk|Hk].
    + destruct (Hp k) as (L' & HL' & [Hok' Hs']). exists L'. split; [done|]. unfold past_dir in *.
      simpl. rewrite take_app_le by done. split; [|done]. by eapply disk_ok_ext.
    + exists L. split; [done|]. unfold past_dir. simpl.
      rewrite take_ge by (rewrite length_app; simpl; lia). rewrite replay_snoc, Ed, Eop.
      split; [|done]. by eapply disk_ok_ext.
  - intros k. unfold past_dir. simpl. destruct (decide (k ≤ length (fs_journal F))%nat) as [Hk|Hk].
    + rewrite take_app_le by done. by eapply kept_apart_sub; [apply Ha|].
    + rewrite take_ge by (rewrite length_app; simpl; lia). rewrite replay_snoc, Ed, Eop.
      by apply (kept_apart_same (set_dir op d F) L).
Qed.

(** Creating a temporary file and writing to it. *)
Lemma passes_staged F0 F tmp file L :
  disk_ok F0 L → ignored_name tmp → fs_dir F0 !! tmp = None → fs_heap_exists F0 = true →
  file = fs_next_ino F0 → only_file file (fs_create tmp F0) F →
  passes F0 F [L].
Proof.
  intros Hok Htmp Hfree Hheap -> Honly P HP [HPL _]%Forall_cons.
  pose proof (disk_ok_create F0 L Hok tmp Htmp Hfree Hheap) as Hc.
  assert (disk_ok F L) as HokF.
  { eapply disk_ok_only; [done| |done]. intros f Hf.
    apply (disk_ino_ignored _ _ Hc f tmp); [done..|]. simpl. by rewrite lookup_insert_eq. }
  pose proof (lasting_settled P F0 L HP Hok) as Hset0.
  destruct Honly as [Ed Eh En Ei Ee Es Eds Ej]. destruct HP as [Edir Hp Ha]. simpl in *.
  assert (∀ F1 L', settled F1 L' → fs_inodes F1 = fs_inodes F0 → fs_synced F1 = fs_synced F0 →
    fs_next_ino F1 = fs_next_ino F0 → ∀ f, f ∈ L' →
    fs_inodes F !! lf_ino f = Some (lf_content f) ∧ fs_synced F !! lf_ino f = Some (lf_content f)) as Hold.
  { intros F1 L' [Hok' Hs'] E1 E2 E3 f Hf. pose proof (disk_ino_fresh _ _ Hok' f Hf) as Hne.
    rewrite E3 in Hne. rewrite Ei, Es, <- E2, lookup_insert_ne, <- E1 by congruence.
    split; [by apply (dk_content _ _ Hok')|by apply Hs']. }
  split.
  - by rewrite Ej, Eds, replay_snoc, Edir, Ed.
  - intros k. unfold past_dir. rewrite Ej, Eds.
    destruct (decide (k ≤ length (fs_journal F0))%nat) as [Hk|Hk].
    + destruct (Hp k) as (L' & HL' & Hset). exists L'. split; [done|].
      rewrite take_app_le by done. eapply (settled_transfer _ _ _ Hset); simpl; try done.
      * by rewrite Eh, Hheap.
      * lia.
      * intros i Hi. apply Ee. rewrite lookup_insert_is_Some'. by right.
      * by eapply Hold.
    + exists L. split; [done|]. rewrite take_ge by (rewrite length_app; simpl; lia).
      rewrite replay_snoc, Edir. simpl. rewrite <- Ed. split; [by eapply disk_ok_ext|].
      intros f Hf. by apply (Hold F0 L Hset0).
  - intros k. unfold past_dir. rewrite Ej, Eds.
    destruct (decide (k ≤ length (fs_journal F0))%nat) as [Hk|Hk].
    + rewrite take_app_le, Ed by done. intros name name' ino H1 [[<- <-]|[_ H2]]%lookup_insert_Some Hi;
        [|by eapply (Ha k)].
      destruct (Hp k) as (L' & _ & [Hok' _]). destruct (dk_inode _ _ Hok' _ _ H1) as [_ Hlt]. simpl in Hlt. lia.
    + rewrite take_ge by (rewrite length_app; simpl; lia). rewrite replay_snoc, Edir. simpl.
      rewrite <- Ed. by eapply kept_apart_same.
Qed.

(** Syncing a file. *)
Lemma passes_sync F file c :
  fs_inodes F !! file = Some c → passes F (set_synced (<[file := c]> (fs_synced F)) F) [].
Proof.
  intros Hc P [Ed Hp Ha] _. split; [done| |done]. intros k. destruct (Hp k) as (L & HP & [Hok Hs]).
  exists L. split; [done|]. split; [by eapply disk_ok_ext|]. intros f Hf. simpl.
  pose proof (dk_content _ _ Hok f Hf) as E. simpl in E.
  rewrite lookup_insert. case_decide; [congruence|by apply Hs].
Qed.

Lemma passes_dir_synced F L : disk_ok F L → passes F (set_dir_synced F) [L].
Proof. intros Hok P HP [? _]%Forall_cons. by eapply lasting_dir_synced. Qed.

(** Removing a file recovery ignores. *)
Lemma passes_unlink F name L :
  disk_ok F L → ignored_name name → passes F (fs_unlink name F) [L].
Proof.
  intros Hok Hi P HP. apply passes_set_dir; [done|by apply disk_ok_unlink| | |done].
  - by eapply lasting_settled.
  - by intros ?? [_ ?]%lookup_delete_Some.
Qed.

(** Emptying a file recovery ignores. *)
Lemma passes_truncate F name ino L :
  ignored_name name → fs_dir F !! name = Some ino →
  passes F (set_inodes (<[ino := []]> (fs_inodes F)) F) [L].
Proof.
  intros Hi Hn P [Ed Hp Ha] _. split; [done| |done]. intros k. destruct (Hp k) as (L' & HP & Hset).
  exists L'. split; [done|]. eapply settled_transfer; [exact Hset|done|..]; simpl.
  - apply Hset.
  - done.
  - intros i ?. rewrite lookup_insert_is_Some'. by right.
  - intros f Hf. split; [|by apply Hset]. rewrite lookup_insert_ne; [by apply (dk_content _ _ (st_disk _ _ Hset))|].
    intros ->. pose proof (dk_file _ _ (st_disk _ _ Hset) f Hf) as E. simpl in E.
    destruct (lf_name_kept f); [|by eapply (Ha k)]. eapply (disk_file_wf _ L'); [apply Hset|done].
Qed.

(** Creating the directory. *)
Lemma passes_heap F L : passes F (set_heap_exists F) [L].
Proof.
  intros P [Ed Hp Ha] _. split; [done| |done]. intros k. destruct (Hp k) as (L' & HP & Hset).
  exists L'. split; [done|]. eapply settled_transfer; [exact Hset|done..|].
  intros f Hf. split; [by apply (dk_content _ _ (st_disk _ _ Hset))|by apply Hset].
Qed.

(** Creating a file next to the directory. *)
Lemma passes_root F x Ls : passes F (set_root x F) Ls.
Proof.
  intros P [Ed Hp Ha] _. split; [done| |done]. intros k. destruct (Hp k) as (L' & HP & [Hok Hs]).
  exists L'. split; [done|]. split; [by eapply disk_ok_ext|done].
Qed.

(** Publishing a file. *)
Lemma passes_rename F f tmp L :
  disk_ok F L → fs_dir F !! tmp = Some (lf_ino f) →
  fs_synced F !! lf_ino f = Some (lf_content f) →
  let F' := set_dir (Rename tmp (lf_name f)) (<[lf_name f := lf_ino f]> (delete tmp (fs_dir F))) F in
  disk_ok F' (L ++ [f]) → passes F F' [L ++ [f]].
Proof.
  intros Hok Ht Hs F' Hok' P HP. apply passes_set_dir; [by simpl; rewrite Ht|done| | |done].
  - pose proof (lasting_settled P F L HP Hok) as [_ Hs'].
    by intros g [?| ->%list_elem_of_singleton]%elem_of_app; auto.
  - intros name ino [[<- _]|[_ [_ ?]%lookup_delete_Some]]%lookup_insert_Some; [|done].
    intros Hi. destruct (lf_name_kept f); [|done]. apply (disk_file_wf F' (L ++ [f])); [done|set_solver].
Qed.

(** [F] holds [L], and the disk has only been through [Ls] since [F0]. *)
Record reached F0 F (Ls : list (list LogFile)) L : Prop := {
  rc_disk : disk_ok F L;
  rc_passes : passes F0 F Ls;
}.

Lemma reached_refl F Ls L : disk_ok F L → reached F F Ls L.
Proof. intros. split; [done|apply passes_refl]. Qed.

Lemma reached_step F0 F F' Ls Ls' L' :
  passes F0 F Ls → passes F F' Ls' → Ls' ⊆ Ls → disk_ok F' L' → reached F0 F' Ls L'.
Proof.
  intros H1 H2 Hsub Hok. split; [done|]. eapply passes_mono; [by eapply passes_trans|]. set_solver.
Qed.

Lemma reached_unlink F0 F name L :
  reached F0 F [L] L → ignored_name name → reached F0 (fs_unlink name F) [L] L.
Proof.
  intros [Hok Hp] Hi. eapply reached_step; [done|by apply passes_unlink|done|by apply disk_ok_unlink].
Qed.

(** From [F0] to [F] the disk has only been through stores with the objects of [L]. *)
Definition steady F0 F L : Prop :=
  ∀ P, lasting P F0 → (∀ L', vals L' = vals L → P L') → lasting P F.

Lemma steady_refl F L : steady F F L.
Proof. by intros P. Qed.

Lemma steady_trans F0 F1 F2 L L' :
  steady F0 F1 L → steady F1 F2 L' → vals L' = vals L → steady F0 F2 L.
Proof. intros H1 H2 E P HP HL. apply H2; [by apply H1|]. intros L1 E1. apply HL. congruence. Qed.

Lemma steady_passes F0 F Ls L :
  passes F0 F Ls → (∀ L', L' ∈ Ls → vals L' = vals L) → steady F0 F L.
Proof. intros Hp HLs P HP HL. apply Hp; [done|]. apply Forall_forall. auto. Qed.

(** The stores while files are added one after the other. *)
Definition stages L fs : list (list LogFile) := (λ k, L ++ take k fs) <$> seq 0 (S (length fs)).

Lemma stages_elem L fs L' : L' ∈ stages L fs ↔ ∃ k, (k ≤ length fs)%nat ∧ L' = L ++ take k fs.
Proof.
  unfold stages. rewrite list_elem_of_fmap. setoid_rewrite elem_of_seq.
  split; intros (k & ? & ?); exists k; (split; [|by lia || done]); [lia|done].
Qed.

Lemma stages_now L fs : L ++ fs ∈ stages L fs.
Proof. apply stages_elem. exists (length fs). by rewrite firstn_all. Qed.

Lemma stages_snoc L fs f : stages L fs ++ [L ++ fs; (L ++ fs) ++ [f]] ⊆ stages L (fs ++ [f]).
Proof.
  intros L' [(k & ? & ->)%stages_elem|Hin]%elem_of_app; apply stages_elem; rewrite length_app; simpl.
  - exists k. split; [lia|]. by rewrite take_app_le.
  - apply elem_of_cons in Hin as [->| ->%list_elem_of_singleton].
    + exists (length fs). split; [lia|]. by rewrite take_app_length.
    + exists (S (length fs)). split; [lia|]. rewrite take_ge, (assoc_L (++)); [done|].
      rewrite length_app. simpl. lia.
Qed.

(** Removing a file of the store. *)
Lemma passes_remove F L f L' :
  disk_ok F (L ++ f :: L') → passes F (fs_unlink (lf_name f) F) [L ++ L'].
Proof.
  intros Hok P HP. apply passes_set_dir; [done|by apply disk_ok_remove| | |done].
  - intros g Hg. eapply (lasting_settled P F); [done..|]. set_solver.
  - by intros ?? [_ ?]%lookup_delete_Some.
Qed.
End lasting.
