(* ===== verification/ReadSpec.v ===== *)
(** ReadSpec: what [Marble::read] returns. *)
From S2P Require Import Prelude Effects Os Deps Locations LocationTable Config Metadata.
From S2P Require Import ZstdDict Storage State FileMap ReadPath Recovery FileMapSpec Layout.
From S2P Require Import Invariant.

Section lemmas.
Context `{Deps, !DepsLaws}.
Implicit Types L : list LogFile.

(** What a location of the table stands for: a deletion, or an object of a file. *)
Lemma location_cases w L claimed oid loc :
  Inv w L claimed → locs L !! oid = Some loc →
  (DiskLocation.is_delete loc = true ∧ vals L !! oid = Some None) ∨
  ∃ f a stored b raw,
    f ∈ L ∧ in_file f loc ∧ lf_objs f = a ++ (oid, stored) :: b ∧
    DiskLocation.is_delete loc = false ∧
    DiskLocation.lsn loc = lf_lsn f + len (encode_objects a) ∧
    is_u64 oid ∧ len stored ≤ isize_max ∧
    stored_as (lf_dict f) raw stored ∧ vals L !! oid = Some (Some raw).
Proof.
  intros Hi Hloc. destruct (locs_owner L oid loc) as (f & Hf & Habs & Hv); [by eapply inv_wf|done|].
  pose proof (inv_lf_wf w L claimed f Hi Hf) as Hwf.
  pose proof Habs as Hrel. rewrite lf_abs_lookup, fmap_Some in Hrel.
  destruct Hrel as (rel & Hrel & ->). unfold lf_location in *.
  destruct (ro_entry _ _ _ _ (wf_rels f Hwf) _ _ Hrel)
    as [[-> Hval]|(a & st & b & raw & E & -> & Hst & Hval)].
  - left. split; [|congruence]. replace (1 + 2 * lf_lsn f) with (2 * lf_lsn f + Z.b2z true) by (simpl; lia).
    apply is_delete_spec.
  - right. exists f, a, st, b, raw.
    replace (2 * len (encode_objects a) + 2 * lf_lsn f)
      with (2 * (lf_lsn f + len (encode_objects a)) + Z.b2z false) in * by (cbn [Z.b2z]; lia).
    destruct (ro_objs _ _ _ _ (wf_rels f Hwf) oid st) as (_ & ? & ?); [rewrite E; set_solver|].
    split_and!; try done.
    + by eapply lf_abs_in_file.
    + apply is_delete_spec.
    + apply lsn_spec.
    + congruence.
Qed.

(** Reading keeps the state of the store, except for what a decompressor caches. *)
Lemma wp_read w L claimed oid :
  Inv w L claimed →
  wp (read oid)
    (λ r w', r = mjoin (vals L !! oid) ∧ Inv w' L claimed
             ∧ os_upd (os_fs (w_os w)) (w_os w) (w_os w'))
    (λ _ w', injected (w_os w) ∧ Inv w' L claimed ∧ os_upd (os_fs (w_os w)) (w_os w) (w_os w'))
    (λ w', injected (w_os w) ∧ os_upd (os_fs (w_os w)) (w_os w) (w_os w')) w.
Proof.
  intros Hi. unfold read, read_located. w_steps. rewrite (inv_load _ _ _ _ Hi).
  destruct (locs L !! oid) as [loc|] eqn:Hloc.
  2: { w_steps. assert (vals L !! oid = None) as ->; [|done].
       apply eq_None_not_Some. rewrite <- locs_vals_dom, Hloc by (by eapply inv_wf). by intros []. }
  destruct (location_cases w L claimed oid loc Hi Hloc)
    as [[-> ->]|(f & a & st & b & raw & Hf & Hin & E & -> & Hlsn & Hu & Hlen & Hst & ->)]; [by w_steps|].
  destruct (range_next_owner (w_fm w) L _ (inv_sorted _ _ _ Hi) (inv_wf _ _ _ Hi)
    (inv_fams _ _ _ Hi) f loc Hf Hin) as (p & fam & Hnext & Hk & Hp & Hfam).
  unfold fam_for_location. w_steps. rewrite Hnext. eapply wp_unwrap; [done|]. w_steps.
  eapply wp_deref; [exact Hp|].
  rewrite !set_file_map_id.
  pose proof (inv_lf_wf w L claimed f Hi Hf) as Hwf. pose proof (lf_lsn_range f Hwf).
  set (off := len (encode_objects a)) in *.
  assert (DiskLocation.lsn (fam_location fam) = lf_lsn f) as El.
  { rewrite (fo_location _ _ _ _ Hfam). unfold lf_location. apply lsn_fam. }
  assert (off + HEADER_LEN + len st ≤ lf_end f) as Hoff.
  { rewrite (wf_end f Hwf). unfold lf_data.
    rewrite E, encode_objects_app, length_app, Nat2Z.inj_add, len_encode_objects_cons. simpl. lia. }
  unfold HEADER_LEN in Hoff.
  destruct (content_object f a oid st b E) as [Hhead Hdata]. fold off in Hhead, Hdata.
  pose proof (dk_content _ _ (inv_disk _ _ _ Hi) f Hf) as Hcont.
  rewrite El, Hlsn. replace (lf_lsn f + off - lf_lsn f) with off by lia.
  rewrite (wrap64_small off) by u64_lia.
  w_steps. rewrite (fo_file _ _ _ _ Hfam). eapply wp_read_exact_at; [done..| |by intros; split_and!; try apply inv_os|done].
  intros o1 Ho1. pose proof (inv_os _ _ _ _ Hi Ho1) as Hi1.
  w_steps. eapply wp_unwrap; [apply slice_app_start; by rewrite length_hash|]. w_steps.
  eapply wp_unwrap; [apply slice_app; rewrite length_hash, ?length_to_le_bytes; done|]. w_steps.
  eapply wp_unwrap.
  { rewrite app_assoc. apply slice_app_end; rewrite length_app, length_hash, !length_to_le_bytes; done. }
  w_steps. rewrite from_to_le_bytes_8 by u64_lia.
  unfold uninit_boxed_slice, allocate. apply wp_assert; [by apply bool_decide_eq_true|]. w_steps.
  rewrite wrap64_small by (unfold HEADER_LEN; u64_lia).
  eapply wp_read_exact_at; simpl.
  { by rewrite (os_upd_fs _ _ _ Ho1). }
  { exact Hdata. }
  all: rewrite (os_upd_fs _ _ _ Ho1).
  2: { intros e o2 Hinj Ho2. assert (os_upd (os_fs (w_os w)) (w_os w) o2) as Ho by (by eapply os_upd_trans).
       split_and!; [eapply injected_upd; [exact Ho1|exact Hinj]| |done]. exact (inv_os w o2 L claimed Hi Ho). }
  2: { intros o2 ? ?. split; [by eapply injected_upd|by eapply os_upd_trans]. }
  intros o2 Ho2. assert (os_upd (os_fs (w_os w)) (w_os w) o2) as Ho by (by eapply os_upd_trans).
  rewrite bool_decide_eq_false_2 by (intros X; by apply X).
  w_steps. rewrite from_to_le_bytes_8 by done. apply wp_assert; [apply Z.eqb_refl|]. w_steps.
  unfold current_thread. w_steps. eapply wp_decompress; [by eapply fo_dict|done|].
  intros z' Hz'. w_steps. apply wp_update_fam. w_steps. split_and!; [done| |done].
  eapply inv_ext; [exact Hi|by destruct Ho as (?&?&?&?)..|done|done|]. simpl.
  eapply (fams_ok_updated (w_fm w) L (fam_ok (locs L) claimed));
    eauto using inv_sorted, inv_wf, inv_fams.
  destruct Hfam. by split.
Qed.
End lemmas.

Section theorems.
Context `{Deps, !DepsLaws}.

(** What the files say about an object: its last value, unless that was a deletion. *)
Definition value_of (L : list LogFile) (oid : Z) : option bytes := mjoin (vals L !! oid).

(** C12. [read] returns the value of the object in the logical store: the last one written,
    [None] when it was deleted or never written. It never panics and changes neither
    the disk nor the store; an [Err] needs a failing system call. *)
Theorem read_returns_value w L claimed oid o w' :
  Inv w L claimed → read oid w = (o, w') →
  os_fs (w_os w') = os_fs (w_os w) ∧
  match o with
  | Ok r => r = value_of L oid ∧ Inv w' L claimed
  | Err _ => injected (w_os w) ∧ Inv w' L claimed
  | Panic => False
  | Crash => injected (w_os w)
  end.
Proof.
  intros Hi Hrun. pose proof (wp_run _ _ _ _ _ _ _ (wp_read w L claimed oid Hi) Hrun) as Hr.
  destruct o; try done; destruct_and?; split; try done; by eapply os_upd_fs.
Qed.
End theorems.

(** ** Corruption *)

Section corruption.
Context `{Deps, !DepsLaws}.

(** Where [read] looks for an object: the table has a location for it, the location falls
    into a file whose content is [content], at the offset [off]. *)
Definition found_at (w : World) (oid off : Z) (content : bytes) : Prop :=
  ∃ loc key p fam,
    load (w_table w) oid = Some loc ∧ DiskLocation.is_delete loc = false ∧
    range_next loc (w_fm w) = Some (key, p) ∧ arcs (w_fm w) !! p = Some fam ∧
    fs_inodes (os_fs (w_os w)) !! fam_file fam = Some content ∧
    off = wrap64 (DiskLocation.lsn loc - DiskLocation.lsn (fam_location fam)).

Lemma wp_read_exact_quiet file n pos c (Q : bytes → os → Prop) (E : ErrorKind → os → Prop) C o :
  os_faults o = [] → fs_inodes (os_fs o) !! file = Some c →
  match slice c pos (pos + n) with Some b => Q b o | None => E UnexpectedEof o end →
  wp (read_exact_at file n pos) Q E C o.
Proof.
  intros Hf Hc. unfold wp, read_exact_at, atomic_call, syscall. rewrite Hf, Hc.
  destruct o as [fs fl cnt th]. simpl in *. subst fl. by destruct (slice _ _ _).
Qed.

(** The data at an offset, as the header says how much. *)
Definition data_at (content : bytes) (off : Z) (size : bytes) : option bytes :=
  let object_offset := wrap64 (off + HEADER_LEN) in
  slice content object_offset (object_offset + from_le_bytes size).

Lemma wp_read_unchecked w oid off content crc pid size (E : ErrorKind → World → Prop) :
  found_at w oid off content → os_faults (w_os w) = [] →
  slice content off (off + HEADER_LEN) = Some (crc ++ pid ++ size) →
  length crc = 4%nat → length pid = 8%nat → length size = 8%nat → from_le_bytes size ≤ isize_max →
  match data_at content off size with
  | Some data => hash size pid data ≠ crc ∧ E InvalidData w
  | None => E UnexpectedEof w
  end →
  wp (read oid) (λ _ _, False) E (λ _, False) w.
Proof.
  intros (loc & k & p & fam & Hl & Hd & Hn & Hp & Hc & ->) Hf Hh L4 L8 L8' Hsz HE.
  unfold data_at in HE. cbv zeta in HE. set (off := wrap64 _) in *.
  unfold read, read_located. w_steps. rewrite Hl, Hd. unfold fam_for_location. w_steps. rewrite Hn.
  eapply wp_unwrap; [done|]. w_steps. eapply wp_deref; [exact Hp|]. fold off. rewrite !set_file_map_id.
  w_steps. eapply wp_read_exact_quiet; [done..|]. rewrite Hh, set_os_id.
  w_steps. eapply wp_unwrap; [apply slice_app_start; by rewrite L4|]. w_steps.
  eapply wp_unwrap; [apply slice_app; by rewrite ?L4, ?L8|]. w_steps.
  eapply wp_unwrap.
  { rewrite app_assoc. apply slice_app_end; by rewrite !length_app, ?L4, ?L8, ?L8'. }
  w_steps. unfold uninit_boxed_slice, allocate. apply wp_assert; [by apply bool_decide_eq_true|]. w_steps.
  eapply wp_read_exact_quiet; [done..|]. rewrite set_os_id.
  set (obj := wrap64 (off + HEADER_LEN)) in *.
  destruct (slice content obj (obj + from_le_bytes size)) as [data|].
  - destruct HE as [Hcrc HE]. rewrite bool_decide_eq_true_2 by done. by w_steps.
  - done.
Qed.

(** C13. [read] returns no bytes that fail their checksum: if the stored checksum is not that
    of the stored length, id and data, the result is [InvalidData], and [UnexpectedEof]
    if the file ends before the data does. Nothing changes. *)
Theorem read_rejects_corruption w oid off content crc pid size :
  found_at w oid off content → os_faults (w_os w) = [] →
  slice content off (off + HEADER_LEN) = Some (crc ++ pid ++ size) →
  length crc = 4%nat → length pid = 8%nat → length size = 8%nat → from_le_bytes size ≤ isize_max →
  match data_at content off size with
  | Some data => hash size pid data ≠ crc → read oid w = (Err InvalidData, w)
  | None => read oid w = (Err UnexpectedEof, w)
  end.
Proof.
  intros Hl Hf Hh L4 L8 L8' Hsz.
  pose proof (wp_read_unchecked w oid off content crc pid size (λ e w', w' = w ∧
    e = if data_at content off size then InvalidData else UnexpectedEof) Hl Hf Hh L4 L8 L8' Hsz) as Hr.
  unfold wp in Hr. destruct (data_at content off size) as [data|].
  - intros Hcrc. specialize (Hr (conj Hcrc (conj eq_refl eq_refl))).
    destruct (read oid w) as [[r|e| |] w']; try done. by destruct Hr as [-> ->].
  - specialize (Hr (conj eq_refl eq_refl)).
    destruct (read oid w) as [[r|e| |] w']; try done. by destruct Hr as [-> ->].
Qed.
End corruption.
