(* ===== verification/WriteSpec.v ===== *)
(** WriteSpec: step 1 of [write_batch_inner], the data of a batch in a temporary file.

    After the loop over the objects, what the buffered writer has been given is the
    encoding of the objects in iteration order, and the relative locations point at
    them. *)
From S2P Require Import Prelude Effects Os Deps Locations LocationTable Config Metadata.
From S2P Require Import ZstdDict Storage State FileMap WritePath Recovery FileMapSpec Layout.
From S2P Require Import Invariant.

Section room.
(** An upper bound of the bytes an object takes in a file: its data, compressed or
    not, its header, and its entry in the trailer. *)
Definition object_room (v : option bytes) : Z :=
  match v with
  | Some raw => len raw + len raw / 256 + 100
  | None => 100
  end.

Definition batch_room (l : list (Z * option bytes)) : Z :=
  foldr (λ e acc, object_room e.2 + acc) 0 l.

Lemma object_room_pos v : 100 ≤ object_room v.
Proof. destruct v as [raw|]; simpl; [|lia]. pose proof (Z.div_pos (len raw) 256). lia. Qed.

Lemma batch_room_app a b : batch_room (a ++ b) = batch_room a + batch_room b.
Proof. induction a as [|x a IH]; simpl; [done|]. rewrite IH. lia. Qed.

Lemma batch_room_length l : 100 * len l ≤ batch_room l.
Proof.
  induction l as [|x l IH]; simpl; [done|]. pose proof (object_room_pos x.2). lia.
Qed.

Lemma batch_room_perm l l' : l ≡ₚ l' → batch_room l = batch_room l'.
Proof. induction 1; simpl; lia. Qed.

Lemma batch_room_elem l x : x ∈ l → object_room x.2 ≤ batch_room l.
Proof.
  intros (a & b & ->)%list_elem_of_split. rewrite batch_room_app. simpl.
  pose proof (batch_room_length a). pose proof (batch_room_length b). lia.
Qed.
End room.

Section write.
Context `{Deps, !DepsLaws}.

(** ** The entries of a file under construction *)

Lemma rels_ok_empty dict : rels_ok dict [] ∅ ∅.
Proof.
  split; [done|by intros; rewrite !lookup_empty|].
  intros oid stored Hin. by apply not_elem_of_nil in Hin.
Qed.

Lemma entry_ok_insert dict objs x oid rel v :
  entry_ok dict objs oid rel v → entry_ok dict (objs ++ [x]) oid rel v.
Proof.
  intros [?|(a & st & b & raw & -> & ?)]; [by left|]. right.
  exists a, st, (b ++ [x]), raw. by rewrite <- app_assoc.
Qed.

Lemma rels_ok_delete dict objs rels vals oid :
  rels_ok dict objs rels vals → rels_ok dict objs (<[oid := 1]> rels) (<[oid := None]> vals).
Proof.
  intros [He Hd Ho]. split.
  - intros i rel. rewrite !lookup_insert. case_decide; [intros [= <-]; by left|auto].
  - intros i. rewrite !lookup_insert. case_decide; [by split; eauto|auto].
  - intros i st Hin. destruct (Ho i st Hin) as (? & ? & ?).
    rewrite lookup_insert_is_Some'. auto.
Qed.

Lemma rels_ok_write dict objs rels vals oid raw stored :
  rels_ok dict objs rels vals → stored_as dict raw stored → is_u64 oid → len stored ≤ isize_max →
  rels_ok dict (objs ++ [(oid, stored)]) (<[oid := 2 * len (encode_objects objs)]> rels)
    (<[oid := Some raw]> vals).
Proof.
  intros [He Hd Ho] Hst Hu Hlen. split.
  - intros i rel. rewrite !lookup_insert. case_decide; [intros [= <-]|].
    + subst. right. exists objs, stored, [], raw. done.
    + intros. by apply entry_ok_insert, He.
  - intros i. rewrite !lookup_insert. case_decide; [by split; eauto|auto].
  - intros i st [Hin|Hin]%elem_of_app; rewrite lookup_insert_is_Some'.
    + destruct (Ho i st Hin) as (? & ? & ?). auto.
    + apply list_elem_of_singleton in Hin as [= -> ->]. auto.
Qed.

(** ** One object *)

Definition compressor_ok (dict : option bytes) (c : option CCtx) : Prop :=
  match dict, c with
  | None, None => True
  | Some d, Some c => cctx_dict c d
  | _, _ => False
  end.

Lemma wp_compress_object level dict c raw (Q : option bytes * option CCtx * Z → os → Prop) E C o :
  compressor_ok dict c → len raw + len raw / 256 + 64 ≤ isize_max →
  (∀ out c' saved, compressor_ok dict c' → stored_as dict raw (default raw out) →
     len (default raw out) ≤ len raw + len raw / 256 + 64 →
     saved = len raw - len (default raw out) → Q (out, c', saved) o) →
  wp (compress_object level c raw) Q E C o.
Proof.
  intros Hc Hroom HQ. assert (0 ≤ len raw / 256) by (apply Z.div_pos; lia).
  unfold compress_object. destruct dict as [d|], c as [c|]; try done.
  - w_steps. destruct (cctx_compress_ok c d raw level Hc) as (c' & out & E1 & ? & Hlen & _); [u64_lia|].
    pose proof (compress_bound_le (len raw)).
    apply wp_assert; [apply bool_decide_eq_true; lia|]. rewrite E1. w_steps.
    eapply wp_unwrap; [done|]. w_steps. apply HQ; simpl; try done; [|lia].
    exists c, level, c'. split_and!; [done|u64_lia|done].
  - w_steps. apply HQ; simpl; [done|done|lia|lia].
Qed.

Lemma wp_write_all_or_drop bw out data (Q : BufWriter → os → Prop) E C o :
  bw_rep bw out (os_fs o) →
  (∀ bw' o', bw_rep bw' (out ++ data) (os_fs o') → bw_file bw' = bw_file bw →
     os_only (bw_file bw) o o' → Q bw' o') →
  (∀ e o', bw_stopped bw o o' → E e o') → (∀ o', bw_stopped bw o o' → C o') →
  wp (write_all_or_drop bw data) Q E C o.
Proof.
  intros Hrep HQ HE HC. unfold write_all_or_drop.
  apply wp_on_error_drop; [|done..].
  eapply wp_mono; [by apply wp_bw_write_all|..]; [|done|done]. intros ?? (?&?&?). auto.
Qed.

(** ** The loop *)

Definition oversize (config : Config) (v : option bytes) : Prop :=
  ∃ raw, v = Some raw ∧ max_object_size config < len raw.

(** The state of the loop after the objects [done], of which [objs] have data. *)
Record writing (dict : option bytes) (file : File) (o0 : os) (done : list (Z * option bytes))
    (objs : list (Z * bytes)) (st : WriteState) (o : os) : Prop := {
  wr_rep : bw_rep (buf_writer st) (encode_objects objs) (os_fs o);
  wr_file : bw_file (buf_writer st) = file;
  wr_only : os_only file o0 o;
  wr_len : written_bytes st = len (encode_objects objs);
  wr_rels : rels_ok dict objs (new_relative_locations st) (list_to_map done);
  wr_size : size (new_relative_locations st) = length done;
  wr_room : len (encode_objects objs) + 16 * len done ≤ batch_room done;
  wr_saved : 0 ≤ written_bytes st + compressed_bytes st;
  wr_comp : compressor_ok dict (compressor st);
}.

Lemma rels_ok_fresh dict objs rels (dn : list (Z * option bytes)) oid :
  rels_ok dict objs rels (list_to_map dn) → oid ∉ dn.*1 → rels !! oid = None.
Proof.
  intros Hr Hn. apply eq_None_not_Some. rewrite (ro_dom _ _ _ _ Hr).
  rewrite not_elem_of_list_to_map_1 by done. by intros [].
Qed.

Section object.
Context (config : Config) (level : Z) (dict : option bytes) (file : File) (o0 : os)
  (dn : list (Z * option bytes)) (oid : Z)
  (Hfresh : oid ∉ dn.*1) (Hu : is_u64 oid).

Definition write_stopped (v : option bytes) (e : ErrorKind) (o' : os) : Prop :=
  os_only file o0 o' ∧ (injected o0 ∨ e = Unsupported ∧ oversize config v).

Lemma wp_write_deletion objs st o E C :
  writing dict file o0 dn objs st o →
  wp (write_object config level st (oid, None))
    (λ st' o', ∃ objs', writing dict file o0 (dn ++ [(oid, None)]) objs' st' o') E C o.
Proof.
  intros Hw. unfold write_object, RelativeDiskLocation.new.
  rewrite shift_location_spec by lia. w_steps. eapply wp_unwrap; [done|]. w_steps.
  exists objs. pose proof (rels_ok_fresh _ _ _ _ _ (wr_rels _ _ _ _ _ _ _ Hw) Hfresh).
  destruct Hw. split; simpl; try done.
  - rewrite list_to_map_snoc by done. by apply rels_ok_delete.
  - rewrite map_size_insert_None, length_app by done. simpl. lia.
  - rewrite batch_room_app, length_app. simpl. lia.
Qed.

(** One of the four writes of an object, and what follows it. *)
Definition written (bw : BufWriter) (out : bytes) (o : os) : Prop :=
  bw_rep bw out (os_fs o) ∧ bw_file bw = file ∧ os_only file o0 o.

Lemma wp_write_next {A} bw out data (k : BufWriter → IO A) v Q o :
  written bw out o →
  (∀ bw' o', written bw' (out ++ data) o' →
     wp (k bw') Q (write_stopped v) (λ o', injected o0 ∧ os_only file o0 o') o') →
  wp (write_all_or_drop bw data ≫= k) Q (write_stopped v)
    (λ o', injected o0 ∧ os_only file o0 o') o.
Proof.
  intros (Hrep & Hfile & Honly) Hk. w_steps.
  assert (∀ o', bw_stopped bw o o' → injected o0 ∧ os_only file o0 o') as Hstop.
  { intros o' [Hi Ho']. rewrite Hfile in Ho'. split; [by eapply injected_only|by etrans]. }
  eapply wp_write_all_or_drop; [done| | |done].
  - intros bw' o' Hrep' Hf Ho'. apply Hk. rewrite Hfile in *. split_and!; [done..|by etrans].
  - intros e o' Hs%Hstop. split; tauto.
Qed.

Lemma wp_write_data objs st o raw :
  writing dict file o0 dn objs st o → batch_room (dn ++ [(oid, Some raw)]) < 2 ^ 62 →
  wp (write_object config level st (oid, Some raw))
    (λ st' o', ∃ objs', writing dict file o0 (dn ++ [(oid, Some raw)]) objs' st' o')
    (write_stopped (Some raw)) (λ o', injected o0 ∧ os_only file o0 o') o.
Proof.
  intros Hw Hroom. pose proof (rels_ok_fresh _ _ _ _ _ (wr_rels _ _ _ _ _ _ _ Hw) Hfresh) as Hnone.
  destruct Hw as [Hrep Hfile Honly Hlen Hrels Hsize Hwr Hsaved Hcomp].
  pose proof Hroom as Hroom'. rewrite batch_room_app in Hroom'. simpl in Hroom'.
  pose proof (batch_room_length dn). assert (0 ≤ len raw / 256) by (apply Z.div_pos; lia).
  unfold write_object. destruct (Z.ltb_spec (max_object_size config) (len raw)) as [Hbig|_].
  { w_steps. eapply wp_mono; [apply wp_bw_drop|..]; [|done|].
    - intros [] o' Ho'. w_steps. rewrite Hfile in Ho'. split; [by etrans|]. right. split; [done|].
      by exists raw.
    - intros o' [? Ho']. rewrite Hfile in Ho'. split; [by eapply injected_only|by etrans]. }
  w_steps. apply (wp_compress_object level dict); [done|u64_lia|].
  intros out c' saved Hc' Hst Hl ->. w_steps. unfold RelativeDiskLocation.new.
  rewrite Hlen, shift_location_spec by u64_lia. eapply wp_unwrap; [done|].
  set (stored := default raw out) in *. cbv beta.
  do 4 (eapply wp_write_next; [done|]; clear Hrep; intros ?bw ?o' Hrep).
  w_steps. destruct Hrep as (Hrep & Hfile' & Honly').
  assert (encode_objects (objs ++ [(oid, stored)])
    = encode_objects objs ++ encode_object oid stored) as Eenc.
  { rewrite encode_objects_app. unfold encode_objects at 2. simpl. by rewrite app_nil_r. }
  assert (len (encode_objects (objs ++ [(oid, stored)]))
    = len (encode_objects objs) + HEADER_LEN + len stored) as Elen.
  { rewrite Eenc, length_app, Nat2Z.inj_add, len_encode_object. lia. }
  unfold HEADER_LEN in *.
  exists (objs ++ [(oid, stored)]). split; simpl.
  - rewrite Eenc. unfold encode_object. by rewrite !app_assoc.
  - done.
  - done.
  - rewrite Elen, wrap64_small; u64_lia.
  - rewrite list_to_map_snoc by done. rewrite Z.add_0_r. apply rels_ok_write; try done. u64_lia.
  - rewrite map_size_insert_None, length_app by done. simpl. lia.
  - rewrite Elen, batch_room_app, length_app. simpl. lia.
  - rewrite wrap64_small; u64_lia.
  - done.
Qed.
End object.

(** The loop over the objects of a batch. *)
Lemma wp_write_objects config level dict file (items : list (Z * option bytes)) st o :
  NoDup items.*1 → (∀ oid v, (oid, v) ∈ items → is_u64 oid) → batch_room items < 2 ^ 62 →
  writing dict file o [] [] st o →
  wp (foldM (write_object config level) st items)
    (λ st' o', ∃ objs, writing dict file o items objs st' o')
    (λ e o', os_only file o o' ∧
       (injected o ∨ e = Unsupported ∧ ∃ oid v, (oid, v) ∈ items ∧ oversize config v))
    (λ o', injected o ∧ os_only file o o') o.
Proof.
  intros Hnd Hu Hroom Hw.
  apply (wp_foldM _ (λ dn st' o', ∃ objs, writing dict file o dn objs st' o')); [by exists []|].
  intros dn [oid v] rest st' o' -> [objs Hw'].
  assert (oid ∉ dn.*1) as Hfresh.
  { rewrite fmap_app, fmap_cons in Hnd. apply NoDup_app in Hnd as (_ & Hd & _).
    intros Hin. apply (Hd oid Hin). by left. }
  assert (is_u64 oid) as Huo by (apply (Hu oid v); set_solver).
  rewrite (cons_middle (oid, v)), app_assoc, batch_room_app in Hroom. pose proof (batch_room_length rest).
  destruct v as [raw|].
  - eapply wp_mono; [eapply wp_write_data; [done..|lia]|done| |done].
    intros e o'' [? [?|[-> ?]]]; (split; [done|]); [by left|right]. split; [done|].
    exists oid, (Some raw). split; [set_solver|done].
  - by eapply wp_write_deletion.
Qed.

(** ** The dictionary *)

Lemma samples_room (objects : gmap Z (option bytes)) :
  len (concat (samples_iter objects)) ≤ batch_room (iter_order objects).
Proof.
  unfold samples_iter. generalize (iter_order objects). clear.
  induction l as [|[k v] l IH]; csimpl; [lia|]. pose proof (object_room_pos v) as Hv.
  destruct v as [raw|]; csimpl; csimpl in Hv; [|lia]. rewrite filter_cons.
  assert (0 ≤ len raw / 256) by (apply Z.div_pos; lia).
  case_decide; csimpl; rewrite ?length_app; lia.
Qed.

Definition dict_ok (dict : option bytes) : Prop :=
  dict ≠ Some [] ∧ len (default [] dict) ≤ 128 * 1024.

Lemma wp_make_dictionary config objects
    (Q : option bytes * option CCtx * ZstdDict → World → Prop) E C w :
  batch_room (iter_order objects) < 2 ^ 62 →
  (∀ dict c z, dict_ok dict → compressor_ok dict c → zstd_dict_for z dict → Q (dict, c, z) w) →
  wp (make_dictionary config objects) Q E C w.
Proof.
  intros Hroom HQ. unfold make_dictionary.
  assert (dict_ok None) by (split; simpl; [done|lia]).
  destruct (zstd_compression_level config) as [level|]; [|w_steps; by apply HQ].
  w_steps. apply wp_from_samples; [pose proof (samples_room objects); u64_lia|].
  intros [d|] _ Hd; [|w_steps; by apply HQ].
  destruct (Hd d eq_refl) as [Hne Hlen]. destruct (cctx_load_ok d) as (c & Ec & Hc).
  w_steps. eapply wp_unwrap; [done|]. w_steps. apply HQ; [|done|apply zstd_dict_for_bytes].
  split; [congruence|done].
Qed.

(** ** Step 1 *)

(** What stopping before the batch is installed leaves: at most a temporary file. *)
Record tmp_only (tmp : string) (o o' : os) : Prop := {
  to_counter : os_tmp_counter o' = os_tmp_counter o;
  to_thread : os_thread o' = os_thread o;
  to_faults : os_faults o' `suffix_of` os_faults o;
  to_fs : os_fs o' = os_fs o ∨
          only_file (fs_next_ino (os_fs o)) (fs_create tmp (os_fs o)) (os_fs o');
}.

Record data_written (objects : gmap Z (option bytes)) (tmp : string) (o : os)
    (file : File) (st : WriteState) (dict : option bytes) (z : ZstdDict)
    (objs : list (Z * bytes)) (o' : os) : Prop := {
  dw_file : file = fs_next_ino (os_fs o);
  dw_only : only_file file (fs_create tmp (os_fs o)) (os_fs o');
  dw_counter : os_tmp_counter o' = os_tmp_counter o;
  dw_thread : os_thread o' = os_thread o;
  dw_faults : os_faults o' `suffix_of` os_faults o;
  dw_content : fs_inodes (os_fs o') !! file = Some (encode_objects objs);
  dw_len : written_bytes st = len (encode_objects objs);
  dw_rels : rels_ok dict objs (new_relative_locations st) objects;
  dw_size : size (new_relative_locations st) = size objects;
  dw_room : len (encode_objects objs) + 16 * Z.of_nat (size objects)
            ≤ batch_room (iter_order objects);
  dw_saved : 0 ≤ written_bytes st + compressed_bytes st;
  dw_dict : dict_ok dict;
  dw_zstd : zstd_dict_for z dict;
}.

Lemma wp_open_create name o (Q : File → os → Prop) E C :
  fs_dir (os_fs o) !! name = None → fs_heap_exists (os_fs o) = true →
  (∀ o', os_upd (fs_create name (os_fs o)) o o' → Q (fs_next_ino (os_fs o)) o') →
  (∀ e o', injected o → os_upd (os_fs o) o o' → E e o') →
  (∀ o', injected o → os_upd (os_fs o) o o' ∨ os_upd (fs_create name (os_fs o)) o o' → C o') →
  wp (open_create name) Q E C o.
Proof.
  intros Hn Hh HQ HE HC. apply wp_atomic; rewrite ?Hh, ?Hn; simpl; auto; [|done].
  intros ? ? o' [= <- <-]. apply HQ.
Qed.

Lemma wp_write_data_file config objects tmp w (Q : File * WriteState * option bytes * ZstdDict → World → Prop) E C :
  let o := w_os w in
  fs_dir (os_fs o) !! tmp = None → fs_heap_exists (os_fs o) = true →
  (∀ oid, is_Some (objects !! oid) → is_u64 oid) → batch_room (iter_order objects) < 2 ^ 62 →
  (∀ file st dict z objs o', data_written objects tmp o file st dict z objs o' →
     Q (file, st, dict, z) (set_os o' w)) →
  (∀ e o', tmp_only tmp o o' →
     injected o ∨ e = Unsupported ∧ (∃ oid v, objects !! oid = Some v ∧ oversize config v) →
     E e (set_os o' w)) →
  (∀ o', tmp_only tmp o o' → injected o → C (set_os o' w)) →
  wp (write_data config objects tmp) Q E C w.
Proof.
  intros o Hname Hheap Hu Hroom HQ HE HC. unfold write_data. w_steps. fold o.
  apply wp_open_create; [done|done|..].
  2: { intros e o' Hi (?&?&?&?). apply HE; [|by left]. split; auto. }
  2: { intros o' Hi Ho'. apply HC; [|done]. destruct Ho' as [(E1&?&?&?)|(E1&?&?&?)];
       split; try done; [by left|right]; by rewrite E1. }
  intros o1 Ho1. set (file := fs_next_ino (os_fs o)) in *.
  w_steps. apply wp_make_dictionary; [done|]. intros dict c z Hdict Hc Hz. w_steps. simpl.
  destruct Ho1 as (Ef & Ec & Et & Esuf).
  assert (∀ o', os_only file o1 o' → tmp_only tmp o o') as Hto.
  { intros o' []. split; [congruence..|by etrans|]. right. by rewrite <- Ef. }
  assert (∀ o', os_only file o1 o' → injected o' → injected o) as Hinj.
  { intros o' [] ?. eapply injected_suffix; [|done]. by etrans. }
  eapply wp_mono; [eapply (wp_write_objects config _ dict file)|..].
  - apply iter_order_nodup.
  - intros oid v Hin%iter_order_elem. eauto.
  - done.
  - split; simpl; try done; [|apply rels_ok_empty].
    exists []. simpl. split_and!; [|done..]. by rewrite Ef; simpl; rewrite lookup_insert_eq.
  - intros st o2 [objs Hw]. destruct Hw as [Hrep Hfile Honly Hlen Hrels Hsize Hwr Hsaved Hcomp].
    rewrite iter_order_length in Hsize, Hwr. rewrite iter_order_to_map in Hrels.
    w_steps. apply wp_assert; [by apply bool_decide_eq_true|]. w_steps. simpl.
    eapply wp_mono; [by apply wp_bw_flush|..].
    + intros bw' o3 (Hrep' & Hfile' & Hempty & _ & Honly').
      w_steps. rewrite Hfile in *.
      assert (os_only file o1 o3) as Honly3 by by etrans.
      pose proof (Hto _ Honly3) as [??? _]. apply (HQ file st dict z objs). split; try done.
      * destruct Honly3. by rewrite <- Ef.
      * destruct Hrep' as (c' & Hc' & _ & E'). rewrite Hempty, app_nil_r in E'. by rewrite E', <- Hfile'.
    + intros e o3 [Hi Ho3]. rewrite Hfile in Ho3.
      assert (os_only file o1 o3) as Honly3 by by etrans.
      eapply wp_mono; [apply wp_bw_drop|..]; simpl.
      * intros [] o4 Ho4. rewrite Hfile in Ho4. apply HE; [apply Hto; by etrans|].
        left. by apply (Hinj o2).
      * done.
      * intros o4 [Hi' Ho4]. rewrite Hfile in Ho4. apply HC; [apply Hto; by etrans|].
        by apply (Hinj o2).
    + intros o3 [Hi Ho3]. rewrite Hfile in Ho3. apply HC; [apply Hto; by etrans|].
      by apply (Hinj o2).
  - intros e o2 [Ho2 He]. apply HE; [by apply Hto|].
    destruct He as [Hi|(? & oid & v & Hin%iter_order_elem & ?)]; [|eauto 10].
    left. by apply (Hinj o1).
  - intros o2 [Hi Ho2]. apply HC; [by apply Hto|by apply (Hinj o1)].
Qed.
End write.
