(* ===== verification/InstallSpec.v ===== *)
(** InstallSpec: steps 3 to 6 of [write_batch_inner] on the tables in memory. *)
From S2P Require Import Prelude Effects Os Deps Locations LocationTable Config Metadata.
From S2P Require Import ZstdDict Storage State FileMap WritePath Recovery FileMapSpec Layout.
From S2P Require Import Invariant.

Section install.
Context `{Deps, !DepsLaws}.
Implicit Types L : list LogFile.

(** ** Step 3: the location table *)

(** The locations the objects [done] are given in a file at [base]. *)
Definition moved (base : Z) (dn : list (Z * Z)) : gmap Z Z :=
  list_to_map ((λ e : Z * Z, (e.1, e.2 + base)) <$> dn).

Definition replaced_by (tbl : gmap Z Z) (dn : list (Z * Z)) : list (Z * Z) :=
  omap (λ e : Z * Z, (λ loc, (e.1, loc)) <$> tbl !! e.1) dn.

Lemma moved_snoc base dn e :
  e.1 ∉ dn.*1 → moved base (dn ++ [e]) = <[e.1 := e.2 + base]> (moved base dn).
Proof.
  intros Hn. unfold moved. rewrite fmap_app. csimpl. apply list_to_map_snoc.
  rewrite <- list_fmap_compose. exact Hn.
Qed.

Lemma moved_None base dn oid : oid ∉ dn.*1 → moved base dn !! oid = None.
Proof.
  intros Hn. apply not_elem_of_list_to_map_1. rewrite <- list_fmap_compose. exact Hn.
Qed.

Lemma replaced_snoc tbl dn e :
  replaced_by tbl (dn ++ [e])
  = replaced_by tbl dn ++ match tbl !! e.1 with Some loc => [(e.1, loc)] | None => [] end.
Proof.
  unfold replaced_by. rewrite omap_app. f_equal. csimpl. by destruct (tbl !! e.1).
Qed.

Lemma replaced_elem tbl dn oid loc :
  (oid, loc) ∈ replaced_by tbl dn ↔ oid ∈ dn.*1 ∧ tbl !! oid = Some loc.
Proof.
  unfold replaced_by. rewrite list_elem_of_omap, list_elem_of_fmap. split.
  - intros (e & Hin & E). destruct (tbl !! e.1) as [l|] eqn:El; simplify_eq/=. eauto.
  - intros ((e & -> & Hin) & E). exists e. by rewrite E.
Qed.

Lemma replaced_nodup tbl dn : NoDup dn.*1 → NoDup (replaced_by tbl dn).*1.
Proof.
  induction dn as [|e dn IH]; csimpl; [constructor|]. intros [Hn Hd]%NoDup_cons.
  destruct (tbl !! e.1) eqn:E; simpl; [|auto]. apply NoDup_cons. split; [|auto].
  rewrite list_elem_of_fmap. intros ([oid loc] & E' & [Hin _]%replaced_elem). simpl in *. congruence.
Qed.

(** The table accepts the location of the object: a new write is above what is there,
    a rewrite replaces exactly what it has read. *)
Definition installable (tbl old : gmap Z Z) (base : Z) (e : Z * Z) : Prop :=
  (old !! e.1 = None ∧ default 0 (tbl !! e.1) < e.2 + base) ∨
  ∃ loc, old !! e.1 = Some loc ∧ tbl !! e.1 = Some loc.

Record installing (tbl : gmap Z Z) (base : Z) (dn : list (Z * Z)) (acc : Installed)
    (w w' : World) : Prop := {
  in_world : w' = set_location_table (w_table w') w;
  in_table : table_ok (w_table w') (moved base dn ∪ tbl);
  in_replaced : replaced_locations acc = replaced_by tbl dn;
  in_failed : failed_gc_locations acc = [];
  in_subtract : subtract_from_len acc = 0;
}.

Lemma table_ok_write t tbl oid loc :
  table_ok t tbl → table_ok (pt_write t oid loc) (<[oid := loc]> tbl).
Proof.
  intros Ht i. rewrite pt_read_write, lookup_insert. case_decide; [done|apply Ht].
Qed.

Section one.
Context (tbl old : gmap Z Z) (lsn : Z) (dn : list (Z * Z)) (oid rel : Z) (w : World).
Let base := 2 * lsn.

Lemma wp_install_object acc w' E C :
  (∀ i loc, tbl !! i = Some loc → 0 < loc) →
  installing tbl base dn acc w w' → oid ∉ dn.*1 →
  installable tbl old base (oid, rel) →
  RelativeDiskLocation.to_absolute rel lsn = Some (rel + base) →
  wp (install_object old base acc (oid, rel))
    (λ acc' w'', installing tbl base (dn ++ [(oid, rel)]) acc' w w'') E C w'.
Proof.
  intros Hpos [Hw Ht Hr Hf Hs] Hn Hinst Habs. unfold install_object.
  subst base. rewrite lsn_fam, Habs. w_steps. eapply wp_unwrap; [done|]. w_steps.
  set (base := 2 * lsn) in *.
  assert ((moved base dn ∪ tbl) !! oid = tbl !! oid) as Elook.
  { apply lookup_union_r. by apply moved_None. }
  assert (pt_read (w_table w') oid = default 0 (tbl !! oid)) as Eread.
  { rewrite Ht. by rewrite Elook. }
  assert (∀ t', t' = pt_write (w_table w') oid (rel + base) →
    ∀ acc', replaced_locations acc' = replaced_by tbl (dn ++ [(oid, rel)]) →
    failed_gc_locations acc' = [] → subtract_from_len acc' = 0 →
    installing tbl base (dn ++ [(oid, rel)]) acc' w (set_location_table t' w')) as Hnext.
  { intros t' -> acc' ???. split; try done.
    - simpl. rewrite Hw. by destruct w as [? []].
    - rewrite moved_snoc by done. simpl. rewrite <- insert_union_l. by apply table_ok_write. }
  destruct Hinst as [[Eold Hlt]|(loc & Eold & Hloc)]; simpl in Eold; rewrite Eold.
  - w_steps. simpl in Hlt. eapply wp_table; [apply fetch_max_above; lia|].
    unfold load. rewrite Eread. simpl in *.
    destruct (tbl !! oid) as [loc|] eqn:El; simpl.
    + rewrite from_raw_pos by eauto. w_steps. apply Hnext; simpl; try done.
      rewrite replaced_snoc; simpl. rewrite El. congruence.
    + w_steps. apply Hnext; simpl; try done. rewrite replaced_snoc; simpl.
      by rewrite El, app_nil_r.
  - w_steps. eapply wp_table.
    { apply cas_hit; [by eapply Hpos|]. apply load_Some. rewrite Eread. simpl in Hloc.
      rewrite Hloc. simpl. split; [done|]. apply Hpos in Hloc. lia. }
    simpl in *. w_steps. apply Hnext; simpl; try done. rewrite replaced_snoc; simpl.
    rewrite Hloc. congruence.
Qed.
End one.

Lemma wp_install_objects tbl old lsn (items : list (Z * Z)) w E C :
  (∀ i loc, tbl !! i = Some loc → 0 < loc) →
  table_ok (w_table w) tbl → NoDup items.*1 →
  (∀ e, e ∈ items → installable tbl old (2 * lsn) e ∧
     RelativeDiskLocation.to_absolute e.2 lsn = Some (e.2 + 2 * lsn)) →
  wp (foldM (install_object old (2 * lsn)) (MkInstalled [] [] 0) items)
    (λ acc w', installing tbl (2 * lsn) items acc w w') E C w.
Proof.
  intros Hpos Ht Hnd He.
  apply (wp_foldM _ (λ dn acc w', installing tbl (2 * lsn) dn acc w w')).
  - split; try done; [by destruct w as [? []]|]. unfold moved. simpl. by rewrite (left_id_L ∅ (∪)).
  - intros dn [oid rel] rest acc w' E' Hw. destruct (He (oid, rel)) as [? ?].
    { rewrite E'. set_solver. }
    apply wp_install_object; try done.
    rewrite E', fmap_app, fmap_cons in Hnd. apply NoDup_app in Hnd as (_ & Hd & _).
    intros Hin. apply (Hd oid Hin). by left.
Qed.
End install.

(** ** Step 6: the accounting of the files *)

Section account.
Context `{Deps, !DepsLaws}.
Context (L : list LogFile) (f : LogFile) (Hs : sorted (L ++ [f])) (Hwf : Forall lf_wf (L ++ [f])).
Implicit Types tbl : gmap Z Z.

(** The entry of a file that is installed and not yet published. *)
Record fam_pending (capacity : Z) (fam : FileAndMetadata) : Prop := {
  fp_file : fam_file fam = lf_ino f;
  fp_location : fam_location fam = lf_location f;
  fp_path : fam_path fam = None;
  fp_metadata : fam_metadata fam = None;
  fp_live : fam_live_objects fam = capacity;
  fp_generation : fam_generation fam = generation (lf_md f);
  fp_claim : fam_rewrite_claim fam = true;
  fp_dict : zstd_dict_for (fam_zstd_dict fam) (lf_dict f);
}.

Definition fam_installing tbl (claimed : Z → bool) (capacity : Z) (g : LogFile)
    (fam : FileAndMetadata) : Prop :=
  (g ∈ L ∧ fam_ok tbl claimed g fam) ∨ (g = f ∧ fam_pending capacity fam).

Definition evacuated tbl (dn : list (Z * Z)) : gmap Z Z :=
  foldl (λ m e, delete e.1 m) tbl dn.

Lemma evacuated_snoc tbl dn e : evacuated tbl (dn ++ [e]) = delete e.1 (evacuated tbl dn).
Proof. unfold evacuated. by rewrite foldl_app. Qed.

Lemma evacuated_lookup tbl dn oid :
  evacuated tbl dn !! oid = if decide (oid ∈ dn.*1) then None else tbl !! oid.
Proof.
  induction dn as [|e dn IH] using rev_ind; [done|].
  rewrite evacuated_snoc, lookup_delete, IH, fmap_app. csimpl.
  repeat case_decide; try done; set_solver.
Qed.

Lemma new_not_old : f ∉ L.
Proof.
  intros Hin. apply (sorted_irrefl L f []); [done..|]. by rewrite app_nil_r.
Qed.

Lemma file_wf g : g ∈ L ++ [f] → lf_wf g.
Proof. intros Hg. rewrite Forall_forall in Hwf. auto. Qed.

Lemma older_location g : g ∈ L → lf_location g ≠ lf_location f.
Proof.
  intros Hg E. apply new_not_old. apply (lf_location_inj (L ++ [f])) in E as <-; try done; set_solver.
Qed.

Lemma files_disjoint g h loc :
  g ∈ L ++ [f] → h ∈ L ++ [f] → g ≠ h → in_file g loc → ¬ in_file h loc.
Proof.
  intros Hg Hh Hne. apply in_file_disjoint; [by apply file_wf..|].
  destruct (sorted_elem _ g h Hs Hg Hh) as [|]; done.
Qed.

Lemma evacuated_subseteq tbl dn : evacuated tbl dn ⊆ tbl.
Proof.
  apply map_subseteq_spec. intros oid loc. rewrite evacuated_lookup. by case_decide.
Qed.

(** One replaced location. *)
Lemma decremented m tbl claimed capacity oid loc :
  tbl ⊆ locs L → tbl !! oid = Some loc →
  fams_ok m (L ++ [f]) (fam_installing tbl claimed capacity) →
  ∃ p fam g, range_next loc m = Some (lf_location g, p) ∧ lf_location g ≠ lf_location f ∧
    arcs m !! p = Some fam ∧ 1 ≤ fam_live_objects fam ∧
    fams_ok (updated p (set_fam_live_objects (wrap64 (fam_live_objects fam - 1))) m) (L ++ [f])
      (fam_installing (delete oid tbl) claimed capacity).
Proof.
  intros Hsub Ht Hm. pose proof (lookup_weaken _ _ _ _ Ht Hsub) as Hloc.
  assert (sorted L ∧ Forall lf_wf L) as [HsL HwfL].
  { split; [by apply sorted_app in Hs as []|by apply Forall_app in Hwf as []]. }
  destruct (locs_owner L oid loc HwfL Hloc) as (g & Hg & Habs & _).
  assert (g ∈ L ++ [f]) as Hg' by set_solver. assert (f ∈ L ++ [f]) as Hf' by set_solver.
  assert (g ≠ f) as Hne by (intros ->; by apply new_not_old).
  pose proof (lf_abs_in_file g oid loc (file_wf g Hg') Habs) as Hin.
  destruct (range_next_owner m (L ++ [f]) _ Hs Hwf Hm g loc Hg' Hin) as (p & fam & Hnext & Hk & Hp & Hfam).
  destruct Hfam as [[_ Hfam]|[? _]]; [|done].
  pose proof (live_delete tbl g oid loc Ht) as Hd. rewrite decide_True in Hd by done.
  pose proof (live_nonneg (delete oid tbl) g). pose proof (live_le L tbl g HsL HwfL Hg Hsub).
  pose proof (entries_u64 g (file_wf g Hg')). pose proof (fo_live _ _ _ _ Hfam) as Hlive.
  exists p, fam, g. split_and!; try done; [|lia|].
  - intros E. apply Hne. by apply (lf_location_inj (L ++ [f])).
  - eapply (fams_ok_updated m (L ++ [f]) _ Hs Hwf Hm g); try done.
    + left. split; [done|]. rewrite wrap64_small by u64_lia. destruct Hfam. split; simpl; try done. lia.
    + intros h fam' Hh Hhg [[? Hfh]|[-> ?]]; [left; split; [done|]|by right].
      destruct Hfh. split; try done. rewrite (live_delete tbl h oid loc) by done.
      rewrite decide_False by (apply (files_disjoint g); done). lia.
Qed.

Lemma wp_decrements claimed capacity m (items : list (Z * Z)) E C :
  NoDup items.*1 → (∀ oid loc, (oid, loc) ∈ items → locs L !! oid = Some loc) →
  fams_ok m (L ++ [f]) (fam_installing (locs L) claimed capacity) →
  wp (decrement_evacuated_fams (lf_location f) items)
    (λ _ m', fams_ok m' (L ++ [f]) (fam_installing (evacuated (locs L) items) claimed capacity)
             ∧ next_file_lsn m' = next_file_lsn m)
    E C m.
Proof.
  intros Hnd Hitems Hm. unfold decrement_evacuated_fams.
  apply (wp_forM _ (λ dn m', fams_ok m' (L ++ [f])
    (fam_installing (evacuated (locs L) dn) claimed capacity)
    ∧ next_file_lsn m' = next_file_lsn m)); [done|].
  intros dn [oid loc] rest m' E' [Hm' En].
  destruct (decremented m' (evacuated (locs L) dn) claimed capacity oid loc)
    as (p & fam & g & Hnext & Hne & Hp & Hone & Hok); [apply evacuated_subseteq| |done|].
  { rewrite evacuated_lookup, decide_False; [apply Hitems; rewrite E'; set_solver|].
    rewrite E', fmap_app, fmap_cons in Hnd. apply NoDup_app in Hnd as (_ & Hd & _).
    intros Hin. apply (Hd oid Hin). by left. }
  w_steps. rewrite Hnext. eapply wp_unwrap; [done|]. w_steps.
  apply wp_assert; [by apply negb_true_iff, Z.eqb_neq|]. w_steps. eapply wp_deref; [done|].
  w_steps. apply wp_update_fam. apply wp_assert; [by apply Z.leb_le|].
  by rewrite evacuated_snoc.
Qed.
(** ** The counts after the installation *)

Lemma moved_abs : moved (lf_location f) (lf_entries f) = lf_abs f.
Proof.
  unfold moved, lf_abs, lf_rels. rewrite <- list_to_map_fmap. f_equal.
Qed.

Lemma entry_keys oid : oid ∈ (lf_entries f).*1 ↔ is_Some (lf_abs f !! oid).
Proof.
  rewrite lf_abs_lookup, fmap_is_Some. unfold lf_rels. split.
  - intros Hin. apply not_eq_None_Some. intros Hn%not_elem_of_list_to_map. done.
  - intros [rel Hr]. apply elem_of_list_to_map_2 in Hr. apply list_elem_of_fmap. by exists (oid, rel).
Qed.

Lemma live_old g :
  g ∈ L →
  live (evacuated (locs L) (replaced_by (locs L) (lf_entries f))) g = live (locs (L ++ [f])) g.
Proof.
  intros Hg. apply live_ext. intros oid loc Hin. rewrite locs_snoc, evacuated_lookup.
  assert (oid ∈ (replaced_by (locs L) (lf_entries f)).*1
          ↔ is_Some (lf_abs f !! oid) ∧ is_Some (locs L !! oid)) as Hkey.
  { rewrite list_elem_of_fmap, <- entry_keys. split.
    - intros ([i l] & -> & [? ?]%replaced_elem). split; [done|eauto].
    - intros [? [l ?]]. exists (oid, l). split; [done|]. by apply replaced_elem. }
  destruct (lookup_union_cases (lf_abs f) (locs L) oid) as [[Hf ->]|[Hf ->]].
  - split.
    + case_decide as Hd; [done|]. intros Hl. exfalso. apply Hd, Hkey. eauto.
    + intros Ha. exfalso. apply (files_disjoint f g loc); [set_solver..| | |done].
      * intros E. apply new_not_old. by rewrite E.
      * by apply (lf_abs_in_file f oid); [apply file_wf; set_solver|].
  - rewrite decide_False; [done|]. rewrite Hkey, Hf. by intros [[] _].
Qed.

Lemma live_new : live (locs (L ++ [f])) f = len (lf_entries f).
Proof.
  assert (lf_wf f) as Hf by (apply file_wf; set_solver).
  unfold live. rewrite locs_snoc.
  assert (filter (λ kv : Z * Z, in_file f kv.2) (lf_abs f ∪ locs L) = lf_abs f) as ->.
  { apply map_eq. intros oid. apply option_eq. intros loc. rewrite map_lookup_filter_Some. simpl. split.
    - intros [Hl Hin]. destruct (lookup_union_cases (lf_abs f) (locs L) oid) as [[_ E]|[_ E]];
        rewrite E in Hl; [done|]. exfalso.
      pose proof (proj1 (proj1 (Forall_app _ _ _) Hwf)) as HwfL.
      destruct (locs_owner L oid loc HwfL Hl) as (g & Hg & Ha & _).
      apply (files_disjoint g f loc); [set_solver..| | |done].
      + intros E'. apply new_not_old. by rewrite <- E'.
      + by apply (lf_abs_in_file g oid); [apply file_wf; set_solver|].
    - intros Ha. split; [by apply lookup_union_Some_l|]. by apply (lf_abs_in_file f oid). }
  unfold lf_abs, lf_rels. rewrite map_size_fmap, map_size_list_to_map; [done|apply Hf].
Qed.

(** ** Publication *)

Definition and_new (claimed : Z → bool) : Z → bool := λ k, claimed k || (k =? lf_location f).

Lemma pending_fam tbl claimed capacity m :
  fams_ok m (L ++ [f]) (fam_installing tbl claimed capacity) →
  ∃ p fam, cm_get (fams m) (lf_location f) = Some p ∧ arcs m !! p = Some fam ∧
    fam_pending capacity fam.
Proof.
  intros Hm. destruct (fs_fam _ _ _ Hm f) as (fam & Hat & Hfam); [set_solver|].
  apply fam_at_Some in Hat as (p & Hk & Hp). exists p, fam. split_and!; try done.
  destruct Hfam as [[Hin _]|[_ ?]]; [|done]. by apply new_not_old in Hin.
Qed.

Lemma wp_finalize tbl claimed m E C :
  (∀ g, g ∈ L → live tbl g = live (locs (L ++ [f])) g) →
  fams_ok m (L ++ [f]) (fam_installing tbl claimed (len (lf_entries f))) →
  wp (finalize_fam (lf_location f) (lf_md f) 0 (lf_name f))
    (λ _ m', fams_ok m' (L ++ [f]) (fam_ok (locs (L ++ [f])) (and_new claimed))
             ∧ next_file_lsn m' = next_file_lsn m) E C m.
Proof.
  intros Hlive Hm. destruct (pending_fam _ _ _ _ Hm) as (p & fam & Hk & Hp & Hfam).
  pose proof (entries_u64 f (file_wf f ltac:(set_solver))).
  unfold finalize_fam, install_metadata_and_path. w_steps. rewrite Hk. eapply wp_unwrap; [done|].
  w_steps. eapply wp_deref; [done|]. w_steps. apply wp_update_fam. w_steps.
  apply wp_assert; [by apply bool_decide_eq_true; destruct Hfam|]. w_steps. apply wp_update_fam.
  w_steps. apply wp_assert; [by apply bool_decide_eq_true; destruct Hfam|]. w_steps.
  rewrite updated_compose. eapply wp_deref; [by apply updated_arc|]. w_steps. apply wp_update_fam.
  apply wp_assert; [apply Z.leb_le; simpl; rewrite (fp_live _ _ Hfam); lia|].
  rewrite updated_compose. split; [|done].
  eapply (fams_ok_updated m (L ++ [f]) _ Hs Hwf Hm f); try done; [set_solver|..].
  - simpl. rewrite (fp_live _ _ Hfam), Z.sub_0_r, wrap64_small by u64_lia.
    pose proof (fp_claim _ _ Hfam) as Hc.
    destruct Hfam. split; simpl; try done; [by rewrite live_new|].
    rewrite Hc. unfold and_new. by rewrite Z.eqb_refl, orb_true_r.
  - intros g fam' Hg Hne [[? Hg']|[? ?]]; [|done].
    pose proof (fo_claim _ _ _ _ Hg') as Hc. destruct Hg'. split; try done.
    + by rewrite <- Hlive.
    + rewrite Hc. unfold and_new.
      destruct (Z.eqb_spec (lf_location g) (lf_location f)) as [Eg|_]; [|by rewrite orb_false_r].
      apply (lf_location_inj (L ++ [f])) in Eg; try done. set_solver.
Qed.
End account.

Section claims.
Context `{Deps, !DepsLaws}.

(** Releasing the claim of one file. *)
Lemma wp_release L f m tbl claimed (Q : () → FileMap → Prop) E C :
  sorted L → Forall lf_wf L → f ∈ L → claimed (lf_location f) = false →
  fams_ok m L (fam_ok tbl (and_new f claimed)) →
  (∀ m', fams_ok m' L (fam_ok tbl claimed) → next_file_lsn m' = next_file_lsn m → Q () m') →
  wp (drop_claims [lf_location f]) Q E C m.
Proof.
  intros Hs Hwf Hf Hc Hm HQ. destruct (fs_fam _ _ _ Hm f Hf) as (fam & Hat & Hfam).
  eapply wp_drop_claim; [by apply Hm|done|..].
  { rewrite (fo_claim _ _ _ _ Hfam). unfold and_new. by rewrite Z.eqb_refl, orb_true_r. }
  intros m' Hwf' _ Hnext Hat'. apply HQ; [|done]. split; [done|..].
  - intros g Hg. rewrite Hat'. case_decide as Eg.
    + apply (lf_location_inj L) in Eg as ->; try done. eexists; split; [done|].
      destruct Hfam. by split.
    + destruct (fs_fam _ _ _ Hm g Hg) as (fam' & Hat'' & Hg'). exists fam'. split; [done|].
      pose proof (fo_claim _ _ _ _ Hg') as Hc'.
      destruct Hg'. split; try done. rewrite Hc'. unfold and_new.
      destruct (Z.eqb_spec (lf_location g) (lf_location f)); [done|]. by rewrite orb_false_r.
  - intros k fam'. rewrite Hat'. case_decide; [eauto|]. apply (fs_key _ _ _ Hm).
  - rewrite Hnext. apply (fs_next _ _ _ Hm).
Qed.
End claims.
