(* ===== verification/BatchSpec.v ===== *)
(** BatchSpec: [write_batch_inner] as a whole. A batch that is written becomes one more
    file of the store; a batch that is not leaves the disk as it was, or with that file
    in addition, at whatever point it stops. *)
From S2P Require Import Prelude Effects Os Deps Locations LocationTable Config Metadata.
From S2P Require Import ZstdDict Storage State FileMap WritePath Recovery FileMapSpec Layout.
From S2P Require Import Invariant PowerLoss WriteSpec InstallSpec.

(** ** The disk while a batch is being written *)

Section staged.
Context `{Deps, !DepsLaws}.
Implicit Types L : list LogFile.

(** [F] is [F0] with the temporary file [file] on the way. *)
Record staged (F0 : fs) (tmp : string) (file : File) (F : fs) : Prop := {
  sg_file : file = fs_next_ino F0;
  sg_only : only_file file (fs_create tmp F0) F;
}.

Context (F0 : fs) (L : list LogFile) (tmp : string).
Context (Hok : disk_ok F0 L) (Htmp : ignored_name tmp) (Hfree : fs_dir F0 !! tmp = None)
  (Hheap : fs_heap_exists F0 = true).

Lemma staged_only file F F' : staged F0 tmp file F → only_file file F F' → staged F0 tmp file F'.
Proof. intros []. split; [done|]. by etrans. Qed.

Lemma staged_synced file F c :
  staged F0 tmp file F → staged F0 tmp file (set_synced (<[file := c]> (fs_synced F)) F).
Proof. intros Hsg. eapply staged_only; [done|apply only_file_sync]. Qed.

Lemma staged_tmp file F : staged F0 tmp file F → fs_dir F !! tmp = Some file.
Proof. intros [-> Ho]. rewrite (of_dir _ _ _ Ho). simpl. by rewrite lookup_insert_eq. Qed.

Lemma staged_disk file F : staged F0 tmp file F → disk_ok F L.
Proof.
  intros [-> Ho]. pose proof (disk_ok_create F0 L Hok tmp Htmp Hfree Hheap) as Hc.
  eapply disk_ok_only; [done| |done]. intros f Hf.
  apply (disk_ino_ignored _ _ Hc f tmp); [done..|]. simpl. by rewrite lookup_insert_eq.
Qed.

Lemma staged_reached file F : staged F0 tmp file F → reached F0 F [L] L.
Proof.
  intros Hsg. split; [by eapply staged_disk|]. destruct Hsg as [-> Ho]. by eapply passes_staged.
Qed.

Lemma tmp_only_reached o o' :
  os_fs o = F0 → tmp_only tmp o o' → reached F0 (os_fs o') [L] L.
Proof.
  intros E [_ _ _ Hf]. rewrite E in Hf. destruct Hf as [->|Ho]; [by apply reached_refl|].
  eapply (staged_reached (fs_next_ino F0)). by split.
Qed.

Lemma staged_heap file F : staged F0 tmp file F → fs_heap_exists F = true.
Proof. intros [_ Ho]. by rewrite (of_heap _ _ _ Ho). Qed.
End staged.

(** ** The file a batch becomes *)

Section file.
Context `{Deps, !DepsLaws}.
Context (L : list LogFile) (base : Z) (is_gc : bool) (file : File) (objs : list (Z * bytes))
  (rels : gmap Z Z) (dict : option bytes) (objects : gmap Z (option bytes)) (gen : Z).

Definition new_lsn : Z := base + Z.b2z (negb is_gc) * 2 ^ 62.

Definition new_file_len : Z :=
  len (encode_objects objs) + 4 + 8 + 8 + 16 * Z.of_nat (size rels) + len (default [] dict).

Definition new_file : LogFile := {|
  lf_md := {| lsn := new_lsn; trailer_offset := len (encode_objects objs);
              present_objects := Z.of_nat (size objects); generation := gen;
              file_size := new_file_len |};
  lf_ino := file;
  lf_objs := objs;
  lf_entries := iter_order rels;
  lf_dict := dict;
  lf_vals := objects;
|}.

Context (Hbase : 0 < base) (Hgen : 0 ≤ gen < 256)
  (Hroom : base + batch_room (iter_order objects) + 1 < 2 ^ 62)
  (Hlen : len (encode_objects objs) + 16 * Z.of_nat (size objects)
          ≤ batch_room (iter_order objects))
  (Hu : ∀ oid, is_Some (objects !! oid) → is_u64 oid)
  (Hsize : size rels = size objects) (Hdict : dict_ok dict)
  (Hrels : rels_ok dict objs rels objects).

Lemma new_file_base : lf_base new_file = base.
Proof.
  unfold lf_base, masked_lsn. simpl. unfold new_lsn. apply land_new_write_mask.
  pose proof (batch_room_length (iter_order objects)). lia.
Qed.

Lemma new_file_rels : lf_rels new_file = rels.
Proof. unfold lf_rels. simpl. apply iter_order_to_map. Qed.

Lemma new_file_content_len : len (lf_content new_file) = new_file_len.
Proof.
  unfold lf_content, lf_data. simpl.
  rewrite length_app, Nat2Z.inj_add, len_trailer_buf, iter_order_length.
  unfold new_file_len. lia.
Qed.

Lemma new_file_bound : 0 ≤ new_file_len ≤ isize_max.
Proof.
  destruct Hdict as [_ ?]. unfold new_file_len, isize_max. lia.
Qed.

Lemma new_file_wf : lf_wf new_file.
Proof.
  pose proof new_file_bound as Hb. pose proof new_file_base as Eb.
  split; try rewrite Eb; try done.
  - by exists (negb is_gc).
  - unfold lf_end. simpl. lia.
  - by rewrite new_file_content_len.
  - rewrite new_file_content_len. apply Hb.
  - split; simpl; [unfold new_lsn; destruct is_gc; simpl|..]; u64_lia.
  - simpl. rewrite iter_order_length. lia.
  - apply Hdict.
  - apply iter_order_nodup.
  - intros oid rel Hin%iter_order_elem. apply Hu. rewrite <- (ro_dom _ _ _ _ Hrels). eauto.
  - by rewrite new_file_rels.
Qed.

Lemma new_file_sorted m Φ :
  sorted L → Forall lf_wf L → fams_ok m L Φ → next_file_lsn m = base →
  sorted (L ++ [new_file]) ∧ Forall lf_wf (L ++ [new_file]).
Proof.
  intros Hs Hwf Hm Hn. split.
  - apply sorted_snoc. split; [done|]. intros g Hg. unfold before. rewrite new_file_base, <- Hn.
    by apply (fs_next _ _ _ Hm).
  - apply Forall_app. split; [done|]. apply Forall_singleton, new_file_wf.
Qed.

(** Every object can be installed. *)
Lemma new_file_installable old e :
  Forall lf_wf L → (∀ g, g ∈ L → lf_base g + lf_end g < base) →
  (is_gc = false ∧ old = ∅ ∨
   is_gc = true ∧ ∀ oid, is_Some (objects !! oid) → ∃ loc, old !! oid = Some loc ∧ locs L !! oid = Some loc) →
  e ∈ iter_order rels →
  installable (locs L) old (2 * new_lsn) e ∧
  RelativeDiskLocation.to_absolute e.2 new_lsn = Some (e.2 + 2 * new_lsn).
Proof.
  intros Hwf Hnext Hmode Hin. destruct e as [oid rel]. apply iter_order_elem in Hin. simpl.
  pose proof new_file_wf as Hf. split.
  - destruct Hmode as [[-> ->]|[-> Hold]].
    + left. split; [done|]. simpl. rewrite <- new_file_rels in Hin.
      destruct (lf_rels_form new_file oid rel Hf Hin) as (off & d & -> & ? & _).
      assert (default 0 (locs L !! oid) < 2 * (base + 2 ^ 62)) as Hlt; [|unfold new_lsn; destruct d; cbn; lia].
      destruct (locs L !! oid) as [loc|] eqn:E; simpl; [|lia].
      destruct (locs_owner L oid loc Hwf E) as (g & Hg & Ha & _).
      rewrite Forall_forall in Hwf. apply lf_abs_in_file in Ha as [_ Hle]; [|auto].
      specialize (Hnext g Hg). destruct (wf_lsn g (Hwf g Hg)) as [[] El]; simpl in El; lia.
    + right. simpl. apply Hold. rewrite <- (ro_dom _ _ _ _ Hrels). eauto.
  - pose proof (lf_to_absolute new_file oid rel Hf) as Ha. rewrite new_file_rels in Ha.
    unfold lf_location, lf_lsn in Ha. simpl in Ha. by apply Ha.
Qed.
End file.

(** ** Steps 3 to 6 *)

Section finish.
Context `{Deps, !DepsLaws}.
Context (o0 : os) (L : list LogFile) (f : LogFile) (tmp : string) (rels : gmap Z Z).
Context (Hs : sorted (L ++ [f])) (Hwf : Forall lf_wf (L ++ [f])).
Context (Hok : disk_ok (os_fs o0) L) (Htmp : ignored_name tmp)
  (Hfree : fs_dir (os_fs o0) !! tmp = None) (Hheap : fs_heap_exists (os_fs o0) = true).
Context (Hrels : lf_entries f = iter_order rels).

(** The disk after the rename. *)
Record published (F : fs) : Prop := {
  pb_disk : disk_ok F (L ++ [f]);
  pb_heap : fs_heap_exists F = true;
  pb_content : fs_inodes F !! lf_ino f = Some (lf_content f);
  pb_names name : ignored_name name → fs_dir (os_fs o0) !! name = None → fs_dir F !! name = None;
  pb_passes : passes (os_fs o0) F [L; L ++ [f]];
}.

(** The disk wherever the batch stops: the store is there with or without the file. *)
Definition halted (F : fs) : Prop :=
  reached (os_fs o0) F [L] L ∨ reached (os_fs o0) F [L; L ++ [f]] (L ++ [f]).

Lemma published_halted F : published F → halted F.
Proof. intros []. right. by split. Qed.

Lemma staged_halted F : staged (os_fs o0) tmp (lf_ino f) F → halted F.
Proof. intros Hsg. left. by eapply staged_reached. Qed.

(** An operating system that has only made progress since the batch started. *)
Record later (c : Z) (o : os) : Prop := {
  lt_counter : os_tmp_counter o = c;
  lt_faults : os_faults o `suffix_of` os_faults o0;
}.

Lemma later_upd c F o o' : later c o → os_upd F o o' → later c o'.
Proof. intros [] (?&?&?&?). split; [congruence|by etrans]. Qed.

Lemma later_only c file o o' : later c o → os_only file o o' → later c o'.
Proof. intros [] []. split; [congruence|by etrans]. Qed.

Lemma later_injected c o : later c o → injected o → injected o0.
Proof. intros [] ?. by eapply injected_suffix. Qed.

Lemma published_rename F :
  staged (os_fs o0) tmp (lf_ino f) F → fs_inodes F !! lf_ino f = Some (lf_content f) →
  fs_synced F !! lf_ino f = Some (lf_content f) →
  published (set_dir (Rename tmp (lf_name f)) (<[lf_name f := lf_ino f]> (delete tmp (fs_dir F))) F).
Proof.
  intros Hsg Hc Hsy. pose proof (staged_tmp (os_fs o0) tmp _ _ Hsg) as Ht.
  apply sorted_snoc in Hs as [_ Hb].
  assert (lf_wf f) as Hf by (apply (file_wf L f); [done|set_solver]).
  assert (reached (os_fs o0) F [L] L) as [Hd Hp] by by eapply staged_reached.
  pose proof (disk_ok_rename F L Hd f tmp Htmp Hf Hb Ht Hc) as Hd'.
  split; [done|exact (staged_heap _ _ Hheap _ _ Hsg)|done| |].
  2: { exact (passes_trans _ _ _ [L] [L ++ [f]] Hp (passes_rename F f tmp L Hd Ht Hsy Hd')). }
  - intros name Hi Hn. simpl. rewrite lookup_insert_ne by (intros <-; by apply (lf_name_kept f)).
    apply lookup_delete_None. destruct (decide (tmp = name)) as [|Hne]; [by left|right].
    destruct Hsg as [_ Ho]. rewrite (of_dir _ _ _ Ho). simpl. by rewrite lookup_insert_ne.
Qed.

(** The trailer, the sync and the rename. *)
Lemma wp_publish c o (Q : () → os → Prop) E C :
  staged (os_fs o0) tmp (lf_ino f) (os_fs o) →
  fs_inodes (os_fs o) !! lf_ino f = Some (lf_data f) → later c o →
  (∀ o', published (os_fs o') → later c o' → Q () o') →
  (∀ e o', injected o0 → later c o' → staged (os_fs o0) tmp (lf_ino f) (os_fs o') → E e o') →
  (∀ o', injected o0 → halted (os_fs o') → C o') →
  wp (write_trailer (lf_ino f) (lf_end f) rels (lf_dict f);;
      sync_all_file (lf_ino f);;
      rename tmp (lf_name f)) Q E C o.
Proof.
  intros Hsg Hc Hl HQ HE HC.
  assert (lf_wf f) as Hf by (apply (file_wf L f); [done|set_solver]).
  set (ready := λ o', later c o' ∧ staged (os_fs o0) tmp (lf_ino f) (os_fs o')
    ∧ fs_inodes (os_fs o') !! lf_ino f = Some (lf_content f)).
  assert (∀ o' Q', ready o' →
    (∀ o'', ready o'' → fs_synced (os_fs o'') !! lf_ino f = Some (lf_content f) → Q' () o'') →
    wp (sync_all_file (lf_ino f)) Q' E C o') as Hsync.
  { intros o' Q' (Hl' & Hsg' & Hc') HQ'. apply wp_atomic; rewrite ?Hc'; simpl; [|done|..].
    - intros [] F o'' [= <-] Hu. apply HQ'; [split; [by eapply later_upd|]|]; rewrite (os_upd_fs _ _ _ Hu).
      + split; [by apply staged_synced|done].
      + simpl. by rewrite lookup_insert_eq.
    - intros e o'' Hi Hu. apply HE; [by eapply later_injected|by eapply later_upd|].
      by rewrite (os_upd_fs _ _ _ Hu).
    - intros o'' Hi Hu. apply HC; [by eapply later_injected|]. apply staged_halted.
      destruct Hu as [Hu|Hu]; rewrite (os_upd_fs _ _ _ Hu); [done|by apply staged_synced]. }
  unfold write_trailer. w_steps. apply wp_write_all_at.
  - intros o1 Ho1 Hcont. rewrite <- Hrels in Hcont.
    apply Hsync; [split; [by eapply later_only|]|].
    { split; [eapply staged_only; [done|apply Ho1]|]. by apply (Hcont (lf_data f)), wf_end. }
    intros o2 H2 _. w_steps. apply Hsync; [done|]. intros o3 (Hl3 & Hsg3 & Hc3) Hsy3.
    pose proof (published_rename _ Hsg3 Hc3 Hsy3) as Hpub.
    apply wp_atomic; rewrite ?(staged_tmp _ _ _ _ Hsg3); simpl; [|done|..].
    + intros [] F o4 [= <-] Hu. apply HQ; [by rewrite (os_upd_fs _ _ _ Hu)|by eapply later_upd].
    + intros e o4 Hi Hu. apply HE; [by eapply later_injected|by eapply later_upd|].
      by rewrite (os_upd_fs _ _ _ Hu).
    + intros o4 Hi Hu. apply HC; [by eapply later_injected|].
      destruct Hu as [Hu|Hu]; rewrite (os_upd_fs _ _ _ Hu); [by apply staged_halted|by apply published_halted].
  - intros e o1 Hi Ho1. apply HE; [by eapply later_injected|by eapply later_only|].
    eapply staged_only; [done|apply Ho1].
  - intros o1 Hi Ho1. apply HC; [by eapply later_injected|]. apply staged_halted.
    eapply staged_only; [done|apply Ho1].
Qed.

(** ** Undoing an installation *)

Context (claimed : Z → bool) (c : Z).

(** The state in which the entries of the file are in the tables and the file is not
    yet published. *)
Record installed_state (w : World) : Prop := {
  is_staged : staged (os_fs o0) tmp (lf_ino f) (os_fs (w_os w));
  is_content : fs_inodes (os_fs (w_os w)) !! lf_ino f = Some (lf_data f);
  is_later : later c (w_os w);
  is_table : table_ok (w_table w) (locs (L ++ [f]));
  is_fams : fams_ok (w_fm w) (L ++ [f]) (fam_installing L f (locs L) claimed (len (lf_entries f)));
}.

(** The older files are in the map as they were. *)
Definition older_kept (m : FileMap) : Prop :=
  ∀ g, g ∈ L → ∃ fam, fam_at m (lf_location g) = Some fam ∧ fam_ok (locs L) claimed g fam.

(** The state after an error. Either the file is there and everything is installed, or the
    file has left the map and the old locations are back: an object that had none keeps its
    new one. *)
Record undone (w : World) : Prop := {
  un_disk : halted (os_fs (w_os w));
  un_later : later c (w_os w);
  un_wf : fm_wf (w_fm w);
  un_older : older_kept (w_fm w);
  un_tables :
    (table_ok (w_table w) (locs (L ++ [f])) ∧
       ∃ fam, fam_at (w_fm w) (lf_location f) = Some fam ∧ fam_rewrite_claim fam = true) ∨
    (table_ok (w_table w) (locs L ∪ lf_abs f) ∧ fam_at (w_fm w) (lf_location f) = None);
}.

Lemma installing_kept m capacity :
  fams_ok m (L ++ [f]) (fam_installing L f (locs L) claimed capacity) → older_kept m.
Proof.
  intros Hm g Hg. destruct (fs_fam _ _ _ Hm g) as (fam & Hat & [[_ Hfam]|[-> _]]); [set_solver|by exists fam|].
  by destruct (new_not_old L f Hs Hwf).
Qed.

Lemma wp_delete_partial w (Q : () → World → Prop) E C :
  fams_ok (w_fm w) (L ++ [f]) (fam_installing L f (locs L) claimed (len (lf_entries f))) →
  table_ok (w_table w) (locs L ∪ lf_abs f) →
  later c (w_os w) → reached (os_fs o0) (os_fs (w_os w)) [L] L →
  (∀ w', undone w' → Q () w') →
  (∀ w', injected o0 → halted (os_fs (w_os w')) → C w') →
  wp (delete_partially_installed_fam (lf_location f) tmp) Q E C w.
Proof.
  intros Hm Ht Hl Hd HQ HC. unfold delete_partially_installed_fam, drop_arc, drop_fam.
  destruct (pending_fam L f Hs Hwf _ _ _ _ Hm) as (p & fam & Hk & Hp & Hfam).
  w_steps. rewrite Hk. eapply wp_unwrap; [done|]. w_steps. apply wp_update_fam. w_clean.
  w_steps. w_clean. eapply wp_deref; [by apply updated_arc|].
  w_steps. w_clean. apply wp_update_fam. rewrite updated_compose. w_clean. w_steps.
  apply wp_assert; [apply bool_decide_eq_true, Hfam|]. w_steps. w_clean.
  eapply wp_deref; [by apply updated_arc|]. w_steps. w_clean.
  cbn [fam_live_objects set_fam_live_objects set_fam_path fam_path compose Z.eqb].
  w_steps. eapply wp_unwrap; [done|]. w_steps.
  destruct (removed_fam_at (w_fm w) (lf_location f) p) as [Hwf' Hat']; [apply Hm|done|].
  assert (∀ o', later c o' → reached (os_fs o0) (os_fs o') [L] L →
    ∀ m', fams m' = cm_remove (fams (w_fm w)) (lf_location f) → arcs m' = delete p (arcs (w_fm w)) →
      next_arc m' = next_arc (w_fm w) → undone (set_os o' (set_file_map m' w))) as Hun.
  { intros o' Hl' Hd' m' Ef Ea En.
    assert (∀ k, fam_at m' k = if decide (k = lf_location f) then None else fam_at (w_fm w) k) as Hat2.
    { intros k. rewrite <- Hat'. by apply fam_at_ext. }
    assert (w_fm (set_os o' (set_file_map m' w)) = m') as Em by done.
    split; rewrite ?Em; [by left|done|by eapply fm_wf_ext; [..|exact Hwf']|..].
    - intros g Hg. rewrite Hat2, decide_False by by apply (older_location L f Hs Hwf).
      by apply (installing_kept _ _ Hm).
    - right. split; [done|]. by rewrite Hat2, decide_True. }
  assert (∀ o', os_upd (os_fs (w_os w)) (w_os w) o' ∨ os_upd (fs_unlink tmp (os_fs (w_os w))) (w_os w) o' →
    later c o' ∧ reached (os_fs o0) (os_fs o') [L] L) as Hrm.
  { intros o' [Hu|Hu]; (split; [by eapply later_upd|]); rewrite (os_upd_fs _ _ _ Hu); [done|].
    by apply reached_unlink. }
  set (m1 := set_arcs _ (updated _ _ _)).
  assert (arcs m1 = delete p (arcs (w_fm w))) as Ea.
  { simpl. apply map_eq. intros q. rewrite !lookup_delete. case_decide; [done|].
    by rewrite lookup_alter_ne. }
  assert (fams m1 = cm_remove (fams (w_fm w)) (lf_location f)) as Ef by done.
  assert (next_arc m1 = next_arc (w_fm w)) as En by done. clearbody m1.
  change (w_os (set_file_map m1 w)) with (w_os w).
  apply wp_remove_file; [intros o' Hu|intros e o' _ Hu|intros o' Hi Hu]; w_steps.
  - apply HQ, Hun; try done; apply Hrm; by right.
  - apply HQ, Hun; try done; apply Hrm; by left.
  - apply HC; [by eapply later_injected|]. left. by apply Hrm.
Qed.

(** The loop that takes the installed locations back restores those that were there. *)
Lemma wp_undo w E C :
  table_ok (w_table w) (locs (L ++ [f])) →
  wp (forM (replaced_by (locs L) (lf_entries f)) (undo_install (lf_rels f) (lf_location f)))
    (λ _ w', w' = set_location_table (w_table w') w ∧ table_ok (w_table w') (locs L ∪ lf_abs f)) E C w.
Proof.
  intros Ht. assert (lf_wf f) as Hf by (apply (file_wf L f); [done|set_solver]).
  set (items := replaced_by _ _). rewrite locs_snoc in Ht.
  assert (∀ oid, oid ∈ items.*1 ↔ is_Some (lf_abs f !! oid) ∧ is_Some (locs L !! oid)) as Hkey.
  { intros oid. rewrite list_elem_of_fmap, <- (entry_keys f). split.
    - intros ([i l] & -> & [? ?]%replaced_elem). split; [done|eauto].
    - intros [? [l ?]]. exists (oid, l). split; [done|]. by apply replaced_elem. }
  eapply wp_mono; [apply (wp_forM _ (λ dn w', w' = set_location_table (w_table w') w ∧
    ∀ oid, pt_read (w_table w') oid
      = default 0 (if decide (oid ∈ dn.*1) then locs L !! oid else (lf_abs f ∪ locs L) !! oid)) E C)|..];
    [..|done|done].
  - split; [by destruct w as [? []]|]. intros oid. rewrite decide_False by apply not_elem_of_nil. apply Ht.
  - intros dn [oid loc] rest w' E' [Ew Hread].
    assert ((oid, loc) ∈ items) as [Hin Hloc]%replaced_elem by (rewrite E'; set_solver).
    apply (entry_keys f) in Hin as [loc' Habs]. pose proof Habs as Habs'.
    rewrite lf_abs_lookup in Habs'. apply fmap_Some in Habs' as (rel & Hr & ->).
    assert (oid ∉ dn.*1) as Hn.
    { pose proof (replaced_nodup (locs L) (lf_entries f) (wf_nodup f Hf)) as Hnd. fold items in Hnd.
      rewrite E', fmap_app, fmap_cons in Hnd. apply NoDup_app in Hnd as (_ & Hd & _).
      intros Hx. apply (Hd oid Hx). by left. }
    destruct (lf_rels_form f oid rel Hf Hr) as (off & d & Erel & ? & _). pose proof (lf_lsn_range f Hf).
    assert (0 < rel + lf_location f) as Hpos by (unfold lf_location; destruct d; simpl in Erel; lia).
    unfold undo_install. w_steps. eapply wp_unwrap; [done|]. w_steps.
    unfold lf_location at 1. rewrite lsn_fam. eapply wp_unwrap; [by eapply lf_to_absolute|]. w_steps.
    eapply wp_table; [apply cas_hit; [done|]; apply load_Some; split; [|lia]|].
    { rewrite Hread, decide_False by done. by rewrite (lookup_union_Some_l _ _ _ _ Habs). }
    w_steps. split; [rewrite Ew; by destruct w as [? []]|]. intros i.
    change (pt_read (pt_write (w_table w') oid loc) i
      = default 0 (if decide (i ∈ (dn ++ [(oid, loc)]).*1) then locs L !! i else (lf_abs f ∪ locs L) !! i)).
    rewrite pt_read_write. case_decide as Ei.
    + subst i. rewrite decide_True by (rewrite fmap_app; set_solver). by rewrite Hloc.
    + rewrite Hread. f_equal. apply decide_ext. rewrite fmap_app. set_solver.
  - intros [] w' [Ew Hread]. split; [done|]. intros oid. rewrite Hread. f_equal.
    case_decide as Hd.
    + apply Hkey in Hd as [_ [loc Hloc]]. by rewrite Hloc, (lookup_union_Some_l _ _ _ _ Hloc).
    + destruct (locs L !! oid) as [loc|] eqn:Hl.
      * rewrite (lookup_union_Some_l _ _ _ _ Hl). rewrite lookup_union_r; [done|].
        apply eq_None_not_Some. intros Ha. apply Hd, Hkey. by split.
      * by rewrite (lookup_union_l _ _ _ Hl), (lookup_union_r _ _ _ Hl).
Qed.

Context (config : Config) (objects : gmap Z (option bytes)) (st : WriteState).
Context (Hkeys : lf_rels f = rels).
Context (Hmd : lf_md f = {|
  lsn := lf_lsn f; trailer_offset := written_bytes st;
  present_objects := Z.of_nat (size objects); generation := generation (lf_md f);
  file_size := wrap64 (written_bytes st + 4 + 8 + 8 + 16 * Z.of_nat (size rels)
                       + len (default [] (lf_dict f))) |}).

(** The state after the whole batch, with the claim on the new file still held. *)
Record finished (w : World) : Prop := {
  fi_published : published (os_fs (w_os w));
  fi_later : later c (w_os w);
  fi_table : table_ok (w_table w) (locs (L ++ [f]));
  fi_fams : fams_ok (w_fm w) (L ++ [f]) (fam_ok (locs (L ++ [f])) (and_new f claimed));
}.

Definition stopped (w : World) : Prop := halted (os_fs (w_os w)).

(** After the rename: the length of the file is checked and the entries are accounted. *)
Lemma wp_published_rest w :
  published (os_fs (w_os w)) → later c (w_os w) → table_ok (w_table w) (locs (L ++ [f])) →
  fams_ok (w_fm w) (L ++ [f]) (fam_installing L f (locs L) claimed (len (lf_entries f))) →
  wp (file_len ← io (file_metadata_len (lf_ino f));
      assert_that (file_len =? file_size (lf_md f));;
      fm (decrement_evacuated_fams (lf_location f) (replaced_by (locs L) (lf_entries f)));;
      fm (finalize_fam (lf_location f) (lf_md f) 0 (lf_name f)))
    (λ _ w', finished w' ∧ next_file_lsn (w_fm w') = next_file_lsn (w_fm w)
             ∧ max_object_id (w_marble w') = max_object_id (w_marble w))
    (λ _ w', injected o0 ∧ undone w') (λ w', injected o0 ∧ stopped w') w.
Proof.
  intros Hpub Hl Ht Hm. assert (lf_wf f) as Hf by (apply (file_wf L f); [done|set_solver]).
  destruct (pending_fam L f Hs Hwf _ _ _ _ Hm) as (p & fam & Hk & Hp & Hfam).
  w_steps. apply wp_atomic; rewrite ?(pb_content _ Hpub); simpl; [|done|..].
  - intros ? ? o1 [= <- <-] Hu. w_steps.
    apply wp_assert; [by apply Z.eqb_eq; rewrite (wf_size f Hf)|]. w_steps.
    eapply wp_mono; [eapply (wp_decrements L f Hs Hwf _ _ _ _ (λ _ _, False) (λ _, False)); try done|..]; try done.
    + by apply replaced_nodup, Hf.
    + by intros oid loc [_ ?]%replaced_elem.
    + simpl. intros [] m1 [Hm1 En1]. w_steps. w_clean.
      eapply wp_mono; [eapply (wp_finalize L f Hs Hwf _ _ _ (λ _ _, False) (λ _, False)); [|exact Hm1]|..]; try done.
      * intros g Hg. by apply live_old.
      * simpl. intros [] m2 [Hm2 En2]. rewrite w_fm_set, En2, En1. split; [|done].
        split; try done; simpl; [by rewrite (os_upd_fs _ _ _ Hu)|by eapply later_upd].
  - intros e o1 Hi Hu. split; [by eapply later_injected|]. split.
    + apply published_halted. simpl. by rewrite (os_upd_fs _ _ _ Hu).
    + by eapply later_upd.
    + apply Hm.
    + apply (installing_kept _ _ Hm).
    + left. split; [done|]. exists fam. split; [|apply Hfam]. apply fam_at_Some. eauto.
  - intros o1 Hi Hu. split; [by eapply later_injected|]. apply published_halted. simpl.
    destruct Hu as [Hu|Hu]; by rewrite (os_upd_fs _ _ _ Hu).
Qed.

Lemma wp_write_trailer_and_rename installed w :
  installed_state w →
  replaced_locations installed = replaced_by (locs L) (lf_entries f) →
  subtract_from_len installed = 0 →
  wp (write_trailer_and_rename config objects (generation (lf_md f)) tmp (lf_ino f) st (lf_dict f)
        (lf_location f) rels installed)
    (λ _ w', finished w' ∧ next_file_lsn (w_fm w') = next_file_lsn (w_fm w)
             ∧ max_object_id (w_marble w') = max_object_id (w_marble w))
    (λ _ w', injected o0 ∧ undone w') (λ w', injected o0 ∧ stopped w') w.
Proof.
  intros [Hsg Hc Hl Ht Hm] Hrep Hsub. unfold write_trailer_and_rename.
  assert (lf_wf f) as Hf by (apply (file_wf L f); [done|set_solver]).
  assert (DiskLocation.lsn (lf_location f) = lf_lsn f) as El by (unfold lf_location; apply lsn_fam).
  rewrite El, <- Hmd. assert (written_bytes st = lf_end f) as Ew by (unfold lf_end; by rewrite Hmd).
  assert (wrap64 (written_bytes st + 4 + 8 + 8 + 16 * Z.of_nat (size rels)
            + len (default [] (lf_dict f))) = file_size (lf_md f)) as Esz by by rewrite Hmd.
  rewrite Esz, Ew. apply wp_bind, wp_try, wp_io. eapply wp_publish; [done..| | |].
  - intros o1 Hpub Hl1. cbv beta match. rewrite Hrep, Hsub.
    apply (wp_published_rest (set_os o1 w)); try done.
  - intros e o1 Hi Hl1 Hsg1.
    assert (reached (os_fs o0) (os_fs o1) [L] L) as Hd1 by by eapply staged_reached. rewrite Hrep, <- Hkeys.
    w_steps. eapply wp_mono; [by apply (wp_undo _ (λ _ _, False) (λ _, False))| |done..].
    intros [] w2 [Ew2 Ht2]. w_steps. rewrite Ew2. by apply wp_delete_partial.
  - intros o1 Hi Hd. by split.
Qed.

Lemma wp_install_and_finish old dict w :
  staged (os_fs o0) tmp (lf_ino f) (os_fs (w_os w)) →
  fs_inodes (os_fs (w_os w)) !! lf_ino f = Some (lf_data f) → later c (w_os w) →
  table_ok (w_table w) (locs L) →
  fams_ok (w_fm w) (L ++ [f]) (fam_installing L f (locs L) claimed (len (lf_entries f))) →
  new_relative_locations st = rels → rels ≠ ∅ → dict = lf_dict f →
  (∀ e, e ∈ lf_entries f → installable (locs L) old (lf_location f) e) →
  wp (install_and_finish config objects (generation (lf_md f)) old tmp (lf_ino f) st dict
        (lf_location f))
    (λ _ w', finished w' ∧ next_file_lsn (w_fm w') = next_file_lsn (w_fm w)
             ∧ max_object_id (w_marble w') = max_object_id (w_marble w))
    (λ _ w', injected o0 ∧ undone w') (λ w', injected o0 ∧ stopped w') w.
Proof.
  intros Hsg Hc Hl Ht Hm Enew Hne -> Hinst. unfold install_and_finish. rewrite Enew.
  assert (lf_wf f) as Hf by (apply (file_wf L f); [done|set_solver]).
  w_steps. rewrite <- Hrels. eapply wp_mono; [eapply (wp_install_objects (locs L) _ _ _ _ (λ _ _, False) (λ _, False)); try done|..]; try done.
  - intros i loc Hloc. apply locs_range in Hloc; [lia|]. by apply Forall_app in Hwf as [].
  - apply Hf.
  - intros [oid rel] Hin. split; [by apply Hinst|]. apply lf_to_absolute with oid; [done|].
    by apply lf_rels_elem.
  - intros acc w' [Ew Ht' Hrep Hfail Hsub]. rewrite Hfail. cbn [foldM]. w_steps.
    rewrite bool_decide_eq_false_2 by (by intros ?%map_size_empty_inv).
    change (2 * lf_lsn f) with (lf_location f) in *. rewrite (moved_abs f), <- locs_snoc in Ht'.
    rewrite Ew. eapply wp_mono; [apply wp_write_trailer_and_rename; try done|..]; try done.
Qed.
End finish.

(** ** [write_batch_inner] *)

Section batch.
Context `{Deps, !DepsLaws}.
Context (config : Config) (w0 : World) (L : list LogFile) (claimed : Z → bool)
  (objects : gmap Z (option bytes)) (gen : Z) (old : gmap Z Z).

(** The old locations are none for a new write, and those of the table for a rewrite. *)
Definition batch_mode : Prop :=
  gen = 0 ∧ old = ∅ ∨
  gen ≠ 0 ∧ old ≠ ∅ ∧
  ∀ oid, is_Some (objects !! oid) → ∃ loc, old !! oid = Some loc ∧ locs L !! oid = Some loc.

(** What the callers guarantee: there is something to write, object ids are [u64]s, the
    sequence numbers and the counter of temporary names do not run out. *)
Record batch_pre : Prop := {
  bp_inv : Inv w0 L claimed;
  bp_objects : objects ≠ ∅;
  bp_oids oid : is_Some (objects !! oid) → is_u64 oid ∧ oid ≤ max_object_id (w_marble w0);
  bp_gen : 0 ≤ gen < 256;
  bp_room : next_file_lsn (w_fm w0) + batch_room (iter_order objects) + 1 < 2 ^ 62;
  bp_tmp : os_tmp_counter (w_os w0) + 1 < two64;
  bp_mode : batch_mode;
  bp_claims k : (∀ g, g ∈ L → k ≠ lf_location g) → claimed k = false;
}.

(** [w'] is [w0] with one more file, [f]. *)
Record added (f : LogFile) (w' : World) : Prop := {
  ad_inv : Inv w' (L ++ [f]) claimed;
  ad_vals : lf_vals f = objects;
  ad_gen : generation (lf_md f) = gen;
  ad_full : present_objects (lf_md f) = Z.of_nat (size (lf_vals f));
  ad_next : next_file_lsn (w_fm w') ≤ next_file_lsn (w_fm w0) + batch_room (iter_order objects) + 1;
  ad_tmp : os_tmp_counter (w_os w') = os_tmp_counter (w_os w0) + 1;
  ad_max : max_object_id (w_marble w') = max_object_id (w_marble w0);
  ad_faults : os_faults (w_os w') `suffix_of` os_faults (w_os w0);
  ad_passes : passes (os_fs (w_os w0)) (os_fs (w_os w')) [L; L ++ [f]];
}.

(** The disk at any point where the batch may stop. *)
Definition before_or_after (F : fs) : Prop :=
  reached (os_fs (w_os w0)) F [L] L ∨
  ∃ f, lf_vals f = objects ∧ reached (os_fs (w_os w0)) F [L; L ++ [f]] (L ++ [f]).

(** The tables after a failure: the older files are in the map as they were, and one of three
    things holds of the new locations. The batch has failed before it had any; or it has
    failed after the rename, and everything stays installed; or the installation has been
    undone and the file has left the map: every object that was there has its old location
    back, and an object that is new keeps a location in the file that is gone. *)
Definition left_behind (f : LogFile) (w' : World) : Prop :=
  (table_ok (w_table w') (locs (L ++ [f])) ∧ is_Some (fam_at (w_fm w') (lf_location f))) ∨
  (table_ok (w_table w') (locs L ∪ lf_abs f) ∧ fam_at (w_fm w') (lf_location f) = None).

Definition tables_after_failure (w' : World) : Prop :=
  older_kept L claimed (w_fm w') ∧
  (table_ok (w_table w') (locs L) ∨
   ∃ f, lf_vals f = objects ∧ sorted (L ++ [f]) ∧ Forall lf_wf (L ++ [f]) ∧ left_behind f w').

Definition is_new : bool := gen =? NEW_WRITE_GENERATION.
Definition tmp0 : string := tmp_file_name (os_tmp_counter (w_os w0)).
Definition os0 : os :=
  MkOs (os_fs (w_os w0)) (os_faults (w_os w0)) (os_tmp_counter (w_os w0) + 1) (os_thread (w_os w0)).

Context (Hpre : batch_pre).

Lemma tables_untouched o : tables_after_failure (set_os o w0).
Proof.
  destruct Hpre as [Hi _ _ _ _ _ _ _]. split; [|left; apply (inv_mem _ _ _ Hi)].
  intros g Hg. apply (fs_fam _ _ _ (inv_fams _ _ _ Hi) g Hg).
Qed.

Lemma tmp0_free : fs_dir (os_fs (w_os w0)) !! tmp0 = None.
Proof.
  destruct Hpre as [Hi _ _ _ _ _ _ _]. apply (mo_tmp _ _ _ (inv_mem _ _ _ Hi)). lia.
Qed.

Section installed.
Context (st : WriteState) (dict : option bytes) (z : ZstdDict) (objs : list (Z * bytes)) (o1 : os)
  (file : File) (Hdata : data_written objects tmp0 os0 file st dict z objs o1).

Let f := new_file (next_file_lsn (w_fm w0)) (negb is_new) file objs
           (new_relative_locations st) dict objects gen.

Lemma batch_file_base : lf_base f = next_file_lsn (w_fm w0).
Proof.
  destruct Hpre as [Hi _ _ _ Hr _ _ _].
  apply new_file_base with (1 := proj1 (fs_next _ _ _ (inv_fams _ _ _ Hi))); try exact Hr; apply Hdata.
Qed.

Lemma batch_file_sorted : sorted (L ++ [f]) ∧ Forall lf_wf (L ++ [f]).
Proof.
  destruct Hpre as [Hi _ Hu Hg Hr _ _ _]. destruct Hdata.
  pose proof (inv_fams _ _ _ Hi) as Hm.
  eapply new_file_sorted; try done.
  - apply (fs_next _ _ _ Hm).
  - intros oid Ho. by apply Hu.
  - by eapply inv_sorted.
  - by eapply inv_wf.
Qed.

Lemma batch_location_fresh : fam_at (w_fm w0) (lf_location f) = None.
Proof.
  destruct batch_file_sorted as [Hs Hwf]. destruct Hpre as [Hi _ _ _ _ _ _ _].
  destruct (fam_at (w_fm w0) (lf_location f)) as [fam|] eqn:E; [exfalso|done].
  destruct (fs_key _ _ _ (inv_fams _ _ _ Hi) _ _ E) as (g & Hg & El).
  apply (new_not_old L f Hs Hwf). apply (lf_location_inj (L ++ [f])) in El; try done; set_solver.
Qed.

(** The file map after [insert]. *)
Lemma batch_inserted m' sync :
  fm_wf m' → next_file_lsn m' = next_file_lsn (w_fm w0) + written_bytes st + 1 →
  (∀ j, fam_at m' j = if decide (j = lf_location f) then
     Some (MkFam file (lf_location f) None None (Z.of_nat (size (new_relative_locations st)))
             gen true sync z)
   else fam_at (w_fm w0) j) →
  fams_ok m' (L ++ [f]) (fam_installing L f (locs L) claimed (len (lf_entries f))).
Proof.
  intros Hwf' Hnext Hat. destruct batch_file_sorted as [Hs Hwf].
  destruct Hpre as [Hi _ _ _ _ _ _ _]. pose proof (inv_fams _ _ _ Hi) as Hm.
  assert (∀ g, g ∈ L → lf_location g ≠ lf_location f) as Hne.
  { intros g Hg E. apply (new_not_old L f Hs Hwf).
    apply (lf_location_inj (L ++ [f])) in E as <-; try done; set_solver. }
  split; [done|..].
  - intros g [Hg| ->%list_elem_of_singleton]%elem_of_app.
    + destruct (fs_fam _ _ _ Hm g Hg) as (fam & Hg' & ?). exists fam.
      rewrite Hat, decide_False by auto. split; [done|]. by left.
    + eexists. rewrite Hat, decide_True by done. split; [done|]. right. split; [done|].
      split; simpl; try done; [by rewrite iter_order_length|apply Hdata].
  - intros k fam. rewrite Hat. case_decide; [intros _; exists f; set_solver|].
    intros Hk. destruct (fs_key _ _ _ Hm k fam Hk) as (g & ? & ?). exists g. set_solver.
  - rewrite Hnext. destruct (fs_next _ _ _ Hm) as [Hpos Hall]. rewrite (dw_len _ _ _ _ _ _ _ _ _ Hdata).
    split; [lia|]. intros g [Hg| ->%list_elem_of_singleton]%elem_of_app.
    + specialize (Hall g Hg). lia.
    + rewrite batch_file_base. unfold lf_end. simpl. lia.
Qed.

Lemma batch_installable e : e ∈ lf_entries f → installable (locs L) old (lf_location f) e.
Proof.
  intros Hin. destruct Hpre as [Hi _ Hu Hg Hr _ Hmode _]. destruct Hdata.
  destruct (fs_next _ _ _ (inv_fams _ _ _ Hi)) as [Hpos Hnext].
  eapply (new_file_installable L (next_file_lsn (w_fm w0)) (negb is_new)); try done.
  - intros oid Ho. by apply Hu.
  - by eapply inv_wf.
  - unfold is_new. change NEW_WRITE_GENERATION with 0.
    destruct Hmode as [[-> ->]|(Hne & _ & Hold)]; [by left|right].
    split; [|done]. by destruct (Z.eqb_spec gen 0).
Qed.

(** The store once the claim is released. *)
Lemma batch_added w m' :
  finished os0 L f claimed (os_tmp_counter (w_os w0) + 1) w →
  max_object_id (w_marble w) = max_object_id (w_marble w0) →
  next_file_lsn m' = next_file_lsn (w_fm w0) + written_bytes st + 1 →
  fams_ok m' (L ++ [f]) (fam_ok (locs (L ++ [f])) claimed) →
  added f (set_file_map m' w).
Proof.
  intros [Hpub Hl Ht _] Hmax Hnext Hm. destruct batch_file_sorted as [_ Hwf].
  destruct Hpre as [Hi _ Hu Hg Hr Htmp Hmode _].
  pose proof (inv_mem _ _ _ Hi) as Hmem. pose proof (batch_room_length (iter_order objects)).
  pose proof (dw_room _ _ _ _ _ _ _ _ _ Hdata). pose proof (dw_len _ _ _ _ _ _ _ _ _ Hdata).
  split; simpl; try done; [| |apply Hl|apply Hl|apply Hpub].
  - split; simpl; [apply Hpub|]. split; simpl; rewrite ?Hmax; try done.
    + apply Hpub.
    + intros oid. rewrite locs_snoc, lookup_union_is_Some. intros [Ha|Ha].
      * apply Hu. rewrite lf_abs_dom in Ha; [done|]. apply (file_wf L f Hwf). set_solver.
      * by apply (mo_max _ _ _ Hmem).
    + apply Hmem.
    + destruct (mo_tmp _ _ _ Hmem) as [Hpos Hfree]. destruct Hl as [Ec _].
      split; simpl; rewrite Ec; [lia|]. intros n Hn.
      apply (pb_names _ _ _ _ Hpub); [apply ignored_tmp|]. apply Hfree. lia.
  - rewrite w_fm_set, Hnext. lia.
Qed.

Lemma stopped_disk F : halted os0 L f F → before_or_after F.
Proof. intros [?|?]; [by left|right]. by exists f. Qed.

(** Releasing the claim after an error. *)
Lemma wp_release_undone w E C :
  undone os0 L f claimed (os_tmp_counter (w_os w0) + 1) w →
  wp (fm (drop_claims [lf_location f])) (λ _ w', w_os w' = w_os w ∧ tables_after_failure w') E C w.
Proof.
  intros [_ _ Hwf' Hold Htab]. destruct batch_file_sorted as [Hs Hwf]. apply wp_fm.
  assert (∀ m', older_kept L claimed m' → left_behind f (set_file_map m' w) →
    tables_after_failure (set_file_map m' w)) as Hafter.
  { intros m' Hm' Hl. split; [done|]. right. by exists f. }
  destruct Htab as [[Ht (fam & Hat & Hc)]|[Ht Hn]].
  - eapply wp_drop_claim; [done..|]. intros m' _ _ _ Hat'. split; [done|]. apply Hafter.
    + intros g Hg. rewrite Hat', decide_False by by apply (older_location L f Hs Hwf). by apply Hold.
    + left. split; [done|]. rewrite w_fm_set, Hat', decide_True by done. eauto.
  - eapply wp_drop_claim_gone; [done..|]. split; [done|]. apply Hafter; [done|]. by right.
Qed.

(** The system between step 1 and the installation. *)
Record here (o : os) : Prop := {
  he_later : later os0 (os_tmp_counter (w_os w0) + 1) o;
  he_staged : staged (os_fs (w_os w0)) tmp0 file (os_fs o);
  he_content : fs_inodes (os_fs o) !! file = Some (encode_objects objs);
}.

Lemma here_written : here o1.
Proof. destruct Hdata. split; [by split|by split|done]. Qed.

Lemma here_stopped o : here o → before_or_after (os_fs o).
Proof.
  intros [_ Hsg _]. left. destruct Hpre as [Hi _ _ _ _ _ _ _].
  eapply (staged_reached (os_fs (w_os w0))); [apply Hi|apply ignored_tmp|apply tmp0_free| |done].
  apply (mo_heap _ _ _ (inv_mem _ _ _ Hi)).
Qed.

Lemma here_injected o : here o → injected o → injected (w_os w0).
Proof. intros [[_ Hsuf] _ _] Hi. exact (injected_suffix os0 o Hsuf Hi). Qed.

Lemma here_upd F o o' :
  here o → os_upd F o o' →
  (F = os_fs o ∨ ∃ c, F = set_synced (<[file := c]> (fs_synced (os_fs o))) (os_fs o)) → here o'.
Proof.
  intros [Hl Hsg Hc] Hu HF. split; [by eapply later_upd|..]; rewrite (os_upd_fs _ _ _ Hu);
    destruct HF as [->|[x ->]]; try done. by apply staged_synced.
Qed.

Lemma wp_clone_and_sync {A} o w (k : File → M World A) Q E C :
  here o → (∀ o', here o' → wp (k file) Q E C (set_os o' w)) →
  (∀ e o', here o' → injected (w_os w0) → E e (set_os o' w)) →
  (∀ o', here o' → injected (w_os w0) → C (set_os o' w)) →
  wp (file_2 ← io (try_clone file);
      when (fsync_each_batch config) (io (sync_all_file file));; k file_2) Q E C (set_os o w).
Proof.
  intros Hh HQ HE HC. w_steps. apply wp_atomic; simpl; [|done|..].
  - intros ? ? o2 [= <- <-] Hu. assert (here o2) as H2 by (eapply here_upd; eauto).
    w_steps. apply wp_when; intros _; w_steps; [|by apply HQ].
    apply wp_atomic; simpl; rewrite ?(he_content _ H2); simpl; [|done|..].
    + intros ? ? o3 [= <- <-] Hu'. apply (HQ o3). eapply here_upd; eauto.
    + intros e o3 Hi Hu'. apply (HE e o3); [eapply here_upd; eauto|by eapply here_injected].
    + intros o3 Hi [Hu'|Hu']; (apply (HC o3); [eapply here_upd; eauto|by eapply here_injected]).
  - intros e o2 Hi Hu. apply (HE e o2); [eapply here_upd; eauto|by eapply here_injected].
  - intros o2 Hi [Hu|Hu]; (apply (HC o2); [eapply here_upd; eauto|by eapply here_injected]).
Qed.

Lemma batch_md : lf_md f = {|
  lsn := lf_lsn f; trailer_offset := written_bytes st;
  present_objects := Z.of_nat (size objects); generation := generation (lf_md f);
  file_size := wrap64 (written_bytes st + 4 + 8 + 8
    + 16 * Z.of_nat (size (new_relative_locations st)) + len (default [] (lf_dict f))) |}.
Proof.
  destruct Hpre as [Hi _ _ _ Hr _ _ _]. destruct Hdata as [_ _ _ _ _ _ El _ Es Er _ [_ Hd] _].
  destruct (fs_next _ _ _ (inv_fams _ _ _ Hi)) as [Hpos _].
  simpl. pose proof (batch_room_length (iter_order objects)).
  rewrite El, wrap64_small; [done|]. u64_lia.
Qed.

(** Steps 3 to 6, and the release of the claim. *)
Lemma wp_install_and_release o m' sync :
  here o → fm_wf m' → next_file_lsn m' = next_file_lsn (w_fm w0) + written_bytes st + 1 →
  (∀ j, fam_at m' j = if decide (j = lf_location f) then
     Some (MkFam file (lf_location f) None None (Z.of_nat (size (new_relative_locations st)))
             gen true sync z)
   else fam_at (w_fm w0) j) →
  ∀ w, w_os w = o → w_table w = w_table w0 → w_fm w = m' →
  max_object_id (w_marble w) = max_object_id (w_marble w0) →
  wp (finally (install_and_finish config objects gen old tmp0 file st dict (lf_location f))
        (fm (drop_claims [lf_location f])))
    (λ _ w', ∃ f, added f w')
    (λ _ w', injected (w_os w0) ∧ before_or_after (os_fs (w_os w')) ∧ tables_after_failure w')
    (λ w', injected (w_os w0) ∧ before_or_after (os_fs (w_os w'))) w.
Proof.
  intros [Hl Hsg Hc] Hwf' Hnext Hat w <- Etab Efm Emax.
  destruct batch_file_sorted as [Hs Hwf]. pose proof Hpre as [Hi Hne Hu Hg Hr _ _ Hclaims].
  pose proof (batch_inserted m' _ Hwf' Hnext Hat) as Hm'.
  apply wp_finally.
  eapply wp_mono; [eapply (wp_install_and_finish os0 L f tmp0 (new_relative_locations st) Hs Hwf)
    with (claimed := claimed) (c := os_tmp_counter (w_os w0) + 1)|..]; try done.
  - apply Hi.
  - apply ignored_tmp.
  - apply tmp0_free.
  - apply (mo_heap _ _ _ (inv_mem _ _ _ Hi)).
  - apply new_file_rels.
  - apply batch_md.
  - rewrite Etab. apply (inv_mem _ _ _ Hi).
  - by rewrite Efm.
  - intros E. apply Hne, map_size_empty_iff. rewrite <- (dw_size _ _ _ _ _ _ _ _ _ Hdata), E. done.
  - apply batch_installable.
  - intros [] w1 (Hfin & En & Em). apply wp_fm. eapply (wp_release (L ++ [f]) f); try done.
    + set_solver.
    + apply Hclaims. intros g Hg' E. apply (new_not_old L f Hs Hwf).
      apply (lf_location_inj (L ++ [f])) in E as ->; try done; set_solver.
    + apply Hfin.
    + intros m2 Hm2 En2. exists f. apply batch_added; [done|congruence| |done].
      by rewrite En2, En, Efm.
  - intros e w1 [Hinj Hun]. eapply wp_mono; [by apply (wp_release_undone _ (λ _ _, False) (λ _, False))|..];
      try done.
    intros [] w2 [-> Htab]. split; [done|]. split; [apply stopped_disk, Hun|done].
  - intros w1 [Hinj Hst]. split; [done|]. by apply stopped_disk.
Qed.

Lemma wp_sync_and_install :
  wp (sync_and_install config objects gen old (negb is_new) tmp0 file st dict z)
    (λ _ w', ∃ f, added f w')
    (λ _ w', injected (w_os w0) ∧ before_or_after (os_fs (w_os w')) ∧ tables_after_failure w')
    (λ w', injected (w_os w0) ∧ before_or_after (os_fs (w_os w')))
    (set_os o1 w0).
Proof.
  pose proof Hpre as [Hi _ _ _ Hr _ _ _]. pose proof (inv_fams _ _ _ Hi) as Hm.
  pose proof Hdata as Hd. destruct Hd. pose proof (batch_room_length (iter_order objects)).
  assert (next_file_lsn (w_fm w0) + written_bytes st + 1 < 2 ^ 62) as Hroom by lia.
  unfold sync_and_install. apply wp_clone_and_sync; [apply here_written| |..].
  2: { intros e o Hh ?. split_and!; [done|by apply here_stopped|by apply tables_untouched]. }
  2: { intros o Hh ?. split; [done|by apply here_stopped]. }
  intros o2 Hh2. rewrite bool_decide_eq_true_2 by done.
  apply wp_bind. eapply wp_unwrap; [done|]. apply wp_bind, wp_modify, wp_bind, wp_fm.
  eapply wp_insert; [apply Hm|apply (fs_next _ _ _ Hm)|lia|exact Hroom|apply batch_location_fresh|].
  intros m' Hwf' Hat' Hnext'. by eapply (wp_install_and_release o2 m').
Qed.
End installed.

Lemma wp_write_batch_inner :
  wp (write_batch_inner config objects gen old)
    (λ _ w', ∃ f, added f w')
    (λ e w', before_or_after (os_fs (w_os w')) ∧ tables_after_failure w' ∧
       (injected (w_os w0) ∨
        e = Unsupported ∧ ∃ oid v, objects !! oid = Some v ∧ oversize config v))
    (λ w', before_or_after (os_fs (w_os w')) ∧ injected (w_os w0)) w0.
Proof.
  pose proof Hpre as [Hi Hne Hu Hg Hr Htmp Hmode _]. unfold write_batch_inner.
  assert (∀ o', tmp_only tmp0 os0 o' → before_or_after (os_fs o')) as Hstop.
  { intros o' Ho'. left. apply (tmp_only_reached (os_fs (w_os w0)) L tmp0) with os0; try done;
      [apply Hi|apply ignored_tmp|apply tmp0_free|apply (mo_heap _ _ _ (inv_mem _ _ _ Hi))]. }
  w_steps. apply wp_assert; [by apply bool_decide_eq_true|]. w_steps.
  assert (∀ Q, Q (negb is_new) w0 →
    wp (if gen =? NEW_WRITE_GENERATION then
          assert_that (bool_decide (old = ∅));; mret false
        else assert_that (bool_decide (old ≠ ∅));; mret true) Q
      (λ e w', before_or_after (os_fs (w_os w')) ∧ tables_after_failure w' ∧
       (injected (w_os w0) ∨
        e = Unsupported ∧ ∃ oid v, objects !! oid = Some v ∧ oversize config v))
    (λ w', before_or_after (os_fs (w_os w')) ∧ injected (w_os w0)) w0) as Hgc.
  { intros Q HQ. unfold is_new in HQ.
    destruct Hmode as [[-> ->]|(? & ? & _)], (Z.eqb_spec gen NEW_WRITE_GENERATION); try done;
      w_steps; (apply wp_assert; [by apply bool_decide_eq_true|w_steps; done]). }
  apply Hgc. clear Hgc. w_steps. apply wp_tmp_counter_fetch_add.
  destruct (mo_tmp _ _ _ (inv_mem _ _ _ Hi)) as [Hpos _].
  rewrite wrap64_small by u64_lia. fold os0. fold tmp0. w_steps.
  eapply (wp_write_data_file config objects tmp0 (set_os os0 w0)).
  - apply tmp0_free.
  - apply (mo_heap _ _ _ (inv_mem _ _ _ Hi)).
  - intros oid Ho. by apply Hu.
  - destruct (fs_next _ _ _ (inv_fams _ _ _ Hi)). lia.
  - intros file st dict z objs o1 Hdata. w_steps.
    eapply wp_mono; [by eapply wp_sync_and_install|..]; simpl; [done|..]; intros; destruct_and?; auto.
  - intros e o' Ho' He. split_and!; [by apply Hstop|apply tables_untouched|done].
  - intros o' Ho' He. split; [by apply Hstop|done].
Qed.
End batch.

(** ** What a failed batch leaves in memory *)

Section failed.
Context `{Deps, !DepsLaws}.

Lemma table_ok_load t L f tbl oid :
  Forall lf_wf (L ++ [f]) → table_ok t tbl →
  (∀ i loc, tbl !! i = Some loc → locs L !! i = Some loc ∨ lf_abs f !! i = Some loc) →
  load t oid = tbl !! oid.
Proof.
  intros Hwf Ht Hsub. specialize (Ht oid). destruct (tbl !! oid) as [loc|] eqn:E; simpl in Ht; [|by apply load_None].
  apply load_Some. split; [done|]. destruct (Hsub _ _ E) as [Hl|Hf].
  - apply locs_range in Hl; [lia|]. by apply Forall_app in Hwf as [].
  - assert (lf_wf f) as Hff by (apply (file_wf L f Hwf); set_solver).
    apply (lf_abs_in_file f oid loc Hff) in Hf. unfold in_file in Hf. pose proof (lf_lsn_range f Hff).
    unfold lf_location in Hf. lia.
Qed.

(** C34. A batch that fails leaves the files that were there with the live objects they had, and
    the table in one of three states. Nothing has happened to it; or the failure came after
    the rename, and the file stays in the map with all its objects; or the trailer, the
    sync or the rename has failed, the file has left the map, and every object that was
    there has its old location back. In that case an object that is new to the store keeps
    its location in the file that is gone. *)
Theorem failed_batch_tables config w L claimed objects gen old e w' :
  batch_pre w L claimed objects gen old → write_batch_inner config objects gen old w = (Err e, w') →
  (∀ g, g ∈ L → ∃ fam, fam_at (w_fm w') (lf_location g) = Some fam ∧ fam_ok (locs L) claimed g fam) ∧
  ((∀ oid, load (w_table w') oid = load (w_table w) oid) ∨
   ∃ f, lf_vals f = objects ∧ sorted (L ++ [f]) ∧ Forall lf_wf (L ++ [f]) ∧
     (∀ oid, is_Some (lf_abs f !! oid) ↔ is_Some (objects !! oid)) ∧
     (is_Some (fam_at (w_fm w') (lf_location f)) ∧
      (∀ oid, load (w_table w') oid
         = match lf_abs f !! oid with Some loc => Some loc | None => load (w_table w) oid end) ∨
      fam_at (w_fm w') (lf_location f) = None ∧
      (∀ oid, load (w_table w') oid
         = match load (w_table w) oid with Some loc => Some loc | None => lf_abs f !! oid end))).
Proof.
  intros Hpre Hrun. pose proof (bp_inv _ _ _ _ _ _ Hpre) as Hi.
  pose proof (wp_run _ _ _ _ _ _ _ (wp_write_batch_inner config w L claimed objects gen old Hpre) Hrun)
    as (_ & [Hold Htab] & _). split; [exact Hold|].
  assert (∀ oid, load (w_table w) oid = locs L !! oid) as Hload by by intros oid; eapply inv_load.
  destruct Htab as [Ht|(f & Hv & Hs & Hwf & Hleft)].
  - left. intros oid. rewrite Hload. specialize (Ht oid).
    destruct (locs L !! oid) as [loc|] eqn:E; simpl in Ht; [|by apply load_None].
    apply load_Some. split; [done|]. apply locs_range in E; [lia|by eapply inv_wf].
  - right. exists f. assert (lf_wf f) as Hff by (apply (file_wf L f Hwf); set_solver).
    split_and!; [done..|by intros oid; rewrite lf_abs_dom, Hv|].
    destruct Hleft as [[Ht Hat]|[Ht Hat]]; [left|right]; (split; [done|]); intros oid.
    + rewrite locs_snoc in Ht. rewrite Hload, (table_ok_load _ L f _ oid Hwf Ht).
      * destruct (lf_abs f !! oid) as [loc|] eqn:E; [by apply lookup_union_Some_l|by apply lookup_union_r].
      * intros i loc [?|[_ ?]]%lookup_union_Some_raw; auto.
    + rewrite Hload, (table_ok_load _ L f _ oid Hwf Ht).
      * destruct (locs L !! oid) as [loc|] eqn:E; [by apply lookup_union_Some_l|by apply lookup_union_r].
      * intros i loc [?|[_ ?]]%lookup_union_Some_raw; auto.
Qed.
End failed.
