(* ===== verification/ShardSpec.v ===== *)
(** ShardSpec: [shard_batch] and [write_batch]. Sharding partitions a batch; the pieces
    are written one after the other, each as one more file. *)
From S2P Require Import Prelude Effects Os Deps Locations LocationTable Config Metadata.
From S2P Require Import ZstdDict Storage State FileMap WritePath Recovery FileMapSpec Layout.
From S2P Require Import Invariant PowerLoss WriteSpec InstallSpec BatchSpec.

(** ** Sharding *)

Section sharding.
Context `{Deps, !DepsLaws}.
Implicit Types l : list (Z * option bytes).

(** The last value given to each object. *)
Definition batch_map l : gmap Z (option bytes) := foldl (λ m e, <[e.1 := e.2]> m) ∅ l.

Lemma batch_map_snoc l e : batch_map (l ++ [e]) = <[e.1 := e.2]> (batch_map l).
Proof. unfold batch_map. by rewrite foldl_app. Qed.

Lemma batch_map_elem l oid v : batch_map l !! oid = Some v → (oid, v) ∈ l.
Proof.
  induction l as [|[k x] l IH] using rev_ind; [done|]. rewrite batch_map_snoc, lookup_insert_Some.
  intros [[<- <-]|[_ ?]]; set_solver.
Qed.

Lemma batch_map_dom l oid : is_Some (batch_map l !! oid) ↔ oid ∈ l.*1.
Proof.
  induction l as [|[k x] l IH] using rev_ind; [|].
  { change (batch_map []) with (∅ : gmap Z (option bytes)). rewrite lookup_empty.
    split; [by intros []|set_solver]. }
  rewrite batch_map_snoc, lookup_insert_is_Some', fmap_app, elem_of_app, IH. simpl. set_solver.
Qed.

Lemma batch_map_room l : batch_room (iter_order (batch_map l)) ≤ batch_room l.
Proof.
  rewrite (batch_room_perm _ (map_to_list (batch_map l))) by apply iter_order_perm.
  induction l as [|[k x] l IH] using rev_ind; [by vm_compute|].
  rewrite batch_map_snoc, batch_room_app. simpl. pose proof (object_room_pos x).
  destruct (batch_map l !! k) as [y|] eqn:E.
  - rewrite (batch_room_perm (map_to_list (<[k := x]> (batch_map l)))
               ((k, x) :: map_to_list (delete k (batch_map l))))
      by (rewrite <- insert_delete_eq; apply map_to_list_insert, lookup_delete_eq).
    rewrite (batch_room_perm (map_to_list (batch_map l)) ((k, y) :: map_to_list (delete k (batch_map l)))) in IH
      by (symmetry; by apply map_to_list_delete).
    simpl in *. pose proof (object_room_pos y). lia.
  - rewrite (batch_room_perm _ ((k, x) :: map_to_list (batch_map l))) by by apply map_to_list_insert.
    simpl. lia.
Qed.

Lemma iter_order_singleton {A} (k : Z) (x : A) : iter_order {[ k := x ]} = [(k, x)].
Proof. apply Permutation_singleton_r. by rewrite iter_order_perm, map_to_list_singleton. Qed.

(** *** A new write goes into one file *)

Lemma shard_objects_snoc config gen old l e :
  shard_objects config gen old (l ++ [e]) = shard_step config gen old (shard_objects config gen old l) e.
Proof. unfold shard_objects. by rewrite foldl_app. Qed.

Lemma shard_new_shards config l :
  fragmented_shards (shard_objects config 0 ∅ l) = [] ∧
  (l = [] → shards (shard_objects config 0 ∅ l) = ∅) ∧
  (l ≠ [] → ∃ size, shards (shard_objects config 0 ∅ l) = {[ 0 := (size, batch_map l) ]}).
Proof.
  induction l as [|[oid v] l IH] using rev_ind; [done|]. rewrite shard_objects_snoc, batch_map_snoc.
  destruct IH as (Hf & Hnil & Hcons). unfold shard_step.
  assert (∃ size, default (0, ∅) (shards (shard_objects config 0 ∅ l) !! 0) = (size, batch_map l))
    as [size0 Hd].
  { destruct (decide (l = [])) as [->|Hne]; [exists 0; by rewrite Hnil|].
    destruct (Hcons Hne) as [size ->]. exists size. by rewrite lookup_singleton_eq. }
  assert (∀ x : Z * gmap Z (option bytes),
    <[0 := x]> (shards (shard_objects config 0 ∅ l)) = {[ 0 := x ]}) as Hins.
  { intros x. destruct (decide (l = [])) as [->|Hne]; [by rewrite Hnil|].
    destruct (Hcons Hne) as [size ->]. by rewrite insert_singleton_eq. }
  destruct v as [data|]; simpl; rewrite Hd; simpl;
    (split_and!; [done|by intros ?%app_nil; destruct_and?|intros _]); rewrite Hins; by eexists.
Qed.

Lemma sharding_iter_new config l :
  sharding_iter (shard_objects config 0 ∅ l) = if decide (l = []) then [] else [batch_map l].
Proof.
  destruct (shard_new_shards config l) as (Hf & Hnil & Hcons). unfold sharding_iter. rewrite Hf.
  case_decide as Hl.
  - rewrite Hnil by done. assert (iter_order (∅ : gmap Z (Z * gmap Z (option bytes))) = []) as ->; [|done].
    apply Permutation_nil_r. rewrite iter_order_perm. by rewrite map_to_list_empty.
  - destruct (Hcons Hl) as [size ->]. by rewrite iter_order_singleton.
Qed.

Lemma max_oid_spec config gen old l :
  0 ≤ max_oid (shard_objects config gen old l) ∧
  (∀ oid, oid ∈ l.*1 → oid ≤ max_oid (shard_objects config gen old l)) ∧
  (max_oid (shard_objects config gen old l) = 0 ∨ max_oid (shard_objects config gen old l) ∈ l.*1).
Proof.
  induction l as [|[oid v] l IH] using rev_ind; [split_and!; [done|set_solver|by left]|].
  assert (max_oid (shard_objects config gen old (l ++ [(oid, v)]))
          = Z.max (max_oid (shard_objects config gen old l)) oid) as ->.
  { rewrite shard_objects_snoc. unfold shard_step. by repeat case_match; simplify_eq/=. }
  destruct IH as (? & Hall & Hin). rewrite fmap_app. split_and!; [lia|..].
  - intros i [Hi|Hi]%elem_of_app; [specialize (Hall i Hi); lia|]. set_solver by lia.
  - destruct (Z.max_spec (max_oid (shard_objects config gen old l)) oid) as [[? ->]|[? ->]];
      set_solver.
Qed.

(** *** A rewrite is partitioned *)

(** What the shards hold. *)
Definition held (m : gmap Z (Z * gmap Z (option bytes))) : list (Z * option bytes) :=
  concat (map_to_list <$> ((λ e : Z * (Z * gmap Z (option bytes)), e.2.2) <$> map_to_list m)).

Lemma held_insert m id size objects :
  held (<[id := (size, objects)]> m) ≡ₚ map_to_list objects ++ held (delete id m).
Proof.
  unfold held. rewrite <- insert_delete_eq, map_to_list_insert by apply lookup_delete_eq. done.
Qed.

Lemma held_lookup m id :
  held m ≡ₚ map_to_list (default (0, ∅) (m !! id)).2 ++ held (delete id m).
Proof.
  destruct (m !! id) as [[size objects]|] eqn:E; simpl.
  - rewrite <- (insert_id m id (size, objects)) at 1 by done. apply held_insert.
  - by rewrite map_to_list_empty, delete_id.
Qed.

Definition pieces_of (s : Sharding) : list (Z * option bytes) :=
  held (shards s) ++ concat (map_to_list <$> (fragmented_shards s).*2).

Lemma sharding_iter_pieces s : concat (map_to_list <$> sharding_iter s) ≡ₚ pieces_of s.
Proof.
  unfold sharding_iter, pieces_of, held. rewrite fmap_app, concat_app. f_equiv.
  by rewrite iter_order_perm.
Qed.

Lemma default_shard (m : gmap Z (Z * gmap Z (option bytes))) (id : Z) :
  (∀ id size objects, m !! id = Some (size, objects) → objects ≠ ∅) →
  ∃ size objects, default (0, ∅) (m !! id) = (size, objects) ∧ (objects = ∅ → size = 0).
Proof.
  intros Hne. destruct (m !! id) as [[size objects]|] eqn:E; simpl.
  - exists size, objects. split; [done|]. intros ->. by apply Hne in E.
  - by exists 0, ∅.
Qed.

Record sharded (s : Sharding) l : Prop := {
  sh_pieces : pieces_of s ≡ₚ l;
  sh_shards id size objects : shards s !! id = Some (size, objects) → objects ≠ ∅;
  sh_fragments id objects : (id, objects) ∈ fragmented_shards s → objects ≠ ∅;
}.

Lemma insert_ne_empty (objects : gmap Z (option bytes)) oid v : <[oid := v]> objects ≠ ∅.
Proof. apply insert_non_empty. Qed.

Lemma shard_step_sharded config gen old s l oid v :
  0 ≤ target_file_size config → sharded s l → oid ∉ l.*1 →
  sharded (shard_step config gen old s (oid, v)) (l ++ [(oid, v)]).
Proof.
  intros Ht [Hp Hs Hf] Hn. unfold shard_step.
  destruct (match v with Some data => _ | None => _ end) as [[object_size shard] hl].
  destruct (default_shard (shards s) shard Hs) as (size & objects & Ed & Hsize). rewrite Ed.
  pose proof (held_lookup (shards s) shard) as Hheld. rewrite Ed in Hheld. simpl in Hheld.
  assert (objects !! oid = None) as Hnone.
  { apply eq_None_not_Some. intros [x Hx]. apply Hn. rewrite list_elem_of_fmap.
    exists (oid, x). split; [done|]. rewrite <- Hp. unfold pieces_of. rewrite Hheld.
    apply elem_of_app. left. apply elem_of_app. left. by apply elem_of_map_to_list. }
  assert (∀ size' : Z, match objects !! oid with
    | Some (Some replaced) => wrap64 (size' - len replaced) | _ => size' end = size') as Hrep
    by by rewrite Hnone.
  destruct ((NEW_WRITE_GENERATION <? gen) && (target_file_size config <? size)) eqn:Eb; simpl.
  - rewrite lookup_empty. assert (objects ≠ ∅) as Hne.
    { intros ->. rewrite Hsize in Eb by done. lia. }
    split; simpl.
    + unfold pieces_of. simpl. rewrite held_insert, map_to_list_insert, map_to_list_empty by done.
      rewrite <- Hp. unfold pieces_of. rewrite Hheld, fmap_app, fmap_app, concat_app. simpl.
      rewrite app_nil_r. solve_Permutation.
    + intros id sz o. rewrite lookup_insert_Some. intros [[<- [= _ <-]]|[_ ?]]; [|eauto].
      apply insert_ne_empty.
    + intros id o [?|[= _ ->]%list_elem_of_singleton]%elem_of_app; eauto.
  - rewrite Hrep. split; simpl; [|..|done].
    + unfold pieces_of. simpl. rewrite held_insert, map_to_list_insert by done.
      rewrite <- Hp. unfold pieces_of. rewrite Hheld. simpl. solve_Permutation.
    + intros id sz o. rewrite lookup_insert_Some. intros [[<- [= _ <-]]|[_ ?]]; [|eauto].
      apply insert_ne_empty.
Qed.

Lemma shard_objects_sharded config gen old l :
  0 ≤ target_file_size config → NoDup l.*1 → sharded (shard_objects config gen old l) l.
Proof.
  intros Ht. induction l as [|[oid v] l IH] using rev_ind.
  - intros _. split; simpl; [done|by intros ???; rewrite lookup_empty|].
    intros id o Hin. by apply not_elem_of_nil in Hin.
  - rewrite fmap_app, shard_objects_snoc. intros (Hl & Hn & _)%NoDup_app.
    apply shard_step_sharded; [done|auto|]. intros Hin. apply (Hn oid Hin). set_solver.
Qed.

Lemma sharding_iter_ne config gen old l m :
  0 ≤ target_file_size config → NoDup l.*1 →
  m ∈ sharding_iter (shard_objects config gen old l) → m ≠ ∅.
Proof.
  intros Ht Hn. destruct (shard_objects_sharded config gen old l Ht Hn) as [_ Hs Hf].
  unfold sharding_iter. rewrite elem_of_app, !list_elem_of_fmap.
  intros [([id [size o]] & -> & Hin%iter_order_elem)|([id o] & -> & Hin)]; simpl; eauto.
Qed.
End sharding.

(** ** Writing the pieces *)

Section lists.
Context `{Deps, !DepsLaws}.

Definition pieces_room (ps : list (gmap Z (option bytes))) : Z :=
  foldr (λ m acc, batch_room (iter_order m) + 1 + acc) 0 ps.

Definition piece_ids (ps : list (gmap Z (option bytes))) : list Z :=
  (concat (map_to_list <$> ps)).*1.

Lemma pieces_room_app a b : pieces_room (a ++ b) = pieces_room a + pieces_room b.
Proof. unfold pieces_room. induction a as [|x a IH]; simpl; [done|]. rewrite IH. lia. Qed.

Lemma pieces_room_pos a : 0 ≤ pieces_room a.
Proof.
  unfold pieces_room. induction a as [|x a IH]; simpl; [done|].
  pose proof (batch_room_length (iter_order x)). lia.
Qed.

Lemma piece_ids_app a b : piece_ids (a ++ b) = piece_ids a ++ piece_ids b.
Proof. unfold piece_ids. by rewrite fmap_app, concat_app, fmap_app. Qed.

Lemma piece_ids_elem a oid : oid ∈ piece_ids a ↔ ∃ m, m ∈ a ∧ is_Some (m !! oid).
Proof.
  unfold piece_ids. induction a as [|m a IH]; simpl.
  - split; [set_solver|]. intros (m & Hm & _). by apply not_elem_of_nil in Hm.
  - rewrite fmap_app, elem_of_app, IH, list_elem_of_fmap. split.
    + intros [([k v] & -> & Hin%elem_of_map_to_list)|(m' & ? & ?)]; [exists m|exists m'];
        (split; [set_solver|eauto]).
    + intros (m' & [->|Hin]%elem_of_cons & [v Hv]); [left|right; eauto].
      exists (oid, v). split; [done|]. by apply elem_of_map_to_list.
Qed.
End lists.

Section pieces.
Context `{Deps, !DepsLaws}.
Context (config : Config) (w0 : World) (L : list LogFile) (claimed : Z → bool) (gen : Z)
  (old : gmap Z Z) (ps : list (gmap Z (option bytes))).

Record pieces_pre : Prop := {
  pp_inv : Inv w0 L claimed;
  pp_ne m : m ∈ ps → m ≠ ∅;
  pp_oids oid : oid ∈ piece_ids ps → is_u64 oid ∧ oid ≤ max_object_id (w_marble w0);
  pp_nodup : NoDup (piece_ids ps);
  pp_gen : 0 ≤ gen < 256;
  pp_room : next_file_lsn (w_fm w0) + pieces_room ps < 2 ^ 62;
  pp_tmp : os_tmp_counter (w_os w0) + len ps < two64;
  pp_mode : ps = [] ∨ gen = 0 ∧ old = ∅ ∨
    gen ≠ 0 ∧ old ≠ ∅ ∧
    ∀ oid, oid ∈ piece_ids ps → ∃ loc, old !! oid = Some loc ∧ locs L !! oid = Some loc;
  pp_claims k : (∀ g, g ∈ L → k ≠ lf_location g) → claimed k = false;
}.

(** [w'] is [w0] with one more file for each of the pieces. *)
Record wrote (dn : list (gmap Z (option bytes))) (fs : list LogFile) (w' : World) : Prop := {
  wo_inv : Inv w' (L ++ fs) claimed;
  wo_vals : lf_vals <$> fs = dn;
  wo_gen f : f ∈ fs → generation (lf_md f) = gen;
  wo_full f : f ∈ fs → present_objects (lf_md f) = Z.of_nat (size (lf_vals f));
  wo_next : next_file_lsn (w_fm w') ≤ next_file_lsn (w_fm w0) + pieces_room dn;
  wo_tmp : os_tmp_counter (w_os w') = os_tmp_counter (w_os w0) + len dn;
  wo_max : max_object_id (w_marble w') = max_object_id (w_marble w0);
  wo_faults : os_faults (w_os w') `suffix_of` os_faults (w_os w0);
  wo_passes : passes (os_fs (w_os w0)) (os_fs (w_os w')) (stages L fs);
}.

(** The disk wherever the sequence stops: a prefix of the pieces is there. *)
Definition prefix_on_disk (F : fs) : Prop :=
  ∃ k fs, lf_vals <$> fs = take k ps ∧ reached (os_fs (w_os w0)) F (stages L fs) (L ++ fs).

Context (Hpre : pieces_pre).

(** The pieces written so far do not change where the others are. *)
Lemma locs_untouched dn fs w' oid :
  wrote dn fs w' → oid ∉ piece_ids dn → locs (L ++ fs) !! oid = locs L !! oid.
Proof.
  intros Hw Hn. rewrite locs_app. apply lookup_union_r, eq_None_not_Some. intros [loc Hloc].
  pose proof (inv_wf _ _ _ (wo_inv _ _ _ Hw)) as HF. apply Forall_app in HF as [_ HF].
  destruct (locs_owner fs oid loc HF Hloc) as (f & Hf & Ha & _).
  apply Hn, piece_ids_elem. exists (lf_vals f). split.
  - rewrite <- (wo_vals _ _ _ Hw). by apply list_elem_of_fmap_2.
  - rewrite Forall_forall in HF. apply lf_abs_dom; eauto.
Qed.

Lemma pieces_batch_pre dn m rest fs w' :
  ps = dn ++ m :: rest → wrote dn fs w' → batch_pre w' (L ++ fs) claimed m gen old.
Proof.
  intros E Hw. destruct Hpre as [Hi Hne Hu Hnd Hg Hr Ht Hmode Hc].
  assert (∀ oid, is_Some (m !! oid) → oid ∈ piece_ids ps ∧ oid ∉ piece_ids dn) as Hm.
  { intros oid Ho. assert (oid ∈ piece_ids [m]) as Hin by (apply piece_ids_elem; exists m; by rewrite list_elem_of_singleton).
    rewrite E in *. change (m :: rest) with ([m] ++ rest) in *. rewrite !piece_ids_app in *.
    apply NoDup_app in Hnd as (_ & Hd & _). split.
    - apply elem_of_app. right. apply elem_of_app. by left.
    - intros Hx. apply (Hd oid Hx), elem_of_app. by left. }
  pose proof (wo_next _ _ _ Hw). pose proof (wo_tmp _ _ _ Hw) as Ect.
  rewrite E, pieces_room_app in Hr. simpl in Hr. pose proof (pieces_room_pos rest).
  rewrite E, length_app in Ht. simpl in Ht.
  split; try done.
  - apply Hw.
  - apply Hne. rewrite E. apply elem_of_app. right. by left.
  - intros oid Ho. rewrite (wo_max _ _ _ Hw). by apply Hu, Hm.
  - lia.
  - lia.
  - destruct Hmode as [->|[?|(? & ? & Hold)]]; [by destruct dn|by left|right]. split_and!; [done..|].
    intros oid Ho. destruct (Hm oid Ho) as [Hin Hnot]. rewrite (locs_untouched dn fs w') by done. auto.
  - intros k Hk. apply Hc. intros g Hg'. apply Hk, elem_of_app. by left.
Qed.

Lemma wp_write_pieces :
  wp (forM ps (λ m, write_batch_inner config m gen old))
    (λ _ w', ∃ fs, wrote ps fs w')
    (λ e w', prefix_on_disk (os_fs (w_os w')) ∧
       (injected (w_os w0) ∨
        e = Unsupported ∧ ∃ m oid v, m ∈ ps ∧ m !! oid = Some v ∧ oversize config v))
    (λ w', prefix_on_disk (os_fs (w_os w')) ∧ injected (w_os w0)) w0.
Proof.
  apply (wp_forM _ (λ dn w', ∃ fs, wrote dn fs w')).
  { exists []. destruct Hpre. split; simpl; rewrite ?app_nil_r; try done; [set_solver..|lia|lia|apply passes_refl]. }
  intros dn m rest w' E [fs Hw].
  pose proof (pieces_batch_pre dn m rest fs w' E Hw) as Hb.
  assert (injected (w_os w') → injected (w_os w0)) as Hinj.
  { intros Hi. eapply injected_suffix; [apply Hw|done]. }
  assert (∀ F, before_or_after w' (L ++ fs) m F → prefix_on_disk F) as Hpx.
  { intros F [[Hd Hp]|(f & Hv & [Hd Hp])].
    - exists (length dn), fs. rewrite E, take_app_length. split; [apply Hw|].
      eapply reached_step; [apply Hw|exact Hp| |done]. intros ? ->%list_elem_of_singleton. apply stages_now.
    - exists (S (length dn)), (fs ++ [f]). rewrite E. split.
      2: { split; [by rewrite (assoc_L (++))|]. eapply passes_mono; [|apply stages_snoc].
           eapply passes_trans; [apply Hw|exact Hp]. }
      rewrite fmap_app, (wo_vals _ _ _ Hw). simpl. rewrite Hv.
      replace (S (length dn)) with (length (dn ++ [m])) by (rewrite length_app; simpl; lia).
      by rewrite (cons_middle m dn rest), (assoc_L (++)), take_app_length. }
  eapply wp_mono; [by apply (wp_write_batch_inner config w' (L ++ fs) claimed)|..].
  - intros [] w'' (f & Ha). exists (fs ++ [f]). destruct Ha. destruct Hw.
    split; rewrite ?fmap_app; try (rewrite (assoc_L (++)); done); simpl; try congruence.
    + intros g [?| ->%list_elem_of_singleton]%elem_of_app; auto.
    + intros g [?| ->%list_elem_of_singleton]%elem_of_app; auto.
    + rewrite pieces_room_app. simpl. lia.
    + rewrite length_app. simpl. lia.
    + by etrans.
    + eapply passes_mono; [|apply stages_snoc]. by eapply passes_trans.
  - intros e w'' (Hd & _ & He). split; [by apply Hpx|].
    destruct He as [?|(-> & oid & v & ? & ?)]; [left; auto|right]. split; [done|].
    exists m, oid, v. split; [|done]. rewrite E. apply elem_of_app. right. by left.
  - intros w'' [Hd He]. split; [by apply Hpx|auto].
Qed.
End pieces.

(** ** [shard_batch] and [write_batch] *)

Section shard_batch.
Context `{Deps, !DepsLaws}.
Context (config : Config) (w0 : World) (L : list LogFile) (claimed : Z → bool) (gen : Z)
  (old : gmap Z Z) (batch : list (Z * option bytes)).

Definition pieces : list (gmap Z (option bytes)) :=
  sharding_iter (shard_objects config gen old batch).

(** The store after the batch, one more file for each of the pieces. *)
Record stored (fs : list LogFile) (w' : World) : Prop := {
  sd_inv : Inv w' (L ++ fs) claimed;
  sd_vals : lf_vals <$> fs = pieces;
  sd_gen f : f ∈ fs → generation (lf_md f) = gen;
  sd_full f : f ∈ fs → present_objects (lf_md f) = Z.of_nat (size (lf_vals f));
  sd_next : next_file_lsn (w_fm w') ≤ next_file_lsn (w_fm w0) + pieces_room pieces;
  sd_tmp : os_tmp_counter (w_os w') = os_tmp_counter (w_os w0) + len pieces;
  sd_faults : os_faults (w_os w') `suffix_of` os_faults (w_os w0);
  sd_passes : passes (os_fs (w_os w0)) (os_fs (w_os w')) (stages L fs);
}.

Lemma wp_shard_batch :
  Inv w0 L claimed →
  (∀ m, m ∈ pieces → m ≠ ∅) → NoDup (piece_ids pieces) →
  (∀ oid, oid ∈ piece_ids pieces → oid ∈ batch.*1) → (∀ oid, oid ∈ batch.*1 → is_u64 oid) →
  0 ≤ gen < 256 → next_file_lsn (w_fm w0) + pieces_room pieces < 2 ^ 62 →
  os_tmp_counter (w_os w0) + len pieces < two64 →
  (pieces = [] ∨ gen = 0 ∧ old = ∅ ∨
   gen ≠ 0 ∧ old ≠ ∅ ∧
   ∀ oid, oid ∈ piece_ids pieces → ∃ loc, old !! oid = Some loc ∧ locs L !! oid = Some loc) →
  (∀ k, (∀ g, g ∈ L → k ≠ lf_location g) → claimed k = false) →
  wp (shard_batch config batch gen old)
    (λ _ w', ∃ fs, stored fs w' ∧ (fsync_each_batch config = true → fs_journal (os_fs (w_os w')) = []))
    (λ e w', prefix_on_disk w0 L pieces (os_fs (w_os w')) ∧
       (injected (w_os w0) ∨
        e = Unsupported ∧ ∃ m oid v, m ∈ pieces ∧ m !! oid = Some v ∧ oversize config v))
    (λ w', prefix_on_disk w0 L pieces (os_fs (w_os w')) ∧ injected (w_os w0)) w0.
Proof.
  intros Hi Hne Hnd Hin Hu Hg Hr Ht Hmode Hc. unfold shard_batch. fold pieces. w_steps.
  destruct (max_oid_spec config gen old batch) as (Hm0 & Hmax & Hmem).
  set (mx := max_oid (shard_objects config gen old batch)) in *.
  assert (is_u64 mx) as Hmu by (destruct Hmem as [->|?]; [done|auto]).
  pose proof (mo_max_u64 _ _ _ (inv_mem _ _ _ Hi)) as Hmu'.
  set (w1 := set_max_object_id _ _).
  assert (Inv w1 L claimed) as Hi1.
  { apply inv_max; simpl; [|lia|u64_lia]. eapply inv_ext; try done. exact (inv_fams _ _ _ Hi). }
  assert (pieces_pre w1 L claimed gen old pieces) as Hpp.
  { split; try done. intros oid Ho. split; [auto|]. specialize (Hmax oid (Hin oid Ho)). simpl. lia. }
  eapply wp_mono; [apply (wp_write_pieces config w1 L claimed gen old pieces Hpp)|..].
  - intros [] w2 (fs & Hw). cbn beta.
    assert (∀ F o, F = os_fs (w_os w2) ∨ F = set_dir_synced (os_fs (w_os w2)) →
      os_upd F (w_os w2) o → stored fs (set_os o w2)) as Hdone.
    { intros F o HF Ho.
      assert (Inv (set_os o w2) (L ++ fs) claimed) as Hi2.
      { eapply (inv_sync w2 F); [apply Hw|..|exact Ho]; by destruct HF as [->| ->]. }
      destruct Ho as (Efs & Et & _ & Ef). destruct Hw as [[Hd _] ? ? ? ? ? ? ? Hps].
      split; simpl; try done; [by rewrite Et|by etrans|]. rewrite Efs. destruct HF as [->| ->]; [done|].
      eapply (rc_passes _ _ _ (L ++ fs)), (reached_step _ _ _ _ [L ++ fs]); [done|by apply passes_dir_synced| |].
      - intros ? ->%list_elem_of_singleton. apply stages_now.
      - rewrite <- Efs. apply Hi2. }
    assert (∀ o, stored fs (set_os o w2) → prefix_on_disk w0 L pieces (os_fs o)) as Hpx.
    { intros o [Hi2 Hv _ _ _ _ _ Hps]. exists (length pieces), fs. rewrite Hv, firstn_all.
      split; [done|]. split; [apply Hi2|exact Hps]. }
    assert (injected (w_os w2) → injected (w_os w0)) as Hinj.
    { intros ?. eapply injected_suffix; [apply Hw|done]. }
    apply wp_when; intros Ef.
    2: { exists fs. rewrite <- (set_os_id w2). split; [by eapply Hdone; [left|]|congruence]. }
    apply wp_io, wp_atomic; [|done|..].
    + intros [] F o [= <-] Ho. exists fs. split; [by eapply Hdone; [right|]|]. simpl.
      by rewrite (os_upd_fs _ _ _ Ho).
    + intros e o Hj Ho. split; [|left; auto]. by eapply Hpx, Hdone; [left|].
    + intros o Hj [Ho|Ho]; (split; [|auto]); eapply Hpx, Hdone; try exact Ho; auto.
  - intros e w2 [? He]. split; [done|]. exact He.
  - intros w2 [? ?]. by split.
Qed.
End shard_batch.

(** ** What sharding does *)

Section theorems.
Context `{Deps, !DepsLaws}.
Context (config : Config) (gen : Z) (old : gmap Z Z).

(** The shard of an entry: deletions and new writes go to the first one. *)
Definition shard_of (oid : Z) (v : option bytes) : Z :=
  match v with
  | Some data => if gen =? NEW_WRITE_GENERATION then 0 else partition_function config oid (len data)
  | None => 0
  end.

Definition uniform (id : Z) (objects : gmap Z (option bytes)) : Prop :=
  map_Forall (λ oid v, shard_of oid v = id) objects.

Lemma shard_step_uniform s e :
  (∀ id so, shards s !! id = Some so → uniform id so.2) →
  (∀ id o, (id, o) ∈ fragmented_shards s → uniform id o) →
  (∀ id so, shards (shard_step config gen old s e) !! id = Some so → uniform id so.2) ∧
  (∀ id o, (id, o) ∈ fragmented_shards (shard_step config gen old s e) → uniform id o).
Proof.
  intros Hs Hf. destruct e as [oid v]. unfold shard_step.
  destruct (match v with Some data => _ | None => _ end) as [[object_size shard] hl] eqn:Ev.
  assert (shard_of oid v = shard) as Eshard by (destruct v; simplify_eq/=; congruence).
  assert (uniform shard (default (0, ∅) (shards s !! shard)).2) as Hd.
  { destruct (shards s !! shard) as [so|] eqn:E; simpl; [by apply Hs|]. apply map_Forall_empty. }
  destruct (default (0, ∅) (shards s !! shard)) as [size objects].
  set (b := (NEW_WRITE_GENERATION <? gen) && _).
  assert (∀ sz o id so, uniform shard o →
    <[shard := (sz, <[oid := v]> o)]> (shards s) !! id = Some so → uniform id so.2) as Hins.
  { intros sz o id so Ho. rewrite lookup_insert_Some. intros [[<- <-]|[_ ?]]; [|auto]. simpl.
    by apply map_Forall_insert_2. }
  destruct b; cbn [shards fragmented_shards]; (split; [intros id so; apply Hins|]).
  - apply map_Forall_empty.
  - intros id o [?|[= -> ->]%list_elem_of_singleton]%elem_of_app; [auto|exact Hd].
  - exact Hd.
  - exact Hf.
Qed.

Lemma shard_objects_uniform l :
  (∀ id so, shards (shard_objects config gen old l) !! id = Some so → uniform id so.2) ∧
  (∀ id o, (id, o) ∈ fragmented_shards (shard_objects config gen old l) → uniform id o).
Proof.
  induction l as [|e l [IHs IHf]] using rev_ind.
  - split; simpl; [by intros id so; rewrite lookup_empty|by intros id o ?%not_elem_of_nil].
  - rewrite shard_objects_snoc. by apply shard_step_uniform.
Qed.

(** C24. The batches a rewrite is split into are a partition of its objects, none of them
    is empty, and each has objects of one shard only. *)
Theorem sharding_partitions batch :
  0 ≤ target_file_size config → NoDup batch.*1 →
  let ps := sharding_iter (shard_objects config gen old batch) in
  concat (map_to_list <$> ps) ≡ₚ batch ∧
  (∀ m, m ∈ ps → m ≠ ∅ ∧ ∃ shard, ∀ oid v, m !! oid = Some v → shard_of oid v = shard).
Proof.
  intros Ht Hnd ps. split.
  - unfold ps. rewrite sharding_iter_pieces. by apply shard_objects_sharded.
  - intros m Hm. split; [by eapply sharding_iter_ne|].
    destruct (shard_objects_uniform batch) as [Hs Hf]. unfold ps, sharding_iter in Hm.
    rewrite elem_of_app, !list_elem_of_fmap in Hm.
    destruct Hm as [([id so] & -> & Hin%iter_order_elem)|([id o] & -> & Hin)]; exists id; intros oid v Hv.
    + by apply (Hs _ _ Hin).
    + by apply (Hf _ _ Hin).
Qed.
End theorems.
