(* ===== verification/RecoverySpec.v ===== *)
(** RecoverySpec: opening a store. Whatever a crash has left, [open] deletes the
    temporary files and rebuilds the tables of the store that the directory describes. *)
From S2P Require Import Prelude Effects Os Deps Locations LocationTable Config Metadata.
From S2P Require Import ZstdDict Storage State FileMap Recovery FileMapSpec Layout Invariant PowerLoss.
From S2P Require Import InstallSpec.

(** ** Sorting *)

Section sort.
Context {A : Type} (key : A → Z).

Abbreviation le_key := (λ x y, key x ≤ key y).

Lemma insert_by_perm x l : insert_by key x l ≡ₚ x :: l.
Proof.
  induction l as [|y l IH]; simpl; [done|]. case_match; [done|].
  rewrite IH. apply Permutation_swap.
Qed.

Lemma insert_by_sorted x l : StronglySorted le_key l → StronglySorted le_key (insert_by key x l).
Proof.
  induction 1 as [|y l Hs IH HF]; simpl; [repeat constructor|].
  destruct (Z.ltb_spec (key x) (key y)) as [Hlt|Hge].
  - constructor; [by constructor|]. constructor; [lia|].
    eapply Forall_impl; [exact HF|]. simpl. lia.
  - constructor; [done|]. rewrite insert_by_perm. by constructor.
Qed.

Lemma sort_by_key_perm l : sort_by_key key l ≡ₚ l.
Proof.
  unfold sort_by_key. induction l as [|x l IH] using rev_ind; [done|].
  rewrite foldl_app. simpl. rewrite insert_by_perm, IH. apply Permutation_cons_append.
Qed.

Lemma sort_by_key_sorted l : StronglySorted le_key (sort_by_key key l).
Proof.
  unfold sort_by_key. induction l as [|x l IH] using rev_ind; [constructor|].
  rewrite foldl_app. simpl. by apply insert_by_sorted.
Qed.

(** Sorting finds the order of a list with increasing keys. *)
Lemma sort_by_key_unique l l' :
  l ≡ₚ l' → StronglySorted (λ x y, key x < key y) l' → sort_by_key key l = l'.
Proof.
  intros Hp Hs.
  assert (∀ x y, x ∈ l' → y ∈ l' → key x = key y → x = y) as Hinj.
  { clear Hp. induction Hs as [|z l' _ IH HF]; [set_solver|]. rewrite Forall_forall in HF.
    intros x y [->|Hx]%elem_of_cons [->|Hy]%elem_of_cons E; [done|..|by apply IH].
    - specialize (HF _ Hy). lia.
    - specialize (HF _ Hx). lia. }
  apply (StronglySorted_unique_strong le_key).
  - intros x y Hx Hy ??. apply Hinj; [|done|lia]. by rewrite <- Hp, <- sort_by_key_perm.
  - apply sort_by_key_sorted.
  - clear Hp Hinj. induction Hs as [|z l' _ IH HF]; constructor; [done|].
    eapply Forall_impl; [exact HF|]. simpl. lia.
  - by rewrite sort_by_key_perm.
Qed.
End sort.

(** ** Reading the directory *)

Section directory.
Context `{Deps, !DepsLaws}.
Implicit Types L : list LogFile.

(** What stays the same while the directory is being read. *)
Record reading (o0 o : os) : Prop := {
  rg_inodes : fs_inodes (os_fs o) = fs_inodes (os_fs o0);
  rg_heap : fs_heap_exists (os_fs o) = fs_heap_exists (os_fs o0);
  rg_counter : os_tmp_counter o = os_tmp_counter o0;
  rg_thread : os_thread o = os_thread o0;
  rg_faults : os_faults o `suffix_of` os_faults o0;
}.

Definition found (F : fs) (e : string * File) : option (Metadata * string) :=
  if ends_with e.1 "tmp" then None
  else match fs_inodes F !! e.2 with
       | Some c => (λ m, (m, e.1)) <$> parse e.1 (len c)
       | None => None
       end.

(** Visiting [(name, ino)] when the entries [dn] have been visited. *)
Record visited (o0 : os) (L : list LogFile) (dn : list (string * File)) (o : os) : Prop := {
  vi_reading : reading o0 o;
  vi_disk : disk_ok (os_fs o) L;
  vi_passes : passes (os_fs o0) (os_fs o) [L];
  vi_dir name : fs_dir (os_fs o) !! name
    = if decide (name ∈ dn.*1 ∧ ends_with name "tmp" = true) then None
      else fs_dir (os_fs o0) !! name;
}.

(** An error or a kill while opening. *)
Definition interrupted (o0 : os) (L : list LogFile) (o : os) : Prop :=
  injected o0 ∧ disk_ok (os_fs o) L.

Lemma wp_visit_entry o0 L dn name ino (acc : list (Metadata * string)) o :
  visited o0 L dn o → fs_dir (os_fs o0) !! name = Some ino → name ∉ dn.*1 →
  wp (visit_entry acc (name, ino))
    (λ acc' o', acc' = acc ++ option_list (found (os_fs o0) (name, ino))
                ∧ visited o0 L (dn ++ [(name, ino)]) o')
    (λ _ o', interrupted o0 L o') (λ o', interrupted o0 L o') o.
Proof.
  intros Hv Hname Hn. unfold visit_entry, io_step.
  assert (∀ o1 o2, visited o0 L dn o1 → os_upd (os_fs o1) o1 o2 → visited o0 L dn o2) as Hstep.
  { intros o1 o2 [[] Hd Hps Hdir] (E & Ec & Et & Es).
    split; [split; rewrite ?E; try congruence; by etrans|by rewrite E|by rewrite E|].
    intros nm. rewrite E. apply Hdir. }
  assert (∀ dn1 dn2 o1 o2, visited o0 L dn1 o1 → injected o1 → visited o0 L dn2 o2 → interrupted o0 L o2) as Hint.
  { intros ???? [[] _ _ _] Hi [_ ? _ _]. split; [by eapply injected_suffix|done]. }
  assert (∀ o1, visited o0 L dn o1 →
    fs_dir (os_fs o1) !! name = Some ino ∧ ∃ content, fs_inodes (os_fs o0) !! ino = Some content
      ∧ fs_inodes (os_fs o1) !! ino = Some content) as Hlook.
  { intros o1 [[] Hd _ Hdir]. assert (fs_dir (os_fs o1) !! name = Some ino) as E
      by (rewrite Hdir, decide_False; tauto).
    split; [done|]. destruct (dk_inode _ _ Hd name ino E) as [[content Hc] _].
    exists content. by rewrite <- rg_inodes0. }
  w_steps. apply wp_query with (); [done| |by eauto..]. intros o1 Hu1.
  pose proof (Hstep _ _ Hv Hu1) as Hv1. destruct (Hlook _ Hv1) as (_ & content & Hc0 & Hc1).
  w_steps. apply wp_query with (len content); [by rewrite Hc1| |by eauto..]. intros o2 Hu2.
  pose proof (Hstep _ _ Hv1 Hu2) as Hv2. destruct (Hlook _ Hv2) as (Hname2 & _).
  unfold found. simpl. rewrite Hc0. destruct (ends_with name "tmp") eqn:Et.
  - assert (∀ o3, os_upd (fs_unlink name (os_fs o2)) o2 o3 → visited o0 L (dn ++ [(name, ino)]) o3) as Hdone.
    { intros o3 (E & Ec & ? & Es). destruct Hv2 as [[] Hd Hps Hdir].
      assert (reached (os_fs o0) (fs_unlink name (os_fs o2)) [L] L) as [Hd' Hps'].
      { apply reached_unlink; [by split|by left]. }
      split; [split; rewrite ?E; simpl; try congruence; by etrans|by rewrite E|by rewrite E|].
      intros nm. rewrite E. simpl. rewrite lookup_delete, Hdir, fmap_app. simpl.
      repeat case_decide; subst; try done; set_solver. }
    w_steps. apply wp_remove_file.
    + intros o3 Hu3. w_steps. rewrite app_nil_r. auto.
    + intros e o3 [Hnone|Hi] Hu3; [by rewrite Hname2 in Hnone|]. eauto.
    + intros o3 Hi [Hu3|Hu3]; eauto.
  - assert (visited o0 L (dn ++ [(name, ino)]) o2) as Hdone.
    { destruct Hv2 as [? ? ? Hdir]. split; try done. intros nm. rewrite Hdir, fmap_app. simpl.
      repeat case_decide; try done; [set_solver|]. destruct_and?.
      assert (nm = name) as -> by set_solver. congruence. }
    destruct (parse name (len content)) as [m|]; w_steps; (split; [|done]); simpl; [done|by rewrite app_nil_r].
Qed.

Lemma found_elem F L m name :
  disk_ok F L →
  (m, name) ∈ omap (found F) (iter_order (fs_dir F))
  ↔ ∃ f, f ∈ L ∧ (m, name) = (lf_md f, lf_name f).
Proof.
  intros Hd. rewrite list_elem_of_omap.
  assert (∀ f, f ∈ L → found F (lf_name f, lf_ino f) = Some (lf_md f, lf_name f)) as Hfound.
  { intros f Hf. pose proof (disk_file_wf F L Hd f Hf) as Hwf. unfold found. simpl.
    rewrite (dk_content _ _ Hd f Hf), <- (wf_size f Hwf). unfold lf_name.
    rewrite parse_to_file_name by apply Hwf. rewrite to_file_name_not_tmp; [done|].
    destruct (wf_typed f Hwf). lia. }
  split.
  - intros ([nm ino] & Hin%iter_order_elem & Hf).
    destruct (dk_name _ _ Hd nm ino Hin) as [(f & HfL & ->)|Hig].
    + exists f. split; [done|].
      rewrite (dk_file _ _ Hd f HfL) in Hin. simplify_eq. rewrite Hfound in Hf by done. congruence.
    + exfalso. unfold found in Hf. simpl in Hf. destruct Hig as [Ht|Hp].
      * by rewrite Ht in Hf.
      * destruct (ends_with nm "tmp"); [done|]. destruct (fs_inodes F !! ino) as [c|]; [|done].
        by rewrite Hp in Hf.
  - intros (f & Hf & [= -> ->]). exists (lf_name f, lf_ino f).
    split; [|by apply Hfound]. apply iter_order_elem. by apply (dk_file _ _ Hd).
Qed.

Lemma found_nodup F : NoDup (omap (found F) (iter_order (fs_dir F))).
Proof.
  apply (NoDup_fmap_1 snd). pose proof (iter_order_nodup (fs_dir F)) as Hn.
  induction (iter_order (fs_dir F)) as [|[nm ino] l IH]; csimpl; [constructor|].
  apply NoDup_cons in Hn as [Hnm Hn]. destruct (found F (nm, ino)) as [[m nm']|] eqn:E; [|auto].
  csimpl. constructor; [|auto]. assert (nm' = nm) as ->.
  { unfold found in E. simpl in E. repeat case_match; simplify_eq/=; try done.
    destruct (parse nm _); by simplify_eq/=. }
  rewrite list_elem_of_fmap. intros ([m' n'] & -> & ([nm2 ino2] & Hin & E2)%list_elem_of_omap).
  apply Hnm. simpl. assert (nm2 = n') as <-.
  { unfold found in E2. simpl in E2. repeat case_match; simplify_eq/=; try done.
    destruct (parse nm2 _); by simplify_eq/=. }
  by apply (list_elem_of_fmap_2 fst _ (nm2, ino2)).
Qed.

Definition listed L : list (Metadata * string) := (λ f, (lf_md f, lf_name f)) <$> L.

Lemma listed_sorted L :
  sorted L → Forall lf_wf L → StronglySorted (λ x y, masked_lsn x.1 < masked_lsn y.1) (listed L).
Proof.
  induction 1 as [|f L _ IH HF]; intros Hwf; [constructor|]. apply Forall_cons in Hwf as [Hf Hwf].
  constructor; [auto|]. apply Forall_forall. intros y (g & -> & Hg)%list_elem_of_fmap. simpl.
  rewrite Forall_forall in HF.
  specialize (HF g Hg). unfold before in HF. pose proof (lf_end_pos f Hf).
  unfold lf_base in HF. lia.
Qed.

Lemma listed_nodup L : sorted L → Forall lf_wf L → NoDup (listed L).
Proof.
  intros Hs Hwf. pose proof (listed_sorted L Hs Hwf) as Hl.
  induction Hl as [|x l _ IH HF]; constructor; [|done].
  rewrite Forall_forall in HF. intros Hin. specialize (HF _ Hin). lia.
Qed.

(** The directory lists the files of the store in order, and the temporary files are
    gone. *)
Lemma wp_read_storage_directory L o (Q : list (Metadata * string) → os → Prop) E C :
  disk_ok (os_fs o) L → fs_heap_exists (os_fs o) = true →
  (∀ o', reading o o' → reached (os_fs o) (os_fs o') [L] L →
     (∀ n, fs_dir (os_fs o') !! tmp_file_name n = None) → Q (listed L) o') →
  (∀ e o', interrupted o L o' → E e o') → (∀ o', interrupted o L o' → C o') →
  wp read_storage_directory Q E C o.
Proof.
  intros Hd Hh HQ HE HC. unfold read_storage_directory.
  assert (∀ o1, os_upd (os_fs o) o o1 → injected o → interrupted o L o1) as Hint.
  { intros o1 (E1 & _) Hi. split; [done|]. by rewrite E1. }
  w_steps. apply wp_query with (iter_order (fs_dir (os_fs o))); [by rewrite Hh| |by auto..].
  intros o1 Hu. w_steps.
  eapply wp_mono with (E := λ _ o', interrupted o L o') (C := λ o', interrupted o L o');
    [apply (wp_foldM _ (λ dn acc o', acc = omap (found (os_fs o)) dn ∧ visited o L dn o'))| |by auto..].
  - split; [done|]. destruct Hu as (E1 & Ec & Et & Es).
    split; [split; rewrite ?E1; done|by rewrite E1|rewrite E1; apply passes_refl|]. intros nm. rewrite E1.
    rewrite decide_False; [done|]. intros [Hin _]. by apply not_elem_of_nil in Hin.
  - intros dn [nm ino] rest acc o2 Ee [-> Hv].
    eapply wp_mono; [apply (wp_visit_entry o L dn); [done|..]| |done..].
    + apply iter_order_elem. rewrite Ee. apply elem_of_app. right. by left.
    + pose proof (iter_order_nodup (fs_dir (os_fs o))) as Hn. rewrite Ee, fmap_app, fmap_cons in Hn.
      apply NoDup_app in Hn as (_ & Hn & _). intros Hin. apply (Hn nm Hin). by left.
    + intros acc' o3 [-> Hv']. split; [|done]. rewrite omap_app. csimpl.
      by destruct (found (os_fs o) (nm, ino)).
  - intros acc o2 [-> [Hr Hd2 Hps2 Hdir]]. w_steps.
    rewrite (sort_by_key_unique (λ e, masked_lsn e.1) _ (listed L)).
    + apply HQ; [done|by split|]. intros n. rewrite Hdir. case_decide as Hn; [done|].
      destruct (fs_dir (os_fs o) !! tmp_file_name n) as [ino|] eqn:En; [exfalso|done].
      apply Hn. split; [|apply tmp_file_name_tmp].
      apply (list_elem_of_fmap_2 fst _ (tmp_file_name n, ino)). by apply iter_order_elem.
    + apply NoDup_Permutation; [apply found_nodup|by apply listed_nodup; apply Hd|].
      intros [m nm]. rewrite found_elem by done. unfold listed. rewrite list_elem_of_fmap. naive_solver.
    + apply listed_sorted; apply Hd.
Qed.
End directory.

(** ** Recovering one file *)

Section file.
Context `{Deps, !DepsLaws}.
Implicit Types L : list LogFile.

(** Where a location of a file is in the order of the sequence numbers. *)
Lemma in_file_masked f loc :
  lf_wf f → in_file f loc →
  lf_base f ≤ Z.land (DiskLocation.lsn loc) NEW_WRITE_BATCH_MASK ≤ lf_base f + lf_end f.
Proof.
  intros Hf [Hlo Hhi]. pose proof (wf_base f Hf). pose proof (wf_top f Hf).
  destruct (wf_lsn f Hf) as [d El]. set (off := loc / 2 - lf_lsn f).
  assert (0 ≤ off ≤ lf_end f) as Hoff by (subst off; div_lia).
  assert (DiskLocation.lsn loc = (lf_base f + off) + Z.b2z d * 2 ^ 62) as ->.
  { unfold DiskLocation.lsn, unshift_location. rewrite Z.shiftr_div_pow2 by done.
    change (2 ^ 1) with 2. subst off. case_match; simpl; lia. }
  rewrite land_new_write_mask by lia. lia.
Qed.

Lemma wp_recover_objects L f o (Q : gmap Z Z → os → Prop) E C :
  sorted (L ++ [f]) → Forall lf_wf (L ++ [f]) →
  Q (locs (L ++ [f])) o →
  wp (foldM (recover_object (lf_lsn f)) (locs L) (lf_entries f)) Q E C o.
Proof.
  intros Hs Hwf HQ. assert (lf_wf f) as Hf by (apply (file_wf L f Hwf); set_solver).
  eapply wp_mono with (E := E) (C := C); [apply (wp_foldM _ (λ dn pt o', o' = o ∧
    pt = moved (lf_location f) dn ∪ locs L))| |done..].
  - split; [done|]. unfold moved. simpl. by rewrite (left_id_L ∅ (∪)).
  - intros dn [oid rel] rest pt o' Ee [-> ->]. unfold recover_object.
    assert ((oid, rel) ∈ lf_entries f) as Hin by (rewrite Ee; apply elem_of_app; right; by left).
    assert (oid ∉ dn.*1) as Hn.
    { pose proof (wf_nodup f Hf) as Hnd. rewrite Ee, fmap_app, fmap_cons in Hnd.
      apply NoDup_app in Hnd as (_ & Hd & _). intros Hx. apply (Hd oid Hx). by left. }
    apply (lf_rels_elem f oid rel Hf) in Hin.
    w_steps. eapply wp_unwrap; [by apply (lf_to_absolute f oid)|]. w_steps.
    rewrite lookup_union_r by by apply moved_None.
    destruct (locs L !! oid) as [loc|] eqn:Eloc.
    + destruct (locs_owner L oid loc) as (g & Hg & Ha & _); [by apply Forall_app in Hwf as []|done|].
      assert (lf_wf g) as Hgwf by (apply (file_wf L f Hwf); set_solver).
      pose proof (lf_abs_in_file g oid loc Hgwf Ha) as Hin1.
      assert (in_file f (rel + lf_location f)) as Hin2.
      { apply (lf_abs_in_file f oid); [done|]. by rewrite lf_abs_lookup, Hin. }
      apply (in_file_masked g loc Hgwf) in Hin1. apply (in_file_masked f _ Hf) in Hin2.
      apply sorted_snoc in Hs as [_ Hb]. specialize (Hb g Hg). unfold before in Hb.
      apply wp_assert; [apply Z.ltb_lt; lia|]. w_steps. split; [done|].
      rewrite moved_snoc by done. by rewrite insert_union_l.
    + w_steps. split; [done|]. rewrite moved_snoc by done. by rewrite insert_union_l.
  - intros pt o' [-> ->]. by rewrite (moved_abs f), <- locs_snoc.
Qed.

Lemma zstd_dict_trailer d : d ≠ Some [] → zstd_dict_for (trailer_dict d) d.
Proof. destruct d as [[|b bs]|]; intros; [done|apply zstd_dict_for_bytes|done]. Qed.

(** The trailer of a file reads back. *)
Lemma read_trailer_of_file {S} f (s : S) :
  lf_wf f →
  read_trailer_from_buf (trailer_buf (lf_entries f) (lf_dict f)) s
  = (Ok (lf_entries f, trailer_dict (lf_dict f)), s).
Proof.
  intros Hf. pose proof (wf_alloc f Hf) as Ha. pose proof (wf_top f Hf). pose proof (wf_base f Hf).
  pose proof (entries_u64 f Hf). pose proof (lf_end_pos f Hf).
  unfold lf_content in Ha. rewrite length_app in Ha.
  pose proof (len_trailer_buf (lf_entries f) (lf_dict f)) as Elt.
  apply read_trailer_from_buf_written; [|u64_lia].
  apply Forall_forall. intros [oid rel] Hin. simpl. split; [by eapply wf_oids|].
  apply (lf_rels_elem f oid rel Hf) in Hin.
  destruct (lf_rels_form f oid rel Hf Hin) as (off & d & -> & ? & _).
  destruct d; simpl; u64_lia.
Qed.

Lemma wp_read_trailer f o (Q : list (Z * Z) * ZstdDict → os → Prop) E C :
  lf_wf f → fs_inodes (os_fs o) !! lf_ino f = Some (lf_content f) →
  (∀ z o', os_upd (os_fs o) o o' → zstd_dict_for z (lf_dict f) → Q (lf_entries f, z) o') →
  (∀ e o', injected o → os_upd (os_fs o) o o' → E e o') →
  (∀ o', injected o → os_upd (os_fs o) o o' → C o') →
  wp (read_trailer (lf_ino f) (lf_end f) (file_size (lf_md f))) Q E C o.
Proof.
  intros Hf Hc HQ HE HC. pose proof (wf_alloc f Hf) as Ha. pose proof (wf_top f Hf). pose proof (wf_base f Hf).
  assert (len (lf_content f) = lf_end f + len (trailer_buf (lf_entries f) (lf_dict f))) as El.
  { unfold lf_content. rewrite length_app, (wf_end f Hf). lia. }
  pose proof (len_trailer_buf (lf_entries f) (lf_dict f)) as Elt.
  unfold read_trailer, read_range_at. rewrite (wf_size f Hf), El.
  replace (lf_end f + _ - lf_end f) with (len (trailer_buf (lf_entries f) (lf_dict f))) by lia.
  rewrite wrap64_small by (rewrite El in Ha; pose proof (lf_end_pos f Hf); u64_lia).
  w_steps. unfold allocate. apply wp_assert.
  { apply bool_decide_eq_true. pose proof (lf_end_pos f Hf). lia. }
  w_steps. eapply wp_read_exact_at; [done| |..|done|done].
  { apply slice_app_end; rewrite (wf_end f Hf); done. }
  intros o1 Hu. unfold wp. rewrite read_trailer_of_file by done.
  apply HQ; [done|]. apply zstd_dict_trailer, Hf.
Qed.
End file.

(** ** The loop over the files *)

Section files.
Context `{Deps, !DepsLaws}.
Context (L : list LogFile) (F : fs) (Hd : disk_ok F L).

Definition no_live : LogFile → FileAndMetadata → Prop := fam_ok ∅ unclaimed.

(** The loop-carried variables after the files [dn]. The sequence number is only set
    when the loop is over. *)
Record recovered (dn : list LogFile) (st : Recovering) : Prop := {
  rv_fams : fams_ok (set_next_file_lsn two64 (rec_fams st)) dn no_live;
  rv_table : recovery_page_table st = locs dn;
  rv_lsn : 0 ≤ max_file_lsn st < 2 ^ 62 ∧ ∀ f, f ∈ dn → lf_base f ≤ max_file_lsn st;
  rv_size : 0 ≤ max_file_size st ≤ isize_max ∧ ∀ f, f ∈ dn → lf_end f ≤ max_file_size st;
}.

Lemma wp_open_read f o (Q : File → os → Prop) E C :
  f ∈ L → os_fs o = F →
  (∀ o', os_upd F o o' → Q (lf_ino f) o') →
  (∀ e o', injected o → os_upd F o o' → E e o') → (∀ o', injected o → os_upd F o o' → C o') →
  wp (open_read (lf_name f)) Q E C o.
Proof.
  intros Hf <- HQ HE HC. apply wp_query with (lf_ino f); try done.
  by rewrite (dk_file _ _ Hd f Hf).
Qed.

Lemma fams_ok_snoc m dn f fam :
  sorted (dn ++ [f]) → Forall lf_wf (dn ++ [f]) →
  fams_ok (set_next_file_lsn two64 m) dn no_live →
  fam_location fam = lf_location f → no_live f fam →
  cm_get (fams m) (lf_location f) = None ∧
  fams_ok (set_next_file_lsn two64
    (MkFileMap (cm_insert (fams m) (lf_location f) (next_arc m)) (<[next_arc m := fam]> (arcs m))
       (next_arc m + 1) (next_file_lsn m))) (dn ++ [f]) no_live.
Proof.
  intros Hs Hwf Hm Hloc Hfam.
  assert (∀ g, g ∈ dn → lf_location g ≠ lf_location f) as Hne.
  { intros g Hg E. apply (new_not_old dn f Hs Hwf).
    apply (lf_location_inj (dn ++ [f])) in E as <-; try done; set_solver. }
  destruct (inserted_fam_at (set_next_file_lsn two64 m) (lf_location f) fam two64) as [Hwf' Hat];
    [apply Hm|done|]. split; [|split].
  - apply eq_None_not_Some. intros Hk.
    apply (fam_at_key (set_next_file_lsn two64 m) (lf_location f) (fs_wf _ _ _ Hm)) in Hk as [fam' Hk].
    destruct (fs_key _ _ _ Hm _ _ Hk) as (g & Hg & E). by apply (Hne g).
  - exact Hwf'.
  - intros g Hg. pose proof (Hat (lf_location g)) as Hg'. simpl in Hg'. unfold set_next_file_lsn. simpl.
    rewrite Hg'. apply elem_of_app in Hg as [Hg| ->%list_elem_of_singleton].
    + rewrite decide_False by auto. by apply (fs_fam _ _ _ Hm).
    + rewrite decide_True by done. eauto.
  - intros k fam'. pose proof (Hat k) as Hk. simpl in Hk. unfold set_next_file_lsn. simpl. rewrite Hk.
    case_decide; [exists f; set_solver|]. intros Hx.
    destruct (fs_key _ _ _ Hm _ _ Hx) as (g & ? & ?). exists g. set_solver.
  - split; [done|]. intros g Hg. pose proof (file_wf dn f Hwf g Hg) as Hgwf.
    pose proof (wf_top g Hgwf). simpl. u64_lia.
Qed.

Lemma wp_recover_file dn f rest st o :
  L = dn ++ f :: rest → os_fs o = F → recovered dn st →
  wp (recover_file st (lf_md f, lf_name f))
    (λ st' o', recovered (dn ++ [f]) st' ∧ os_upd F o o')
    (λ _ o', injected o ∧ os_upd F o o') (λ o', injected o ∧ os_upd F o o') o.
Proof.
  intros EL EF [Hm Ht Hl Hz].
  assert (f ∈ L) as Hf by (rewrite EL; apply elem_of_app; right; by left).
  pose proof (disk_file_wf F L Hd f Hf) as Hwf.
  assert (sorted (dn ++ [f]) ∧ Forall lf_wf (dn ++ [f])) as [Hs1 Hwf1].
  { pose proof (dk_sorted _ _ Hd) as Hs. pose proof (dk_wf _ _ Hd) as HF.
    rewrite EL, (cons_middle f dn rest), (assoc_L (++)) in Hs, HF.
    split; [by apply sorted_app in Hs as []|by apply Forall_app in HF as []]. }
  pose proof (dk_content _ _ Hd f Hf) as Hc. pose proof (lf_lsn_range f Hwf).
  pose proof (wf_base f Hwf). pose proof (wf_top f Hwf). pose proof (lf_end_pos f Hwf).
  pose proof (wf_alloc f Hwf).
  assert (lf_end f ≤ len (lf_content f)) as Hle.
  { unfold lf_content. rewrite length_app, (wf_end f Hwf). lia. }
  unfold recover_file. w_steps. apply wp_open_read; [done..| |by eauto|by eauto]. intros o1 Hu1.
  w_steps. apply (wp_read_trailer f); [done| |..]; rewrite (os_upd_fs _ _ _ Hu1); [done|..].
  2: { intros e o2 Hi Hu2. split; [by eapply injected_upd|by eapply os_upd_trans]. }
  2: { intros o2 Hi Hu2. split; [by eapply injected_upd|by eapply os_upd_trans]. }
  intros z o2 Hu2 Hzd. pose proof (os_upd_trans _ _ _ _ _ Hu1 Hu2) as Hu12. w_steps.
  rewrite Ht. apply (wp_recover_objects dn f); [done..|]. w_steps.
  apply wp_query with (len (lf_content f)).
  { by rewrite (os_upd_fs _ _ _ Hu2), Hc. }
  2: { intros e o3 Hi Hu3. rewrite (os_upd_fs _ _ _ Hu2) in Hu3.
       split; [by eapply injected_upd|by eapply os_upd_trans]. }
  2: { intros o3 Hi Hu3. rewrite (os_upd_fs _ _ _ Hu2) in Hu3.
       split; [by eapply injected_upd|by eapply os_upd_trans]. }
  intros o3 Hu3. rewrite (os_upd_fs _ _ _ Hu2) in Hu3. w_steps.
  eapply wp_unwrap; [apply new_fam_spec; unfold lf_lsn in *; lia|]. w_steps.
  change (2 * lsn (lf_md f)) with (lf_location f).
  edestruct (fams_ok_snoc (rec_fams st) dn f) as [Hn Hm1]; [done..|exact Hm| | |].
  3: { apply wp_assert; [by apply bool_decide_eq_true|]. w_steps. split; [|by eapply os_upd_trans].
       split; simpl; [exact Hm1|done|..]; fold (lf_base f).
       - split; [lia|]. intros g [Hg| ->%list_elem_of_singleton]%elem_of_app; [|lia].
         destruct Hl as [_ Hl]. specialize (Hl g Hg). lia.
       - split; [lia|]. intros g [Hg| ->%list_elem_of_singleton]%elem_of_app; [|lia].
         destruct Hz as [_ Hz]. specialize (Hz g Hg). lia. }
  - done.
  - by split.
Qed.

(** ** The error path *)

(** Files have been deleted, and nothing else has changed. *)
Definition damaged (F' : fs) : Prop := ∃ L', L' `sublist_of` L ∧ disk_ok F' L'.

Lemma disk_ok_unlink_file F' L' f :
  L' `sublist_of` L → disk_ok F' L' → f ∈ L → damaged (fs_unlink (lf_name f) F').
Proof.
  intros Hsub Hd' Hf. destruct (decide (fs_dir F' !! lf_name f = None)) as [Hn|Hn].
  - exists L'. split; [done|]. eapply disk_ok_ext; [exact Hd'|..]; try done. simpl. by apply delete_id.
  - apply not_eq_None_Some in Hn as [ino Hn].
    destruct (dk_name _ _ Hd' _ _ Hn) as [(g & Hg & E)|Hig].
    2: { by apply lf_name_kept in Hig; [|apply (disk_file_wf F L Hd)]. }
    assert (g ∈ L) as HgL by (by eapply sublist_subseteq).
    apply (lf_name_inj L) in E as <-; [|apply Hd|apply Hd|done..].
    apply list_elem_of_split in Hg as (a & b & ->). exists (a ++ b). split.
    + etrans; [|exact Hsub]. apply sublist_app; [done|]. by apply sublist_cons.
    + by apply disk_ok_remove.
Qed.

Lemma wp_drop_recovered dn st o (Q : () → os → Prop) E C :
  dn ⊆ L → recovered dn st → os_fs o = F →
  (∀ o', damaged (os_fs o') → Q () o') →
  (∀ o', injected o → damaged (os_fs o') → C o') →
  wp (drop_recovered (rec_fams st)) Q E C o.
Proof.
  intros Hdn [Hm _ _ _] EF HQ HC. unfold drop_recovered.
  eapply wp_mono with (E := λ _ _, False) (C := λ o', injected o ∧ damaged (os_fs o'));
    [apply (wp_forM _ (λ _ o', damaged (os_fs o') ∧ os_faults o' `suffix_of` os_faults o))| |done|naive_solver].
  - split; [|done]. exists L. by rewrite EF.
  - intros done_ [k p] rest o' Ee [[L' [Hsub Hd']] Hfl].
    assert (cm_get (fams (rec_fams st)) k = Some p) as Hk.
    { apply cm_iter_elem. rewrite Ee. apply elem_of_app. right. by left. }
    destruct (fw_ptr _ (fs_wf _ _ _ Hm) k p Hk) as (fam & Hp & _).
    destruct (fs_key _ _ _ Hm k fam) as (f & Hf & Ek); [apply fam_at_Some; eauto|].
    destruct (fs_fam _ _ _ Hm f Hf) as (fam' & Hat & Hfam).
    assert (fam' = fam) as ->.
    { apply fam_at_Some in Hat as (p' & Hk' & Hp'). rewrite <- Ek in Hk'. simpl in *. congruence. }
    w_steps. eapply wp_unwrap; [exact Hp|]. w_steps. rewrite (fo_live _ _ _ _ Hfam).
    change (live ∅ f =? 0) with true. cbv match. w_steps. eapply wp_unwrap; [apply (fo_path _ _ _ _ Hfam)|].
    w_steps. pose proof (disk_ok_unlink_file (os_fs o') L' f Hsub Hd' (Hdn f Hf)) as Hun.
    apply wp_remove_file.
    + intros o2 (E2 & _ & _ & Es). w_steps. rewrite E2. split; [done|by etrans].
    + intros e o2 _ (E2 & _ & _ & Es). w_steps. rewrite E2. split; [by exists L'|by etrans].
    + intros o2 Hi Hu. split; [by eapply injected_suffix|].
      destruct Hu as [(E2&_)|(E2&_)]; rewrite E2; [by exists L'|done].
  - intros [] o' [Hdm _]. by apply HQ.
Qed.

Lemma wp_recover_files o (Q : Recovering → os → Prop) E C :
  os_fs o = F →
  (∀ st o', recovered L st → os_upd F o o' → Q st o') →
  (∀ e o', injected o → damaged (os_fs o') → E e o') →
  (∀ o', injected o → damaged (os_fs o') → C o') →
  wp (recover_files (MkRecovering (MkFileMap cm_default ∅ 0 0) 0 0 ∅) (listed L)) Q E C o.
Proof.
  intros EF HQ HE HC.
  assert (∀ rest dn st o', L = dn ++ rest → os_upd F o o' → recovered dn st →
    wp (recover_files st (listed rest)) Q E C o') as Hgen.
  { induction rest as [|f rest IH]; intros dn st o' EL Hu Hr.
    - simpl. w_steps. rewrite app_nil_r in EL. subst dn. by apply HQ.
    - pose proof (os_upd_fs _ _ _ Hu) as Ef.
      change (listed (f :: rest)) with ((lf_md f, lf_name f) :: listed rest). cbn [recover_files]. w_steps.
      eapply wp_mono; [apply (wp_recover_file dn f rest); done|..]; cbn beta.
      + intros st' o2 [Hr' Hu2]. eapply (IH (dn ++ [f])); [by rewrite <- (assoc_L (++))| |done].
        by eapply os_upd_trans.
      + intros e o2 [Hi Hu2].
        apply (wp_drop_recovered dn); [rewrite EL; set_solver|done|by eapply os_upd_fs|..].
        * intros o3 Hdm. apply HE; [by eapply injected_upd|done].
        * intros o3 Hi3 Hdm. apply HC; [|done]. eapply injected_upd; [exact Hu|done].
      + intros o2 [Hi Hu2]. apply HC; [by eapply injected_upd|].
        exists L. by rewrite (os_upd_fs _ _ _ Hu2). }
  apply (Hgen L [] _ o); [done|by rewrite <- EF|].
  split; simpl; [|done|split; [done|set_solver]|split; [done|set_solver]].
  split; [|set_solver|..|split; [done|set_solver]].
  - split; simpl; [intros k p; by rewrite cm_get_default|intros p fam; by rewrite lookup_empty].
  - intros k fam. unfold fam_at. simpl. by rewrite cm_get_default.
Qed.
End files.

(** ** The loop over the recovered locations *)

Section locations.
Context `{Deps, !DepsLaws}.
Context (L : list LogFile) (Hs : sorted L) (Hwf : Forall lf_wf L).

Lemma live_insert_new m f oid loc :
  m !! oid = None →
  live (<[oid := loc]> m) f = live m f + (if decide (in_file f loc) then 1 else 0).
Proof.
  intros Hn. pose proof (live_delete (<[oid := loc]> m) f oid loc (lookup_insert_eq _ _ _)) as Hl.
  rewrite delete_insert_id in Hl by done. lia.
Qed.

Record located (dn : list (Z * Z)) (m : FileMap) (t : PT) (mx : Z) : Prop := {
  lc_fams : fams_ok (set_next_file_lsn two64 m) L (fam_ok (list_to_map dn) unclaimed);
  lc_table : table_ok t (list_to_map dn);
  lc_max : is_u64 mx ∧ ∀ oid, oid ∈ dn.*1 → oid ≤ mx;
}.

Lemma wp_recover_location dn oid loc m t mx o (Q : FileMap * PT * Z → os → Prop) E C :
  locs L !! oid = Some loc → oid ∉ dn.*1 → (list_to_map dn : gmap Z Z) ⊆ locs L →
  located dn m t mx →
  (∀ m' t', located (dn ++ [(oid, loc)]) m' t' (Z.max mx oid) →
     next_file_lsn m' = next_file_lsn m → Q (m', t', Z.max mx oid) o) →
  wp (recover_location (m, t, mx) (oid, loc)) Q E C o.
Proof.
  intros Hloc Hn Hsub [Hm Ht [Hmx Hle]] HQ. unfold recover_location. w_steps.
  destruct (locs_owner L oid loc Hwf Hloc) as (f & Hf & Ha & _).
  assert (lf_wf f) as Hfwf by (rewrite Forall_forall in Hwf; auto).
  pose proof (lf_abs_in_file f oid loc Hfwf Ha) as Hin.
  destruct (range_next_owner (set_next_file_lsn two64 m) L _ Hs Hwf Hm f loc Hf Hin)
    as (p & fam & Hnext & Hk & Hp & Hfam).
  eapply wp_unwrap; [exact Hnext|]. w_steps. eapply wp_unwrap; [exact Hp|]. w_steps.
  assert ((list_to_map dn : gmap Z Z) !! oid = None) as Hnone by by apply not_elem_of_list_to_map_1.
  pose proof (live_le L (list_to_map dn) f Hs Hwf Hf Hsub). pose proof (entries_u64 f Hfwf).
  pose proof (live_nonneg (list_to_map dn) f). pose proof (fo_live _ _ _ _ Hfam) as Hlive.
  pose proof (locs_oid_u64 L oid loc Hwf Hloc).
  assert (alter (set_fam_live_objects (wrap64 (fam_live_objects fam + 1))) p (arcs m)
    = <[p := set_fam_live_objects (wrap64 (fam_live_objects fam + 1)) fam]> (arcs m)) as Ealter.
  { apply map_eq. intros q. simpl in Hp. rewrite lookup_alter, lookup_insert.
    repeat case_decide; subst; try done. by rewrite Hp. }
  apply HQ; [|done]. split.
  - rewrite <- Ealter, list_to_map_snoc by done.
    apply (fams_ok_updated (set_next_file_lsn two64 m) L _ Hs Hwf Hm f p fam
      (set_fam_live_objects (wrap64 (fam_live_objects fam + 1)))); try done.
    + destruct Hfam. split; simpl; try done. rewrite live_insert_new, decide_True by done.
      rewrite wrap64_small; u64_lia.
    + intros g fam' Hg Hne Hg'. destruct Hg'. split; try done. rewrite live_insert_new by done.
      rewrite decide_False; [lia|]. rewrite Forall_forall in Hwf.
      apply (in_file_disjoint f g); auto. by destruct (sorted_elem L f g Hs Hf Hg) as [->|].
  - rewrite list_to_map_snoc by done. by apply table_ok_write.
  - split; [u64_lia|]. intros i. rewrite fmap_app, elem_of_app. simpl.
    intros [Hi| ->%list_elem_of_singleton]; [specialize (Hle i Hi); lia|lia].
Qed.
End locations.

(** ** [Config::open] *)

Section open.
Context `{Deps, !DepsLaws}.
Context (L : list LogFile) (o0 : os).

(** While the directory is prepared. *)
Record opening (o : os) : Prop := {
  og_disk : disk_ok (os_fs o) L;
  og_passes : passes (os_fs o0) (os_fs o) [L];
  og_counter : os_tmp_counter o = os_tmp_counter o0;
  og_thread : os_thread o = os_thread o0;
  og_faults : os_faults o `suffix_of` os_faults o0;
}.

Lemma opening_upd F o o' : opening o → reached (os_fs o) F [L] L → os_upd F o o' → opening o'.
Proof.
  intros [_ Hp] [Hd Hp'] (<-&?&?&?). split; [done| |congruence..|by etrans].
  eapply passes_mono; [by eapply passes_trans|]. set_solver.
Qed.

Lemma opening_same o o' : opening o → os_upd (os_fs o) o o' → opening o'.
Proof. intros Ho. eapply opening_upd; [done|]. apply reached_refl, Ho. Qed.

Lemma opening_injected o : opening o → injected o → injected o0.
Proof. intros [] ?. by eapply injected_suffix. Qed.

Lemma opening_interrupted o o' : opening o → injected o → opening o' → interrupted o0 L o'.
Proof. intros Ho Hi []. split; [by eapply opening_injected|done]. Qed.

(** A call whose result is ignored. *)
Lemma wp_try_call {A} (eff : fs → (A + ErrorKind) * fs) o (P : A + ErrorKind → os → Prop) E C :
  opening o → reached (os_fs o) (eff (os_fs o)).2 [L] L →
  (∀ o', opening o' → fs_heap_exists (os_fs o') = fs_heap_exists (eff (os_fs o)).2 → P (eff (os_fs o)).1 o') →
  (∀ e o', opening o' → injected o → fs_heap_exists (os_fs o') = fs_heap_exists (os_fs o) → P (inr e) o') →
  (∀ o', interrupted o0 L o' → C o') →
  wp (try (atomic_call eff)) P E C o.
Proof.
  intros Ho Hd HP HE HC. w_steps. apply wp_atomic.
  - intros a F o' Heff Hu. rewrite Heff in *. apply HP; [by eapply opening_upd|].
    by rewrite (os_upd_fs _ _ _ Hu).
  - intros e F o' Heff Hu. rewrite Heff in *. apply HP; [by eapply opening_upd|].
    by rewrite (os_upd_fs _ _ _ Hu).
  - intros e o' Hi Hu. apply HE; [|done|by rewrite (os_upd_fs _ _ _ Hu)].
    by eapply opening_same.
  - intros o' Hi [Hu|Hu]; apply HC; eapply opening_interrupted; try done;
      [by eapply opening_same|by eapply opening_upd].
Qed.

Definition ready (o : os) : Prop :=
  opening o ∧ (fs_heap_exists (os_fs o) = true ∨ injected o0).

(** The directory exists afterwards, unless something failed. *)
Lemma wp_prepare_heap o (Q : () → os → Prop) E C :
  opening o → (∀ o', ready o' → Q () o') → (∀ o', interrupted o0 L o' → C o') →
  wp prepare_heap Q E C o.
Proof.
  intros Ho HQ HC. unfold prepare_heap. apply wp_bind.
  assert (∀ o1, opening o1 →
    wp (try create_dir_all;; mret ()) Q E C o1) as Hcreate.
  { intros o1 Ho1. apply wp_bind. apply wp_try_call; [done|..|done].
    - simpl. destruct (og_disk _ Ho1). split; [by split|apply passes_heap].
    - intros o2 Ho2 Hh. w_steps. apply HQ. split; [done|]. by left.
    - intros e o2 Ho2 Hi _. w_steps. apply HQ. split; [done|]. right. by apply (opening_injected o1). }
  apply wp_try_call; [done|..|done].
  - destruct (fs_heap_exists (os_fs o)); apply reached_refl, Ho.
  - intros o1 Ho1 Hh. destruct (fs_heap_exists (os_fs o)) eqn:E'; simpl in *.
    + w_steps. apply HQ. split; [done|]. left. congruence.
    + apply Hcreate; auto.
  - intros e o1 Ho1 Hi Hh. assert (ready o1) as Hr.
    { split; [done|]. right. by apply (opening_injected o). }
    destruct e; try (w_steps; apply HQ; done). apply Hcreate; auto.
Qed.

Lemma reached_file_create F name :
  disk_ok F L → ignored_name name →
  reached F (if fs_heap_exists F then
             match fs_dir F !! name with
             | Some ino => (@inl () ErrorKind (), set_inodes (<[ino := []]> (fs_inodes F)) F)
             | None => (inl (), fs_create name F)
             end
           else (inr NotFound, F)).2 [L] L.
Proof.
  intros Hd Hi. destruct (fs_heap_exists F) eqn:Eh; [|by apply reached_refl].
  destruct (fs_dir F !! name) as [ino|] eqn:En; simpl.
  - split; [by eapply disk_ok_truncate|by eapply passes_truncate].
  - split; [by apply disk_ok_create|]. by eapply (passes_staged F _ name).
Qed.

(** The marker files and the lock. *)
Lemma wp_prepare_lock o (Q : () → os → Prop) E C :
  ready o → (∀ o', opening o' → fs_heap_exists (os_fs o') = true → Q () o') →
  (∀ e o', interrupted o0 L o' → E e o') → (∀ o', interrupted o0 L o' → C o') →
  wp prepare_lock Q E C o.
Proof.
  intros [Ho Hh] HQ HE HC. unfold prepare_lock. apply wp_bind.
  pose proof (reached_file_create (os_fs o) LEGEND (og_disk _ Ho) ignored_legend) as Hd1.
  assert (∀ o1, ready o1 → wp (try (file_create_root WARN);; open_dir;; try_lock_exclusive) Q E C o1) as Hrest.
  { intros o1 [Ho1 Hh1]. apply wp_bind.
    assert (∀ o2, ready o2 → wp (open_dir;; try_lock_exclusive) Q E C o2) as Hrest.
    { intros o2 [Ho2 Hh2]. w_steps. apply wp_atomic.
      - intros [] F o3 HF Hu. destruct (fs_heap_exists (os_fs o2)) eqn:E2; [|done]. injection HF as <-.
        assert (opening o3) as Ho3 by by eapply opening_same.
        apply wp_query with (); [done|..]; [|intros e o4 Hi Hu4; apply HE|intros o4 Hi Hu4; apply HC];
          try (eapply opening_interrupted; [exact Ho3|done|by eapply opening_same]).
        intros o4 Hu4. apply HQ; [by eapply opening_same|].
        by rewrite (os_upd_fs _ _ _ Hu4), (os_upd_fs _ _ _ Hu).
      - intros e F o3 HF Hu. destruct (fs_heap_exists (os_fs o2)) eqn:E2; [done|].
        destruct Hh2 as [?|Hi]; [done|]. injection HF as <- <-. apply HE. split; [done|].
        rewrite (os_upd_fs _ _ _ Hu). apply Ho2.
      - intros e o3 Hi Hu. apply HE. eapply opening_interrupted; [done..|]. by eapply opening_same.
      - intros o3 Hi Hu. apply HC. eapply opening_interrupted; [exact Ho2|done|].
        destruct Hu as [Hu|Hu]; (eapply opening_upd; [done| |exact Hu]); [apply reached_refl, Ho2|].
        destruct (fs_heap_exists (os_fs o2)); apply reached_refl, Ho2. }
    apply wp_try_call; [done|..|done]; simpl.
    - split; [eapply disk_ok_ext; [apply Ho1|..]; done|apply passes_root].
    - intros o2 Ho2 E2. apply Hrest. split; [done|]. rewrite E2. exact Hh1.
    - intros e o2 Ho2 Hi _. apply Hrest. split; [done|]. right. by apply (opening_injected o1). }
  apply wp_try_call; [done|done|..|done].
  - intros o1 Ho1 E1. apply Hrest. split; [done|]. rewrite E1.
    destruct (fs_heap_exists (os_fs o)) eqn:Eh; [left|right; by destruct Hh].
    by destruct (fs_dir (os_fs o) !! LEGEND).
  - intros e o1 Ho1 Hi _. apply Hrest. split; [done|]. right. by apply (opening_injected o).
Qed.

(** The last part: the tables, from the files in order. *)
Definition opened (m : Marble) (o : os) : Prop :=
  Inv (MkWorld o m) L unclaimed ∧ opening o ∧ ∀ n, fs_dir (os_fs o) !! tmp_file_name n = None.

Lemma wp_recover_locations st o (Q : FileMap * PT * Z → os → Prop) E C :
  sorted L → Forall lf_wf L → recovered L st →
  (∀ m t mx, located L (iter_order (locs L)) m t mx →
     next_file_lsn m = next_file_lsn (rec_fams st) → Q (m, t, mx) o) →
  wp (foldM recover_location (rec_fams st, pt_default, 0) (iter_order (recovery_page_table st))) Q E C o.
Proof.
  intros Hs Hwf [Hm Ht _ _] HQ. rewrite Ht.
  eapply wp_mono with (E := E) (C := C); [apply (wp_foldM _ (λ dn acc o',
    o' = o ∧ located L dn acc.1.1 acc.1.2 acc.2 ∧ next_file_lsn acc.1.1 = next_file_lsn (rec_fams st)))| |done..].
  - split; [done|]. split; [|done]. split; simpl; [done| |split; [done|set_solver]].
    intros oid. by rewrite pt_read_default, lookup_empty.
  - intros dn [oid loc] rest [[m t] mx] o' Ee (-> & Hl & Hn). simpl in *.
    assert ((oid, loc) ∈ iter_order (locs L)) as Hin by (rewrite Ee; apply elem_of_app; right; by left).
    apply iter_order_elem in Hin. pose proof (iter_order_nodup (locs L)) as Hnd.
    assert (oid ∉ dn.*1) as Hfresh.
    { rewrite Ee, fmap_app, fmap_cons in Hnd. apply NoDup_app in Hnd as (_ & Hd & _).
      intros Hx. apply (Hd oid Hx). by left. }
    apply (wp_recover_location L Hs Hwf dn); try done.
    + apply map_subseteq_spec. intros i l Hi. apply elem_of_list_to_map_2 in Hi.
      apply iter_order_elem. rewrite Ee. apply elem_of_app. by left.
    + intros m' t' Hl' En. simpl. split_and!; [done..|congruence].
  - intros [[m t] mx] o' (-> & Hl & Hn). by apply HQ.
Qed.

Lemma wp_open config o (Q : Marble → os → Prop) E C :
  o = o0 → disk_ok (os_fs o) L → 0 ≤ os_tmp_counter o → validate config = inl () →
  (∀ m o', opened m o' → Q m o') →
  (∀ e o', injected o0 → damaged L (os_fs o') → E e o') →
  (∀ o', injected o0 → damaged L (os_fs o') → C o') →
  wp (open config) Q E C o.
Proof.
  intros -> Hd Hcnt Hval HQ HE HC. unfold open. rewrite Hval.
  assert (opening o0) as Ho by (split; [done|apply passes_refl|done..]).
  assert (∀ o', interrupted o0 L o' → injected o0 ∧ damaged L (os_fs o')) as Hint.
  { intros o' [? ?]. split; [done|]. by exists L. }
  apply wp_bind, wp_prepare_heap; [done| |by intros ? []%Hint; auto]. intros o1 Hr1.
  apply wp_bind, wp_prepare_lock; [done| |by intros ?? []%Hint; auto|by intros ? []%Hint; auto].
  intros o2 Ho2 Hh2.
  assert (∀ o', interrupted o2 L o' → injected o0 ∧ damaged L (os_fs o')) as Hint2.
  { intros o' [? ?]. split; [by apply (opening_injected o2)|]. by exists L. }
  apply wp_bind, (wp_read_storage_directory L); [apply Ho2|done| |by intros ?? []%Hint2; auto|by intros ? []%Hint2; auto].
  intros o3 Hrd [Hd3 Hp3] Htmp.
  assert (opening o3) as Ho3.
  { destruct Hrd, Ho2. split; try done; [|congruence..|by etrans].
    eapply passes_mono; [by eapply passes_trans|]. set_solver. }
  apply wp_bind, (wp_recover_files L (os_fs o3) Hd3); [done| |..].
  2: { intros e o4 Hi Hdm. apply HE; [by apply (opening_injected o3)|done]. }
  2: { intros o4 Hi Hdm. apply HC; [by apply (opening_injected o3)|done]. }
  intros st o4 Hst Hu4. pose proof (opening_same _ _ Ho3 Hu4) as Ho4.
  apply wp_bind. apply wp_recover_locations; [apply Hd3|apply Hd3|done|].
  intros m t mx Hl Hn. w_steps. apply HQ. split; [|split; [done|by rewrite (os_upd_fs _ _ _ Hu4)]].
  destruct Hl as [Hm Ht [Hmx Hle]], Hst as [_ _ [Hl0 Hl1] [Hz0 Hz1]].
  rewrite iter_order_to_map in Hm, Ht. split; [apply Ho4|]. split; simpl; try done.
  - rewrite (os_upd_fs _ _ _ Hu4). destruct Hrd. congruence.
  - destruct Hm as [[Hp Hf] Hm2 Hm3 _]. split; try done. split; simpl.
    + rewrite wrap64_small; u64_lia.
    + intros f Hf'. rewrite wrap64_small by u64_lia. specialize (Hl1 f Hf'). specialize (Hz1 f Hf'). lia.
  - intros oid [loc Hloc]. apply Hle, (list_elem_of_fmap_2 fst _ (oid, loc)). by apply iter_order_elem.
  - split; [by rewrite (og_counter _ Ho4)|]. intros n _. simpl. by rewrite (os_upd_fs _ _ _ Hu4).
Qed.
End open.
