(* ===== verification/StoreSpec.v ===== *)
(** StoreSpec: the store as a whole. The operations refine the finite map of [Spec], a
    batch is atomic with respect to crashes, and reopening keeps the contents. *)
From S2P Require Import Prelude Effects Os Deps Locations LocationTable Config Metadata.
From S2P Require Import ZstdDict Storage State FileMap WritePath ReadPath Recovery Store Spec.
From S2P Require Import FileMapSpec Layout Invariant PowerLoss ReadSpec WriteSpec InstallSpec BatchSpec.
From S2P Require Import ShardSpec RecoverySpec.

(** ** The abstraction *)

Section view.
Context `{Deps, !DepsLaws}.
Implicit Types L : list LogFile.

(** The contents of a store: the objects whose last entry is not a deletion. *)
Definition view L : AbsStore := omap (λ v, v) (vals L).

Lemma view_lookup L oid : view L !! oid = mjoin (vals L !! oid).
Proof. etrans; [apply (lookup_omap (λ v : option bytes, v))|]. by destruct (vals L !! oid) as [[]|]. Qed.

Lemma view_write batch L L' :
  vals L' = batch_map batch ∪ vals L → view L' = spec_write batch (view L).
Proof.
  intros E. apply map_eq. intros oid. rewrite view_lookup, E. clear E L'.
  induction batch as [|[k v] batch IH] using rev_ind.
  - change (batch_map []) with (∅ : gmap Z (option bytes)). rewrite (left_id_L ∅ (∪)).
    simpl. by rewrite view_lookup.
  - rewrite batch_map_snoc, spec_write_snoc, spec_set_lookup, <- insert_union_l, lookup_insert. simpl.
    case_decide; [by destruct v|exact IH].
Qed.
End view.

(** ** [write_batch] *)

Section write.
Context `{Deps, !DepsLaws}.
Context (config : Config) (w : World) (L : list LogFile) (batch : list (Z * option bytes)).

(** The contents of the disk: those before the batch, or those after it. *)
Definition old_or_new (F : fs) : Prop :=
  ∃ L', disk_ok F L' ∧ (view L' = view L ∨ view L' = spec_write batch (view L)).

(** Room for the batch: object ids are [u64]s, and neither the sequence numbers nor the
    temporary names run out. *)
Record batch_fits : Prop := {
  bf_oids : Forall (λ e, is_u64 e.1) batch;
  bf_room : next_file_lsn (w_fm w) + batch_room batch + 1 < 2 ^ 62;
  bf_tmp : os_tmp_counter (w_os w) + 1 < two64;
}.

Definition batch_oversize : Prop := ∃ oid v, (oid, v) ∈ batch ∧ oversize config v.

(** The same, with how the disk has come there. *)
Definition went_old_or_new (F : fs) : Prop :=
  ∃ L', reached (os_fs (w_os w)) F [L; L'] L' ∧ (view L' = view L ∨ view L' = spec_write batch (view L)).

Lemma went_on_disk F : went_old_or_new F → old_or_new F.
Proof. intros (L' & [Hd _] & Hv). by exists L'. Qed.

Lemma stages_new fs :
  (∃ k, lf_vals <$> fs = take k (pieces config 0 ∅ batch)) → stages L fs ⊆ [L; L ++ fs].
Proof.
  intros [k Hk]. unfold pieces in Hk. rewrite sharding_iter_new in Hk.
  assert (length fs ≤ 1)%nat as Hlen.
  { rewrite <- (length_fmap lf_vals), Hk, length_take. case_decide; simpl; lia. }
  intros L' (j & Hj & ->)%stages_elem. destruct j as [|j].
  - rewrite take_0, app_nil_r. by left.
  - rewrite take_ge by lia. right. by left.
Qed.

Lemma batch_map_vals fs :
  (∃ k, lf_vals <$> fs = take k (pieces config 0 ∅ batch)) →
  view (L ++ fs) = view L ∨ view (L ++ fs) = spec_write batch (view L).
Proof.
  intros [k Hk]. unfold pieces in Hk. rewrite sharding_iter_new in Hk.
  assert (fs = [] ∨ ∃ f, fs = [f] ∧ lf_vals f = batch_map batch) as [->|(f & -> & Hf)].
  { case_decide; destruct k as [|[|k]]; simpl in Hk; destruct fs as [|f [|]]; simplify_eq/=; eauto. }
  - left. by rewrite app_nil_r.
  - right. apply view_write. by rewrite vals_snoc, Hf.
Qed.

Lemma batch_map_vals_all fs :
  lf_vals <$> fs = pieces config 0 ∅ batch → vals (L ++ fs) = batch_map batch ∪ vals L.
Proof.
  intros Hv. unfold pieces in Hv. rewrite sharding_iter_new in Hv. case_decide as Hb.
  - apply fmap_nil_inv in Hv as ->. rewrite app_nil_r, Hb. symmetry. apply (left_id_L ∅ (∪)).
  - destruct fs as [|f [|]]; try done. injection Hv as Hv. by rewrite vals_snoc, Hv.
Qed.

Lemma pieces_new_ids oid : oid ∈ piece_ids (pieces config 0 ∅ batch) → oid ∈ batch.*1.
Proof.
  unfold pieces. rewrite sharding_iter_new. rewrite piece_ids_elem. case_decide.
  - intros (m & Hm & _). by apply not_elem_of_nil in Hm.
  - intros (m & ->%list_elem_of_singleton & Hs). by apply batch_map_dom.
Qed.

Lemma pieces_new_room :
  pieces_room (pieces config 0 ∅ batch) ≤ batch_room batch + 1 ∧ len (pieces config 0 ∅ batch) ≤ 1.
Proof.
  unfold pieces. rewrite sharding_iter_new. pose proof (batch_room_length batch).
  pose proof (batch_map_room batch). case_decide; simpl; lia.
Qed.

(** The store after the batch. *)
Record batch_written (L' : list LogFile) (w' : World) : Prop := {
  bw_inv : Inv w' L' unclaimed;
  bw_vals : vals L' = batch_map batch ∪ vals L;
  bw_next : next_file_lsn (w_fm w') ≤ next_file_lsn (w_fm w) + batch_room batch + 1;
  bw_tmp : os_tmp_counter (w_os w') ≤ os_tmp_counter (w_os w) + 1;
  bw_faults : os_faults (w_os w') `suffix_of` os_faults (w_os w);
  bw_passes : passes (os_fs (w_os w)) (os_fs (w_os w')) [L; L'];
  bw_journal : fsync_each_batch config = true → fs_journal (os_fs (w_os w')) = [];
}.

Lemma wp_write_batch_went :
  Inv w L unclaimed → batch_fits →
  wp (write_batch config batch)
    (λ _ w', ∃ L', batch_written L' w')
    (λ e w', went_old_or_new (os_fs (w_os w')) ∧
       (injected (w_os w) ∨ e = Unsupported ∧ batch_oversize))
    (λ w', went_old_or_new (os_fs (w_os w')) ∧ injected (w_os w)) w.
Proof.
  intros Hi [Hu Hr Ht]. unfold write_batch. rewrite Forall_forall in Hu.
  pose proof pieces_new_room as [Hpr Hpl].
  assert (∀ F, prefix_on_disk w L (pieces config 0 ∅ batch) F → went_old_or_new F) as Hpx.
  { intros F (k & fs & Hv & [Hd Hp]). exists (L ++ fs). split; [|apply batch_map_vals; eauto].
    split; [done|]. eapply passes_mono; [done|]. apply stages_new. eauto. }
  eapply wp_mono; [apply (wp_shard_batch config w L unclaimed 0 ∅ batch); try done|..].
  - unfold pieces. rewrite sharding_iter_new. case_decide as Hb; intros m Hm.
    + by apply not_elem_of_nil in Hm.
    + apply list_elem_of_singleton in Hm as ->. intros E. destruct batch as [|[k v] l]; [done|].
      assert (is_Some (batch_map ((k, v) :: l) !! k)) as Hs by (apply batch_map_dom; by left).
      rewrite E, lookup_empty in Hs. by destruct Hs.
  - unfold pieces, piece_ids. rewrite sharding_iter_new. case_decide; simpl; [constructor|].
    rewrite app_nil_r. apply NoDup_fst_map_to_list.
  - apply pieces_new_ids.
  - intros oid (e & -> & Hin)%list_elem_of_fmap. by apply Hu.
  - lia.
  - lia.
  - right. by left.
  - intros [] w' (fs & [Hi' Hv _ Hn Ht' Hf Hp] & Hj). exists (L ++ fs). split; [done| |lia|lia|done| |done].
    + by apply batch_map_vals_all.
    + eapply passes_mono; [done|]. apply stages_new. exists (length (pieces config 0 ∅ batch)).
      by rewrite firstn_all.
  - intros e w' [Hd He]. split; [by apply Hpx|].
    destruct He as [?|(-> & m & oid & v & Hm & Hmv & ?)]; [by left|right]. split; [done|].
    exists oid, v. split; [|done]. unfold pieces in Hm. rewrite sharding_iter_new in Hm.
    case_decide; [by apply not_elem_of_nil in Hm|]. apply list_elem_of_singleton in Hm as ->.
    by apply batch_map_elem.
  - intros w' [Hd ?]. split; [by apply Hpx|done].
Qed.

Lemma wp_write_batch :
  Inv w L unclaimed → batch_fits →
  wp (write_batch config batch)
    (λ _ w', ∃ L', Inv w' L' unclaimed ∧ vals L' = batch_map batch ∪ vals L
       ∧ next_file_lsn (w_fm w') ≤ next_file_lsn (w_fm w) + batch_room batch + 1
       ∧ os_tmp_counter (w_os w') ≤ os_tmp_counter (w_os w) + 1
       ∧ os_faults (w_os w') `suffix_of` os_faults (w_os w))
    (λ e w', old_or_new (os_fs (w_os w')) ∧
       (injected (w_os w) ∨ e = Unsupported ∧ batch_oversize))
    (λ w', old_or_new (os_fs (w_os w')) ∧ injected (w_os w)) w.
Proof.
  intros Hi Hfit. eapply wp_mono; [by apply wp_write_batch_went|..]; simpl.
  - intros _ w' (L' & []). by exists L'.
  - intros e w' [Hw He]. split; [by apply went_on_disk|done].
  - intros w' [Hw He]. split; [by apply went_on_disk|done].
Qed.
End write.

(** ** Dropping a store *)

Section drop.
Context `{Deps, !DepsLaws}.
Context (w0 : World) (L : list LogFile) (claimed : Z → bool).

(** While the files are dropped: those that are gone were empty. *)
Record dropping (dn : list (Z * Z)) (w : World) (L' : list LogFile) : Prop := {
  dp_disk : disk_ok (os_fs (w_os w)) L';
  dp_sub : L' `sublist_of` L;
  dp_locs : locs L' = locs L;
  dp_vals : vals L' = vals L;
  dp_left f : f ∈ L → lf_location f ∉ dn.*1 → f ∈ L';
  dp_arcs k p : cm_get (fams (w_fm w0)) k = Some p → k ∉ dn.*1 → arcs (w_fm w) !! p = arcs (w_fm w0) !! p;
  dp_counter : os_tmp_counter (w_os w) = os_tmp_counter (w_os w0);
  dp_faults : os_faults (w_os w) `suffix_of` os_faults (w_os w0);
  dp_steady : steady (os_fs (w_os w0)) (os_fs (w_os w)) L;
}.

Context (Hi : Inv w0 L claimed).

Lemma dropping_file L' f :
  L' `sublist_of` L → locs L' = locs L → vals L' = vals L → f ∈ L' → live (locs L) f = 0 →
  ∀ F, disk_ok F L' →
  ∃ L'', L'' `sublist_of` L ∧ locs L'' = locs L ∧ vals L'' = vals L ∧
    disk_ok (fs_unlink (lf_name f) F) L'' ∧ (∀ g, g ∈ L' → g ≠ f → g ∈ L'') ∧
    steady F (fs_unlink (lf_name f) F) L.
Proof.
  intros Hsub El Ev Hf Hl F Hd. apply list_elem_of_split in Hf as (a & b & ->).
  destruct (dead_file_irrelevant a f b) as [El' Ev']; [apply Hd|apply Hd|by rewrite El|].
  exists (a ++ b). split_and!; [|congruence|congruence|by apply disk_ok_remove|set_solver|].
  - etrans; [|exact Hsub]. apply sublist_app; [done|]. by apply sublist_cons.
  - eapply steady_passes; [by eapply passes_remove|]. intros M ->%list_elem_of_singleton. congruence.
Qed.

Lemma drop_entry dn k p rest :
  cm_iter (fams (w_fm w0)) = dn ++ (k, p) :: rest →
  k ∉ dn.*1 ∧ ∃ f fam, f ∈ L ∧ k = lf_location f ∧ cm_get (fams (w_fm w0)) k = Some p ∧
    arcs (w_fm w0) !! p = Some fam ∧ fam_ok (locs L) claimed f fam.
Proof.
  intros E. pose proof (inv_fams _ _ _ Hi) as Hm.
  assert (cm_get (fams (w_fm w0)) k = Some p) as Hk.
  { apply cm_iter_elem. rewrite E. apply elem_of_app. right. by left. }
  split.
  - pose proof (cm_iter_nodup (fams (w_fm w0))) as Hn. rewrite E, fmap_app, fmap_cons in Hn.
    apply NoDup_app in Hn as (_ & Hn & _). intros Hin. apply (Hn k Hin). by left.
  - destruct (fw_ptr _ (fs_wf _ _ _ Hm) k p Hk) as (fam & Hp & _).
    destruct (fs_key _ _ _ Hm k fam) as (f & Hf & ->); [apply fam_at_Some; eauto|].
    destruct (fs_fam _ _ _ Hm f Hf) as (fam' & (p' & Hk' & Hp')%fam_at_Some & Hfam).
    exists f, fam. split_and!; try done. congruence.
Qed.

Lemma wp_drop_store :
  wp drop_store
    (λ _ w', ∃ L', disk_ok (os_fs (w_os w')) L' ∧ view L' = view L
       ∧ os_tmp_counter (w_os w') = os_tmp_counter (w_os w0)
       ∧ os_faults (w_os w') `suffix_of` os_faults (w_os w0)
       ∧ steady (os_fs (w_os w0)) (os_fs (w_os w')) L)
    (λ _ _, False)
    (λ w', injected (w_os w0) ∧ ∃ L', disk_ok (os_fs (w_os w')) L' ∧ view L' = view L
       ∧ steady (os_fs (w_os w0)) (os_fs (w_os w')) L) w0.
Proof.
  unfold drop_store. w_steps.
  eapply wp_mono with (E := λ _ _, False) (C := λ w', injected (w_os w0) ∧
    ∃ L', disk_ok (os_fs (w_os w')) L' ∧ view L' = view L
      ∧ steady (os_fs (w_os w0)) (os_fs (w_os w')) L);
    [apply (wp_forM _ (λ dn w', ∃ L', dropping dn w' L'))| |done|done].
  - exists L. split; try done; [apply Hi|apply steady_refl].
  - intros dn [k p] rest w' E [L' [Hd Hsub El Ev Hleft Harcs Hc Hf Hst]].
    destruct (drop_entry dn k p rest E) as (Hn & f & fam & HfL & -> & Hk & Hp & Hfam).
    pose proof (Harcs _ _ Hk Hn) as Hp'. rewrite Hp in Hp'. unfold drop_arc, drop_fam.
    w_steps. eapply wp_deref; [done|]. w_steps. w_clean.
    assert (∀ L'' w'', disk_ok (os_fs (w_os w'')) L'' → L'' `sublist_of` L → locs L'' = locs L →
      vals L'' = vals L → (∀ g, g ∈ L' → g ≠ f → g ∈ L'') →
      arcs (w_fm w'') = delete p (arcs (w_fm w')) → os_tmp_counter (w_os w'') = os_tmp_counter (w_os w') →
      os_faults (w_os w'') `suffix_of` os_faults (w_os w') →
      steady (os_fs (w_os w0)) (os_fs (w_os w'')) L →
      ∃ L'', dropping (dn ++ [(lf_location f, p)]) w'' L'') as Hnext.
    { intros L'' w'' Hd' Hs' El' Ev' Hin Ea Ec Ef Hst''. exists L''.
      split; try done; [|..|congruence|by etrans]; rewrite fmap_app.
      - intros g Hg Hg'. apply not_elem_of_app in Hg' as [? Hg']. apply Hin; [by apply Hleft|].
        intros ->. apply Hg'. by left.
      - intros k q Hq Hk'. apply not_elem_of_app in Hk' as [? Hk'].
        rewrite Ea, lookup_delete_ne; [by apply (Harcs k)|]. intros ->. apply Hk'.
        apply (fm_wf_inj (w_fm w0) k (lf_location f)) in Hq as ->; [by left|by eapply inv_fams|done]. }
    rewrite (fo_live _ _ _ _ Hfam).
    destruct (Z.eqb_spec (live (locs L) f) 0) as [Hz|Hnz].
    + w_steps. eapply wp_unwrap; [apply (fo_path _ _ _ _ Hfam)|]. w_steps.
      destruct (dropping_file L' f Hsub El Ev (Hleft f HfL Hn) Hz _ Hd) as (L'' & ? & ? & ? & ? & ? & Hst2).
      pose proof (steady_trans _ _ _ _ _ Hst Hst2 eq_refl) as Hst3.
      change (w_os (set_file_map _ w')) with (w_os w').
      apply wp_remove_file.
      * intros o2 (E2 & Ec & _ & Es). w_steps. apply (Hnext L''); simpl; rewrite ?E2; done.
      * intros e o2 _ (E2 & Ec & _ & Es). w_steps. apply (Hnext L'); simpl; rewrite ?E2; done.
      * intros o2 Hinj Hu. split; [by eapply injected_suffix|]. unfold view.
        destruct Hu as [(E2&_)|(E2&_)]; simpl; rewrite E2; [exists L'|exists L'']; split_and!; (done || congruence).
    + w_steps. by apply (Hnext L').
  - intros [] w' [L' []]. exists L'. split_and!; try done. unfold view. congruence.
Qed.
End drop.
