(* ===== verification/FrameSpec.v ===== *)
(** FrameSpec: what writing a batch leaves alone in the file map, whether it succeeds or
    fails: the files that were there keep their place and their claims.

    [wlp] is the weakest precondition without the promise not to panic; what it says
    about a computation is added to what [wp] says with [wp_wlp]. *)
From S2P Require Import Prelude Effects Os Deps Locations LocationTable Config Metadata.
From S2P Require Import ZstdDict Storage State FileMap WritePath FileMapSpec.

(** ** [wlp] *)

Section wlp.
Context {S : Type}.

Definition wlp {A} (m : M S A) (Q : A → S → Prop) (E : ErrorKind → S → Prop) (s : S) : Prop :=
  match m s with
  | (Ok a, s') => Q a s'
  | (Err e, s') => E e s'
  | _ => True
  end.

Lemma wlp_bind {A B} (m : M S A) (k : A → M S B) Q E s :
  wlp m (λ a s', wlp (k a) Q E s') E s → wlp (m ≫= k) Q E s.
Proof. unfold wlp, mbind, M_bind. destruct (m s) as [[] ?]; auto. Qed.

Lemma wlp_mono {A} (m : M S A) (Q Q' : A → S → Prop) (E E' : ErrorKind → S → Prop) s :
  wlp m Q E s → (∀ a s', Q a s' → Q' a s') → (∀ e s', E e s' → E' e s') → wlp m Q' E' s.
Proof. unfold wlp. destruct (m s) as [[] ?]; auto. Qed.

Lemma wlp_unwrap {A} (o : option A) (Q : A → S → Prop) E s :
  (∀ a, o = Some a → Q a s) → wlp (unwrap o) Q E s.
Proof. intros HQ. destruct o; [by apply HQ|exact I]. Qed.

Lemma wlp_assert b (Q : () → S → Prop) E s :
  (b = true → Q () s) → wlp (assert_that b) Q E s.
Proof. intros HQ. destruct b; [by apply HQ|exact I]. Qed.

Lemma wlp_try {A} (m : M S A) (Q : A + ErrorKind → S → Prop) E s :
  wlp m (λ a, Q (inl a)) (λ e, Q (inr e)) s → wlp (try m) Q E s.
Proof. unfold wlp, try. destruct (m s) as [[] ?]; auto. Qed.

(** [wp] facts and [wlp] facts together. *)
Lemma wp_wlp {A} (m : M S A) Q E C Q' E' s :
  wp m Q E C s → wlp m Q' E' s →
  wp m (λ a s', Q a s' ∧ Q' a s') (λ e s', E e s' ∧ E' e s') C s.
Proof. unfold wp, wlp. destruct (m s) as [[] ?]; auto. Qed.

(** [m] keeps [I], whatever it returns. *)
Definition keeps {A} (I : S → Prop) (m : M S A) : Prop :=
  ∀ s, I s → wlp m (λ _, I) (λ _, I) s.

Section rules.
Context (I : S → Prop).

Lemma keeps_ret {A} (a : A) : keeps I (mret a).
Proof. by intros s. Qed.

Lemma keeps_bind {A B} (m : M S A) (k : A → M S B) :
  keeps I m → (∀ a, keeps I (k a)) → keeps I (m ≫= k).
Proof.
  intros Hm Hk s Hs. apply wlp_bind. eapply wlp_mono; [by apply Hm|..]; [|done].
  intros a s' Hs'. by apply Hk.
Qed.

Lemma keeps_fail {A} e : keeps I (fail (A := A) e).
Proof. by intros s. Qed.

Lemma keeps_gets {A} (f : S → A) : keeps I (gets f).
Proof. by intros s. Qed.

Lemma keeps_modify f : (∀ s, I s → I (f s)) → keeps I (modify f).
Proof. intros Hf s Hs. by apply Hf. Qed.

Lemma keeps_unwrap {A} (o : option A) : keeps I (unwrap o).
Proof. intros s Hs. by apply wlp_unwrap. Qed.

Lemma keeps_assert b : keeps I (assert_that b).
Proof. intros s Hs. by apply wlp_assert. Qed.

Lemma keeps_when b m : keeps I m → keeps I (when b m).
Proof. destruct b; [done|]. intros _. apply keeps_ret. Qed.

Lemma keeps_try {A} (m : M S A) : keeps I m → keeps I (try m).
Proof. intros Hm s Hs. by apply wlp_try, Hm. Qed.

Lemma keeps_finally {A} (m : M S A) cl : keeps I m → keeps I cl → keeps I (finally m cl).
Proof.
  intros Hm Hc. apply keeps_bind; [by apply keeps_try|]. intros r.
  apply keeps_bind; [done|]. intros _. destruct r; [apply keeps_ret|apply keeps_fail].
Qed.

Lemma keeps_on_error {A} (m : M S A) cl : keeps I m → keeps I cl → keeps I (on_error m cl).
Proof.
  intros Hm Hc. apply keeps_bind; [by apply keeps_try|]. intros [a|e]; [apply keeps_ret|].
  apply keeps_bind; [done|]. intros _. apply keeps_fail.
Qed.

Lemma keeps_foldM {A B} (f : B → A → M S B) b l :
  (∀ b x, keeps I (f b x)) → keeps I (foldM f b l).
Proof.
  intros Hf. revert b. induction l as [|x l IH]; intros b; [apply keeps_ret|]. by apply keeps_bind.
Qed.

Lemma keeps_forM {A} (f : A → M S ()) l : (∀ x, keeps I (f x)) → keeps I (forM l f).
Proof. intros Hf. induction l as [|x l IH]; [apply keeps_ret|]. by apply keeps_bind. Qed.
End rules.
End wlp.

Create HintDb keeps.
#[export] Hint Resolve keeps_ret keeps_fail keeps_gets keeps_unwrap keeps_assert : keeps.

(** Goes through the structure of a computation; what is left are its effects. *)
Ltac keeps_step :=
  lazymatch goal with
  | |- keeps _ (mbind _ _) => apply keeps_bind; [|intros ?]
  | |- keeps _ (when _ _) => apply keeps_when
  | |- keeps _ (try _) => apply keeps_try
  | |- keeps _ (finally _ _) => apply keeps_finally
  | |- keeps _ (on_error _ _) => apply keeps_on_error
  | |- keeps _ (foldM _ _ _) => apply keeps_foldM; intros ? ?
  | |- keeps _ (forM _ _) => apply keeps_forM; intros ?
  | |- keeps _ (let '(_, _) := ?p in _) => destruct p
  | |- keeps _ (match ?x with _ => _ end) => destruct x
  end.

Ltac keeps_steps := repeat (keeps_step; cbn beta); eauto with keeps.

(** ** The frame *)

Section frame.
Context `{Deps}.

(** The files of [m0] are in [m] at the same place, as claimed or unclaimed as they were. *)
Definition frame (m0 m : FileMap) : Prop :=
  ∀ k p fam, cm_get (fams m0) k = Some p → arcs m0 !! p = Some fam →
    cm_get (fams m) k = Some p ∧
    ∃ fam', arcs m !! p = Some fam' ∧ fam_rewrite_claim fam' = fam_rewrite_claim fam.

Definition arcs_fresh (m : FileMap) : Prop :=
  ∀ p fam, arcs m !! p = Some fam → p < next_arc m.

#[export] Instance frame_preorder : PreOrder frame.
Proof.
  split.
  - intros m k p fam Hk Hp. eauto.
  - intros m1 m2 m3 H12 H23 k p fam Hk Hp. destruct (H12 k p fam Hk Hp) as (Hk2 & fam2 & Hp2 & E2).
    destruct (H23 k p fam2 Hk2 Hp2) as (? & fam3 & ? & E3). split; [done|]. exists fam3. by rewrite E3.
Qed.

Lemma fm_wf_fresh m : fm_wf m → arcs_fresh m.
Proof. intros Hwf p fam. by apply fw_fresh. Qed.

(** While a file is written: the map has [m0]'s files, and perhaps the new one. *)
Record writing_at (m0 : FileMap) (b pb : Z) (m : FileMap) : Prop := {
  wa_frame : frame m0 m;
  wa_fresh : arcs_fresh m;
  wa_base : cm_get (fams m0) b = None;
  wa_ptr : arcs m0 !! pb = None;
  wa_new p : cm_get (fams m) b = Some p → p = pb;
}.
End frame.

Section write.
Context `{Deps, !DepsLaws}.
Context (m0 : FileMap).

(** *** Updates that no claim notices *)

Lemma updated_keeps b pb p h m :
  (∀ fam, fam_rewrite_claim (h fam) = fam_rewrite_claim fam) ∨ p = pb →
  writing_at m0 b pb m → writing_at m0 b pb (updated p h m).
Proof.
  intros Hh [Hf Hfr Hb Hp Hn]. split; try done.
  - intros k q fam Hk Hq. destruct (Hf k q fam Hk Hq) as (? & fam' & Hq' & E). split; [done|].
    unfold updated. simpl. rewrite lookup_alter. case_decide as Hd; [|eauto]. subst q.
    rewrite Hq'. simpl. eexists. split; [done|]. destruct Hh as [Hh| ->]; [by rewrite Hh|congruence].
  - intros q fam. unfold updated. simpl. rewrite lookup_alter. case_decide; [|apply Hfr].
    subst q. rewrite fmap_Some. intros (? & Hq & _). by eapply Hfr.
Qed.

Lemma keeps_deref b pb p : keeps (writing_at m0 b pb) (deref p).
Proof. unfold deref. keeps_steps. Qed.

Lemma keeps_update b pb p h :
  (∀ fam, fam_rewrite_claim (h fam) = fam_rewrite_claim fam) →
  keeps (writing_at m0 b pb) (update_fam p h).
Proof. intros Hh m Hm. apply updated_keeps; auto. Qed.

Context (b pb : Z).
Abbreviation I := (writing_at m0 b pb) (only parsing).
Abbreviation IW := (λ w, writing_at m0 b pb (w_fm w)) (only parsing).

Lemma keeps_decrement items : keeps I (decrement_evacuated_fams b items).
Proof.
  unfold decrement_evacuated_fams. keeps_steps; [apply keeps_deref|by apply keeps_update].
Qed.

Lemma keeps_finalize md n name : keeps I (finalize_fam b md n name).
Proof.
  unfold finalize_fam, install_metadata_and_path.
  keeps_steps; solve [apply keeps_deref|by apply keeps_update].
Qed.

Lemma keeps_drop_claim : keeps I (drop_claims [b]).
Proof.
  intros m Hm. unfold drop_claims. cbn [forM]. apply wlp_bind, wlp_bind.
  change (wlp match cm_get (fams m) b with
    | Some p => fam ← deref p; update_fam p (set_fam_rewrite_claim false);; assert_that (fam_rewrite_claim fam)
    | None => mret () end (λ _ m', I m') (λ _, I) m).
  destruct (cm_get (fams m) b) as [p|] eqn:E; [|done].
  apply wlp_bind. eapply wlp_mono; [by apply (keeps_deref b pb)|..]; [|done].
  intros fam m' Hm'. apply wlp_bind. apply (wlp_assert _ (λ _ m', I m')). intros _.
  apply updated_keeps; [right; by apply (wa_new _ _ _ _ Hm)|done].
Qed.

(** *** Lifting to the whole state *)

Lemma keeps_io {A} (m : IO A) : keeps IW (io m).
Proof. intros w Hw. unfold wlp, io, zoom. by destruct (m (w_os w)) as [[] ?]. Qed.

Lemma keeps_fm {A} (m : M FileMap A) : keeps I m → keeps IW (fm m).
Proof.
  intros Hm w Hw. specialize (Hm _ Hw). unfold wlp, fm, zoom in *.
  by destruct (m (w_fm w)) as [[] ?].
Qed.

Lemma keeps_table {A} (f : PT → option A * PT) : keeps IW (table f).
Proof.
  unfold table. keeps_steps. intros w Hw. unfold wlp. by destruct (f (w_table w)).
Qed.

#[local] Hint Resolve keeps_io keeps_table : keeps.

Lemma keeps_install_object old e acc : keeps IW (install_object old b acc e).
Proof. unfold install_object. keeps_steps. Qed.

Lemma keeps_undo rels e : keeps IW (undo_install rels b e).
Proof. unfold undo_install. keeps_steps. Qed.

(** Removing the new file from the map, its [Arc] with it. *)
Lemma keeps_delete_partial tmp : keeps IW (delete_partially_installed_fam b tmp).
Proof.
  intros w Hw. unfold delete_partially_installed_fam. apply wlp_bind.
  change (wlp (fm (modify (λ m, set_fams (cm_remove (fams m) b) m));;
    p ← unwrap (cm_get (fams (w_fm w)) b);
    fm (update_fam p (set_fam_live_objects 0));;
    fam ← fm (deref p);
    fm (update_fam p (set_fam_path (Some tmp)));;
    assert_that (bool_decide (fam_path fam = None));;
    drop_arc p) (λ _ w', IW w') (λ _, IW) w).
  apply wlp_bind. change (wlp (p ← unwrap (cm_get (fams (w_fm w)) b);
    fm (update_fam p (set_fam_live_objects 0));;
    fam ← fm (deref p);
    fm (update_fam p (set_fam_path (Some tmp)));;
    assert_that (bool_decide (fam_path fam = None));;
    drop_arc p) (λ _ w', IW w') (λ _, IW) (set_file_map (set_fams (cm_remove (fams (w_fm w)) b) (w_fm w)) w)).
  set (w1 := set_file_map _ w). apply wlp_bind, wlp_unwrap. intros p Hp.
  assert (p = pb) as -> by by apply (wa_new _ _ _ _ Hw).
  assert (IW w1) as Hw1.
  { destruct Hw as [Hf Hfr Hb Hpb Hn]. split; simpl; try done.
    - intros k q fam Hk Hq. destruct (Hf k q fam Hk Hq) as [Hk' ?]. split; [|done].
      simpl. rewrite cm_get_remove, decide_False; [done|]. intros <-. congruence.
    - intros q. rewrite cm_get_remove, decide_True by done. done. }
  clearbody w1. clear Hw Hp w. revert w1 Hw1.
  change (keeps IW (fm (update_fam pb (set_fam_live_objects 0));;
    fam ← fm (deref pb);
    fm (update_fam pb (set_fam_path (Some tmp)));;
    assert_that (bool_decide (fam_path fam = None));;
    drop_arc pb)).
  keeps_steps; try (apply keeps_fm; first [apply keeps_deref|by apply keeps_update]).
  unfold drop_arc, drop_fam. keeps_steps; try (apply keeps_fm, keeps_deref).
  apply keeps_fm, keeps_modify. intros m [Hf Hfr Hb Hpb Hn]. split; try done; simpl.
  - intros k q fam Hk Hq. destruct (Hf k q fam Hk Hq) as (? & fam' & Hq' & ?). split; [done|].
    exists fam'. split; [|done]. simpl. rewrite lookup_delete_ne; [done|]. intros <-. congruence.
  - intros q fam. simpl. rewrite lookup_delete. case_decide; [done|]. apply Hfr.
Qed.

(** *** Steps 3 to 6 *)

Lemma keeps_write_trailer_and_rename config objects gen tmp file st dict rels installed :
  keeps IW (write_trailer_and_rename config objects gen tmp file st dict b rels installed).
Proof.
  unfold write_trailer_and_rename. keeps_steps;
    try solve [apply keeps_io|apply keeps_undo|apply keeps_delete_partial];
    apply keeps_fm; [apply keeps_decrement|apply keeps_finalize].
Qed.

Lemma keeps_install_and_finish config objects gen old tmp file st dict :
  keeps IW (install_and_finish config objects gen old tmp file st dict b).
Proof.
  unfold install_and_finish, remove_failed. keeps_steps.
  - apply keeps_install_object.
  - apply keeps_delete_partial.
  - apply keeps_write_trailer_and_rename.
Qed.
End write.

Section batch.
Context `{Deps, !DepsLaws}.

Definition framed (m0 : FileMap) (w : World) : Prop := frame m0 (w_fm w) ∧ arcs_fresh (w_fm w).

(** [insert] puts the new file where there was none, or panics. *)
Lemma wlp_insert file written capacity gen is_gc config z m (Q : Z * list Z → FileMap → Prop) E :
  arcs_fresh m →
  (∀ b m', writing_at m b (next_arc m) m' → Q (b, [b]) m') →
  wlp (insert file written capacity gen is_gc config z) Q E m.
Proof.
  intros Hfr HQ. unfold insert. apply wlp_bind.
  change (next_file_lsn m) with (next_file_lsn m). unfold wlp at 1, gets. apply wlp_bind.
  unfold wlp at 1, modify. apply wlp_bind, wlp_unwrap. intros loc Eloc. apply wlp_bind.
  unfold wlp at 1, gets. apply wlp_bind. unfold wlp at 1, gets. apply wlp_bind.
  unfold wlp at 1, modify. apply wlp_bind, wlp_assert. intros Hnone%bool_decide_eq_true.
  simpl in Hnone. apply wlp_bind, wlp_assert. intros _. apply wlp_bind, wlp_unwrap.
  intros b Eb. rewrite Eloc in Eb. injection Eb as <-. apply HQ. simpl.
  assert (arcs m !! next_arc m = None) as Hp.
  { apply eq_None_not_Some. intros [fam Hfam]. specialize (Hfr _ _ Hfam). lia. }
  split; simpl; try done.
  - intros k p fam Hk Hfam. simpl. rewrite cm_get_insert, decide_False by congruence. split; [done|].
    exists fam. split; [|done]. rewrite lookup_insert_ne; [done|]. intros <-. congruence.
  - intros p fam. simpl. rewrite lookup_insert. case_decide; [lia|]. intros Hfam. specialize (Hfr _ _ Hfam). lia.
  - intros p. simpl. rewrite cm_get_insert, decide_True by done. congruence.
Qed.

Lemma framed_writing m0 w b pb m :
  framed m0 w → writing_at (w_fm w) b pb m → frame m0 m ∧ arcs_fresh m.
Proof. intros [Hf _] [Hf' Hfr _ _ _]. split; [by etrans|done]. Qed.

Lemma keeps_framed_io m0 {A} (m : IO A) : keeps (framed m0) (io m).
Proof. intros w Hw. unfold wlp, io, zoom. by destruct (m (w_os w)) as [[] ?]. Qed.

Lemma keeps_framed_modify m0 f : (∀ w, w_fm (f w) = w_fm w) → keeps (framed m0) (modify f).
Proof. intros Hf w Hw. unfold wlp, modify, framed. by rewrite Hf. Qed.

#[local] Hint Resolve keeps_framed_io : keeps.

Lemma keeps_sync_and_install m0 config objects gen old is_gc tmp file st dict z :
  keeps (framed m0) (sync_and_install config objects gen old is_gc tmp file st dict z).
Proof.
  unfold sync_and_install. apply keeps_bind; [apply keeps_framed_io|intros file_2].
  apply keeps_bind; [keeps_steps|intros _]. apply keeps_bind; [apply keeps_unwrap|intros n].
  apply keeps_bind; [by apply keeps_framed_modify|intros _].
  intros w Hw. apply wlp_bind. unfold fm, zoom, wlp at 1.
  assert (wlp (insert file (written_bytes st) (Z.of_nat (size (new_relative_locations st))) gen
    is_gc config z) (λ r m', ∃ b, r = (b, [b]) ∧ writing_at (w_fm w) b (next_arc (w_fm w)) m')
    (λ _ _, False) (w_fm w)) as Hins by (apply wlp_insert; [apply Hw|eauto]). unfold wlp in Hins.
  destruct (insert _ _ _ _ _ _ _ (w_fm w)) as [[r| | |] m']; try done.
  destruct Hins as (b & -> & Hm').
  assert (keeps (λ w', writing_at (w_fm w) b (next_arc (w_fm w)) (w_fm w'))
    (finally (install_and_finish config objects gen old tmp file_2 st dict b) (fm (drop_claims [b])))) as Hk.
  { keeps_steps; [apply keeps_install_and_finish|apply keeps_fm, keeps_drop_claim]. }
  eapply wlp_mono; [by apply Hk|..]; intros ? w' Hw'; exact (framed_writing _ _ _ _ _ Hw Hw').
Qed.

Lemma keeps_write_batch_inner m0 config objects gen old :
  keeps (framed m0) (write_batch_inner config objects gen old).
Proof.
  unfold write_batch_inner, write_data, make_dictionary, from_samples, allocate.
  keeps_steps; apply keeps_sync_and_install.
Qed.

(** Whatever comes of it, a batch leaves the other files alone. *)
Lemma keeps_shard_batch m0 config batch gen old :
  keeps (framed m0) (shard_batch config batch gen old).
Proof.
  unfold shard_batch. keeps_steps;
    solve [by apply keeps_framed_modify|apply keeps_write_batch_inner].
Qed.
End batch.
