(* ===== verification/GcSpec.v ===== *)
(** GcSpec: what [maintenance] collects from the files it rewrites: exactly the objects
    and deletions whose location is in them. *)
From S2P Require Import Prelude Effects Os Deps Locations LocationTable Config Metadata.
From S2P Require Import ZstdDict Storage State FileMap WritePath Gc Recovery FileMapSpec Layout.
From S2P Require Import Invariant RecoverySpec.

(** ** Positions in a file *)

Section positions.
Context `{Deps, !DepsLaws}.
Implicit Types f g : LogFile.

(** No object starts inside another one. *)
Lemma encode_objects_between a x b a' x' b' :
  a ++ x :: b = a' ++ x' :: b' →
  len (encode_objects a) ≤ len (encode_objects a')
    < len (encode_objects a) + HEADER_LEN + len x.2 →
  a = a' ∧ x = x' ∧ b = b'.
Proof.
  revert a'. induction a as [|y a IH]; intros [|y' a'] E Hlen;
    rewrite ?len_encode_objects_cons in Hlen; unfold HEADER_LEN in *;
    change (len (encode_objects [])) with 0 in Hlen; try lia.
  - by injection E as -> ->.
  - injection E as -> E. lia.
  - injection E as -> E. destruct (IH a') as (-> & -> & ->); [done|lia|done].
Qed.

(** An even location of a file is that of an object in it, an odd one that of a deletion. *)
Lemma abs_object f oid x :
  lf_wf f → lf_abs f !! oid = Some (2 * x) →
  ∃ a stored b raw, lf_objs f = a ++ (oid, stored) :: b ∧ x = lf_lsn f + len (encode_objects a) ∧
    stored_as (lf_dict f) raw stored ∧ lf_vals f !! oid = Some (Some raw).
Proof.
  intros Hf Ha. rewrite lf_abs_lookup, fmap_Some in Ha. destruct Ha as (rel & Hr & E).
  unfold lf_location in E.
  destruct (ro_entry _ _ _ _ (wf_rels f Hf) _ _ Hr) as [[-> _]|(a & st & b & raw & ? & -> & ? & ?)]; [lia|].
  exists a, st, b, raw. split_and!; [done|lia|done|done].
Qed.

Lemma abs_delete f oid x :
  lf_wf f → lf_abs f !! oid = Some (2 * x + 1) →
  x = lf_lsn f ∧ (oid, 1) ∈ lf_entries f ∧ lf_vals f !! oid = Some None.
Proof.
  intros Hf Ha. rewrite lf_abs_lookup, fmap_Some in Ha. destruct Ha as (rel & Hr & E).
  unfold lf_location in E.
  destruct (ro_entry _ _ _ _ (wf_rels f Hf) _ _ Hr) as [[-> ?]|(a & st & b & raw & ? & -> & ? & ?)]; [|lia].
  split_and!; [lia|by apply lf_rels_elem|done].
Qed.

Lemma locs_dom_file L f oid : f ∈ L → is_Some (lf_abs f !! oid) → is_Some (locs L !! oid).
Proof.
  intros (a & b & ->)%list_elem_of_split Hs. change (f :: b) with ([f] ++ b).
  rewrite !locs_app, !lookup_union_is_Some. left. right. unfold locs. simpl.
  by rewrite (right_id_L ∅ (∪)).
Qed.
End positions.

(** ** What has been gathered *)

Section gather.
Context `{Deps, !DepsLaws}.
Context (L : list LogFile) (Hs : sorted L) (Hwf : Forall lf_wf L).

(** The entries of the table that [P] selects. *)
Record gathered (P : Z → Z → Prop) (acc : Rewrite) : Prop := {
  ga_old oid loc : old_locations acc !! oid = Some loc ↔ locs L !! oid = Some loc ∧ P oid loc;
  ga_batch oid v :
    batch acc !! oid = Some v ↔
    vals L !! oid = Some v ∧ ∃ loc, locs L !! oid = Some loc ∧ P oid loc;
}.

Lemma gathered_none : gathered (λ _ _, False) (MkRewrite ∅ ∅).
Proof. split; intros; simpl; rewrite lookup_empty; naive_solver. Qed.

Lemma gathered_ext P P' acc :
  (∀ oid loc, locs L !! oid = Some loc → P oid loc ↔ P' oid loc) →
  gathered P acc → gathered P' acc.
Proof.
  intros HP [Ho Hb]. split.
  - intros oid loc. rewrite Ho. naive_solver.
  - intros oid v. rewrite Hb. split; intros (? & loc & ? & ?); (split; [done|]); exists loc; naive_solver.
Qed.

Lemma gathered_insert P acc oid loc v :
  locs L !! oid = Some loc → vals L !! oid = Some v → gathered P acc →
  gathered (λ i l, P i l ∨ i = oid)
    (MkRewrite (<[oid := v]> (batch acc)) (<[oid := loc]> (old_locations acc))).
Proof.
  intros Hl Hv [Ho Hb]. split; simpl.
  - intros i l. rewrite lookup_insert. case_decide as Hd; [subst i|rewrite Ho; naive_solver].
    rewrite Hl. naive_solver.
  - intros i x. rewrite lookup_insert. case_decide as Hd; [subst i|rewrite Hb; naive_solver].
    rewrite Hv. naive_solver.
Qed.

(** Everything in the files of [fs]. *)
Definition owned (fs : list LogFile) (_ loc : Z) : Prop := ∃ f, f ∈ fs ∧ in_file f loc.

(** In the middle of a file. *)
Definition objects_upto (G : Z → Z → Prop) f off oid loc : Prop :=
  G oid loc ∨ ∃ x, loc = 2 * x ∧ lf_lsn f ≤ x < lf_lsn f + off.

Definition deletes_upto (G : Z → Z → Prop) f (dn : list (Z * Z)) oid loc : Prop :=
  G oid loc ∨ (∃ x, loc = 2 * x ∧ in_file f loc) ∨ (loc = lf_location f + 1 ∧ (oid, 1) ∈ dn).

(** The one location between the start of an object and its end is the object's own. *)
Lemma location_at f a oid st b oid' x :
  f ∈ L → lf_objs f = a ++ (oid, st) :: b → locs L !! oid' = Some (2 * x) →
  lf_lsn f + len (encode_objects a) ≤ x
    < lf_lsn f + (len (encode_objects a) + HEADER_LEN + len st) →
  oid' = oid ∧ x = lf_lsn f + len (encode_objects a) ∧
  ∃ raw, stored_as (lf_dict f) raw st ∧ vals L !! oid = Some (Some raw).
Proof.
  intros Hf E Hl Hx. pose proof (proj1 (Forall_forall _ _) Hwf f Hf) as Hff.
  assert (in_file f (2 * x)) as Hin.
  { unfold in_file. rewrite (wf_end f Hff). unfold lf_data.
    rewrite E, encode_objects_app, length_app, Nat2Z.inj_add, len_encode_objects_cons. simpl. lia. }
  destruct (locs_in_file L f oid' (2 * x)) as [Ha Hv]; try done.
  destruct (abs_object f oid' x Hff Ha) as (a' & st' & b' & raw & E' & Ex & Hst & Hval).
  rewrite E in E'. destruct (encode_objects_between a (oid, st) b a' (oid', st') b') as (<- & [= <- <-] & _);
    [done|simpl; lia|]. split_and!; [done..|]. exists raw. by rewrite Hv.
Qed.

Lemma gathered_object G f a oid st b acc raw :
  let loc := 2 * (lf_lsn f + len (encode_objects a)) in
  f ∈ L → lf_objs f = a ++ (oid, st) :: b → locs L !! oid = Some loc → vals L !! oid = Some (Some raw) →
  gathered (objects_upto G f (len (encode_objects a))) acc →
  gathered (objects_upto G f (len (encode_objects a) + (HEADER_LEN + len st)))
    (MkRewrite (<[oid := Some raw]> (batch acc)) (<[oid := loc]> (old_locations acc))).
Proof.
  intros loc Hf E Hl Hv Hg. eapply gathered_ext, gathered_insert; try done.
  intros oid' loc' Hl'. unfold objects_upto. unfold HEADER_LEN. split.
  - intros [[?|(x & -> & ?)]| ->]; [by left|right; exists x; lia|]. right.
    exists (lf_lsn f + len (encode_objects a)). rewrite Hl in Hl'. injection Hl' as <-. split; [done|lia].
  - intros [?|(x & -> & Hx)]; [by left; left|].
    destruct (decide (x < lf_lsn f + len (encode_objects a))); [left; right; exists x; lia|right].
    apply (location_at f a oid st b oid' x); try done. unfold HEADER_LEN. lia.
Qed.

Lemma gathered_dead_object G f a oid st b acc :
  f ∈ L → lf_objs f = a ++ (oid, st) :: b →
  locs L !! oid ≠ Some (2 * (lf_lsn f + len (encode_objects a))) →
  gathered (objects_upto G f (len (encode_objects a))) acc →
  gathered (objects_upto G f (len (encode_objects a) + (HEADER_LEN + len st))) acc.
Proof.
  intros Hf E Hl. apply gathered_ext. intros oid' loc' Hl'. unfold objects_upto, HEADER_LEN. split.
  - intros [?|(x & -> & ?)]; [by left|right; exists x; lia].
  - intros [?|(x & -> & Hx)]; [by left|].
    destruct (decide (x < lf_lsn f + len (encode_objects a))); [right; exists x; lia|]. exfalso.
    destruct (location_at f a oid st b oid' x) as (-> & -> & _); try done. unfold HEADER_LEN. lia.
Qed.

Lemma objects_all G f acc :
  f ∈ L → gathered (objects_upto G f (lf_end f)) acc → gathered (deletes_upto G f []) acc.
Proof.
  intros Hf. pose proof (proj1 (Forall_forall _ _) Hwf f Hf) as Hff.
  apply gathered_ext. intros oid loc Hl. unfold objects_upto, deletes_upto, in_file. split.
  - intros [?|(x & -> & ?)]; [by left|]. right. left. exists x. split; [done|lia].
  - intros [?|[(x & -> & Hx)|[_ Hn]]]; [by left| |by apply not_elem_of_nil in Hn].
    right. exists x. split; [done|]. split; [lia|].
    destruct (locs_in_file L f oid (2 * x)) as [Ha _]; try done.
    destruct (abs_object f oid x Hff Ha) as (a & st & b & raw & E & -> & _).
    rewrite (wf_end f Hff). unfold lf_data.
    rewrite E, encode_objects_app, length_app, Nat2Z.inj_add, len_encode_objects_cons.
    unfold HEADER_LEN. lia.
Qed.

Lemma deletes_all fs f acc :
  f ∈ L → gathered (deletes_upto (owned fs) f (lf_entries f)) acc → gathered (owned (fs ++ [f])) acc.
Proof.
  intros Hf. pose proof (proj1 (Forall_forall _ _) Hwf f Hf) as Hff.
  apply gathered_ext. intros oid loc Hl. unfold deletes_upto, owned. split.
  - intros [(g & ? & ?)|[(x & -> & ?)|[-> _]]].
    + exists g. by rewrite elem_of_app; auto.
    + exists f. rewrite elem_of_app, list_elem_of_singleton. auto.
    + exists f. rewrite elem_of_app, list_elem_of_singleton. split; [by right|].
      pose proof (lf_end_pos f Hff). unfold in_file, lf_location. lia.
  - intros (g & [Hg| ->%list_elem_of_singleton]%elem_of_app & Hin); [left; eauto|right].
    destruct (Z.Even_or_Odd loc) as [[x ->]|[x ->]]; [left; eauto|right].
    destruct (locs_in_file L f oid (2 * x + 1)) as [Ha _]; try done.
    destruct (abs_delete f oid x Hff Ha) as (-> & ? & _). by unfold lf_location.
Qed.

Lemma gathered_delete G f dn oid acc :
  f ∈ L → locs L !! oid = Some (lf_location f + 1) → gathered (deletes_upto G f dn) acc →
  gathered (deletes_upto G f (dn ++ [(oid, 1)]))
    (MkRewrite (<[oid := None]> (batch acc)) (<[oid := lf_location f + 1]> (old_locations acc))).
Proof.
  intros Hf Hl Hg. pose proof (proj1 (Forall_forall _ _) Hwf f Hf) as Hff.
  assert (vals L !! oid = Some None) as Hv.
  { pose proof (lf_end_pos f Hff).
    assert (lf_location f + 1 = 2 * lf_lsn f + 1) as E by done. rewrite E in Hl.
    destruct (locs_in_file L f oid (2 * lf_lsn f + 1)) as [Ha ->]; try done; [unfold in_file; lia|].
    by destruct (abs_delete f oid _ Hff Ha) as (_ & _ & ?). }
  eapply gathered_ext, gathered_insert; try done. intros oid' loc' Hl'. unfold deletes_upto.
  rewrite elem_of_app, list_elem_of_singleton. split.
  - intros [?| ->]; [tauto|]. right. right. split; [congruence|by right].
  - intros [?|[?|[-> [?|[= ->]]]]]; tauto.
Qed.

Lemma gathered_skip G f dn oid rel acc :
  rel ≠ 1 ∨ locs L !! oid ≠ Some (lf_location f + 1) → gathered (deletes_upto G f dn) acc →
  gathered (deletes_upto G f (dn ++ [(oid, rel)])) acc.
Proof.
  intros Hne. apply gathered_ext. intros oid' loc' Hl'. unfold deletes_upto.
  rewrite elem_of_app, list_elem_of_singleton. naive_solver.
Qed.
End gather.

(** ** The loops *)

Section rewrite.
Context `{Deps, !DepsLaws}.
Context (config : Config) (w : World) (L : list LogFile) (claimed : Z → bool) (Hi : Inv w L claimed).

(** An object that [maintenance] takes for corrupt. *)
Definition too_large (f : LogFile) : Prop :=
  ∃ oid st, (oid, st) ∈ lf_objs f ∧ max_object_size config ≤ len st.

Lemma wp_load_expect f oid (Q : Z → World → Prop) E C :
  f ∈ L → is_Some (lf_abs f !! oid) →
  (∀ loc, locs L !! oid = Some loc → Q loc w) → wp (load_expect oid) Q E C w.
Proof.
  intros Hf Ha HQ. destruct (locs_dom_file L f oid Hf Ha) as [loc Hl].
  unfold load_expect. w_steps. eapply wp_unwrap; [|by apply HQ].
  by rewrite (inv_load _ _ _ _ Hi).
Qed.

Section file.
Context (f : LogFile) (fam : FileAndMetadata) (tid : Z) (G : Z → Z → Prop) (tail : bytes).
Context (Hf : f ∈ L) (Hfam : fam_location fam = lf_location f).

(** One object. *)
Lemma wp_rewrite_object a oid st b z acc
    (Q : bytes * Z * ZstdDict * Rewrite → World → Prop) (E : ErrorKind → World → Prop) C :
  lf_objs f = a ++ (oid, st) :: b → zstd_dict_for z (lf_dict f) →
  gathered L (objects_upto G f (len (encode_objects a))) acc →
  (∀ z' acc', len st < max_object_size config → zstd_dict_for z' (lf_dict f) →
     gathered L (objects_upto G f (len (encode_objects (a ++ [(oid, st)])))) acc' →
     Q (encode_objects b ++ tail, len (encode_objects (a ++ [(oid, st)])), z', acc') w) →
  (max_object_size config ≤ len st → E InvalidData w) →
  wp (rewrite_object config tid fam (encode_objects ((oid, st) :: b) ++ tail)
        (len (encode_objects a)) z acc) Q E C w.
Proof.
  intros Eobjs Hz Hg HQ HE. unfold rewrite_object.
  pose proof (inv_lf_wf w L claimed f Hi Hf) as Hwf. pose proof (lf_lsn_range f Hwf).
  destruct (ro_objs _ _ _ _ (wf_rels f Hwf) oid st) as (Hrel & Hu & Hlen); [rewrite Eobjs; set_solver|].
  assert (len (encode_objects a) + HEADER_LEN + len st ≤ lf_end f) as Hoff.
  { rewrite (wf_end f Hwf). unfold lf_data.
    rewrite Eobjs, encode_objects_app, length_app, Nat2Z.inj_add, len_encode_objects_cons. simpl. lia. }
  assert (len (encode_objects (a ++ [(oid, st)])) = len (encode_objects a) + (HEADER_LEN + len st)) as Enext.
  { rewrite encode_objects_app, length_app, Nat2Z.inj_add, len_encode_objects_cons. simpl. lia. }
  unfold HEADER_LEN in *. set (off := len (encode_objects a)) in *.
  set (lb := to_le_bytes 8 (len st)). set (pb := to_le_bytes 8 oid).
  rewrite encode_objects_cons. unfold encode_object. cbn [fst snd]. fold lb pb.
  assert (length (hash lb pb st ++ pb ++ lb) = 20%nat) as Hh.
  { rewrite !length_app, length_hash. subst lb pb. by rewrite !length_to_le_bytes. }
  replace ((hash lb pb st ++ pb ++ lb ++ st) ++ encode_objects b) with
    ((hash lb pb st ++ pb ++ lb) ++ st ++ encode_objects b) by (by rewrite <- !app_assoc).
  rewrite <- (app_assoc _ (st ++ _)).
  rewrite bool_decide_eq_false_2 by (rewrite length_app; lia).
  rewrite take_app_length', drop_app_length' by done.
  w_steps. eapply wp_unwrap; [apply slice_app_start; by rewrite length_hash|]. w_steps.
  eapply wp_unwrap; [apply slice_app; subst lb pb; rewrite length_hash, ?length_to_le_bytes; done|]. w_steps.
  eapply wp_unwrap.
  { rewrite app_assoc. apply slice_app_end; rewrite length_app, length_hash; subst lb pb;
      rewrite !length_to_le_bytes; done. }
  w_steps. subst lb pb. rewrite !from_to_le_bytes_8 by u64_lia.
  destruct (Z.leb_spec (max_object_size config) (len st)); [w_steps; by apply HE|].
  w_steps. eapply wp_load_expect; [done| |].
  { by rewrite lf_abs_lookup, fmap_is_Some. }
  intros loc Hloc. w_steps. unfold RelativeDiskLocation.new.
  eapply wp_unwrap; [apply shift_location_spec; lia|]. w_steps. rewrite Hfam.
  unfold lf_location at 1. rewrite lsn_fam.
  eapply wp_unwrap; [apply to_absolute_spec; lia|]. w_steps.
  unfold uninit_boxed_slice, allocate. apply wp_assert; [by apply bool_decide_eq_true|]. w_steps.
  rewrite <- app_assoc. rewrite bool_decide_eq_false_2 by (rewrite length_app; lia).
  rewrite take_app_length', drop_app_length' by lia.
  rewrite bool_decide_eq_false_2 by (intros X; by apply X).
  rewrite wrap64_small, <- Enext by u64_lia.
  replace (2 * (off + lf_lsn f) + Z.b2z false) with (2 * (lf_lsn f + off)) by (simpl; lia).
  destruct (Z.eqb_spec (2 * (lf_lsn f + off)) loc) as [<-|Hne].
  - destruct (location_at L (inv_sorted _ _ _ Hi) (inv_wf _ _ _ Hi) f a oid st b oid (lf_lsn f + off))
      as (_ & _ & raw & Hst & Hv); try done; [unfold HEADER_LEN; fold off; lia|].
    w_steps. eapply wp_decompress; [done|done|]. intros z' Hz'. w_steps. apply HQ; [done|done|].
    rewrite Enext. eapply (gathered_object L (inv_sorted _ _ _ Hi) (inv_wf _ _ _ Hi)); done.
  - w_steps. apply HQ; [done|done|]. rewrite Enext.
    eapply (gathered_dead_object L (inv_sorted _ _ _ Hi) (inv_wf _ _ _ Hi)); try done.
    rewrite Hloc. by intros [= ->].
Qed.

(** The objects in front of the trailer. *)
Lemma wp_rewrite_objects b a fuel z acc (Q : option Rewrite → World → Prop) (E : ErrorKind → World → Prop) C :
  lf_objs f = a ++ b → (∀ oid st, (oid, st) ∈ a → len st < max_object_size config) →
  (length b ≤ fuel)%nat → zstd_dict_for z (lf_dict f) →
  gathered L (objects_upto G f (len (encode_objects a))) acc →
  (∀ acc', ¬ too_large f → gathered L (deletes_upto G f []) acc' → Q (Some acc') w) →
  (too_large f → E InvalidData w) →
  wp (rewrite_objects fuel config tid fam (lf_end f) (encode_objects b ++ tail)
        (len (encode_objects a)) z acc) Q E C w.
Proof.
  intros Eobjs Hsmall Hfuel Hz Hg HQ HE.
  pose proof (inv_lf_wf w L claimed f Hi Hf) as Hwf.
  revert a fuel z acc Eobjs Hsmall Hfuel Hz Hg.
  induction b as [|[oid st] b IH]; intros a fuel z acc Eobjs Hsmall Hfuel Hz Hg.
  - rewrite app_nil_r in Eobjs. subst a.
    assert (len (encode_objects (lf_objs f)) = lf_end f) as El by by rewrite (wf_end f Hwf).
    rewrite El in *. destruct fuel; cbn [rewrite_objects]; rewrite Z.ltb_irrefl; w_steps;
      (apply HQ; [|by apply (objects_all L (inv_sorted _ _ _ Hi) (inv_wf _ _ _ Hi))]);
      intros (oid & st & Hin%Hsmall & ?); lia.
  - destruct fuel as [|fuel]; simpl in Hfuel; [lia|]. cbn [rewrite_objects].
    assert (len (encode_objects a) < lf_end f) as Hlt.
    { rewrite (wf_end f Hwf). unfold lf_data.
      rewrite Eobjs, encode_objects_app, length_app, Nat2Z.inj_add, len_encode_objects_cons.
      unfold HEADER_LEN. lia. }
    destruct (Z.ltb_spec (len (encode_objects a)) (lf_end f)); [|lia].
    w_steps. eapply wp_rewrite_object; try done.
    + intros z' acc' Hst Hz' Hg'. apply IH; [by rewrite <- app_assoc| |lia|done|done].
      intros oid' st' [?|[= -> ->]%list_elem_of_singleton]%elem_of_app; [by eapply Hsmall|done].
    + intros. apply HE. exists oid, st. split; [|done]. rewrite Eobjs. set_solver.
Qed.

(** The deletions in the trailer. *)
Lemma wp_rewrite_deletes acc (Q : Rewrite → World → Prop) E C :
  gathered L (deletes_upto G f []) acc →
  (∀ acc', gathered L (deletes_upto G f (lf_entries f)) acc' → Q acc' w) →
  wp (foldM (rewrite_delete fam) acc (lf_entries f)) Q E C w.
Proof.
  intros Hg HQ. pose proof (inv_lf_wf w L claimed f Hi Hf) as Hwf.
  eapply wp_mono; [apply (wp_foldM _ (λ dn acc' w', w' = w ∧ gathered L (deletes_upto G f dn) acc')
    (λ _ _, False) (λ _, False)); [done|]|..]; [|by intros acc' w' [-> ?]; auto|done..].
  intros dn [oid rel] rest acc' w' Ees [-> Hg']. unfold rewrite_delete.
  assert (lf_rels f !! oid = Some rel) as Hrel.
  { apply lf_rels_elem; [done|]. rewrite Ees. set_solver. }
  destruct (ro_entry _ _ _ _ (wf_rels f Hwf) _ _ Hrel) as [[-> _]|(a & st & b & raw & _ & -> & _)].
  - change (RelativeDiskLocation.is_delete 1) with true. cbv match. w_steps. rewrite Hfam.
    unfold lf_location at 1. rewrite lsn_fam.
    eapply wp_unwrap; [by eapply lf_to_absolute|]. w_steps.
    eapply wp_load_expect; [done|by rewrite lf_abs_lookup, Hrel; eauto|]. intros loc Hloc. w_steps.
    replace (1 + lf_location f) with (lf_location f + 1) by lia.
    destruct (Z.eqb_spec (lf_location f + 1) loc) as [<-|Hne]; w_steps; (split; [done|]).
    + apply (gathered_delete L (inv_sorted _ _ _ Hi) (inv_wf _ _ _ Hi)); done.
    + apply gathered_skip; [right; congruence|done].
  - pose proof (relative_is_delete_spec (len (encode_objects a)) false) as Hd. simpl in Hd.
    rewrite Z.add_0_r in Hd. rewrite Hd. w_steps. split; [done|]. apply gathered_skip; [left; lia|done].
Qed.
End file.
End rewrite.
