(* ===== verification/MoveSpec.v ===== *)
(** MoveSpec: how a rewrite moves the live entries. The files that were rewritten have none
    left, the new files have all of theirs, and the other files keep what they had. *)
From S2P Require Import Prelude Effects Os Deps Locations LocationTable Config Metadata.
From S2P Require Import ZstdDict Storage State FileMap WritePath Gc Recovery FileMapSpec Layout.
From S2P Require Import Invariant ShardSpec GcSpec.

Section moved.
Context `{Deps, !DepsLaws}.
Implicit Types L : list LogFile.
Implicit Types P : LogFile → Prop.

(** Every entry of the file is live. *)
Definition fully_live L (f : LogFile) : Prop :=
  live (locs L) f = present_objects (lf_md f).

(** [L'] is [L] after the files that [P] selects have been rewritten. *)
Record moved L P L' : Prop := {
  mv_fresh : ∃ fs, L' = L ++ fs ∧ ∀ f, f ∈ fs → fully_live L' f;
  mv_change f : f ∈ L →
    P f ∧ live (locs L') f = 0 ∨ ¬ P f ∧ live (locs L') f = live (locs L) f;
}.

Lemma moved_sub L P L' f : moved L P L' → f ∈ L → f ∈ L'.
Proof. intros [(fs & -> & _) _] Hf. apply elem_of_app. by left. Qed.

Lemma moved_refl L P : (∀ f, f ∈ L → ¬ P f) → moved L P L.
Proof.
  intros HP. split; [|intros f Hf; right; auto]. exists []. rewrite app_nil_r.
  split; [done|]. by intros f ?%not_elem_of_nil.
Qed.

Lemma moved_ext L P P' L' : (∀ f, f ∈ L → P f ↔ P' f) → moved L P L' → moved L P' L'.
Proof. intros HP [Hf Hc]. split; [done|]. intros f Hin. rewrite <- HP by done. auto. Qed.

(** A second rewrite that selects old files only. *)
Lemma moved_trans L P L1 P' L2 :
  moved L P L1 → moved L1 P' L2 → (∀ f, f ∈ L1 → P' f → f ∈ L) → sorted L1 → Forall lf_wf L1 →
  moved L (λ f, P f ∨ P' f) L2.
Proof.
  intros Hm [(fs2 & -> & Hf2) Hc2] Hold Hs Hwf. destruct Hm as [(fs & -> & Hf) Hc]. split.
  - exists (fs ++ fs2). rewrite (assoc_L (++)). split; [done|].
    intros f [Hin|Hin]%elem_of_app; [|auto]. pose proof (Hf f Hin) as Hl. unfold fully_live in *.
    assert (f ∈ L ++ fs) as Hin1 by (apply elem_of_app; by right).
    destruct (Hc2 f Hin1) as [[HP _]|[_ ->]]; [|done].
    apply Hold in HP; [|done].
    apply sorted_nodup in Hs; [|done]. apply NoDup_app in Hs as (_ & Hd & _). by destruct (Hd f HP).
  - intros f Hin. destruct (Hc2 f) as [[HP' ->]|[HP' ->]]; [apply elem_of_app; by left|by left; auto|].
    destruct (Hc f Hin) as [[? ->]|[? ->]]; [by left; auto|]. right. split; [tauto|done].
Qed.
End moved.

(** ** New files that take over the entries of others *)

Section take_over.
Context `{Deps, !DepsLaws}.
Context (L gs : list LogFile) (acc : Rewrite) (ps : list (gmap Z (option bytes))) (fs : list LogFile).
Context (Hs : sorted (L ++ fs)) (Hwf : Forall lf_wf (L ++ fs)).
Context (Hgs : ∀ f, f ∈ gs → f ∈ L) (Hg : gathered L (owned gs) acc).
Context (Hps : ∀ oid, oid ∈ piece_ids ps ↔ is_Some (batch acc !! oid)) (Hnd : NoDup (piece_ids ps)).
Context (Hvals : lf_vals <$> fs = ps).
Context (Hfull : ∀ f, f ∈ fs → present_objects (lf_md f) = Z.of_nat (size (lf_vals f))).

Lemma take_over_wf f : f ∈ L ++ fs → lf_wf f.
Proof. intros Hf. by apply (proj1 (Forall_forall _ _) Hwf). Qed.

Lemma take_over_old : sorted L ∧ Forall lf_wf L ∧ Forall lf_wf fs.
Proof. split; [by apply sorted_app in Hs as [? _]|]. by apply Forall_app in Hwf. Qed.

(** The new files have an entry for every object that was gathered, and for no other. *)
Lemma fresh_ids oid : is_Some (locs fs !! oid) ↔ is_Some (batch acc !! oid).
Proof.
  destruct take_over_old as (_ & _ & Hwf').
  rewrite <- Hps, piece_ids_elem, <- Hvals. split.
  - intros [loc Hl]. destruct (locs_owner fs oid loc Hwf' Hl) as (f & Hf & Ha & _).
    exists (lf_vals f). split; [by apply list_elem_of_fmap_2|].
    apply lf_abs_dom; [apply take_over_wf; set_solver|eauto].
  - intros (m & (f & -> & Hf)%list_elem_of_fmap & Hv).
    pose proof (take_over_wf f) as Hff. apply list_elem_of_split in Hf as (a & b & E).
    rewrite E. change (f :: b) with ([f] ++ b).
    rewrite !locs_app, !lookup_union_is_Some. left. right. unfold locs. simpl.
    rewrite (right_id_L ∅ (∪)). apply lf_abs_dom; [apply Hff; rewrite E; set_solver|done].
Qed.

Lemma gathered_ids oid :
  is_Some (batch acc !! oid) ↔ ∃ loc, locs L !! oid = Some loc ∧ owned gs oid loc.
Proof.
  destruct take_over_old as (_ & HwfL & _). split.
  - intros [v (_ & ?)%(ga_batch _ _ _ Hg)]. done.
  - intros (loc & Hl & Ho). destruct (proj1 (locs_vals_dom L oid HwfL)) as [v Hv]; [by eexists|].
    exists v. apply (ga_batch _ _ _ Hg). eauto.
Qed.

Lemma same_file f g loc : f ∈ L ++ fs → g ∈ L ++ fs → in_file f loc → in_file g loc → f = g.
Proof.
  intros Hf Hg' Hif Hig. destruct (sorted_elem _ f g Hs Hf Hg') as [|Ho]; [done|].
  by destruct (in_file_disjoint f g loc (take_over_wf f Hf) (take_over_wf g Hg') Ho Hif).
Qed.

Lemma fresh_not_old f : f ∈ L → f ∉ fs.
Proof.
  intros Hf Hin. apply sorted_nodup in Hs; [|done]. apply NoDup_app in Hs as (_ & Hd & _).
  by apply (Hd f).
Qed.

(** An entry located in an old file is an old entry, of an object that was not gathered. *)
Lemma old_entry f oid loc :
  f ∈ L → in_file f loc →
  locs (L ++ fs) !! oid = Some loc ↔ locs L !! oid = Some loc ∧ ¬ is_Some (batch acc !! oid).
Proof.
  intros Hf Hin. destruct take_over_old as (_ & _ & Hwf'). rewrite locs_app, <- fresh_ids. split.
  - destruct (lookup_union_cases (locs fs) (locs L) oid) as [[_ ->]|[-> ->]].
    + intros Hl. destruct (locs_owner fs oid loc Hwf' Hl) as (g & Hg' & Ha & _). exfalso.
      apply (fresh_not_old f Hf). rewrite (same_file f g loc); [done|set_solver..|done|].
      apply (lf_abs_in_file g oid); [apply take_over_wf; set_solver|done].
    + intros ->. split; [done|]. by intros [].
  - intros [Hl Hn]. rewrite lookup_union_r; [done|]. by apply eq_None_not_Some.
Qed.

Lemma rewritten_empty f : f ∈ gs → live (locs (L ++ fs)) f = 0.
Proof.
  intros Hf. unfold live.
  assert (filter (λ kv : Z * Z, in_file f kv.2) (locs (L ++ fs)) = ∅) as ->; [|done].
  apply map_empty. intros oid. apply map_lookup_filter_None. right. simpl. intros loc Hl Hin.
  apply (old_entry f) in Hl as [Hl Hn]; [|auto..].
  apply Hn, gathered_ids. exists loc. split; [done|]. by exists f.
Qed.

Lemma kept_live f : f ∈ L → f ∉ gs → live (locs (L ++ fs)) f = live (locs L) f.
Proof.
  intros Hf Hn. apply live_ext. intros oid loc Hin. rewrite (old_entry f) by done.
  split; [by intros [? _]|]. intros Hl. split; [done|].
  intros (loc' & Hl' & g & Hg' & Hig)%gathered_ids. assert (loc' = loc) as -> by congruence.
  apply Hn. rewrite (same_file f g loc); [done|set_solver..|done|done].
Qed.

(** The new files have different objects. *)
Lemma fresh_disjoint a f b oid :
  fs = a ++ f :: b → is_Some (lf_vals f !! oid) → locs b !! oid = None.
Proof.
  intros E Hv. apply eq_None_not_Some. intros [loc Hl].
  assert (Forall lf_wf b) as Hb.
  { apply Forall_forall. intros g Hin. apply take_over_wf. rewrite E. set_solver. }
  destruct (locs_owner b oid loc Hb Hl) as (g & Hg' & Ha & _).
  revert Hnd. rewrite <- Hvals, E. change (f :: b) with ([f] ++ b). rewrite !fmap_app, !piece_ids_app.
  intros (_ & _ & (_ & Hd & _)%NoDup_app)%NoDup_app. apply (Hd oid); apply piece_ids_elem.
  - exists (lf_vals f). split; [|done]. by apply list_elem_of_singleton.
  - exists (lf_vals g). split; [by apply list_elem_of_fmap_2|]. apply lf_abs_dom; [|eauto].
    by apply (proj1 (Forall_forall _ _) Hb).
Qed.

Lemma fresh_entry_located f oid loc :
  f ∈ fs → lf_abs f !! oid = Some loc → locs (L ++ fs) !! oid = Some loc.
Proof.
  intros Hf Ha. pose proof (take_over_wf f) as Hff.
  pose proof Hf as (a & b & E)%list_elem_of_split.
  assert (locs b !! oid = None) as Hb.
  { apply (fresh_disjoint a f b); [done|]. apply lf_abs_dom; [set_solver|eauto]. }
  rewrite E, locs_app. change (f :: b) with ([f] ++ b). rewrite !locs_app.
  apply lookup_union_Some_l, lookup_union_Some_l. rewrite lookup_union_r by done.
  unfold locs. simpl. by rewrite (right_id_L ∅ (∪)).
Qed.

Lemma fresh_live f : f ∈ fs → fully_live (L ++ fs) f.
Proof.
  intros Hf. assert (f ∈ L ++ fs) as Hin by (apply elem_of_app; by right).
  pose proof (take_over_wf f Hin) as Hff. unfold fully_live. rewrite Hfull by done.
  assert (filter (λ kv : Z * Z, in_file f kv.2) (locs (L ++ fs)) = lf_abs f) as E.
  - apply map_eq. intros oid. apply option_eq. intros loc. rewrite map_lookup_filter_Some. simpl. split.
    + intros [Hl Hif]. by apply (locs_in_file (L ++ fs) f oid loc).
    + intros Ha. split; [by eapply fresh_entry_located|by eapply lf_abs_in_file].
  - unfold live. rewrite E, <- !size_dom. do 2 f_equal. apply set_eq. intros oid.
    rewrite !elem_of_dom. by apply lf_abs_dom.
Qed.

Lemma take_over_moved : moved L (λ f, f ∈ gs) (L ++ fs).
Proof.
  split; [exists fs; split; [done|apply fresh_live]|]. intros f Hf.
  destruct (decide (lf_location f ∈ lf_location <$> gs)) as [(g & E & Hin)%list_elem_of_fmap|Hn].
  - left. assert (f = g) as ->; [|split; [done|by apply rewritten_empty]].
    destruct take_over_old as (HsL & HwfL & _). apply (lf_location_inj L); auto.
  - right. assert (f ∉ gs) as Hnf by (intros Hin; by apply Hn, list_elem_of_fmap_2).
    split; [done|by apply kept_live].
Qed.
End take_over.
