(* ===== verification/CountSpec.v ===== *)
(** CountSpec: sums over files. The live objects of a set of files, how many objects a rewrite
    gathers from them, and how the counts of several rewrites add up. *)
From S2P Require Import Prelude Effects Os Deps Locations LocationTable Config Metadata.
From S2P Require Import ZstdDict Storage State FileMap WritePath Gc Recovery Layout Invariant GcSpec MoveSpec.

Definition total (g : LogFile → Z) (fs : list LogFile) : Z := foldr (λ f acc, g f + acc) 0 fs.

Lemma total_perm g fs fs' : fs ≡ₚ fs' → total g fs = total g fs'.
Proof. unfold total. induction 1; simpl; lia. Qed.

Lemma total_app g fs fs' : total g (fs ++ fs') = total g fs + total g fs'.
Proof. unfold total. induction fs as [|f fs IH]; simpl; [done|]. rewrite IH. lia. Qed.

Lemma total_ext g g' fs : (∀ f, f ∈ fs → g f = g' f) → total g fs = total g' fs.
Proof.
  unfold total. induction fs as [|f fs IH]; intros E; [done|]. simpl.
  rewrite IH by (intros; apply E; by right). rewrite E by by left. done.
Qed.

(** Dropping what counts for nothing. *)
Lemma total_filter g (P : LogFile → Prop) `{!∀ f, Decision (P f)} fs :
  (∀ f, f ∈ fs → ¬ P f → g f = 0) → total g (filter P fs) = total g fs.
Proof.
  induction fs as [|f fs IH]; intros E; [done|]. rewrite filter_cons.
  assert (total g (filter P fs) = total g fs) as IH' by (apply IH; intros; apply E; [by right|done]).
  unfold total in *. case_decide as HP; simpl; rewrite IH'; [done|]. rewrite E; [lia|by left|done].
Qed.

Lemma total_positive g fs f : f ∈ fs → (∀ h, h ∈ fs → 0 ≤ g h) → g f ≤ total g fs.
Proof.
  unfold total. induction fs as [|h fs IH]; intros Hf Hpos; [by apply not_elem_of_nil in Hf|]. simpl.
  assert (0 ≤ foldr (λ f acc, g f + acc) 0 fs) as Hfs.
  { clear IH Hf. induction fs as [|h' fs IH]; simpl; [done|]. pose proof (Hpos h' ltac:(set_solver)).
    assert (0 ≤ foldr (λ f acc, g f + acc) 0 fs); [|lia]. apply IH. intros; apply Hpos. set_solver. }
  pose proof (Hpos h ltac:(by left)). apply elem_of_cons in Hf as [->|Hf]; [lia|].
  assert (g f ≤ foldr (λ f acc, g f + acc) 0 fs); [|lia]. apply IH; [done|]. intros; apply Hpos. by right.
Qed.

Section count.
Context `{Deps, !DepsLaws}.
Implicit Types L gs : list LogFile.

(** The entries of [m] that fall into a file of [gs]. *)
Definition live_in (m : gmap Z Z) gs : gmap Z Z :=
  filter (λ kv : Z * Z, Exists (λ f, in_file f kv.2) gs) m.

Lemma live_in_all L : Forall lf_wf L → live_in (locs L) L = locs L.
Proof.
  intros Hwf. apply map_filter_id. intros oid loc Hloc. simpl.
  destruct (locs_owner L oid loc Hwf Hloc) as (f & Hf & Ha & _). apply Exists_exists. exists f.
  split; [done|]. rewrite Forall_forall in Hwf. apply (lf_abs_in_file f oid); auto.
Qed.

(** Different files of a store share no location. *)
Lemma live_sum L m gs :
  sorted L → Forall lf_wf L → NoDup gs → (∀ f, f ∈ gs → f ∈ L) →
  total (live m) gs = Z.of_nat (size (live_in m gs)).
Proof.
  intros Hs Hwf Hnd Hsub. induction gs as [|f gs IH]; simpl.
  - assert (live_in m [] = ∅) as ->; [|by rewrite map_size_empty].
    apply map_eq. intros oid. rewrite lookup_empty. apply map_lookup_filter_None. right.
    intros loc _ Hx. by apply Exists_nil in Hx.
  - apply NoDup_cons in Hnd as [Hf Hnd]. rewrite IH by (done || (intros; apply Hsub; by right)). unfold live.
    assert (live_in m (f :: gs) = filter (λ kv : Z * Z, in_file f kv.2) m ∪ live_in m gs) as ->.
    { apply map_eq. intros oid. apply option_eq. intros loc.
      rewrite lookup_union_Some_raw. unfold live_in.
      rewrite !map_lookup_filter_Some, map_lookup_filter_None, Exists_cons. simpl.
      destruct (decide (in_file f loc)); naive_solver. }
    rewrite map_size_disj_union; [lia|]. apply map_disjoint_spec. intros oid loc loc'.
    unfold live_in. rewrite !map_lookup_filter_Some, Exists_exists. simpl.
    intros [E Hin] [E' (g & Hg & Hing)]. simplify_eq.
    assert (f ∈ L) as HfL by (apply Hsub; by left). assert (g ∈ L) as HgL by (apply Hsub; by right).
    destruct (sorted_elem L f g Hs HfL HgL) as [->|Ho]; [done|]. rewrite Forall_forall in Hwf.
    by destruct (in_file_disjoint f g loc (Hwf f HfL) (Hwf g HgL) Ho Hin).
Qed.

(** [k] is the number of live objects in the files of [L] that [P] selects. *)
Definition tally L (P : LogFile → Prop) (k : Z) : Prop :=
  ∃ gs, NoDup gs ∧ (∀ f, f ∈ gs ↔ f ∈ L ∧ P f) ∧ k = total (live (locs L)) gs.

Lemma tally_ext L P P' k : (∀ f, f ∈ L → P f ↔ P' f) → tally L P k → tally L P' k.
Proof.
  intros E (gs & Hnd & Hgs & ->). exists gs. split_and!; [done| |done]. intros f. rewrite Hgs.
  split; intros [Hf ?]; (split; [done|]); by apply E.
Qed.

Lemma tally_none L P : (∀ f, f ∈ L → ¬ P f) → tally L P 0.
Proof.
  intros HP. exists []. split_and!; [constructor| |done]. intros f. split.
  - by intros ?%not_elem_of_nil.
  - intros [Hf ?]. by destruct (HP f Hf).
Qed.

Lemma tally_filter L P `{!∀ f, Decision (P f)} k :
  NoDup L → tally L P k → k = total (live (locs L)) (filter P L).
Proof.
  intros Hnd (gs & Hgs & Hin & ->). apply total_perm, NoDup_Permutation; [done|by apply NoDup_filter|].
  intros f. rewrite Hin, list_elem_of_filter. tauto.
Qed.

Lemma tally_bound L P k :
  sorted L → Forall lf_wf L → tally L P k → 0 ≤ k ≤ Z.of_nat (size (vals L)).
Proof.
  intros Hs Hwf (gs & Hnd & Hin & ->).
  rewrite (live_sum L) by (done || (intros f Hf; by apply Hin in Hf as [])). split; [lia|].
  assert (size (vals L) = size (locs L)) as ->.
  { rewrite <- !size_dom. f_equal. apply set_eq. intros oid. rewrite !elem_of_dom. symmetry. by apply locs_vals_dom. }
  apply inj_le, map_size_filter.
Qed.

(** What a rewrite gathers from its files. *)
Lemma tally_gathered L fs acc :
  sorted L → Forall lf_wf L → (∀ f, f ∈ fs → f ∈ L) → gathered L (owned fs) acc →
  tally L (λ f, f ∈ fs) (Z.of_nat (size (batch acc))).
Proof.
  intros Hs Hwf Hfs Hg.
  set (gs := filter (λ f, lf_location f ∈ lf_location <$> fs) L).
  assert (∀ f, f ∈ gs ↔ f ∈ L ∧ f ∈ fs) as Hgs.
  { intros f. unfold gs. rewrite list_elem_of_filter, list_elem_of_fmap. split.
    - intros [(g & E & Hg') Hf]. assert (f = g) as ->; [|by split]. apply (lf_location_inj L); auto.
    - intros [Hf Hin]. split; [by exists f|done]. }
  assert (NoDup gs) as Hnd by by apply NoDup_filter, sorted_nodup.
  exists gs. split_and!; [done..|]. rewrite (live_sum L) by (done || (intros f ?; by apply Hgs)).
  f_equal. rewrite <- !size_dom. f_equal. apply set_eq. intros oid. rewrite !elem_of_dom. split.
  - intros [v (_ & loc & Hl & f & Hf & Hin)%(ga_batch _ _ _ Hg)]. exists loc.
    apply map_lookup_filter_Some. split; [done|]. apply Exists_exists. exists f. split; [|done].
    apply Hgs. auto.
  - intros [loc [Hl Hex]%map_lookup_filter_Some]. apply Exists_exists in Hex as (f & [_ Hf]%Hgs & Hin).
    destruct (proj1 (locs_vals_dom L oid Hwf)) as [v Hv]; [by eexists|]. exists v.
    apply (ga_batch _ _ _ Hg). split; [done|]. exists loc. split; [done|]. by exists f.
Qed.

(** Two rewrites one after the other: what the first has moved the second does not count. *)
Lemma tally_moved L P k L1 P' k' :
  sorted L → Forall lf_wf L → moved L P L1 → (∀ f, f ∈ L1 → P' f → f ∈ L) →
  tally L P k → tally L1 P' k' → tally L (λ f, P f ∨ P' f) (k + k').
Proof.
  intros Hs Hwf Hmv Hold (gs & Hnd & Hgs & ->) (gs1 & Hnd1 & Hgs1 & ->).
  assert (∀ f, f ∈ gs1 → f ∈ L) as Hsub1 by (intros f [? ?]%Hgs1; auto).
  set (Q := λ f, lf_location f ∉ lf_location <$> gs).
  assert (∀ f, f ∈ gs1 → Q f ↔ f ∉ gs) as HQ.
  { intros f Hf. unfold Q. split; intros Hn Hin; apply Hn; [by apply list_elem_of_fmap_2|].
    apply list_elem_of_fmap in Hin as (g & E & Hg). assert (f = g) as ->; [|done].
    apply (lf_location_inj L); [done|done|by apply Hsub1| |done]. by apply Hgs in Hg as []. }
  exists (gs ++ filter Q gs1). split_and!.
  - apply NoDup_app. split_and!; [done| |by apply NoDup_filter]. intros f Hf [Hq Hf1]%list_elem_of_filter.
    by apply HQ in Hq.
  - intros f. rewrite elem_of_app, list_elem_of_filter. split.
    + intros [[Hf HP]%Hgs|[_ Hf1]]; [by split; [|left]|]. split; [by apply Hsub1|]. right. by apply Hgs1.
    + intros [Hf HPP]. destruct (decide (Q f)) as [Hq|Hq].
      * destruct HPP as [HP|HP']; [left; by apply Hgs|]. right. split; [done|]. apply Hgs1.
        split; [|done]. by apply (moved_sub L P).
      * destruct HPP as [HP|HP']; [left; by apply Hgs|]. assert (f ∈ gs1) as Hf1.
        { apply Hgs1. split; [|done]. by apply (moved_sub L P). }
        left. destruct (decide (lf_location f ∈ lf_location <$> gs)) as [Hin|Hn]; [|by destruct Hq].
        apply list_elem_of_fmap in Hin as (g & E & Hg). assert (f = g) as ->; [|done].
        apply (lf_location_inj L); [done|done|done| |done]. by apply Hgs in Hg as [].
  - rewrite total_app. f_equal. rewrite <- (total_filter (live (locs L1)) Q gs1).
    + apply total_ext. intros f [Hq Hf]%list_elem_of_filter. pose proof (Hsub1 f Hf) as HfL.
      apply HQ in Hq; [|done]. destruct (mv_change _ _ _ Hmv f HfL) as [[HP _]|[_ ->]]; [|done].
      destruct Hq. by apply Hgs.
    + intros f Hf Hn. pose proof (Hsub1 f Hf) as HfL.
      destruct (mv_change _ _ _ Hmv f HfL) as [[_ E]|[HnP _]]; [done|]. destruct Hn. apply HQ; [done|].
      intros Hin. by apply Hgs in Hin as [].
Qed.
End count.
