(* ===== verification/RewriteSpec.v ===== *)
(** RewriteSpec: the rewriting of one generation by [maintenance]. It moves entries to new
    files and changes no value. *)
From S2P Require Import Prelude Effects Os Deps Locations LocationTable Config Metadata.
From S2P Require Import ZstdDict Storage State FileMap WritePath Gc Recovery FileMapSpec Layout.
From S2P Require Import Invariant PowerLoss WriteSpec InstallSpec BatchSpec ShardSpec RecoverySpec.
From S2P Require Import StoreSpec FrameSpec GcSpec MoveSpec CountSpec.

(** ** Room *)

Section room.
Context `{Deps, !DepsLaws}.
Implicit Types m : gmap Z (option bytes).

(** An upper bound of the sequence numbers that rewriting all objects takes. *)
Definition rewrite_room (L : list LogFile) : Z :=
  batch_room (map_to_list (vals L)) + Z.of_nat (size (vals L)).

Lemma batch_room_submap m m' :
  m ⊆ m' → batch_room (map_to_list m) ≤ batch_room (map_to_list m').
Proof.
  intros (k & E)%map_to_list_submseteq%submseteq_Permutation.
  rewrite (batch_room_perm _ _ E), batch_room_app. pose proof (batch_room_length k). lia.
Qed.

Lemma pieces_room_sum (ps : list (gmap Z (option bytes))) :
  pieces_room ps = batch_room (concat (map_to_list <$> ps)) + len ps.
Proof.
  unfold pieces_room. induction ps as [|m ps IH]; csimpl; [done|].
  rewrite IH, batch_room_app, (batch_room_perm (iter_order m) (map_to_list m)) by apply iter_order_perm.
  lia.
Qed.

Lemma pieces_count (ps : list (gmap Z (option bytes))) :
  (∀ m, m ∈ ps → m ≠ ∅) → len ps ≤ len (concat (map_to_list <$> ps)).
Proof.
  induction ps as [|m ps IH]; intros Hne; csimpl; [done|]. rewrite length_app.
  specialize (IH (λ m' Hm, Hne m' (list_elem_of_further _ _ _ Hm))).
  assert (length (map_to_list m) ≠ 0%nat); [|lia].
  rewrite length_map_to_list. intros E%map_size_empty_inv. by apply (Hne m); [left|].
Qed.

(** Files that repeat what is there change nothing. *)
Lemma vals_repeat L fs : (∀ f, f ∈ fs → lf_vals f ⊆ vals L) → vals (L ++ fs) = vals L.
Proof.
  induction fs as [|f fs IH] using rev_ind; intros Hsub; [by rewrite app_nil_r|].
  rewrite (assoc_L (++)), vals_snoc, IH by set_solver.
  apply map_subseteq_union, Hsub. set_solver.
Qed.
End room.

(** ** One generation *)

Section rewrite.
Context `{Deps, !DepsLaws}.
Context (config : Config).

(** Why [maintenance] may fail although no system call does. *)
Definition gc_refuses (L : list LogFile) (e : ErrorKind) : Prop :=
  (e = InvalidData ∧ ∃ f, f ∈ L ∧ too_large config f) ∨
  (e = Unsupported ∧ ∃ oid v, vals L !! oid = Some v ∧ oversize config v).

(** The disk holds the same objects, and has held them since [F0]. *)
Definition same_on_disk (F0 : fs) (L : list LogFile) (F : fs) : Prop :=
  (∃ L', disk_ok F L' ∧ vals L' = vals L) ∧ steady F0 F L.

Lemma same_on_disk_trans F0 F1 F2 L L' :
  steady F0 F1 L → vals L' = vals L → same_on_disk F1 L' F2 → same_on_disk F0 L F2.
Proof.
  intros Hst E [(L2 & Hd & E2) Hst2]. split; [exists L2; split; [done|congruence]|].
  by eapply steady_trans.
Qed.

(** The pointer of a file. *)
Definition points_to (m : FileMap) (p : Z) (f : LogFile) : Prop :=
  cm_get (fams m) (lf_location f) = Some p.

Section file.
Context (w : World) (L : list LogFile) (claimed : Z → bool) (Hi : Inv w L claimed).

Lemma wp_rewrite_file fs f p acc (Q : Rewrite → World → Prop) E C :
  f ∈ L → points_to (w_fm w) p f → gathered L (owned fs) acc →
  (∀ acc' o', os_upd (os_fs (w_os w)) (w_os w) o' → ¬ too_large config f →
     gathered L (owned (fs ++ [f])) acc' → Q acc' (set_os o' w)) →
  (∀ e o', os_upd (os_fs (w_os w)) (w_os w) o' →
     injected (w_os w) ∨ e = InvalidData ∧ too_large config f → E e (set_os o' w)) →
  (∀ o', os_upd (os_fs (w_os w)) (w_os w) o' → injected (w_os w) → C (set_os o' w)) →
  wp (rewrite_file config acc p) Q E C w.
Proof.
  intros Hf Hp Hg HQ HE HC. pose proof (inv_lf_wf w L claimed f Hi Hf) as Hwf.
  pose proof (inv_fams _ _ _ Hi) as Hm.
  destruct (fs_fam _ _ _ Hm f Hf) as (fam & (p' & Hk & Hfp)%fam_at_Some & Hfam).
  assert (p' = p) as -> by (unfold points_to in Hp; congruence).
  unfold rewrite_file. w_steps. eapply wp_deref; [done|]. w_steps. w_clean.
  eapply wp_unwrap; [by apply fo_metadata with (1 := Hfam)|]. w_steps.
  eapply wp_unwrap; [by apply fo_path with (1 := Hfam)|]. w_steps.
  pose proof (wf_alloc f Hwf) as Ha. pose proof (lf_end_pos f Hwf).
  assert (len (lf_content f) = lf_end f + len (trailer_buf (lf_entries f) (lf_dict f))) as El.
  { unfold lf_content. rewrite length_app, (wf_end f Hwf). lia. }
  unfold read_range_at. rewrite (wf_size f Hwf), Z.sub_0_r, wrap64_small by u64_lia.
  w_steps. unfold allocate. apply wp_assert; [by apply bool_decide_eq_true|]. w_steps.
  rewrite (fo_file _ _ _ _ Hfam).
  eapply wp_read_exact_at; [by apply (dk_content _ _ (inv_disk _ _ _ Hi))|by apply slice_all| | |].
  2: { intros e o1 Hinj Ho1. apply HE; [done|by left]. }
  2: { intros o1 Hinj Ho1. by apply HC. }
  intros o1 Ho1. pose proof (inv_os _ _ _ _ Hi Ho1) as Hi1. w_steps.
  eapply wp_unwrap.
  { unfold lf_content at 1. apply slice_app_end; [apply (wf_end f Hwf)|].
    rewrite El, <- (wf_end f Hwf). done. }
  w_steps. eapply wp_mono with (Q := λ r w', r = (lf_entries f, trailer_dict (lf_dict f)) ∧ w' = set_os o1 w)
    (E := λ _ _, False) (C := λ _, False);
    [unfold wp; by rewrite read_trailer_of_file| |done..].
  intros r w' [-> ->]. w_steps. unfold current_thread. w_steps. change (set_os (w_os (set_os o1 w)) (set_os o1 w)) with (set_os o1 w).
  eapply (wp_rewrite_objects config (set_os o1 w) L claimed Hi1 f fam _ (owned fs)
    (trailer_buf (lf_entries f) (lf_dict f)) Hf (fo_location _ _ _ _ Hfam) (lf_objs f) []); try done.
  - by intros oid st ?%not_elem_of_nil.
  - unfold lf_content, lf_data. rewrite length_app. clear. revert f.
    assert (∀ objs, (length objs ≤ length (encode_objects objs))%nat) as Hle; [|intros f; specialize (Hle (lf_objs f)); lia].
    induction objs as [|o objs IH]; [done|]. pose proof (len_encode_objects_cons o objs) as E.
    unfold HEADER_LEN in E. simpl length at 1. lia.
  - apply zstd_dict_trailer, Hwf.
  - eapply gathered_ext; [|exact Hg]. intros oid loc Hl. unfold objects_upto.
    change (len (encode_objects [])) with 0. split; [by left|]. intros [?|(x & _ & ?)]; [done|lia].
  - intros acc1 Hsmall Hg1. w_steps. eapply wp_unwrap; [done|]. w_steps.
    apply (wp_rewrite_deletes (set_os o1 w) L claimed Hi1 f fam (owned fs)); try done;
      [by apply (fo_location _ _ _ _ Hfam)|].
    intros acc2 Hg2. apply HQ; [done|done|].
    apply (deletes_all L (inv_sorted _ _ _ Hi) (inv_wf _ _ _ Hi)); done.
  - intros Hl. apply HE; [done|]. by right.
Qed.
End file.

(** *** The files of a generation *)

Section generation.
Context (w : World) (L : list LogFile) (claimed : Z → bool) (Hi : Inv w L claimed).

Definition pointers (ps : list Z) : Prop := ∀ p, p ∈ ps → ∃ f, f ∈ L ∧ points_to (w_fm w) p f.

Lemma points_to_inj f g p :
  f ∈ L → g ∈ L → points_to (w_fm w) p f → points_to (w_fm w) p g → f = g.
Proof.
  intros Hf Hg Hpf Hpg. apply (lf_location_inj L); [by eapply inv_sorted|by eapply inv_wf|done|done|].
  unfold points_to in *. eapply fm_wf_inj; [apply (inv_fams _ _ _ Hi)|done|done].
Qed.

Lemma wp_collect_locations ps (Q : list Z → World → Prop) E C :
  pointers ps → (∀ locations, Q locations w) →
  wp (foldM (λ locations p, fam ← fm (deref p); mret (locations ++ [fam_location fam])) [] ps) Q E C w.
Proof.
  intros Hps HQ. eapply wp_mono; [apply (wp_foldM _ (λ _ _ w', w' = w) (λ _ _, False) (λ _, False));
    [done|]|..]; [|by intros ls w' ->|done..].
  intros dn p rest ls w' E' ->. destruct (Hps p) as (f & Hf & Hp); [rewrite E'; set_solver|].
  destruct (fs_fam _ _ _ (inv_fams _ _ _ Hi) f Hf) as (fam & (p' & Hk & Hfp)%fam_at_Some & _).
  assert (p' = p) as -> by (unfold points_to in Hp; congruence).
  w_steps. eapply wp_deref; [done|]. w_steps. by rewrite set_file_map_id.
Qed.

Lemma wp_rewrite_files ps (Q : Rewrite → World → Prop) (E : ErrorKind → World → Prop) (C : World → Prop) :
  pointers ps →
  (∀ acc fs o', os_upd (os_fs (w_os w)) (w_os w) o' → gathered L (owned fs) acc →
     (∀ f, f ∈ fs ↔ f ∈ L ∧ ∃ p, p ∈ ps ∧ points_to (w_fm w) p f) →
     (∀ f, f ∈ fs → ¬ too_large config f) →
     Q acc (set_os o' w)) →
  (∀ e o', os_upd (os_fs (w_os w)) (w_os w) o' →
     injected (w_os w) ∨ e = InvalidData ∧ (∃ p f, p ∈ ps ∧ f ∈ L ∧ points_to (w_fm w) p f ∧
       too_large config f) → E e (set_os o' w)) →
  (∀ o', os_upd (os_fs (w_os w)) (w_os w) o' → injected (w_os w) → C (set_os o' w)) →
  wp (foldM (rewrite_file config) (MkRewrite ∅ ∅) ps) Q E C w.
Proof.
  intros Hps HQ HE HC.
  eapply wp_mono; [apply (wp_foldM _ (λ dn acc w', ∃ fs o', w' = set_os o' w ∧
    os_upd (os_fs (w_os w)) (w_os w) o' ∧ gathered L (owned fs) acc ∧
    (∀ f, f ∈ fs ↔ f ∈ L ∧ ∃ p, p ∈ dn ∧ points_to (w_fm w) p f) ∧
    (∀ f, f ∈ fs → ¬ too_large config f)) E C)|..]; [..|done|done].
  - exists [], (w_os w). rewrite set_os_id.
    split_and!; [done|apply os_upd_refl| |set_solver|by intros f ?%not_elem_of_nil].
    eapply gathered_ext; [|apply gathered_none]. intros oid loc _. unfold owned.
    split; [done|]. intros (f & Hf & _). by apply not_elem_of_nil in Hf.
  - intros dn p rest acc w' E' (fs & o1 & -> & Ho1 & Hg & Hall & Hsmall).
    destruct (Hps p) as (f & Hf & Hp); [rewrite E'; set_solver|].
    pose proof (inv_os _ _ _ _ Hi Ho1) as Hi1. pose proof (os_upd_fs _ _ _ Ho1) as Efs.
    assert (∀ o2, os_upd (os_fs o1) o1 o2 → os_upd (os_fs (w_os w)) (w_os w) o2) as Htr.
    { intros o2 Ho2. rewrite Efs in Ho2. by eapply os_upd_trans. }
    eapply (wp_rewrite_file (set_os o1 w) L claimed Hi1 fs f p); try done; simpl.
    + intros acc' o2 Ho2 Hf' Hg'. exists (fs ++ [f]), o2. split_and!; [done|by apply Htr|done| |].
      2: { intros g [?| ->%list_elem_of_singleton]%elem_of_app; auto. }
      intros g. rewrite elem_of_app, Hall, list_elem_of_singleton. split.
      * intros [(? & q & ? & ?)| ->]; (split; [done|]); [exists q|exists p]; set_solver.
      * intros (Hg2 & q & [Hq|Hq%list_elem_of_singleton]%elem_of_app & Hq'); [left; eauto|right; subst q].
        by apply (points_to_inj g f p).
    + intros e o2 Ho2 He. apply (HE e o2); [by apply Htr|]. destruct He as [?|[-> ?]].
      * left. by eapply injected_upd.
      * right. split; [done|]. exists p, f. split_and!; try done. rewrite E'. apply elem_of_app. right. by left.
    + intros o2 Ho2 He. apply (HC o2); [by apply Htr|]. by eapply injected_upd.
  - intros acc w' (fs & o1 & -> & Ho1 & Hg & Hall & Hsmall). by eapply HQ.
Qed.

Lemma wp_verify locations t (Q : () → World → Prop) E C w' :
  Q () w' → wp (verify_files_uninhabited locations t) Q E C w'.
Proof.
  intros HQ. eapply wp_mono; [apply (wp_forM _ (λ _ w1, w1 = w') (λ _ _, False) (λ _, False))|..];
    [done|by intros ????? ->|by intros [] ? ->|done..].
Qed.
End generation.

(** *** The pieces of a rewrite *)

Section shards.
Context (L : list LogFile) (Hwf : Forall lf_wf L) (P : Z → Z → Prop) (acc : Rewrite) (gen : Z).
Context (Htyped : Config_typed config) (Hg : gathered L P acc).

Let ps := pieces config gen (old_locations acc) (iter_order (batch acc)).

Lemma rewrite_pieces : concat (map_to_list <$> ps) ≡ₚ map_to_list (batch acc).
Proof.
  unfold ps, pieces. rewrite sharding_iter_pieces.
  destruct (shard_objects_sharded config gen (old_locations acc) (iter_order (batch acc))) as [-> _ _];
    [apply Htyped|apply iter_order_nodup|apply iter_order_perm].
Qed.

Lemma rewrite_piece_ids oid : oid ∈ piece_ids ps ↔ is_Some (batch acc !! oid).
Proof.
  unfold piece_ids. rewrite rewrite_pieces, list_elem_of_fmap. split.
  - intros ([k v] & -> & Hin%elem_of_map_to_list). eauto.
  - intros [v Hv]. exists (oid, v). split; [done|]. by apply elem_of_map_to_list.
Qed.

Lemma rewrite_nodup : NoDup (piece_ids ps).
Proof. unfold piece_ids. rewrite rewrite_pieces. apply NoDup_fst_map_to_list. Qed.

Lemma rewrite_piece_ne m : m ∈ ps → m ≠ ∅.
Proof. apply sharding_iter_ne; [apply Htyped|apply iter_order_nodup]. Qed.

Lemma rewrite_piece_vals m : m ∈ ps → m ⊆ vals L.
Proof.
  intros Hm. apply map_subseteq_spec. intros oid v Hv.
  assert ((oid, v) ∈ map_to_list (batch acc)) as Hin.
  { rewrite <- rewrite_pieces, list_elem_of_In, in_concat. exists (map_to_list m). split.
    - apply list_elem_of_In, list_elem_of_fmap_2, Hm.
    - by apply list_elem_of_In, elem_of_map_to_list. }
  apply elem_of_map_to_list, (ga_batch _ _ _ Hg) in Hin. apply Hin.
Qed.

Lemma rewrite_batch_vals : batch acc ⊆ vals L.
Proof. apply map_subseteq_spec. intros oid v Hv. by apply (ga_batch _ _ _ Hg). Qed.

Lemma rewrite_located oid :
  is_Some (batch acc !! oid) → ∃ loc, old_locations acc !! oid = Some loc ∧ locs L !! oid = Some loc.
Proof.
  intros [v (_ & loc & Hl & HP)%(ga_batch _ _ _ Hg)]. exists loc. split; [|done].
  by apply (ga_old _ _ _ Hg).
Qed.

Lemma rewrite_pieces_room :
  pieces_room ps ≤ rewrite_room L ∧ len ps ≤ Z.of_nat (size (vals L)).
Proof.
  pose proof (batch_room_submap _ _ rewrite_batch_vals) as Hr.
  pose proof (map_subseteq_size _ _ rewrite_batch_vals) as Hs.
  pose proof (pieces_count ps rewrite_piece_ne) as Hc.
  rewrite rewrite_pieces, length_map_to_list in Hc.
  rewrite pieces_room_sum, (batch_room_perm _ _ rewrite_pieces). unfold rewrite_room. lia.
Qed.

Lemma rewrite_mode :
  gen ≠ 0 →
  ps = [] ∨ gen = 0 ∧ old_locations acc = ∅ ∨
  gen ≠ 0 ∧ old_locations acc ≠ ∅ ∧
  ∀ oid, oid ∈ piece_ids ps → ∃ loc, old_locations acc !! oid = Some loc ∧ locs L !! oid = Some loc.
Proof.
  intros Hgen. destruct (decide (ps = [])) as [?|Hne]; [by left|right; right].
  split_and!; [done| |by intros oid ?%rewrite_piece_ids; apply rewrite_located].
  intros E. destruct ps as [|m ps'] eqn:Eps; [done|].
  assert (m ≠ ∅) as (oid & v & Hm)%map_choose by (apply rewrite_piece_ne; rewrite Eps; by left).
  destruct (rewrite_located oid) as (loc & Ho & _); [|by rewrite E in Ho].
  apply rewrite_piece_ids. rewrite Eps. apply piece_ids_elem. exists m. split; [by left|eauto].
Qed.

Lemma rewrite_written fs k : lf_vals <$> fs = take k ps → vals (L ++ fs) = vals L.
Proof.
  intros Hv. apply vals_repeat. intros f Hf. apply rewrite_piece_vals.
  assert (lf_vals f ∈ take k ps) as Hin by (rewrite <- Hv; by apply list_elem_of_fmap_2).
  rewrite <- (take_drop k ps). apply elem_of_app. by left.
Qed.

Lemma rewrite_stages fs k L' : lf_vals <$> fs = take k ps → L' ∈ stages L fs → vals L' = vals L.
Proof.
  intros Hv (j & Hj & ->)%stages_elem. apply (rewrite_written _ (j `min` k)).
  by rewrite fmap_take, Hv, take_take.
Qed.
End shards.

(** *** The whole generation *)

Section whole.
Context (w : World) (L : list LogFile) (claimed : Z → bool).

(** [w'] stores the same objects, those of the files [P] selects in new files. *)
Record regenerated (P : LogFile → Prop) (w' : World) (L' : list LogFile) : Prop := {
  rg_inv : Inv w' L' claimed;
  rg_vals : vals L' = vals L;
  rg_moved : moved L P L';
  rg_small f : f ∈ L → P f → ¬ too_large config f;
  rg_next : next_file_lsn (w_fm w') ≤ next_file_lsn (w_fm w) + rewrite_room L;
  rg_tmp : os_tmp_counter (w_os w') ≤ os_tmp_counter (w_os w) + Z.of_nat (size (vals L));
  rg_faults : os_faults (w_os w') `suffix_of` os_faults (w_os w);
  rg_steady : steady (os_fs (w_os w)) (os_fs (w_os w')) L;
}.

(** What one rewrite needs of its surroundings. *)
Record rewritable : Prop := {
  rw_inv : Inv w L claimed;
  rw_claims k : (∀ g, g ∈ L → k ≠ lf_location g) → claimed k = false;
  rw_room : next_file_lsn (w_fm w) + rewrite_room L < 2 ^ 62;
  rw_tmp : os_tmp_counter (w_os w) + Z.of_nat (size (vals L)) < two64;
}.

Lemma rewrite_room_pos : 0 ≤ rewrite_room L.
Proof. unfold rewrite_room. pose proof (batch_room_length (map_to_list (vals L))). lia. Qed.

Lemma regenerated_refl P o :
  (∀ f, f ∈ L → ¬ P f) → Inv w L claimed → os_upd (os_fs (w_os w)) (w_os w) o →
  regenerated P (set_os o w) L.
Proof.
  intros HP Hi Ho. pose proof rewrite_room_pos.
  split; try done; [by apply inv_os|by apply moved_refl|by intros f ? ?%HP|change (w_fm (set_os o w)) with (w_fm w); lia|simpl; destruct Ho as (_ & -> & _); lia|apply Ho|].
  simpl. rewrite (os_upd_fs _ _ _ Ho). apply steady_refl.
Qed.

Lemma wp_rewrite_shards L0 gen acc gs o1 (Q : () → World → Prop) E C :
  Config_typed config → rewritable → vals L = vals L0 → 0 < gen < 256 →
  (∀ f, f ∈ gs → f ∈ L) → (∀ f, f ∈ gs → ¬ too_large config f) → gathered L (owned gs) acc →
  os_upd (os_fs (w_os w)) (w_os w) o1 →
  (∀ w' L', regenerated (λ f, f ∈ gs) w' L' → Q () w') →
  (∀ e w', same_on_disk (os_fs (w_os w)) L (os_fs (w_os w')) → injected (w_os w) ∨ gc_refuses L0 e → E e w') →
  (∀ w', same_on_disk (os_fs (w_os w)) L (os_fs (w_os w')) → injected (w_os w) → C w') →
  wp (shard_batch config (iter_order (batch acc)) gen (old_locations acc)) Q E C (set_os o1 w).
Proof.
  intros Ht [Hi Hc Hr Htmp] E0 Hgen Hgs Hsmall Hg Ho1 HQ HE HC. set (P := owned gs) in *.
  pose proof (inv_os _ _ _ _ Hi Ho1) as Hi1. pose proof (inv_wf _ _ _ Hi) as Hwf.
  destruct (rewrite_pieces_room L P acc gen Ht Hg) as [Hpr Hpl].
  assert (os_tmp_counter o1 = os_tmp_counter (w_os w)) as Et by apply Ho1.
  assert (injected o1 → injected (w_os w)) as Hinj by by apply injected_upd with (1 := Ho1).
  assert (∀ F, prefix_on_disk (set_os o1 w) L (pieces config gen (old_locations acc) (iter_order (batch acc))) F →
    same_on_disk (os_fs (w_os w)) L F) as Hpx.
  { intros F (k & fs & Hv & [Hd Hp]). split; [exists (L ++ fs); split; [done|]; by eapply rewrite_written|].
    apply (steady_passes _ _ (stages L fs)); [by simpl in Hp; rewrite (os_upd_fs _ _ _ Ho1) in Hp|].
    intros L' Hin. by eapply (rewrite_stages L P acc gen Ht Hg fs k). }
  eapply wp_mono; [apply (wp_shard_batch config (set_os o1 w) L claimed gen (old_locations acc)
    (iter_order (batch acc)) Hi1)|..]; simpl.
  - intros m. by apply rewrite_piece_ne.
  - by apply rewrite_nodup.
  - intros oid [v Hv]%rewrite_piece_ids; [|done]. apply list_elem_of_fmap. exists (oid, v).
    split; [done|]. by apply iter_order_elem.
  - intros oid ([k v] & -> & Hin%iter_order_elem)%list_elem_of_fmap.
    apply (ga_batch _ _ _ Hg) in Hin as (_ & loc & Hl & _). by eapply locs_oid_u64.
  - lia.
  - change (w_fm (set_os o1 w)) with (w_fm w). unfold pieces in *. lia.
  - rewrite Et. unfold pieces in *. lia.
  - eapply rewrite_mode; [done|done|lia].
  - done.
  - intros [] w' (fs & [Hi' Hv _ Hfull Hn Ht' Hf Hp] & _). apply (HQ w' (L ++ fs)). split; try done.
    + eapply (rewrite_written L P acc gen Ht Hg fs (length fs)). rewrite <- (length_fmap lf_vals), Hv, firstn_all. done.
    + destruct Hi' as [Hd' _]. eapply (take_over_moved L gs acc); try done; [apply Hd'..| |by apply rewrite_nodup].
      intros oid. by apply rewrite_piece_ids.
    + auto.
    + change (w_fm (set_os o1 w)) with (w_fm w) in Hn. unfold pieces in *. lia.
    + simpl in Ht'. unfold pieces in *. lia.
    + simpl in Hf. etrans; [done|apply Ho1].
    + apply (steady_passes _ _ (stages L fs)); [by simpl in Hp; rewrite (os_upd_fs _ _ _ Ho1) in Hp|].
      intros L' Hin. eapply (rewrite_stages L P acc gen Ht Hg fs (length fs)); [|done].
      by rewrite <- (length_fmap lf_vals), Hv, firstn_all.
  - intros e w' [Hd He]. apply HE; [by apply Hpx|].
    destruct He as [?|(-> & m & oid & v & Hm & Hmv & Hov)]; [left; auto|right]. right. split; [done|].
    exists oid, v. split; [|done]. rewrite <- E0. eapply lookup_weaken; [done|]. by eapply rewrite_piece_vals.
  - intros w' [Hd ?]. apply HC; [by apply Hpx|auto].
Qed.

(** The files whose pointers [ps] are rewritten: those of a group that is large enough. *)
Definition selected (m : FileMap) (ps : list Z) (f : LogFile) : Prop :=
  min_compaction_files config ≤ len ps ∧ ∃ p, p ∈ ps ∧ points_to m p f.

(** [L0] are the files [maintenance] has started with, of which the generation has some. *)
Lemma wp_rewrite_generation L0 n gen ps (Q : Z → World → Prop) E C :
  Config_typed config → rewritable → vals L = vals L0 → (∀ f, f ∈ L0 → f ∈ L) → 0 < gen < 256 →
  pointers w L0 ps → is_u64 n →
  (∀ k w' L', regenerated (selected (w_fm w) ps) w' L' → tally L (selected (w_fm w) ps) k →
     Q (wrap64 (n + k)) w') →
  (∀ e w', same_on_disk (os_fs (w_os w)) L (os_fs (w_os w')) → injected (w_os w) ∨ gc_refuses L0 e → E e w') →
  (∀ w', same_on_disk (os_fs (w_os w)) L (os_fs (w_os w')) → injected (w_os w) → C w') →
  wp (rewrite_generation config n (gen, ps)) Q E C w.
Proof.
  intros Ht Hrw E0 Hsub0 Hgen Hps0 Hn HQ HE HC. pose proof Hrw as [Hi _ _ _].
  assert (pointers w L ps) as Hps by (intros p (f & ? & ?)%Hps0; eauto).
  assert (∀ o', os_upd (os_fs (w_os w)) (w_os w) o' → same_on_disk (os_fs (w_os w)) L (os_fs o')) as Hdisk.
  { intros o' ->%os_upd_fs. split; [|apply steady_refl]. exists L. split; [apply Hi|done]. }
  unfold rewrite_generation. destruct (Z.ltb_spec (len ps) (min_compaction_files config)) as [Hfew|Hmany].
  { assert (∀ f, f ∈ L → ¬ selected (w_fm w) ps f) as Hnone by (unfold selected; intros f _ [? _]; lia).
    w_steps. rewrite <- (wrap64_small n), <- (Z.add_0_r n) by done. apply (HQ 0 w L); [|by apply tally_none].
    rewrite <- (set_os_id w) at 2. apply regenerated_refl; [done|done|apply os_upd_refl]. }
  w_steps. eapply (wp_collect_locations w L claimed Hi); [done|]. intros locations. w_steps.
  eapply (wp_rewrite_files w L claimed Hi); [done|..].
  - intros acc fs o1 Ho1 Hg Hall Hsmall. w_steps.
    eapply (wp_rewrite_shards L0 gen acc fs); [done..|by intros f [? _]%Hall|done|done|done| |done|done].
    intros w' L' Hrg. w_steps. apply wp_verify. w_steps. apply (HQ _ _ L').
    2: { apply (tally_ext L (λ f, f ∈ fs)); [intros f Hf; unfold selected; rewrite Hall; tauto|].
         apply tally_gathered; [by eapply inv_sorted|by eapply inv_wf|by intros f [? _]%Hall|done]. }
    destruct Hrg as [? ? Hmv]. split; try done.
    + eapply moved_ext; [|done]. intros f Hf. unfold selected. rewrite Hall. tauto.
    + intros f Hf [_ Hsel]. apply Hsmall, Hall. by split.
  - intros e o' Ho' He. apply HE; [by apply Hdisk|]. destruct He as [?|(-> & p & f & Hp & Hf & Hpt & ?)]; [by left|].
    right. left. split; [done|]. exists f. split; [|done]. destruct (Hps0 p Hp) as (f0 & Hf0 & Hpt0).
    assert (f = f0) as ->; [|done]. by apply (points_to_inj w L claimed Hi f f0 p); [|auto|..].
  - intros o' Ho' He. apply HC; [by apply Hdisk|done].
Qed.
End whole.
End rewrite.
