(* ===== verification/ClaimSpec.v ===== *)
(** ClaimSpec: the claims of [maintenance]. [files_to_defrag] claims the files it selects,
    and dropping the claims releases them, also after an error. *)
From S2P Require Import Prelude Effects Os Deps Locations LocationTable Config Metadata.
From S2P Require Import ZstdDict Storage State FileMap Recovery FileMapSpec Layout Invariant.
From S2P Require Import FrameSpec RewriteSpec.

Definition claim_set (claims : list Z) : Z → bool := λ k, bool_decide (k ∈ claims).

Section claims.
Context `{Deps, !DepsLaws}.
Context (L : list LogFile) (Hs : sorted L) (Hwf : Forall lf_wf L).
Implicit Types m : FileMap.

Lemma fam_ok_claims tbl c c' f fam :
  c (lf_location f) = c' (lf_location f) → fam_ok tbl c f fam → fam_ok tbl c' f fam.
Proof. intros E Hf. pose proof (fo_claim _ _ _ _ Hf). destruct Hf. split; try done. congruence. Qed.

Lemma fams_ok_claims m tbl c c' :
  (∀ f, f ∈ L → c (lf_location f) = c' (lf_location f)) →
  fams_ok m L (fam_ok tbl c) → fams_ok m L (fam_ok tbl c').
Proof. intros E Hm. eapply fams_ok_mono; [done|]. intros f fam Hf. apply fam_ok_claims. auto. Qed.

(** Setting the claim of one file. *)
Lemma fams_ok_claim m tbl c c' f p fam b :
  fams_ok m L (fam_ok tbl c) → f ∈ L → points_to m p f → arcs m !! p = Some fam →
  c' (lf_location f) = b → (∀ g, g ∈ L → g ≠ f → c (lf_location g) = c' (lf_location g)) →
  fams_ok (updated p (set_fam_rewrite_claim b) m) L (fam_ok tbl c').
Proof.
  intros Hm Hf Hp Hfp Hb Hother.
  assert (fam_ok tbl c f fam) as Hfam.
  { destruct (fs_fam _ _ _ Hm f Hf) as (fam' & (p' & Hk & Hfp')%fam_at_Some & ?).
    unfold points_to in Hp. congruence. }
  eapply (fams_ok_updated m L _ Hs Hwf Hm f); try done.
  - destruct Hfam. by split.
  - intros g fam' Hg Hne. apply fam_ok_claims. auto.
Qed.

(** The file map has one entry for each file. *)
Lemma fams_count m Φ : fams_ok m L Φ → cm_len (fams m) = len L.
Proof.
  intros Hm. destruct (iter_files m L Φ Hs Hwf Hm) as (fs & Hp & HF).
  rewrite cm_len_iter, (Forall2_length _ _ _ HF), Hp. done.
Qed.

(** *** Releasing *)

Lemma wp_drop_claims claims m tbl (Q : () → FileMap → Prop) E C :
  fams_ok m L (fam_ok tbl (claim_set claims)) → NoDup claims →
  (∀ m', fams_ok m' L (fam_ok tbl unclaimed) → fams m' = fams m →
     next_file_lsn m' = next_file_lsn m → Q () m') →
  wp (drop_claims claims) Q E C m.
Proof.
  intros Hm Hnd HQ. unfold drop_claims.
  set (left := λ (dn : list Z) (k : Z), claim_set claims k && negb (bool_decide (k ∈ dn))).
  eapply wp_mono; [apply (wp_forM _ (λ dn m', fams_ok m' L (fam_ok tbl (left dn)) ∧ fams m' = fams m ∧
    next_file_lsn m' = next_file_lsn m) (λ _ _, False) (λ _, False))|..]; [..|done|done].
  - split_and!; [|done..]. eapply fams_ok_claims; [|done]. intros f _. unfold left.
    rewrite (bool_decide_eq_false_2 (_ ∈ [])) by apply not_elem_of_nil. by rewrite andb_true_r.
  - intros dn k rest m' E' (Hm' & Ef & En). w_steps.
    assert (∀ g, g ∈ L → lf_location g ≠ k → left dn (lf_location g) = left (dn ++ [k]) (lf_location g)) as Hother.
    { intros g _ Hne. unfold left. do 2 f_equal. apply bool_decide_ext.
      rewrite elem_of_app, list_elem_of_singleton. naive_solver. }
    destruct (cm_get (fams m') k) as [p|] eqn:Ek.
    + destruct (fw_ptr _ (fs_wf _ _ _ Hm') k p Ek) as (fam & Hp & _).
      destruct (fs_key _ _ _ Hm' k fam) as (f & Hf & ->); [apply fam_at_Some; eauto|].
      assert (fam_ok tbl (left dn) f fam) as Hfam.
      { destruct (fs_fam _ _ _ Hm' f Hf) as (fam' & (p' & Hk' & Hp')%fam_at_Some & ?). congruence. }
      w_steps. eapply wp_deref; [done|]. w_steps. apply wp_update_fam. w_steps. apply wp_assert.
      * rewrite (fo_claim _ _ _ _ Hfam). unfold left, claim_set. rewrite E'.
        rewrite bool_decide_eq_true_2 by set_solver. simpl. apply negb_true_iff, bool_decide_eq_false.
        rewrite E' in Hnd. apply NoDup_app in Hnd as (_ & Hd & _). intros Hin. apply (Hd _ Hin). by left.
      * split_and!; [|done..]. eapply fams_ok_claim; try done.
        -- unfold left. rewrite (bool_decide_eq_true_2 (_ ∈ dn ++ _)) by set_solver. by rewrite andb_false_r.
        -- intros g Hg Hne. apply Hother; [done|]. intros El. apply Hne.
           by apply (lf_location_inj L).
    + w_steps. split_and!; [|done..]. eapply fams_ok_claims; [|done]. intros g Hg. apply Hother; [done|].
      intros <-. destruct (fs_fam _ _ _ Hm' g Hg) as (fam & (p & Hk & _)%fam_at_Some & _). congruence.
  - intros [] m' (Hm' & Ef & En). apply HQ; [|done..]. eapply fams_ok_claims; [|done].
    intros f _. unfold left, claim_set. by destruct (bool_decide _).
Qed.

(** Releasing after an error: all that is known is that the claimed files are where they were. *)
Lemma wp_drop_claims_framed m0 tbl claims w (Q : () → World → Prop) E C :
  fams_ok m0 L (fam_ok tbl (claim_set claims)) → NoDup claims →
  (∀ k, k ∈ claims → ∃ f, f ∈ L ∧ k = lf_location f) →
  framed m0 w → (∀ w', w_os w' = w_os w → Q () w') →
  wp (fm (drop_claims claims)) Q E C w.
Proof.
  intros Hm0 Hnd Hcl [Hfr _] HQ. apply wp_fm. unfold drop_claims.
  eapply wp_mono; [apply (wp_forM _ (λ dn m, ∀ k p, k ∉ dn → k ∈ claims → cm_get (fams m0) k = Some p →
     cm_get (fams m) k = Some p ∧ ∃ fam, arcs m !! p = Some fam ∧ fam_rewrite_claim fam = true)
    (λ _ _, False) (λ _, False))|..]; [..|by intros [] ? _; apply HQ|done|done].
  - intros k p _ Hk Hp. destruct (Hcl k Hk) as (f & Hf & ->).
    destruct (fs_fam _ _ _ Hm0 f Hf) as (fam & (p' & Hk' & Hp')%fam_at_Some & Hfam).
    assert (p' = p) as -> by congruence. destruct (Hfr _ _ _ Hp Hp') as (? & fam' & ? & Ec).
    split; [done|]. exists fam'. split; [done|]. rewrite Ec, (fo_claim _ _ _ _ Hfam).
    by apply bool_decide_eq_true.
  - intros dn k rest m E' Hleft.
    assert (k ∈ claims ∧ k ∉ dn) as [Hk Hdn].
    { rewrite E'. split; [set_solver|]. rewrite E' in Hnd. apply NoDup_app in Hnd as (_ & Hd & _).
      intros Hin. apply (Hd _ Hin). by left. }
    destruct (Hcl k Hk) as (f & Hf & ->).
    destruct (fs_fam _ _ _ Hm0 f Hf) as (fam0 & (p & Hp & _)%fam_at_Some & _).
    destruct (Hleft _ _ Hdn Hk Hp) as (Hk' & fam & Hfp & Hc).
    w_steps. rewrite Hk'. w_steps. eapply wp_deref; [done|]. w_steps. apply wp_update_fam.
    apply wp_assert; [done|]. intros j q Hj Hjc Hq.
    destruct (Hleft j q) as (? & fam' & Hq' & ?); [set_solver|done|done|]. split; [done|].
    exists fam'. split; [|done]. unfold updated. simpl. rewrite lookup_alter_ne; [done|].
    intros <-. apply Hj, elem_of_app. right. apply list_elem_of_singleton.
    eapply fm_wf_inj; [apply Hm0|done|done].
Qed.

(** *** Claiming *)

Lemma should_defrag_live config n fam md : should_defrag config n fam md = true → fam_live_objects fam ≠ 0.
Proof. unfold should_defrag. intros [Hn _]%andb_true_iff E. by rewrite E in Hn. Qed.

(** The claims on some of the entries [dn] of the map. *)
Record claiming (m0 : FileMap) tbl (dn : list (Z * Z)) (claims : list Z) (m : FileMap) : Prop := {
  cg_fams : fams_ok m L (fam_ok tbl (claim_set claims));
  cg_map : fams m = fams m0;
  cg_next : next_file_lsn m = next_file_lsn m0;
  cg_sub : claims `sublist_of` dn.*1;
}.

Lemma claiming_file m0 tbl dn claims m k p rest :
  claiming m0 tbl dn claims m → cm_iter (fams m0) = dn ++ (k, p) :: rest →
  k ∉ claims ∧ ∃ f fam, f ∈ L ∧ k = lf_location f ∧ points_to m p f ∧ arcs m !! p = Some fam ∧
    fam_ok tbl (claim_set claims) f fam ∧ fam_rewrite_claim fam = false.
Proof.
  intros [Hm Em _ Hsub] E. assert (k ∉ claims) as Hk.
  { pose proof (cm_iter_nodup (fams m0)) as Hn. rewrite E, fmap_app, fmap_cons in Hn.
    apply NoDup_app in Hn as (_ & Hn & _). intros Hin. apply (Hn k); [|by left].
    eapply elem_of_submseteq; [done|by apply sublist_submseteq]. }
  split; [done|].
  assert (cm_get (fams m) k = Some p) as Hp.
  { apply cm_iter_elem. rewrite Em, E. apply elem_of_app. right. by left. }
  destruct (fw_ptr _ (fs_wf _ _ _ Hm) k p Hp) as (fam & Hfp & _).
  destruct (fs_key _ _ _ Hm k fam) as (f & Hf & ->); [apply fam_at_Some; eauto|].
  destruct (fs_fam _ _ _ Hm f Hf) as (fam' & (p' & Hk' & Hp')%fam_at_Some & Hfam).
  assert (fam' = fam) as -> by congruence. exists f, fam. split_and!; try done.
  rewrite (fo_claim _ _ _ _ Hfam). by apply bool_decide_eq_false.
Qed.

Lemma claiming_skip m0 tbl dn claims m e :
  claiming m0 tbl dn claims m → claiming m0 tbl (dn ++ [e]) claims m.
Proof. intros []. split; try done. rewrite fmap_app. by apply sublist_inserts_r. Qed.

Lemma claiming_claim m0 tbl dn claims m f p fam :
  claiming m0 tbl dn claims m → f ∈ L → points_to m p f → arcs m !! p = Some fam →
  claiming m0 tbl (dn ++ [(lf_location f, p)]) (claims ++ [lf_location f])
    (updated p (set_fam_rewrite_claim true) m).
Proof.
  intros [Hm Em En Hsub] Hf Hp Hfp. split; try done.
  - eapply fams_ok_claim; try done; [apply bool_decide_eq_true; set_solver|].
    intros g Hg Hne. apply bool_decide_ext. rewrite elem_of_app, list_elem_of_singleton.
    split; [by left|]. intros [?|E]; [done|]. by apply (lf_location_inj L) in E.
  - rewrite fmap_app. by apply sublist_app.
Qed.

(** *** Selecting *)

Section select.
Context (config : Config) (m0 : FileMap) (Hm0 : fams_ok m0 L (fam_ok (locs L) unclaimed)).

(** The file is worth rewriting. *)
Definition candidate (f : LogFile) : Prop :=
  ∃ fam, fam_at m0 (lf_location f) = Some fam ∧
    should_defrag config (cm_len (fams m0)) fam (lf_md f) = true.

#[global] Instance candidate_dec f : Decision (candidate f).
Proof.
  unfold candidate. destruct (fam_at m0 (lf_location f)) as [fam|].
  - destruct (should_defrag config (cm_len (fams m0)) fam (lf_md f)) eqn:E; [left; eauto|].
    right. intros (? & [= <-] & ?). congruence.
  - right. by intros (? & ? & _).
Defined.

(** The generation its objects will have. *)
Definition next_generation (f : LogFile) : Z :=
  Z.min (Z.min (generation (lf_md f) + 1) 255) MAX_GENERATION.

(** After the entries [dn]: the candidates among them are claimed, and their pointers are
    in the list of their generation. *)
Record selecting (dn : list (Z * Z)) (acc : gmap Z (list Z) * list Z) (m : FileMap) : Prop := {
  se_claiming : claiming m0 (locs L) dn acc.2 m;
  se_sound gen ps p : acc.1 !! gen = Some ps → p ∈ ps →
    ∃ f, f ∈ L ∧ points_to m0 p f ∧ lf_location f ∈ acc.2 ∧ gen = next_generation f;
  se_complete f p : f ∈ L → points_to m0 p f → lf_location f ∈ acc.2 →
    ∃ ps, acc.1 !! next_generation f = Some ps ∧ p ∈ ps;
  se_chosen f p : f ∈ L → (lf_location f, p) ∈ dn → lf_location f ∈ acc.2 ↔ candidate f;
  se_claims k : k ∈ acc.2 → ∃ f, f ∈ L ∧ k = lf_location f;
  se_buckets gen ps : acc.1 !! gen = Some ps → ps ≠ [];
  se_nodup gen ps : acc.1 !! gen = Some ps → NoDup ps;
}.

Lemma should_defrag_candidate m f p fam n tbl c :
  f ∈ L → points_to m0 p f → fam_ok (locs L) c f fam → fams_ok m L (fam_ok tbl c) →
  n = cm_len (fams m0) → should_defrag config n fam (lf_md f) = true ↔ candidate f.
Proof.
  intros Hf Hp Hfam _ ->. destruct (fs_fam _ _ _ Hm0 f Hf) as (fam0 & Hat & Hfam0).
  assert (∀ fam', fam_live_objects fam' = fam_live_objects fam →
    should_defrag config (cm_len (fams m0)) fam' (lf_md f)
    = should_defrag config (cm_len (fams m0)) fam (lf_md f)) as Hext.
  { intros fam' E. unfold should_defrag. by rewrite E. }
  unfold candidate. rewrite Hat. split.
  - intros Ht. exists fam0. split; [done|]. rewrite Hext; [done|].
    by rewrite (fo_live _ _ _ _ Hfam), (fo_live _ _ _ _ Hfam0).
  - intros (? & [= <-] & Ht). rewrite Hext in Ht; [done|].
    by rewrite (fo_live _ _ _ _ Hfam), (fo_live _ _ _ _ Hfam0).
Qed.

Lemma fresh_entry dn f p rest :
  cm_iter (fams m0) = dn ++ (lf_location f, p) :: rest → ∀ q, (lf_location f, q) ∉ dn.
Proof.
  intros E q Hin. pose proof (cm_iter_nodup (fams m0)) as Hn. rewrite E, fmap_app, fmap_cons in Hn.
  apply NoDup_app in Hn as (_ & Hn & _). apply (Hn (lf_location f)); [|by left].
  apply list_elem_of_fmap. by exists (lf_location f, q).
Qed.

Lemma same_location f g : f ∈ L → g ∈ L → lf_location f = lf_location g → f = g.
Proof. by apply lf_location_inj. Qed.

Lemma selecting_skip dn acc m f p rest :
  cm_iter (fams m0) = dn ++ (lf_location f, p) :: rest → selecting dn acc m → f ∈ L →
  lf_location f ∉ acc.2 → ¬ candidate f → selecting (dn ++ [(lf_location f, p)]) acc m.
Proof.
  intros E [Hc Hso Hco Hch Hcl Hb Hnd] Hf Hn Hnc. split; try done; [by apply claiming_skip|].
  intros g q Hg [Hin|Hin]%elem_of_app; [by apply (Hch g q)|].
  apply list_elem_of_singleton in Hin as [= Eg _]. by apply same_location in Eg as ->.
Qed.

Lemma selecting_claim dn ftd claims m f p fam rest :
  cm_iter (fams m0) = dn ++ (lf_location f, p) :: rest → selecting dn (ftd, claims) m → f ∈ L →
  lf_location f ∉ claims → points_to m p f → arcs m !! p = Some fam → candidate f →
  selecting (dn ++ [(lf_location f, p)])
    (<[next_generation f := default [] (ftd !! next_generation f) ++ [p]]> ftd, claims ++ [lf_location f])
    (updated p (set_fam_rewrite_claim true) m).
Proof.
  intros E [Hc Hso Hco Hch Hcl Hb Hnd] Hf Hnew Hp Hfp Hcand. simpl in *.
  assert (points_to m0 p f) as Hp0 by (unfold points_to in *; by rewrite <- (cg_map _ _ _ _ _ Hc)).
  split; simpl.
  - by eapply claiming_claim.
  - intros gen ps q. rewrite lookup_insert_Some. intros [[<- <-]|[_ Hl]] Hq.
    + apply elem_of_app in Hq as [Hq|Hq]; [|apply list_elem_of_singleton in Hq as ->; exists f; set_solver].
      destruct (ftd !! _) as [ps|] eqn:El; [|by apply not_elem_of_nil in Hq].
      destruct (Hso _ _ _ El Hq) as (g & ? & ? & ? & ?). exists g. set_solver.
    + destruct (Hso _ _ _ Hl Hq) as (g & ? & ? & ? & ?). exists g. set_solver.
  - intros g q Hg Hq [Hin|Hin]%elem_of_app.
    + destruct (Hco g q Hg Hq Hin) as (ps & El & Hqs).
      destruct (decide (next_generation g = next_generation f)) as [Eg|Hne].
      * rewrite Eg in *. rewrite lookup_insert_eq, El. eexists. split; [done|]. simpl. set_solver.
      * rewrite lookup_insert_ne by done. eauto.
    + apply list_elem_of_singleton, same_location in Hin as ->; [|done..].
      assert (q = p) as -> by (unfold points_to in *; congruence).
      rewrite lookup_insert_eq. eexists. split; [done|]. set_solver.
  - intros g q Hg [Hin|Hin]%elem_of_app.
    + rewrite <- (Hch g q Hg Hin), elem_of_app, list_elem_of_singleton. split; [|by left].
      intros [?|Eg]; [done|]. apply same_location in Eg as ->; [|done..].
      by apply (fresh_entry _ _ _ _ E) in Hin.
    + apply list_elem_of_singleton in Hin as [= Eg _]. apply same_location in Eg as ->; [|done..].
      split; [done|]. intros _. set_solver.
  - intros k [?|Hk]%elem_of_app; [auto|]. apply list_elem_of_singleton in Hk as ->. eauto.
  - intros gen ps. rewrite lookup_insert_Some. intros [[<- <-]|[_ ?]]; [|eauto]. by destruct (default _ _).
  - intros gen ps. rewrite lookup_insert_Some. intros [[<- <-]|[_ ?]]; [|eauto].
    destruct (ftd !! next_generation f) as [ps|] eqn:El; simpl; [|apply NoDup_singleton].
    apply NoDup_app. split_and!; [by eapply Hnd| |apply NoDup_singleton].
    intros q Hq ->%list_elem_of_singleton. destruct (Hso _ _ _ El Hq) as (g & Hg & Hgp & Hin & _).
    apply Hnew. assert (g = f) as <-; [|done]. apply same_location; [done..|].
    unfold points_to in *. eapply fm_wf_inj; [apply Hm0|done|done].
Qed.

Lemma wp_select (Q : gmap Z (list Z) * list Z → FileMap → Prop) E C :
  (∀ acc m, selecting (cm_iter (fams m0)) acc m → Q acc m) →
  wp (files_to_defrag config) Q E C m0.
Proof.
  intros HQ. unfold files_to_defrag. w_steps.
  eapply wp_mono; [apply (wp_foldM _ selecting (λ _ _, False) (λ _, False))|exact HQ|done..].
  - split; simpl; try done.
    + intros f p _ _ Hx. by apply not_elem_of_nil in Hx.
    + intros f p _ Hx. by apply not_elem_of_nil in Hx.
    + intros k Hx. by apply not_elem_of_nil in Hx.
  - intros dn [k p] rest [ftd claims] m' E' Hse. pose proof (se_claiming _ _ _ Hse) as Hc. simpl in Hc.
    destruct (claiming_file _ _ _ _ _ _ _ _ Hc E') as (Hnk & f & fam & Hf & -> & Hp & Hfp & Hfam & Hcl).
    pose proof (proj1 (Forall_forall _ _) Hwf f Hf) as Hff.
    assert (points_to m0 p f) as Hp0 by (unfold points_to in *; by rewrite <- (cg_map _ _ _ _ _ Hc)).
    pose proof (should_defrag_candidate m' f p fam _ _ _ Hf Hp0 Hfam (cg_fams _ _ _ _ _ Hc) eq_refl) as Hd.
    unfold defrag_visit. w_steps. eapply wp_deref; [done|]. w_steps.
    apply wp_assert; [apply bool_decide_eq_true; by rewrite (fo_location _ _ _ _ Hfam)|].
    rewrite (fo_metadata _ _ _ _ Hfam). w_steps.
    destruct (should_defrag _ _ _ _) eqn:Ed.
    2: { w_steps. eapply selecting_skip; try done. intros ?%Hd. done. }
    w_steps. apply wp_update_fam. rewrite Hcl. w_steps. apply wp_assert.
    { apply should_defrag_live in Ed. rewrite (fo_live _ _ _ _ Hfam) in Ed.
      pose proof (live_le L (locs L) f Hs Hwf Hf (reflexivity _)). pose proof (live_nonneg (locs L) f).
      pose proof (wf_present f Hff). apply negb_true_iff, Z.eqb_neq. lia. }
    w_steps. rewrite (fo_generation _ _ _ _ Hfam). eapply selecting_claim; try done. by apply Hd.
Qed.

(** What [maintenance] needs of the selection. *)
Lemma wp_files_to_defrag (Q : gmap Z (list Z) * list Z → FileMap → Prop) E C :
  (∀ ftd claims m', selecting (cm_iter (fams m0)) (ftd, claims) m' →
     fams_ok m' L (fam_ok (locs L) (claim_set claims)) → fams m' = fams m0 →
     next_file_lsn m' = next_file_lsn m0 → NoDup claims →
     (∀ k, k ∈ claims → ∃ f, f ∈ L ∧ k = lf_location f) →
     (∀ gen ps, ftd !! gen = Some ps →
        0 < gen ≤ 3 ∧ ∀ p, p ∈ ps → ∃ f, f ∈ L ∧ points_to m' p f) →
     Q (ftd, claims) m') →
  wp (files_to_defrag config) Q E C m0.
Proof.
  intros HQ. apply wp_select. intros [ftd claims] m' Hse. pose proof Hse as [[Hm' Em En Hsub] Hso _ _ Hk Hb _]. simpl in *.
  apply HQ; try done.
  - eapply sublist_NoDup; [|done]. apply cm_iter_nodup.
  - intros gen ps Hg. split.
    + pose proof (Hb _ _ Hg). destruct ps as [|p ps]; [done|].
      destruct (Hso _ _ p Hg) as (f & Hf & _ & _ & ->); [by left|].
      pose proof (mt_generation _ (wf_typed f (proj1 (Forall_forall _ _) Hwf f Hf))).
      unfold next_generation, MAX_GENERATION. lia.
    + intros p Hp. destruct (Hso _ _ _ Hg Hp) as (f & ? & ? & _). exists f. split; [done|].
      unfold points_to. by rewrite Em.
Qed.
End select.
End claims.

(** ** Files worth rewriting *)

Section worth.
Context `{Deps, !DepsLaws}.
Context (config : Config) (L : list LogFile).

(** A file with live objects in it, of which fewer than [file_compaction_percent] per cent of
    those that were written are live; or a small one, once there are enough files: one whose
    bytes on disk, times [min_compaction_files], are fewer than [target_file_size]. *)
Definition worth_rewriting (f : LogFile) : Prop :=
  live (locs L) f ≠ 0 ∧
  (100 * live (locs L) f < file_compaction_percent config * present_objects (lf_md f) ∨
   small_file_cleanup_threshold config ≤ len L ∧
   len (lf_content f) * min_compaction_files config < target_file_size config).

#[global] Instance worth_rewriting_dec f : Decision (worth_rewriting f).
Proof. unfold worth_rewriting. apply _. Defined.

(** The products of [files_to_defrag] fit into 64 bits. *)
Definition products_fit : Prop :=
  ∀ f, f ∈ L → live (locs L) f * 100 < two64 ∧
    len (lf_content f) * min_compaction_files config < two64.

Lemma candidate_worth m f :
  sorted L → Forall lf_wf L → fams_ok m L (fam_ok (locs L) unclaimed) → 0 ≤ min_compaction_files config →
  products_fit → f ∈ L → candidate config m f ↔ worth_rewriting f.
Proof.
  intros Hs Hwf Hm Hmin Hfit Hf. destruct (Hfit f Hf) as [Hlive Hsize].
  destruct (fs_fam _ _ _ Hm f Hf) as (fam & Hat & Hfam).
  pose proof (proj1 (Forall_forall _ _) Hwf f Hf) as Hff.
  pose proof (live_le L (locs L) f Hs Hwf Hf (reflexivity _)). pose proof (live_nonneg (locs L) f) as Hnn.
  pose proof (wf_present f Hff).
  assert (candidate config m f ↔ should_defrag config (len L) fam (lf_md f) = true) as ->.
  { unfold candidate. rewrite (fams_count L Hs Hwf m _ Hm), Hat. naive_solver. }
  unfold should_defrag, worth_rewriting. rewrite (fo_live _ _ _ _ Hfam), (wf_size f Hff).
  rewrite !wrap64_small by u64_lia.
  rewrite andb_true_iff, orb_true_iff, andb_true_iff, negb_true_iff, Z.eqb_neq, !Z.ltb_lt, Z.leb_le.
  destruct (decide (live (locs L) f = 0)) as [E0|Hne]; [tauto|].
  assert (live (locs L) f * 100 / Z.max (present_objects (lf_md f)) 1 < file_compaction_percent config
    ↔ 100 * live (locs L) f < file_compaction_percent config * present_objects (lf_md f)) as ->; [|done].
  rewrite Z.max_l by lia. split; intros Hlt.
  - apply Z.lt_nge. intros Hge. apply Z.lt_nge in Hlt. apply Hlt, Z.div_le_lower_bound; lia.
  - apply Z.div_lt_upper_bound; lia.
Qed.
End worth.

Section theorem.
Context `{Deps, !DepsLaws}.

(** C23. Of a store in which nothing is claimed [files_to_defrag] selects exactly the files worth
    rewriting, which are those with too few live objects or, when there are many files, the
    small ones on disk, and never an empty one: it claims them and no other, files each
    one's pointer under the generation after its own (at most three), and leaves the rest of
    the map alone. It cannot fail. The products it computes are assumed to fit into 64 bits. *)
Theorem files_to_defrag_selects config w L :
  Inv w L unclaimed → 0 ≤ min_compaction_files config → products_fit config L →
  ∃ ftd claims m',
    files_to_defrag config (w_fm w) = (Ok (ftd, claims), m') ∧
    NoDup claims ∧ (∀ k, k ∈ claims ↔ ∃ f, f ∈ L ∧ k = lf_location f ∧ worth_rewriting config L f) ∧
    (∀ f p, f ∈ L → points_to (w_fm w) p f →
       (∃ gen ps, ftd !! gen = Some ps ∧ p ∈ ps) ↔ worth_rewriting config L f) ∧
    (∀ f p gen ps, f ∈ L → points_to (w_fm w) p f → ftd !! gen = Some ps → p ∈ ps →
       gen = Z.min (generation (lf_md f) + 1) 3) ∧
    Inv (set_file_map m' w) L (claim_set claims).
Proof.
  intros Hi Hmin Hfit. pose proof (inv_sorted _ _ _ Hi) as Hs. pose proof (inv_wf _ _ _ Hi) as Hwf.
  pose proof (inv_fams _ _ _ Hi) as Hm.
  assert (wp (files_to_defrag config) (λ acc m, selecting L config (w_fm w) (cm_iter (fams (w_fm w))) acc m)
    (λ _ _, False) (λ _, False) (w_fm w)) as Hw by (apply (wp_select L Hs Hwf config (w_fm w) Hm); auto).
  unfold wp in Hw. destruct (files_to_defrag config (w_fm w)) as [[[ftd claims]| | |] m'] eqn:E; try done.
  destruct Hw as [[Hm' Em En Hsub] Hso Hco Hch Hcl _ _]. simpl in *.
  assert (∀ f, f ∈ L → lf_location f ∈ claims ↔ worth_rewriting config L f) as Hiff.
  { intros f Hf. rewrite <- (candidate_worth config L (w_fm w)) by done. destruct (fs_fam _ _ _ Hm f Hf) as (fam & (p & Hk & _)%fam_at_Some & _).
    apply (Hch f p Hf). by apply cm_iter_elem. }
  assert (∀ f g p, f ∈ L → g ∈ L → points_to (w_fm w) p f → points_to (w_fm w) p g → f = g) as Hinj.
  { intros f g p Hf Hg Hpf Hpg. apply (lf_location_inj L); try done. unfold points_to in *.
    eapply fm_wf_inj; [apply Hm|done|done]. }
  exists ftd, claims, m'. split_and!; [done|eapply sublist_NoDup; [apply cm_iter_nodup|done]|..].
  - intros k. split.
    + intros Hk. destruct (Hcl k Hk) as (f & Hf & ->). exists f. split_and!; [done..|]. by apply Hiff.
    + intros (f & Hf & -> & Hc). by apply Hiff.
  - intros f p Hf Hp. split.
    + intros (gen & ps & Hg & Hin). destruct (Hso _ _ _ Hg Hin) as (g & Hg' & Hpg & Hin' & _).
      rewrite (Hinj f g p) by done. by apply Hiff.
    + intros Hc%Hiff; [|done]. destruct (Hco f p Hf Hp Hc) as (ps & ? & ?). eauto.
  - intros f p gen ps Hf Hp Hg Hin. destruct (Hso _ _ _ Hg Hin) as (g & ? & ? & _ & ->).
    rewrite (Hinj f g p) by done. unfold next_generation, MAX_GENERATION. lia.
  - eapply inv_ext; [exact Hi|done..|exact Hm'].
Qed.
End theorem.
