(* ===== verification/PruneSpec.v ===== *)
(** PruneSpec: [prune_empty_files] removes exactly the files without live entries, and
    no object with them. *)
From S2P Require Import Prelude Effects Os Deps Locations LocationTable Config Metadata.
From S2P Require Import ZstdDict Storage State FileMap Recovery FileMapSpec Layout Invariant.
From S2P Require Import PowerLoss RewriteSpec ClaimSpec.

(** ** Leaving files out *)

Section kept.
Context `{Deps, !DepsLaws}.
Implicit Types L : list LogFile.

(** The files that are not at one of the locations [ks]. *)
Definition without (ks : list Z) L : list LogFile := filter (λ f, lf_location f ∉ ks) L.

Lemma filter_everything {A} (P : A → Prop) `{!∀ x, Decision (P x)} (l : list A) :
  (∀ x, x ∈ l → P x) → filter P l = l.
Proof.
  induction l as [|x l IH]; intros HP; [done|]. rewrite filter_cons_True by (apply HP; by left).
  f_equal. apply IH. intros y Hy. apply HP. by right.
Qed.

Lemma filter_same {A} (P Q : A → Prop) `{!∀ x, Decision (P x)} `{!∀ x, Decision (Q x)} (l : list A) :
  (∀ x, x ∈ l → P x ↔ Q x) → filter P l = filter Q l.
Proof.
  induction l as [|x l IH]; intros HP; [done|]. rewrite !filter_cons.
  rewrite IH by (intros y Hy; apply HP; by right).
  pose proof (HP x (list_elem_of_here x l)). by do 2 case_decide; try tauto.
Qed.

Lemma without_nil L : without [] L = L.
Proof. apply filter_everything. intros f _. apply not_elem_of_nil. Qed.

Lemma without_elem ks L f : f ∈ without ks L ↔ f ∈ L ∧ lf_location f ∉ ks.
Proof. unfold without. rewrite list_elem_of_filter. tauto. Qed.

Lemma without_app ks ks' L : without (ks ++ ks') L = without ks' (without ks L).
Proof.
  unfold without. rewrite list_filter_filter. apply list_filter_iff. intros f.
  rewrite elem_of_app. tauto.
Qed.

Lemma without_file a f b :
  sorted (a ++ f :: b) → Forall lf_wf (a ++ f :: b) → without [lf_location f] (a ++ f :: b) = a ++ b.
Proof.
  intros Hs Hwf. pose proof (sorted_irrefl a f b Hs Hwf) as Hn.
  assert (∀ g, g ∈ a ++ b → lf_location g ∉ [lf_location f]) as Hg.
  { intros g Hg E%list_elem_of_singleton. apply Hn.
    apply (lf_location_inj (a ++ f :: b)) in E as <-; try done; set_solver. }
  unfold without. rewrite filter_app, filter_cons_False, <- filter_app by (rewrite list_elem_of_singleton; tauto).
  by apply filter_everything.
Qed.

Lemma without_ok ks L : sorted L → Forall lf_wf L → sorted (without ks L) ∧ Forall lf_wf (without ks L).
Proof.
  intros Hs Hwf.
  assert (∀ (P : LogFile → Prop) M, Forall P M → Forall P (without ks M)) as Hall.
  { intros P M. rewrite !Forall_forall. intros HP f [Hf _]%without_elem. auto. }
  split; [|auto].
  unfold sorted, without in *. induction Hs as [|f L Hs IH HF]; [constructor|].
  apply Forall_cons in Hwf as [_ Hwf]. rewrite filter_cons. case_decide; [|auto].
  constructor; [auto|]. by apply Hall.
Qed.
End kept.

(** ** The files to prune *)

Section prune.
Context `{Deps, !DepsLaws}.
Context (w0 : World) (L : list LogFile) (Hi : Inv w0 L unclaimed).

(** Choosing the files: all that are empty, and no other. *)
Record choosing (dn : list (Z * Z)) (acc : list (Z * string) * list Z) (m : FileMap) : Prop := {
  ch_claiming : claiming L (w_fm w0) (locs L) dn acc.2 m;
  ch_paths : acc.1.*1 = acc.2;
  ch_dead k : k ∈ acc.2 → ∃ f, f ∈ L ∧ k = lf_location f ∧ live (locs L) f = 0;
  ch_all f p : (lf_location f, p) ∈ dn → f ∈ L → live (locs L) f = 0 → lf_location f ∈ acc.2;
}.

Lemma wp_choose (Q : list (Z * string) * list Z → FileMap → Prop) E C :
  (∀ acc m, choosing (cm_iter (fams (w_fm w0))) acc m → Q acc m) →
  wp (foldM prune_visit ([], []) (cm_iter (fams (w_fm w0)))) Q E C (w_fm w0).
Proof.
  intros HQ. pose proof (inv_sorted _ _ _ Hi) as Hs. pose proof (inv_wf _ _ _ Hi) as Hwf.
  eapply wp_mono; [apply (wp_foldM _ choosing (λ _ _, False) (λ _, False))|..]; [..|done|done|done].
  - split; simpl; [|done|by intros k ?%not_elem_of_nil|by intros f p ?%not_elem_of_nil].
    split; try done. apply (inv_fams _ _ _ Hi).
  - intros dn [k p] rest [paths claims] m E' [Hc Hp Hd Hall]. simpl in *.
    destruct (claiming_file L _ _ _ _ _ _ _ _ Hc E') as (Hnk & f & fam & Hf & -> & Hpt & Hfp & Hfam & Hcl).
    unfold prune_visit. w_steps. eapply wp_deref; [done|]. rewrite (fo_path _ _ _ _ Hfam). w_steps.
    rewrite (fo_live _ _ _ _ Hfam).
    assert (∀ g q, (lf_location g, q) ∈ dn ++ [(lf_location f, p)] → g ∈ L →
      (lf_location g, q) ∈ dn ∨ g = f) as Hcase.
    { intros g q [?|[= El _]%list_elem_of_singleton]%elem_of_app Hg; [by left|right].
      by apply (lf_location_inj L) in El. }
    destruct (Z.eqb_spec (live (locs L) f) 0) as [Hz|Hnz].
    + w_steps. apply wp_update_fam. rewrite Hcl. w_steps. split; simpl.
      * by eapply claiming_claim.
      * by rewrite fmap_app, Hp.
      * intros j [?|Hj]%elem_of_app; [auto|]. apply list_elem_of_singleton in Hj as ->. eauto.
      * intros g q Hg Hgl Hgz. apply elem_of_app.
        destruct (Hcase g q Hg Hgl) as [?| ->]; [left; eauto|right; set_solver].
    + w_steps. split; simpl; try done.
      * by apply claiming_skip.
      * intros g q Hg Hgl Hgz. destruct (Hcase g q Hg Hgl) as [?| ->]; [eauto|done].
Qed.

(** ** Removing them *)

Context (claims : list Z).
Abbreviation kept ks := (without ks L) (only parsing).

(** The state when the files at [ks] have been removed. Where removing one from the disk has
    failed, the directory has more files than the map, but no other objects. *)
Record pruned (ks : list Z) (w : World) : Prop := {
  pn_fams : fams_ok (w_fm w) (kept ks) (fam_ok (locs L) (claim_set claims));
  pn_table : w_table w = w_table w0;
  pn_max : max_object_id (w_marble w) = max_object_id (w_marble w0);
  pn_next : next_file_lsn (w_fm w) = next_file_lsn (w_fm w0);
  pn_counter : os_tmp_counter (w_os w) = os_tmp_counter (w_os w0);
  pn_faults : os_faults (w_os w) `suffix_of` os_faults (w_os w0);
  pn_heap : fs_heap_exists (os_fs (w_os w)) = true;
  pn_dir name : fs_dir (os_fs (w_os w0)) !! name = None → fs_dir (os_fs (w_os w)) !! name = None;
  pn_disk : ∃ Ld, disk_ok (os_fs (w_os w)) Ld ∧ locs Ld = locs L ∧ vals Ld = vals L ∧
    (∀ f, f ∈ kept ks → f ∈ Ld) ∧ (Ld = kept ks ∨ injected (w_os w0));
  pn_steady : steady (os_fs (w_os w0)) (os_fs (w_os w)) L;
}.

(** The disk after the file of [f] is gone. *)
Lemma unlink_dead F Ld f :
  disk_ok F Ld → locs Ld = locs L → vals Ld = vals L → f ∈ Ld → live (locs L) f = 0 →
  disk_ok (fs_unlink (lf_name f) F) (without [lf_location f] Ld) ∧
  locs (without [lf_location f] Ld) = locs L ∧ vals (without [lf_location f] Ld) = vals L ∧
  steady F (fs_unlink (lf_name f) F) L.
Proof.
  intros Hd El Ev (a & b & ->)%list_elem_of_split Hz. pose proof (dk_sorted _ _ Hd). pose proof (dk_wf _ _ Hd).
  rewrite without_file by done. split; [by apply disk_ok_remove|].
  destruct (dead_file_irrelevant a f b) as [El' Ev']; [done|done|by rewrite El|].
  split_and!; [congruence..|]. eapply steady_passes; [by eapply passes_remove|].
  intros L' ->%list_elem_of_singleton. congruence.
Qed.

Lemma kept_snoc ks k f : f ∈ without [k] (kept ks) ↔ f ∈ kept (ks ++ [k]).
Proof. by rewrite without_app. Qed.

Lemma fams_ok_removed m m' ks f p :
  fams_ok m (kept ks) (fam_ok (locs L) (claim_set claims)) → f ∈ kept ks → points_to m p f →
  fams m' = cm_remove (fams m) (lf_location f) → arcs m' = delete p (arcs m) →
  next_arc m' = next_arc m → next_file_lsn m' = next_file_lsn m →
  fams_ok m' (kept (ks ++ [lf_location f])) (fam_ok (locs L) (claim_set claims)).
Proof.
  intros Hm Hf Hp Ef Ea En El.
  destruct (removed_fam_at m (lf_location f) p) as [Hwf' Hat]; [apply Hm|exact Hp|].
  assert (∀ k, fam_at m' k = if decide (k = lf_location f) then None else fam_at m k) as Hat'.
  { intros k. rewrite <- Hat. by apply fam_at_ext. }
  split.
  - by eapply fm_wf_ext; [..|exact Hwf'].
  - intros g (Hg & Hn)%without_elem.
    destruct (fs_fam _ _ _ Hm g) as (fam & Hfam & ?); [apply without_elem; set_solver|].
    exists fam. rewrite Hat', decide_False by set_solver. done.
  - intros k fam. rewrite Hat'. case_decide; [done|]. intros Hk.
    destruct (fs_key _ _ _ Hm k fam Hk) as (g & (Hg & Hn)%without_elem & ->). exists g.
    split; [|done]. apply without_elem. set_solver.
  - rewrite El. destruct (fs_next _ _ _ Hm) as [? Hb]. split; [done|].
    intros g (Hg & Hn)%without_elem. apply Hb, without_elem. set_solver.
Qed.

Definition same_disk (w : World) : Prop := same_on_disk (os_fs (w_os w0)) L (os_fs (w_os w)).

Lemma wp_remove_dead ks f w (Q : () → World → Prop) E C :
  pruned ks w → f ∈ kept ks → live (locs L) f = 0 →
  (∀ w', pruned (ks ++ [lf_location f]) w' → Q () w') →
  (∀ w', injected (w_os w0) → same_disk w' → C w') →
  wp (remove_and_drop (lf_location f)) Q E C w.
Proof.
  intros [Hm Ht Hmax Hn Hc Hflt Hh Hdir (Ld & Hd & El & Ev & Hsub & Heq) Hst] Hf Hz HQ HC.
  destruct (fs_fam _ _ _ Hm f Hf) as (fam & (p & Hk & Hp)%fam_at_Some & Hfam).
  unfold remove_and_drop, drop_arc, drop_fam. w_steps. w_clean. rewrite Hk. eapply wp_unwrap; [done|].
  w_steps. w_clean. eapply wp_deref; [done|]. w_steps. w_clean.
  rewrite (fo_live _ _ _ _ Hfam), Hz. simpl Z.eqb. cbv match. w_steps.
  eapply wp_unwrap; [apply (fo_path _ _ _ _ Hfam)|]. w_steps.
  set (m' := set_arcs _ (set_fams _ _)).
  assert (fams_ok m' (kept (ks ++ [lf_location f])) (fam_ok (locs L) (claim_set claims))) as Hm'
    by by eapply (fams_ok_removed (w_fm w)).
  assert (next_file_lsn m' = next_file_lsn (w_fm w0)) as Hn' by done.
  destruct (unlink_dead (os_fs (w_os w)) Ld f Hd El Ev (Hsub f Hf) Hz) as (Hd' & El' & Ev' & Hst').
  pose proof (steady_trans _ _ _ _ _ Hst Hst' eq_refl) as Hst2.
  clearbody m'. change (w_os (set_file_map m' w)) with (w_os w).
  assert (injected (w_os w) → injected (w_os w0)) as Hinj by by apply injected_suffix.
  assert (∀ o F Ld', os_upd F (w_os w) o → fs_heap_exists F = true →
    (∀ name, fs_dir (os_fs (w_os w)) !! name = None → fs_dir F !! name = None) →
    disk_ok F Ld' → locs Ld' = locs L → vals Ld' = vals L →
    (∀ g, g ∈ kept (ks ++ [lf_location f]) → g ∈ Ld') →
    (Ld' = kept (ks ++ [lf_location f]) ∨ injected (w_os w0)) →
    steady (os_fs (w_os w0)) F L →
    pruned (ks ++ [lf_location f]) (set_os o (set_file_map m' w))) as Hnext.
  { intros o F Ld' (Ef & Ec & _ & Es) ???????. split; simpl; rewrite ?Ef; try done; [congruence|by etrans|auto|].
    exists Ld'. split_and!; done. }
  apply wp_remove_file.
  - intros o Ho. w_steps. apply HQ. eapply Hnext; try done.
    + intros name Hname. simpl. rewrite lookup_delete. by case_decide.
    + intros g Hg. rewrite without_app in Hg. apply without_elem in Hg as [??].
      apply without_elem. auto.
    + rewrite without_app. destruct Heq as [->|?]; [by left|by right].
  - intros e o He Ho. w_steps. apply HQ. eapply Hnext; try done.
    + intros g Hg. rewrite without_app in Hg. apply without_elem in Hg as [??]. auto.
    + right. destruct He as [He|?]; [|auto]. by rewrite (dk_file _ _ Hd f (Hsub f Hf)) in He.
  - intros o Hj Ho. apply HC; [auto|]. unfold same_disk, same_on_disk. simpl.
    destruct Ho as [Ho|Ho]; rewrite (os_upd_fs _ _ _ Ho); eauto.
Qed.
End prune.

(** ** [prune_empty_files] *)

Section theorem.
Context `{Deps, !DepsLaws}.
Context (w0 : World) (L : list LogFile) (Hi : Inv w0 L unclaimed).

(** The files somebody still points into. *)
Definition inhabited_files : list LogFile := filter (λ f, live (locs L) f ≠ 0) L.

Record pruned_all (w : World) : Prop := {
  pa_disk : same_on_disk (os_fs (w_os w0)) L (os_fs (w_os w));
  pa_inv : (Inv w inhabited_files unclaimed ∧ vals inhabited_files = vals L
            ∧ locs inhabited_files = locs L) ∨ injected (w_os w0);
  pa_next : next_file_lsn (w_fm w) = next_file_lsn (w_fm w0);
  pa_counter : os_tmp_counter (w_os w) = os_tmp_counter (w_os w0);
  pa_faults : os_faults (w_os w) `suffix_of` os_faults (w_os w0);
}.

(** Removing the claimed files leaves the inhabited ones. *)
Lemma chosen_inhabited acc m :
  choosing w0 L (cm_iter (fams (w_fm w0))) acc m → without acc.2 L = inhabited_files.
Proof.
  intros [_ _ Hd Hall]. pose proof (inv_sorted _ _ _ Hi) as Hs. pose proof (inv_wf _ _ _ Hi) as Hwf.
  unfold without, inhabited_files. apply filter_same. intros f Hf. split.
  - intros Hn Hz. apply Hn. destruct (fs_fam _ _ _ (inv_fams _ _ _ Hi) f Hf) as (fam & (p & Hk & _)%fam_at_Some & _).
    apply (Hall f p); [by apply cm_iter_elem|done|done].
  - intros Hn Hin. destruct (Hd _ Hin) as (g & Hg & El & Hz).
    apply (lf_location_inj L) in El as ->; done.
Qed.

Lemma wp_prune_empty_files (Q : () → World → Prop) E C :
  (∀ w, pruned_all w → Q () w) →
  (∀ w, injected (w_os w0) → same_on_disk (os_fs (w_os w0)) L (os_fs (w_os w)) → C w) →
  wp prune_empty_files Q E C w0.
Proof.
  intros HQ HC. pose proof (inv_sorted _ _ _ Hi) as Hs. pose proof (inv_wf _ _ _ Hi) as Hwf.
  pose proof (inv_mem _ _ _ Hi) as Hmem.
  unfold prune_empty_files. w_steps. apply (wp_choose w0 L Hi). intros [paths claims] m1 Hch.
  pose proof (chosen_inhabited _ _ Hch) as Ech. destruct Hch as [[Hm1 Ef En Hsub] Hp Hd _]. simpl in *.
  assert (NoDup claims) as Hnd by (eapply sublist_NoDup; [apply cm_iter_nodup|done]).
  w_steps. eapply wp_mono with (E := λ _ _, False) (C := λ w, injected (w_os w0) ∧ same_disk w0 L w);
    [apply (wp_forM _ (λ dn w, pruned w0 L claims dn.*1 w))|..]; [..|done|by intros w [??]; apply HC].
  - split; simpl; rewrite ?without_nil; try done; [apply Hmem| |apply steady_refl].
    exists L. split_and!; try done; [apply Hi|by left].
  - intros dn [k name] rest w E' Hpn. w_steps. unfold verify_file_uninhabited. w_steps.
    assert (k ∈ claims ∧ k ∉ dn.*1) as [Hk Hkn].
    { rewrite E' in Hp. rewrite fmap_app, fmap_cons in Hp. split; [rewrite <- Hp; set_solver|].
      rewrite <- Hp in Hnd. apply NoDup_app in Hnd as (_ & Hdis & _). intros Hin.
      apply (Hdis _ Hin). by left. }
    destruct (Hd k Hk) as (f & Hf & -> & Hz).
    eapply (wp_remove_dead w0 L Hi claims dn.*1 f); [done|by apply without_elem|done| |by intros; split].
    intros w' Hpn'. by rewrite fmap_app.
  - intros [] w Hpn. rewrite Hp in Hpn.
    destruct Hpn as [Hm Ht Hmax Hn Hc Hflt Hh Hdir (Ld & Hdk & El & Ev & _ & Heq) Hst]. rewrite Ech in *.
    destruct (without_ok claims L Hs Hwf) as [Hs' Hwf']. rewrite Ech in *.
    w_steps. eapply (wp_drop_claims inhabited_files Hs' Hwf'); [done|done|].
    intros m2 Hm2 Ef2 En2. apply HQ. split; simpl; try done; [split; eauto| |by rewrite w_fm_set, En2].
    destruct Heq as [->|?]; [left|by right]. split_and!; [|done|done].
    split; simpl; [done|]. destruct Hmem as [_ Htab _ Hmx Hmu [Htc Htf]].
    split; simpl; rewrite ?El; try done.
    + change (table_ok (w_table w) (locs L)). by rewrite Ht.
    + change (∀ oid, is_Some (locs L !! oid) → oid ≤ max_object_id (w_marble w)). by rewrite Hmax.
    + change (is_u64 (max_object_id (w_marble w))). by rewrite Hmax.
    + split; simpl; rewrite Hc; [done|]. intros n Hnn. by apply Hdir, Htf.
Qed.
End theorem.
