(* ===== verification/CompactSpec.v ===== *)
(** CompactSpec: which files are wasteful, how [files_to_defrag] groups them, and how few of
    them a rewrite leaves. *)
From S2P Require Import Prelude Effects Os Deps Locations LocationTable Config Metadata.
From S2P Require Import ZstdDict Storage State FileMap WritePath Gc Recovery FileMapSpec Layout.
From S2P Require Import Invariant WriteSpec MoveSpec RewriteSpec ClaimSpec PruneSpec.

(** ** Wasteful files *)

Section wasteful.
Context `{Deps, !DepsLaws}.
Context (config : Config).
Implicit Types L : list LogFile.

Definition live_percent L (f : LogFile) : Z :=
  wrap64 (live (locs L) f * 100) / Z.max (present_objects (lf_md f)) 1.

(** Not empty, and below the configured percentage of live objects. *)
Definition wasteful L (f : LogFile) : Prop :=
  live (locs L) f ≠ 0 ∧ live_percent L f < file_compaction_percent config.

#[global] Instance wasteful_dec L f : Decision (wasteful L f).
Proof. unfold wasteful. apply _. Defined.

(** The wasteful files that would be rewritten into the generation [g]. *)
Definition wasteful_into L (g : Z) : list LogFile :=
  filter (λ f, wasteful L f ∧ next_generation f = g) L.

(** No generation has enough wasteful files to be worth a rewrite. *)
Definition settled L : Prop :=
  ∀ g, len (wasteful_into L g) < Z.max 1 (min_compaction_files config).

Lemma wasteful_ext L L' f : live (locs L') f = live (locs L) f → wasteful L' f ↔ wasteful L f.
Proof. unfold wasteful, live_percent. by intros ->. Qed.

Lemma wasteful_into_elem L g f : f ∈ wasteful_into L g ↔ f ∈ L ∧ wasteful L f ∧ next_generation f = g.
Proof. unfold wasteful_into. rewrite list_elem_of_filter. tauto. Qed.

Lemma wasteful_into_nodup L g : sorted L → Forall lf_wf L → NoDup (wasteful_into L g).
Proof. intros Hs Hwf. by apply NoDup_filter, sorted_nodup. Qed.

(** Removing the empty files removes no wasteful one. *)
Lemma settled_inhabited L : locs (inhabited_files L) = locs L → settled L → settled (inhabited_files L).
Proof.
  intros E Hset g. specialize (Hset g).
  assert (wasteful_into (inhabited_files L) g = wasteful_into L g) as ->; [|done].
  unfold wasteful_into, inhabited_files. rewrite list_filter_filter. apply list_filter_iff. intros f.
  unfold wasteful, live_percent. fold (inhabited_files L). rewrite E. tauto.
Qed.

(** A file without dead entries is not wasteful. *)
Lemma fully_live_frugal L f :
  fully_live L f → file_compaction_percent config ≤ 100 → live (locs L) f * 100 < two64 → ¬ wasteful L f.
Proof.
  unfold fully_live, wasteful, live_percent. intros E Hp Hl [Hne Hlt]. pose proof (live_nonneg (locs L) f).
  rewrite wrap64_small in Hlt by u64_lia. rewrite <- E, Z.max_l, Z.mul_comm, Z.div_mul in Hlt by lia. lia.
Qed.
End wasteful.

(** ** Counting pointers *)

Section counting.
Context `{Deps, !DepsLaws}.
Context (m : FileMap) (L : list LogFile) (Hs : sorted L) (Hwf : Forall lf_wf L).

Definition pointer (f : LogFile) : option Z := cm_get (fams m) (lf_location f).

Lemma pointers_nodup fs :
  fm_wf m → (∀ f, f ∈ fs → f ∈ L ∧ ∃ p, points_to m p f) → NoDup fs → NoDup (pointer <$> fs).
Proof.
  intros Hm Hfs Hnd. apply NoDup_fmap_2_strong; [|done]. intros f g Hf Hg E.
  destruct (Hfs f Hf) as (Hfl & p & Hp), (Hfs g Hg) as (Hgl & q & Hq).
  apply (lf_location_inj L); try done. unfold pointer, points_to in *.
  eapply fm_wf_inj; [done|done|congruence].
Qed.

(** Files whose pointers are all in a list are at most as many. *)
Lemma files_le_pointers fs ps :
  fm_wf m → (∀ f, f ∈ fs → f ∈ L ∧ ∃ p, p ∈ ps ∧ points_to m p f) → NoDup fs → len fs ≤ len ps.
Proof.
  intros Hm Hfs Hnd. assert (length (pointer <$> fs) ≤ length (Some <$> ps))%nat as Hle.
  - apply submseteq_length, NoDup_submseteq; [apply pointers_nodup; naive_solver|].
    intros o (f & -> & Hf)%list_elem_of_fmap. destruct (Hfs f Hf) as (_ & p & Hp & Hpt).
    unfold pointer, points_to in *. rewrite Hpt. by apply list_elem_of_fmap_2.
  - rewrite !length_fmap in Hle. lia.
Qed.

(** And different pointers point to as many files. *)
Lemma pointers_le_files fs ps :
  (∀ p, p ∈ ps → ∃ f, f ∈ fs ∧ points_to m p f) → NoDup ps → len ps ≤ len fs.
Proof.
  intros Hps Hnd. assert (length (Some <$> ps) ≤ length (pointer <$> fs))%nat as Hle.
  - apply submseteq_length, NoDup_submseteq; [by apply (NoDup_fmap_2 Some)|].
    intros o (p & -> & Hp)%list_elem_of_fmap. destruct (Hps p Hp) as (f & Hf & Hpt).
    apply list_elem_of_fmap. by exists f.
  - rewrite !length_fmap in Hle. lia.
Qed.
End counting.

(** ** The groups of [files_to_defrag] *)

Section group.
Context `{Deps}.
Context (config : Config) (m : FileMap) (L : list LogFile).

(** The files that would go into one generation with [f], and whether they are enough. *)
Definition group (f : LogFile) : list LogFile :=
  filter (λ g, candidate config m g ∧ next_generation g = next_generation f) L.

Definition in_group (f : LogFile) : Prop :=
  candidate config m f ∧ min_compaction_files config ≤ len (group f).

#[global] Instance in_group_dec f : Decision (in_group f).
Proof. unfold in_group. apply _. Defined.
End group.

Section groups.
Context `{Deps, !DepsLaws}.
Context (config : Config) (m0 : FileMap) (L : list LogFile) (Hs : sorted L) (Hwf : Forall lf_wf L).
Context (Hm0 : fams_ok m0 L (fam_ok (locs L) unclaimed)).
Context (ftd : gmap Z (list Z)) (claims : list Z) (m : FileMap).
Context (Hse : selecting L config m0 (cm_iter (fams m0)) (ftd, claims) m).

Lemma wasteful_candidate f : f ∈ L → wasteful config L f → candidate config m0 f.
Proof.
  intros Hf [Hne Hlt]. destruct (fs_fam _ _ _ Hm0 f Hf) as (fam & Hat & Hfam). exists fam. split; [done|].
  unfold should_defrag, live_percent in *. rewrite (fo_live _ _ _ _ Hfam).
  apply Z.ltb_lt in Hlt. rewrite Hlt, orb_true_l, andb_true_r. by apply negb_true_iff, Z.eqb_neq.
Qed.

(** Below the threshold of small files, these are all the candidates. *)
Lemma candidate_wasteful f :
  cm_len (fams m0) < small_file_cleanup_threshold config → f ∈ L →
  candidate config m0 f → wasteful config L f.
Proof.
  intros Hfew Hf (fam & Hat & Hd). destruct (fs_fam _ _ _ Hm0 f Hf) as (fam' & Hat' & Hfam).
  assert (fam' = fam) as -> by congruence. revert Hd. unfold should_defrag, wasteful, live_percent.
  rewrite (fo_live _ _ _ _ Hfam). rewrite (proj2 (Z.leb_gt _ _)) by done. rewrite andb_false_l, orb_false_r.
  by intros [?%negb_true_iff%Z.eqb_neq ?%Z.ltb_lt]%andb_true_iff.
Qed.

Lemma selected_grouped f :
  f ∈ L → candidate config m0 f → ∃ p ps, points_to m0 p f ∧ ftd !! next_generation f = Some ps ∧ p ∈ ps.
Proof.
  intros Hf Hc. destruct (fs_fam _ _ _ Hm0 f Hf) as (fam & (p & Hk & _)%fam_at_Some & _).
  destruct (se_complete _ _ _ _ _ _ Hse f p Hf Hk) as (ps & ? & ?); [|by exists p, ps].
  apply (se_chosen _ _ _ _ _ _ Hse f p Hf); [by apply cm_iter_elem|done].
Qed.

(** Wasteful files that no group large enough has are few. *)
Lemma spared_few fs g :
  NoDup fs →
  (∀ f, f ∈ fs → f ∈ L ∧ wasteful config L f ∧ next_generation f = g ∧
     ∀ ps, (g, ps) ∈ iter_order ftd → ¬ selected config m0 ps f) →
  len fs < Z.max 1 (min_compaction_files config).
Proof.
  intros Hnd Hfs. destruct fs as [|f0 fs0] eqn:Efs; [simpl; lia|]. rewrite <- Efs in *.
  assert (∀ f, f ∈ fs → ∃ p ps, points_to m0 p f ∧ ftd !! g = Some ps ∧ p ∈ ps) as Hgr.
  { intros f Hf. destruct (Hfs f Hf) as (? & ? & <- & _). apply selected_grouped; [done|].
    by apply wasteful_candidate. }
  assert (f0 ∈ fs) as Hf0 by (rewrite Efs; by left).
  destruct (Hgr f0 Hf0) as (p0 & ps & Hp0 & Hps & Hin0). destruct (Hfs f0 Hf0) as (_ & _ & _ & Hns).
  assert (len fs ≤ len ps) as Hle.
  { apply (files_le_pointers m0 L Hs Hwf); [apply Hm0| |done]. intros f Hf.
    destruct (Hgr f Hf) as (p & ps' & ? & ? & ?). split; [by apply Hfs|]. exists p.
    by replace ps with ps' by congruence. }
  destruct (Z_lt_le_dec (len ps) (min_compaction_files config)); [lia|]. exfalso.
  apply (Hns ps); [by apply iter_order_elem|]. split; [done|]. by exists p0.
Qed.

(** The files that are rewritten: those of the groups that are large enough. *)
Lemma group_selected f :
  f ∈ L → (∃ gen ps, (gen, ps) ∈ iter_order ftd ∧ selected config m0 ps f) ↔ in_group config m0 L f.
Proof.
  intros Hf. split.
  - intros (gen & ps & Hin%iter_order_elem & Hle & p & Hp & Hpt).
    destruct (se_sound _ _ _ _ _ _ Hse gen ps p Hin Hp) as (f' & Hf' & Hpt' & Hl & ->).
    assert (f' = f) as ->.
    { apply (lf_location_inj L); try done. unfold points_to in *. eapply fm_wf_inj; [apply Hm0|done|done]. }
    assert (∀ g q, g ∈ L → points_to m0 q g → lf_location g ∈ claims → candidate config m0 g) as Hcand.
    { intros g q Hg Hq Hgl. apply (se_chosen _ _ _ _ _ _ Hse g q Hg); [by apply cm_iter_elem|done]. }
    split; [by eapply Hcand|]. etrans; [exact Hle|].
    apply (pointers_le_files m0); [|by eapply se_nodup]. intros q Hq.
    destruct (se_sound _ _ _ _ _ _ Hse _ ps q Hin Hq) as (g & Hg & Hgpt & Hgl & Eg). exists g. split; [|done].
    apply list_elem_of_filter. split_and!; [by eapply Hcand|done|done].
  - intros [Hcand Hlen]. destruct (selected_grouped f Hf Hcand) as (p & ps & Hp & Hps & Hin).
    exists (next_generation f), ps. split; [by apply iter_order_elem|]. split; [|by exists p]. etrans; [exact Hlen|].
    apply (files_le_pointers m0 L Hs Hwf); [apply Hm0| |by apply NoDup_filter, sorted_nodup].
    intros g [[Hgc Egen] Hg]%list_elem_of_filter.
    destruct (selected_grouped g Hg Hgc) as (q & qs & Hq & Hqs & Hqin).
    split; [done|]. exists q. rewrite Egen in Hqs. by replace ps with qs by congruence.
Qed.

(** In a settled store with few files, no group is large enough. *)
Lemma settled_groups_short g ps :
  cm_len (fams m0) < small_file_cleanup_threshold config → settled config L →
  (g, ps) ∈ iter_order ftd → len ps < min_compaction_files config.
Proof.
  intros Hfew Hset Hin%iter_order_elem.
  assert (len ps ≤ len (wasteful_into config L g)) as Hle.
  - apply (pointers_le_files m0); [|by eapply se_nodup]. intros p Hp.
    destruct (se_sound _ _ _ _ _ _ Hse g ps p Hin Hp) as (f & Hf & Hpt & Hl & ->). exists f. split; [|done].
    apply wasteful_into_elem. split_and!; [done| |done]. apply candidate_wasteful; [done..|].
    apply (se_chosen _ _ _ _ _ _ Hse f p Hf); [by apply cm_iter_elem|done].
  - pose proof (Hset g). pose proof (se_buckets _ _ _ _ _ _ Hse g ps Hin). destruct ps; [done|].
    simpl in *. lia.
Qed.
End groups.

(** ** What a rewrite leaves *)

Section leaves.
Context `{Deps, !DepsLaws}.
Context (config : Config) (m0 : FileMap) (L L' : list LogFile) (ftd : gmap Z (list Z)) (claims : list Z) (m : FileMap).
Context (Hs : sorted L) (Hwf : Forall lf_wf L) (Hs' : sorted L') (Hwf' : Forall lf_wf L').
Context (Hm0 : fams_ok m0 L (fam_ok (locs L) unclaimed)).
Context (Hse : selecting L config m0 (cm_iter (fams m0)) (ftd, claims) m).
Context (Hmv : moved L (λ f, ∃ g ps, (g, ps) ∈ iter_order ftd ∧ selected config m0 ps f) L').

(** A file that is wasteful after the rewrite was so before, and was not rewritten. *)
Lemma wasteful_spared f :
  file_compaction_percent config ≤ 100 → live (locs L') f * 100 < two64 → f ∈ L' → wasteful config L' f →
  f ∈ L ∧ wasteful config L f ∧ ∀ g ps, (g, ps) ∈ iter_order ftd → ¬ selected config m0 ps f.
Proof.
  intros Hp Hl Hin Hw. destruct (mv_fresh _ _ _ Hmv) as (fs & E & Hfresh).
  rewrite E in Hin. apply elem_of_app in Hin as [Hin|Hin].
  - split; [done|]. destruct (mv_change _ _ _ Hmv f Hin) as [[_ Hz]|[Hn Hk]]; [by destruct Hw|].
    split; [by eapply wasteful_ext|]. intros g ps Hg Hsel. apply Hn. eauto.
  - by apply (fully_live_frugal config L' f) in Hw; [|by apply Hfresh|..].
Qed.

Lemma rewrite_settles :
  file_compaction_percent config ≤ 100 → (∀ f, live (locs L') f * 100 < two64) → settled config L'.
Proof.
  intros Hp Hl g. apply (spared_few config m0 L Hs Hwf Hm0 ftd claims m Hse _ g); [by apply wasteful_into_nodup|].
  intros f (Hin & Hw & Hg)%wasteful_into_elem. apply wasteful_spared in Hin as (? & ? & ?); [|done..|exact Hw].
  split_and!; eauto.
Qed.
End leaves.
