(* ===== verification/MaintSpec.v ===== *)
(** MaintSpec: [maintenance] as a whole. It moves objects between files and deletes the
    files it has emptied; the contents of the store stay what they are, in memory and on
    disk, whatever happens on the way. *)
From S2P Require Import Prelude Effects Os Deps Locations LocationTable Config Metadata.
From S2P Require Import ZstdDict Storage State FileMap WritePath Gc Recovery FileMapSpec Layout.
From S2P Require Import Invariant PowerLoss StoreSpec FrameSpec GcSpec MoveSpec CountSpec RewriteSpec ClaimSpec PruneSpec.
From S2P Require Import WriteSpec CompactSpec.

(** ** The frame of a generation *)

Section frame.
Context `{Deps, !DepsLaws}.

Lemma keeps_framed_deref m0 p : keeps (framed m0) (fm (deref p)).
Proof.
  intros w Hw. unfold wlp, fm, zoom, deref, unwrap, gets, mbind, M_bind, mret, M_ret, panic.
  by destruct (arcs (w_fm w) !! p).
Qed.

#[local] Hint Resolve keeps_framed_io keeps_framed_deref keeps_shard_batch : keeps.

Lemma keeps_decompress {S} (I : S → Prop) z tid buf : keeps I (decompress z tid buf).
Proof.
  unfold decompress, ThreadLocalDict_decompress, DictInABox_decompress, uninit_boxed_slice, allocate.
  keeps_steps.
Qed.

Lemma keeps_read_trailer {S} (I : S → Prop) buf : keeps I (read_trailer_from_buf buf).
Proof. unfold read_trailer_from_buf, push_entry, read_entry. keeps_steps. Qed.

#[local] Hint Resolve keeps_decompress keeps_read_trailer : keeps.

Lemma keeps_rewrite_objects m0 config tid fam end_ fuel buf offset z acc :
  keeps (framed m0) (rewrite_objects fuel config tid fam end_ buf offset z acc).
Proof.
  revert buf offset z acc. induction fuel as [|fuel IH]; intros buf offset z acc; simpl; [keeps_steps|].
  unfold rewrite_object, load_expect, uninit_boxed_slice, allocate. keeps_steps.
Qed.

#[local] Hint Resolve keeps_rewrite_objects : keeps.

Lemma keeps_rewrite_generation m0 config n entry :
  keeps (framed m0) (rewrite_generation config n entry).
Proof.
  unfold rewrite_generation, rewrite_file, rewrite_delete, load_expect, verify_files_uninhabited,
    verify_file_uninhabited.
  keeps_steps.
Qed.
End frame.

(** ** All generations *)

Section generations.
Context `{Deps, !DepsLaws}.
Context (config : Config) (Htyped : Config_typed config).
Context (w : World) (L : list LogFile) (claims : list Z) (Hi : Inv w L (claim_set claims)).
Context (Hclaims : ∀ k, k ∈ claims → ∃ f, f ∈ L ∧ k = lf_location f).

(** The files that are rewritten with the groups [es]. *)
Definition picked (es : list (Z * list Z)) (f : LogFile) : Prop :=
  ∃ gen ps, (gen, ps) ∈ es ∧ selected config (w_fm w) ps f.

(** After the generations [dn]: more files, the same objects. *)
Record generated (dn : list (Z * list Z)) (w' : World) (L' : list LogFile) : Prop := {
  ge_inv : Inv w' L' (claim_set claims);
  ge_vals : vals L' = vals L;
  ge_moved : moved L (picked dn) L';
  ge_small f : f ∈ L → picked dn f → ¬ too_large config f;
  ge_next : next_file_lsn (w_fm w') ≤ next_file_lsn (w_fm w) + len dn * rewrite_room L;
  ge_tmp : os_tmp_counter (w_os w') ≤ os_tmp_counter (w_os w) + len dn * Z.of_nat (size (vals L));
  ge_faults : os_faults (w_os w') `suffix_of` os_faults (w_os w);
  ge_framed : framed (w_fm w) w';
  ge_steady : steady (os_fs (w_os w)) (os_fs (w_os w')) L;
}.

Lemma rewrite_room_vals L' : vals L' = vals L → rewrite_room L' = rewrite_room L.
Proof. unfold rewrite_room. by intros ->. Qed.

Lemma generated_refl : generated [] w L.
Proof.
  split; try done; [| |simpl; lia|simpl; lia| |apply steady_refl].
  - apply moved_refl. by intros f _ (gen & ps & ?%not_elem_of_nil & _).
  - by intros f _ (gen & ps & ?%not_elem_of_nil & _).
  - split; [done|]. apply fm_wf_fresh, (inv_fams _ _ _ Hi).
Qed.

(** The pointers that were collected before the first generation are still good. *)
Lemma generated_points_to dn w' L' f p :
  generated dn w' L' → f ∈ L → points_to (w_fm w) p f → points_to (w_fm w') p f.
Proof.
  intros Hg Hf Hpt.
  destruct (fs_fam _ _ _ (inv_fams _ _ _ Hi) f Hf) as (fam & (p' & Hk & Hfp)%fam_at_Some & _).
  unfold points_to in *. assert (p' = p) as -> by congruence.
  by destruct (proj1 (ge_framed _ _ _ Hg) _ _ _ Hk Hfp).
Qed.

Lemma generated_pointers dn w' L' ps : generated dn w' L' → pointers w L ps → pointers w' L ps.
Proof.
  intros Hg Hps p Hp. destruct (Hps p Hp) as (f & Hf & Hpt). exists f. split; [done|].
  by eapply generated_points_to.
Qed.

(** They select files that were there before the first generation, and no other. *)
Lemma generated_selected dn w' L' ps f :
  generated dn w' L' → pointers w L ps → f ∈ L' →
  selected config (w_fm w') ps f ↔ f ∈ L ∧ selected config (w_fm w) ps f.
Proof.
  intros Hg Hps Hf. unfold selected. split.
  - intros (Hl & p & Hp & Hpt). destruct (Hps p Hp) as (g & Hgl & Hgp).
    assert (f = g) as ->; [|eauto]. apply (points_to_inj w' L' _ (ge_inv _ _ _ Hg) f g p); [done| |done|].
    + by apply (moved_sub _ _ _ _ (ge_moved _ _ _ Hg)).
    + by eapply generated_points_to.
  - intros (Hl & Hle & p & Hp & Hpt). split; [done|]. exists p. split; [done|]. by eapply generated_points_to.
Qed.

Lemma generated_picked dn gen ps w1 L1 f :
  generated dn w1 L1 → pointers w L ps → f ∈ L →
  picked dn f ∨ selected config (w_fm w1) ps f ↔ picked (dn ++ [(gen, ps)]) f.
Proof.
  intros Hg Hps Hf. rewrite (generated_selected dn w1 L1) by (done || (eapply moved_sub; [apply Hg|done])).
  unfold picked. split.
  - intros [(g & qs & ? & ?)|[_ ?]]; [exists g, qs|exists gen, ps]; (split; [set_solver|done]).
  - intros (g & qs & [?|[= -> ->]%list_elem_of_singleton]%elem_of_app & ?); [left; eauto|by right].
Qed.

Lemma generated_moved dn gen ps w1 L1 L2 :
  generated dn w1 L1 → pointers w L ps → moved L1 (selected config (w_fm w1) ps) L2 →
  moved L (picked (dn ++ [(gen, ps)])) L2.
Proof.
  intros Hg Hps Hmv. pose proof (ge_inv _ _ _ Hg) as Hi1.
  eapply (moved_ext _ (λ f, picked dn f ∨ selected config (w_fm w1) ps f)).
  - intros f Hf. by apply (generated_picked dn gen ps w1 L1).
  - eapply moved_trans; [apply Hg|done| |by eapply inv_sorted|by eapply inv_wf].
    intros f Hf Hsel. by eapply (generated_selected dn w1 L1) in Hsel as [? _].
Qed.

Lemma generated_small dn gen ps w1 L1 :
  generated dn w1 L1 → pointers w L ps →
  (∀ f, f ∈ L1 → selected config (w_fm w1) ps f → ¬ too_large config f) →
  ∀ f, f ∈ L → picked (dn ++ [(gen, ps)]) f → ¬ too_large config f.
Proof.
  intros Hg Hps Hsm f Hf (g & qs & [Hin|[= -> ->]%list_elem_of_singleton]%elem_of_app & Hsel).
  - apply (ge_small _ _ _ Hg f Hf). by exists g, qs.
  - assert (f ∈ L1) as Hf1 by by apply (moved_sub _ _ _ _ (ge_moved _ _ _ Hg)).
    apply (Hsm f Hf1). by apply (generated_selected dn w1 L1).
Qed.

(** What has been moved so far adds up, and stays below 2^64. *)
Lemma generated_tally dn gen ps w' L' n k :
  generated dn w' L' → pointers w L ps → tally L (picked dn) n →
  tally L' (selected config (w_fm w') ps) k → tally L (picked (dn ++ [(gen, ps)])) (n + k).
Proof.
  intros Hg Hps Hn Hk. eapply (tally_ext L (λ f, picked dn f ∨ selected config (w_fm w') ps f)).
  - intros f Hf. by apply (generated_picked dn gen ps w' L').
  - eapply tally_moved; [by eapply inv_sorted|by eapply inv_wf|by apply (ge_moved _ _ _ Hg)| |done|done].
    intros f Hf Hsel. by apply (generated_selected dn w' L' ps f) in Hsel as [? _].
Qed.

Lemma tally_u64 (es dn : list (Z * list Z)) k :
  os_tmp_counter (w_os w) + len es * Z.of_nat (size (vals L)) < two64 → len dn ≤ len es →
  tally L (picked dn) k → is_u64 k.
Proof.
  intros Hroom Hle Hk. destruct dn as [|x dn].
  - assert (k = 0) as ->; [|done]. destruct Hk as ([|g gs] & _ & Hgs & ->); [done|].
    destruct (proj1 (Hgs g)) as (_ & ? & ? & ?%not_elem_of_nil & _); [by left|done].
  - apply tally_bound in Hk; [|by eapply inv_sorted|by eapply inv_wf].
    destruct (mo_tmp _ _ _ (inv_mem _ _ _ Hi)) as [Hcnt _]. simpl in Hle.
    assert (Z.of_nat (size (vals L)) ≤ len es * Z.of_nat (size (vals L))) by nia. u64_lia.
Qed.

Lemma wp_generations es (Q : Z → World → Prop) (E : ErrorKind → World → Prop) (C : World → Prop) :
  (∀ gen ps, (gen, ps) ∈ es → 0 < gen < 256 ∧ pointers w L ps) →
  next_file_lsn (w_fm w) + len es * rewrite_room L < 2 ^ 62 →
  os_tmp_counter (w_os w) + len es * Z.of_nat (size (vals L)) < two64 →
  (∀ n w' L', generated es w' L' → tally L (picked es) n → Q n w') →
  (∀ e w', same_on_disk (os_fs (w_os w)) L (os_fs (w_os w')) → injected (w_os w) ∨ gc_refuses config L e →
     framed (w_fm w) w' → E e w') →
  (∀ w', same_on_disk (os_fs (w_os w)) L (os_fs (w_os w')) → injected (w_os w) → C w') →
  wp (foldM (rewrite_generation config) 0 es) Q E C w.
Proof.
  intros Hes Hroom Htmp HQ HE HC. pose proof (rewrite_room_pos L) as Hpos.
  eapply wp_mono; [apply (wp_foldM _ (λ dn n w', (∃ L', generated dn w' L') ∧ tally L (picked dn) n) E C)|..];
    [..|done|done].
  - split; [exists L; apply generated_refl|]. apply tally_none. by intros f _ (gen & ps & ?%not_elem_of_nil & _).
  - intros dn [gen ps] rest n w' E' [[L' Hg] Hcount]. destruct (Hes gen ps) as [Hgen Hps]; [rewrite E'; set_solver|].
    pose proof (generated_pointers _ _ _ ps Hg Hps) as Hps'. pose proof Hg as Hg'.
    destruct Hg as [Hi' Hv Hmv Hsm Hn Ht Hf Hfr Hst].
    assert (∀ f, f ∈ L → f ∈ L') as Hsub by (intros f; by eapply moved_sub). pose proof (rewrite_room_vals L' Hv) as Er.
    assert (len es = len dn + 1 + len rest) as El by (rewrite E', length_app, length_cons; lia).
    assert (∀ F, same_on_disk (os_fs (w_os w')) L' F → same_on_disk (os_fs (w_os w)) L F) as Hdk
      by (intros F; by apply same_on_disk_trans).
    assert (injected (w_os w') → injected (w_os w)) as Hinj by by apply injected_suffix.
    eapply wp_mono with (C := C); [eapply (wp_wlp _ (λ n2 w2, ∃ L2, regenerated config w' L' (claim_set claims) (selected config (w_fm w') ps) w2 L2 ∧ tally L (picked (dn ++ [(gen, ps)])) n2)
      (λ e w2, same_on_disk (os_fs (w_os w)) L (os_fs (w_os w2)) ∧ (injected (w_os w) ∨ gc_refuses config L e)));
      [apply (wp_rewrite_generation config w' L' (claim_set claims) L)|by apply keeps_rewrite_generation]|..].
    + done.
    + split; [done| |rewrite Er; nia|rewrite Hv; nia].
      intros k Hk. apply bool_decide_eq_false. intros (f & Hf' & ->)%Hclaims. by apply (Hk f); [auto|].
    + done.
    + done.
    + done.
    + done.
    + apply (tally_u64 es dn); [done|lia|done].
    + intros k w2 L2 Hrg Hk. exists L2. split; [done|].
      pose proof (generated_tally dn gen ps w' L' n k Hg' Hps Hcount Hk) as Hnk.
      rewrite wrap64_small; [done|]. apply (tally_u64 es) in Hnk; [done..|]. rewrite length_app. simpl. lia.
    + intros e w2 Hd%Hdk He. split; [done|]. destruct He as [?|?]; [left|right]; auto.
    + intros w2 Hd%Hdk He. auto.
    + intros n2 w2 [(L2 & [Hi2 Hv2 Hmv2 Hsm2 Hn2 Ht2 Hf2 Hst2] & Hcount2) Hfr2]. split; [|done]. exists L2.
      rewrite Er in Hn2. rewrite Hv in Ht2.
      split; [done|congruence|by eapply generated_moved|by eapply generated_small|..|by etrans|done|by eapply steady_trans];
        rewrite length_app; change (length [(gen, ps)]) with 1%nat; lia.
    + intros e w2 [[Hd He] Hfr2]. auto.
    + done.
  - intros n w' [[L' Hg] Hcount]. by eapply HQ.
Qed.
End generations.

(** ** [maintenance] *)

Section theorem.
Context `{Deps, !DepsLaws}.
Context (config : Config) (Htyped : Config_typed config).
Context (w : World) (L : list LogFile) (Hi : Inv w L unclaimed).

(** Room for rewriting everything in each of the three generations. *)
Record maintenance_fits : Prop := {
  mf_room : next_file_lsn (w_fm w) + 3 * rewrite_room L < 2 ^ 62;
  mf_tmp : os_tmp_counter (w_os w) + 3 * Z.of_nat (size (vals L)) < two64;
}.

(** The state after a successful [maintenance]. If deleting an empty file has failed, the
    file is still on disk, which [Inv] does not describe. *)
Record maintained (n : Z) (w' : World) : Prop := {
  md_disk : same_on_disk (os_fs (w_os w)) L (os_fs (w_os w'));
  md_inv : (∃ L', Inv w' L' unclaimed ∧ vals L' = vals L ∧ (∀ f, f ∈ L' → live (locs L') f ≠ 0)
              ∧ (file_compaction_percent config ≤ 100 → settled config L'))
           ∨ injected (w_os w);
  md_next : next_file_lsn (w_fm w') ≤ next_file_lsn (w_fm w) + 3 * rewrite_room L;
  md_tmp : os_tmp_counter (w_os w') ≤ os_tmp_counter (w_os w) + 3 * Z.of_nat (size (vals L));
  md_faults : os_faults (w_os w') `suffix_of` os_faults (w_os w);
  md_small f : f ∈ L → in_group config (w_fm w) L f → ¬ too_large config f;
  md_count : n = total (live (locs L)) (filter (in_group config (w_fm w) L) L);
}.

Lemma inv_set_claims w1 L1 c c' m :
  Inv w1 L1 c → fams_ok m L1 (fam_ok (locs L1) c') → Inv (set_file_map m w1) L1 c'.
Proof. intros [Hd [Hh Ht _ Hmx Hmu Htmp]] Hm. by split; [|split]. Qed.

(** The room for rewriting bounds the counts, so a percentage does not wrap around. *)
Lemma live_fits L' f : maintenance_fits → Forall lf_wf L' → vals L' = vals L → live (locs L') f * 100 < two64.
Proof.
  intros [Hroom _] Hwf' Ev. destruct (fs_next _ _ _ (inv_fams _ _ _ Hi)) as [Hpos _].
  assert (live (locs L') f ≤ Z.of_nat (size (vals L))) as Hle.
  - rewrite <- Ev, <- size_dom. unfold live. rewrite <- size_dom. apply inj_le, subseteq_size.
    intros oid (loc & [Hl _]%map_lookup_filter_Some)%elem_of_dom. apply elem_of_dom.
    apply locs_vals_dom; [done|eauto].
  - unfold rewrite_room in Hroom. pose proof (batch_room_length (map_to_list (vals L))) as Hb.
    rewrite length_map_to_list in Hb. unfold two64. lia.
Qed.

(** At most three generations have files. *)
Lemma generations_count (ftd : gmap Z (list Z)) :
  (∀ gen ps, ftd !! gen = Some ps → 0 < gen ≤ 3) → len (iter_order ftd) ≤ 3.
Proof.
  intros Hk. assert (dom ftd ⊆ ({[1; 2; 3]} : gset Z)) as Hsub.
  { intros gen [ps Hps]%elem_of_dom. specialize (Hk _ _ Hps).
    assert (gen = 1 ∨ gen = 2 ∨ gen = 3) by lia. set_solver. }
  apply subseteq_size in Hsub. rewrite size_dom in Hsub.
  rewrite (Permutation_length (iter_order_perm ftd)), length_map_to_list.
  assert (size ({[1; 2; 3]} : gset Z) = 3%nat) as E3 by reflexivity. lia.
Qed.

Lemma wp_maintenance :
  maintenance_fits →
  wp (maintenance config) maintained
    (λ e w', same_on_disk (os_fs (w_os w)) L (os_fs (w_os w')) ∧ (injected (w_os w) ∨ gc_refuses config L e))
    (λ w', same_on_disk (os_fs (w_os w)) L (os_fs (w_os w')) ∧ injected (w_os w)) w.
Proof.
  intros Hfits. pose proof Hfits as [Hroom Htmp]. pose proof (inv_sorted _ _ _ Hi) as Hs. pose proof (inv_wf _ _ _ Hi) as Hwf.
  pose proof (rewrite_room_pos L) as Hpos.
  unfold maintenance. w_steps. apply (wp_files_to_defrag L Hs Hwf config _ (inv_fams _ _ _ Hi)).
  intros ftd claims m1 Hse Hm1 Ef En Hnd Hcl Hftd. w_steps.
  assert (len (iter_order ftd) ≤ 3) as Hlen by (apply generations_count; intros gen ps ?; by eapply Hftd).
  pose proof (inv_set_claims _ _ _ _ _ Hi Hm1) as Hi1. set (w1 := set_file_map m1 w) in *.
  apply (wp_generations config Htyped w1 L claims Hi1 Hcl).
  - intros gen ps Hin%iter_order_elem. destruct (Hftd _ _ Hin). split; [lia|done].
  - subst w1. rewrite w_fm_set, En. nia.
  - simpl. nia.
  - intros n w2 L2 [Hi2 Hv2 Hmv2 Hsm2 Hn2 Ht2 Hf2 _ Hst2] Hcount. w_steps.
    assert (∀ f, f ∈ L → picked config w1 (iter_order ftd) f ↔ in_group config (w_fm w) L f) as Hpick.
    { intros f Hf. rewrite <- (group_selected config (w_fm w) L Hs Hwf (inv_fams _ _ _ Hi) ftd claims m1 Hse f Hf).
      unfold picked, selected, points_to. subst w1. by rewrite w_fm_set, Ef. }
    subst w1. rewrite w_fm_set, En in Hn2. simpl in Ht2, Hf2.
    apply (wp_drop_claims L2 (inv_sorted _ _ _ Hi2) (inv_wf _ _ _ Hi2) claims _ (locs L2));
      [by eapply inv_fams|done|]. intros m3 Hm3 _ En3. w_steps.
    pose proof (inv_set_claims _ _ _ _ _ Hi2 Hm3) as Hi3.
    apply (wp_prune_empty_files _ L2 Hi3).
    + intros w4 [Hd Hinv Hn4 Ht4 Hf4]. w_steps. rewrite w_fm_set, En3 in Hn4. simpl in Ht4, Hf4.
      split; [|..|nia|nia|by etrans| |].
      * by eapply same_on_disk_trans.
      * destruct Hinv as [(Hi4 & Ev & El)|Hinj]; [left|right; by eapply injected_suffix].
        exists (inhabited_files L2). split_and!; [done|congruence|..].
        -- intros f [Hf _]%list_elem_of_filter. by rewrite El.
        -- intros Hp. apply settled_inhabited; [done|]. pose proof (inv_wf _ _ _ Hi2) as Hwf2.
           apply (rewrite_settles config (w_fm w) L L2 ftd claims m1); try done;
             [by eapply inv_sorted|by apply (inv_fams _ _ _ Hi)| |by intros f; apply live_fits].
           eapply moved_ext; [|done]. intros f _. unfold picked, selected, points_to. by rewrite w_fm_set, Ef.
      * intros f Hf Hg. by apply Hsm2, Hpick.
      * apply tally_filter; [by apply sorted_nodup|]. by eapply tally_ext.
    + intros w4 Hinj Hd. split; [|by eapply injected_suffix]. by eapply same_on_disk_trans.
  - intros e w2 Hd He Hfr. eapply (wp_drop_claims_framed L Hs Hwf m1); try done.
    intros w3 E3. rewrite E3. done.
  - intros w2 Hd Hinj. done.
Qed.
End theorem.
