(* ===== verification/SettleSpec.v ===== *)
(** SettleSpec: [maintenance] gets somewhere. A successful run leaves fewer wasteful files in
    each generation than it takes to start a rewrite, so the next run has nothing to do. *)
From S2P Require Import Prelude Effects Os Deps Locations LocationTable Config Metadata.
From S2P Require Import ZstdDict Storage State FileMap WritePath Gc Recovery FileMapSpec Layout.
From S2P Require Import Invariant PowerLoss RewriteSpec ClaimSpec PruneSpec CompactSpec MaintSpec.

Section idle.
Context `{Deps, !DepsLaws}.
Context (config : Config).

(** Fewer files than it takes to clean up small ones. *)
Definition few_files (w : World) : Prop :=
  cm_len (fams (w_fm w)) < small_file_cleanup_threshold config.

(** Groups that are too small are not rewritten. *)
Lemma wp_short_groups es n w (Q : Z → World → Prop) E C :
  (∀ g ps, (g, ps) ∈ es → len ps < min_compaction_files config) → Q n w →
  wp (foldM (rewrite_generation config) n es) Q E C w.
Proof.
  intros Hes HQ. eapply wp_mono; [apply (wp_foldM _ (λ _ n' w', n' = n ∧ w' = w) (λ _ _, False) (λ _, False))|..];
    [done|..|done|done].
  - intros dn [g ps] rest n' w' E' [-> ->]. unfold rewrite_generation.
    rewrite (proj2 (Z.ltb_lt _ _)); [by w_steps|]. apply (Hes g ps). rewrite E'. set_solver.
  - by intros n' w' [-> ->].
Qed.

(** Of a settled store with few files only the empty files are removed. *)
Lemma wp_maintenance_idle w L :
  Inv w L unclaimed → settled config L → few_files w →
  wp (maintenance config) (λ n w', n = 0 ∧ pruned_all w L w')
    (λ _ _, False) (λ _, injected (w_os w)) w.
Proof.
  intros Hi Hset Hfew. pose proof (inv_sorted _ _ _ Hi) as Hs. pose proof (inv_wf _ _ _ Hi) as Hwf.
  unfold maintenance. w_steps. apply (wp_files_to_defrag L Hs Hwf config _ (inv_fams _ _ _ Hi)).
  intros ftd claims m1 Hse Hm1 Ef En Hnd Hcl _. w_steps. apply wp_short_groups.
  { intros g ps. by apply (settled_groups_short config (w_fm w) L (inv_fams _ _ _ Hi) ftd claims m1 Hse). }
  w_steps. eapply (wp_drop_claims L Hs Hwf); [done|done|]. intros m2 Hm2 _ En2. w_steps.
  assert (Inv (set_file_map m2 (set_file_map m1 w)) L unclaimed) as Hi2.
  { eapply inv_set_claims; [|exact Hm2]. by eapply inv_set_claims. }
  apply (wp_prune_empty_files _ L Hi2).
  - intros w3 [Hd Hinv Hn Ht Hf]. w_steps. split; [done|].
    split; try done. by rewrite Hn, w_fm_set, En2, w_fm_set, En.
  - intros w3 Hinj _. exact Hinj.
Qed.

(** Nothing is left to do: what [maintenance] then leaves is again such a store. *)
Lemma maintenance_rests w L :
  Inv w L unclaimed → settled config L → (∀ f, f ∈ L → live (locs L) f ≠ 0) →
  few_files w → os_faults (w_os w) = [] →
  ∃ w', maintenance config w = (Ok 0, w') ∧ Inv w' L unclaimed ∧ few_files w' ∧ os_faults (w_os w') = [].
Proof.
  intros Hi Hset Hl Hfew Hf. assert (¬ injected (w_os w)) as Hinj by by intros [].
  destruct (wp_no_faults _ _ _ _ _ (wp_maintenance_idle w L Hi Hset Hfew))
    as (n & w' & E & -> & [_ Hinv _ _ Hs]); [by intros ? ?|by intros ?|].
  rewrite Hf in Hs. apply suffix_nil_inv in Hs.
  assert (inhabited_files L = L) as El by (unfold inhabited_files; by apply filter_everything).
  rewrite El in Hinv. destruct Hinv as [[Hi' _]|?]; [|done]. exists w'. split_and!; try done. unfold few_files.
  pose proof (fams_count _ (inv_sorted _ _ _ Hi') (inv_wf _ _ _ Hi') _ _ (inv_fams _ _ _ Hi')) as ->.
  by pose proof (fams_count _ (inv_sorted _ _ _ Hi) (inv_wf _ _ _ Hi) _ _ (inv_fams _ _ _ Hi)) as <-.
Qed.
End idle.

Section theorem.
Context `{Deps, !DepsLaws}.

(** What a successful run without faults leaves. *)
Lemma maintenance_settled config w L n w' :
  Inv w L unclaimed → maintenance_fits w L → validate config = inl () → Config_typed config →
  os_faults (w_os w) = [] → maintenance config w = (Ok n, w') →
  ∃ L', Inv w' L' unclaimed ∧ vals L' = vals L ∧ (∀ f, f ∈ L' → live (locs L') f ≠ 0) ∧
    settled config L' ∧ os_faults (w_os w') = [].
Proof.
  intros Hi Hfit Hv Ht Hf Hrun. assert (¬ injected (w_os w)) as Hinj by by intros [].
  pose proof (wp_run _ _ _ _ _ _ _ (wp_maintenance config Ht w L Hi Hfit) Hrun) as [_ Hmd _ _ Hs].
  destruct Hmd as [(L' & Hi' & Ev & Hl & Hset)|?]; [|done]. rewrite Hf in Hs. apply suffix_nil_inv in Hs.
  exists L'. split_and!; try done. apply Hset. revert Hv. unfold validate. case_match; [done|].
  destruct (Z.ltb_spec 99 (file_compaction_percent config)); [done|lia].
Qed.

(** C6. A successful [maintenance] without faults keeps the objects and leaves no empty file, and
    in each generation fewer wasteful files than it takes to start a rewrite. If the files
    are then fewer than the threshold for cleaning up small ones, the store has settled:
    the next [maintenance] rewrites nothing and leaves the files as they are. *)
Theorem maintenance_settles config w L n w' :
  Inv w L unclaimed → maintenance_fits w L → validate config = inl () → Config_typed config →
  os_faults (w_os w) = [] → maintenance config w = (Ok n, w') →
  ∃ L', Inv w' L' unclaimed ∧ vals L' = vals L ∧ (∀ f, f ∈ L' → live (locs L') f ≠ 0) ∧
    settled config L' ∧
    (few_files config w' →
     ∃ w'', maintenance config w' = (Ok 0, w'') ∧ Inv w'' L' unclaimed).
Proof.
  intros Hi Hfit Hv Ht Hf Hrun.
  destruct (maintenance_settled config w L n w') as (L' & Hi' & Ev & Hl & Hset & Hf'); [done..|].
  exists L'. split_and!; try done. intros Hfew.
  destruct (maintenance_rests config w' L') as (w'' & ? & ? & _); [done..|]. by exists w''.
Qed.
End theorem.
