(* ===== verification/ResultSpec.v ===== *)
(** ResultSpec: what a call of [maintenance] returns. It is the number of objects it has moved;
    and it is an error, again and again, if a file it has to rewrite holds an object as long
    as [max_object_size], which a batch may have. *)
From S2P Require Import Prelude Effects Os Deps Locations LocationTable Config Metadata.
From S2P Require Import ZstdDict Storage State FileMap WritePath Gc Recovery FileMapSpec Layout.
From S2P Require Import Invariant PowerLoss WriteSpec GcSpec CountSpec RewriteSpec ClaimSpec PruneSpec CompactSpec MaintSpec.

Section result.
Context `{Deps, !DepsLaws}.
Context (config : Config) (w : World) (L : list LogFile) (Hi : Inv w L unclaimed).

(** The files worth rewriting whose objects go into the same generation as those of [f]. *)
Definition rewritten_with (f : LogFile) : list LogFile :=
  filter (λ g, worth_rewriting config L g ∧
    Z.min (generation (lf_md g) + 1) 3 = Z.min (generation (lf_md f) + 1) 3) L.

(** The file is worth rewriting, and so are enough others with it. *)
Definition is_rewritten (f : LogFile) : Prop :=
  worth_rewriting config L f ∧ min_compaction_files config ≤ len (rewritten_with f).

#[global] Instance is_rewritten_dec f : Decision (is_rewritten f).
Proof. unfold is_rewritten. apply _. Defined.

Context (Htyped : Config_typed config) (Hfit : maintenance_fits w L) (Hproducts : products_fit config L).

Lemma in_group_rewritten f : f ∈ L → in_group config (w_fm w) L f ↔ is_rewritten f.
Proof.
  intros Hf. pose proof (inv_sorted _ _ _ Hi) as Hs. pose proof (inv_wf _ _ _ Hi) as Hwf.
  assert (0 ≤ min_compaction_files config) as Hmin by apply (ct_min_files _ Htyped).
  assert (∀ g, g ∈ L → candidate config (w_fm w) g ↔ worth_rewriting config L g) as Hcw.
  { intros g Hg. apply candidate_worth; try done. apply (inv_fams _ _ _ Hi). }
  unfold in_group, is_rewritten. rewrite (Hcw f Hf).
  assert (group config (w_fm w) L f = rewritten_with f) as ->; [|done].
  apply filter_same. intros g Hg. rewrite (Hcw g Hg). unfold next_generation, MAX_GENERATION. intuition lia.
Qed.

(** C35. A successful [maintenance] returns the number of live objects, deletions that are still
    in the table among them, in the files it had to rewrite: those worth rewriting, where a generation has enough of them. It returns zero
    exactly if there was no such file; a loop that waits for zero ends only then. *)
Theorem maintenance_counts n w' :
  maintenance config w = (Ok n, w') →
  n = total (live (locs L)) (filter is_rewritten L) ∧ (n = 0 ↔ ∀ f, f ∈ L → ¬ is_rewritten f).
Proof.
  intros Hrun.
  pose proof (md_count _ _ _ _ _ (wp_run _ _ _ _ _ _ _ (wp_maintenance config Htyped w L Hi Hfit) Hrun)) as Hn.
  rewrite (filter_same _ is_rewritten) in Hn by apply in_group_rewritten. split; [done|]. rewrite Hn. split.
  - intros E f Hf Hr. pose proof (total_positive (live (locs L)) (filter is_rewritten L) f) as Hp.
    destruct Hr as [[Hlive ?] ?]. pose proof (live_nonneg (locs L) f).
    assert (0 < live (locs L) f) by lia. cut (0 < 0); [lia|]. rewrite <- E at 2. eapply Z.lt_le_trans; [done|].
    apply Hp; [|by intros; apply live_nonneg]. by apply list_elem_of_filter.
  - intros Hnone. assert (filter is_rewritten L = []) as ->; [|done].
    destruct (filter is_rewritten L) as [|f fs] eqn:Ef; [done|].
    assert (f ∈ filter is_rewritten L) as [Hr Hf]%list_elem_of_filter by (rewrite Ef; by left).
    by destruct (Hnone f Hf).
Qed.

(** C36. Without faults [maintenance] fails when a file it has to rewrite holds an object, live or
    dead, of at least [max_object_size] bytes as it is stored: it takes it for corrupt. No
    object of the store need be [oversize], that is too long for a batch, which may have
    objects of exactly [max_object_size] bytes. The disk holds the same objects as before. *)
Theorem maintenance_rejects_limit f :
  os_faults (w_os w) = [] → (∀ oid v, vals L !! oid = Some v → ¬ oversize config v) →
  f ∈ L → is_rewritten f →
  (∃ oid stored, (oid, stored) ∈ lf_objs f ∧ max_object_size config ≤ len stored) →
  ∃ w', maintenance config w = (Err InvalidData, w') ∧ same_on_disk (os_fs (w_os w)) L (os_fs (w_os w')).
Proof.
  intros Hc Hov Hf Hr Hlarge. assert (¬ injected (w_os w)) as Hinj by by intros [].
  pose proof (wp_maintenance config Htyped w L Hi Hfit) as Hwp. unfold wp in Hwp.
  destruct (maintenance config w) as [[n|e| |] w']; [exfalso| |done|by destruct Hwp].
  - by apply (md_small _ _ _ _ _ Hwp f Hf); [apply in_group_rewritten|].
  - destruct Hwp as [Hd [?|[(-> & _)|(_ & oid & v & Hv & Ho)]]]; [done|by exists w'|by destruct (Hov oid v)].
Qed.
End result.
