(* ===== verification/SyncSpec.v ===== *)
(** SyncSpec: [Marble::sync_all] makes the store durable: afterwards every file counts as
    synced, those that did not have been synced, and the directory with them. *)
From S2P Require Import Prelude Effects Os Deps Locations LocationTable Config Metadata.
From S2P Require Import ZstdDict Storage State FileMap WritePath Recovery Store FileMapSpec Layout.
From S2P Require Import Invariant PowerLoss RecoverySpec StoreSpec.

Section sync.
Context `{Deps, !DepsLaws}.

(** The process believes the file to be durable. *)
Definition marked_synced (w : World) (f : LogFile) : Prop :=
  ∃ fam, fam_at (w_fm w) (lf_location f) = Some fam ∧ fam_synced fam = true.

(** It is: its content at its last [sync_all] is the whole of it. *)
Definition durable (w : World) (f : LogFile) : Prop :=
  fs_synced (os_fs (w_os w)) !! lf_ino f = Some (lf_content f).

(** The directory is as it was at its last [sync_all]. *)
Definition durable_dir (w : World) : Prop :=
  fs_dir_synced (os_fs (w_os w)) = fs_dir (os_fs (w_os w)) ∧ fs_journal (os_fs (w_os w)) = [].

Context (w0 : World) (L : list LogFile) (claimed : Z → bool) (Hi0 : Inv w0 L claimed).

(** After the entries [dn] of the map. *)
Record syncing (dn : list (Z * Z)) (b : bool) (w : World) : Prop := {
  sy_inv : Inv w L claimed;
  sy_map : fams (w_fm w) = fams (w_fm w0);
  sy_left k p : cm_get (fams (w_fm w0)) k = Some p → k ∉ dn.*1 → arcs (w_fm w) !! p = arcs (w_fm w0) !! p;
  sy_done f : f ∈ L → lf_location f ∈ dn.*1 → marked_synced w f;
  sy_durable f : f ∈ L → lf_location f ∈ dn.*1 → ¬ marked_synced w0 f → durable w f ∧ b = true;
  sy_faults : os_faults (w_os w) `suffix_of` os_faults (w_os w0);
  sy_passes : passes (os_fs (w_os w0)) (os_fs (w_os w)) [L];
}.

Lemma syncing_skip dn b w f p fam :
  syncing dn b w → f ∈ L → cm_get (fams (w_fm w0)) (lf_location f) = Some p →
  arcs (w_fm w0) !! p = Some fam → fam_synced fam = true → lf_location f ∉ dn.*1 →
  syncing (dn ++ [(lf_location f, p)]) b w.
Proof.
  intros [Hi Em Hl Hd Hdu Hf Hps] HfL Hk Hp Hs Hn.
  assert (∀ g, g ∈ L → lf_location g ∈ (dn ++ [(lf_location f, p)]).*1 → lf_location g ∈ dn.*1 ∨ g = f) as Hcase.
  { intros g Hg. rewrite fmap_app, elem_of_app. intros [?|E%list_elem_of_singleton]; [by left|right].
    by eapply lf_location_inj; [eapply inv_sorted|eapply inv_wf|..]. }
  split; try done.
  - intros k q Hq Hkn. rewrite fmap_app, not_elem_of_app in Hkn. by apply (Hl k); [|apply Hkn].
  - intros g Hg Hin. destruct (Hcase g Hg Hin) as [?| ->]; [auto|]. exists fam. split; [|done].
    apply fam_at_Some. exists p. rewrite Em. split; [done|]. by rewrite (Hl (lf_location f)).
  - intros g Hg Hin Hns. destruct (Hcase g Hg Hin) as [?| ->]; [auto|]. destruct Hns. exists fam.
    split; [|done]. apply fam_at_Some. eauto.
Qed.

(** The disk after the file of [f] is synced. *)
Lemma synced_disk w f g :
  disk_ok (os_fs (w_os w)) L → f ∈ L → g ∈ L → durable w g ∨ g = f →
  <[lf_ino f := lf_content f]> (fs_synced (os_fs (w_os w))) !! lf_ino g = Some (lf_content g).
Proof.
  intros Hd Hf Hg Hor. rewrite lookup_insert. case_decide as E.
  - pose proof (dk_content _ _ Hd f Hf) as Ef. pose proof (dk_content _ _ Hd g Hg) as Eg. congruence.
  - destruct Hor as [?| ->]; done.
Qed.

Lemma syncing_sync dn b w f p fam o :
  syncing dn b w → f ∈ L → cm_get (fams (w_fm w0)) (lf_location f) = Some p →
  arcs (w_fm w0) !! p = Some fam → lf_location f ∉ dn.*1 →
  os_upd (set_synced (<[lf_ino f := lf_content f]> (fs_synced (os_fs (w_os w)))) (os_fs (w_os w))) (w_os w) o →
  syncing (dn ++ [(lf_location f, p)]) true (set_file_map (updated p (set_fam_synced true) (w_fm w)) (set_os o w)).
Proof.
  intros [Hi Em Hl Hd Hdu Hf Hps] HfL Hk Hp Hn Ho.
  pose proof (inv_disk _ _ _ Hi) as Hdk.
  assert (Inv (set_os o w) L claimed) as Hi1 by by (eapply inv_sync; [..|exact Ho]).
  assert (∀ g, g ∈ L → lf_location g ∈ (dn ++ [(lf_location f, p)]).*1 → lf_location g ∈ dn.*1 ∨ g = f) as Hcase.
  { intros g Hg. rewrite fmap_app, elem_of_app. intros [?|E%list_elem_of_singleton]; [by left|right].
    by eapply lf_location_inj; [eapply inv_sorted|eapply inv_wf|..]. }
  assert (arcs (w_fm w) !! p = Some fam) as Hp' by by rewrite (Hl (lf_location f)).
  assert (cm_get (fams (w_fm w)) (lf_location f) = Some p) as Hk' by by rewrite Em.
  assert (∀ k, fam_at (updated p (set_fam_synced true) (w_fm w)) k
    = if decide (k = lf_location f) then Some (set_fam_synced true fam) else fam_at (w_fm w) k) as Hat.
  { intros k. by destruct (updated_fam_at (w_fm w) (lf_location f) p (set_fam_synced true) fam)
      as [_ ->]; [apply (inv_fams _ _ _ Hi)|..]. }
  split; simpl; try done.
  - eapply inv_ext; [exact Hi1|done..|]. simpl.
    eapply (fams_ok_updated (w_fm w) L (fam_ok (locs L) claimed)); eauto using inv_sorted, inv_wf, inv_fams.
    assert (fam_ok (locs L) claimed f fam) as [].
    { destruct (fs_fam _ _ _ (inv_fams _ _ _ Hi) f HfL) as (fam' & (p' & Hk2 & Hp2)%fam_at_Some & ?). congruence. }
    by split.
  - intros k q Hq Hkn. rewrite fmap_app, not_elem_of_app in Hkn. destruct Hkn as [? Hkn].
    rewrite lookup_alter_ne; [by apply (Hl k)|]. intros <-. apply Hkn. apply list_elem_of_singleton.
    eapply fm_wf_inj; [apply (inv_fams _ _ _ Hi0)|done|done].
  - intros g Hg Hin. unfold marked_synced. rewrite w_fm_set, Hat. case_decide as E; [by eexists|].
    destruct (Hcase g Hg Hin) as [?| ->]; [by apply Hd|done].
  - intros g Hg Hin Hns. split; [|done]. unfold durable. simpl. rewrite (os_upd_fs _ _ _ Ho). simpl.
    apply synced_disk; try done. destruct (Hcase g Hg Hin) as [?|?]; [left; by apply Hdu|by right].
  - etrans; [apply Ho|done].
  - rewrite (os_upd_fs _ _ _ Ho). eapply (passes_trans _ _ _ [L] []); [exact Hps|].
    by apply passes_sync, (dk_content _ _ Hdk).
Qed.

(** What a failure leaves. *)
Definition sync_failed (w : World) : Prop :=
  injected (w_os w0) ∧ Inv w L claimed ∧ passes (os_fs (w_os w0)) (os_fs (w_os w)) [L].

Lemma sync_failed_upd w F o :
  Inv w L claimed → passes (os_fs (w_os w0)) (os_fs (w_os w)) [L] →
  os_faults (w_os w) `suffix_of` os_faults (w_os w0) → injected (w_os w) → os_upd F (w_os w) o →
  F = os_fs (w_os w) ∨
  (∃ f, f ∈ L ∧ F = set_synced (<[lf_ino f := lf_content f]> (fs_synced (os_fs (w_os w)))) (os_fs (w_os w))) ∨
  F = set_dir_synced (os_fs (w_os w)) →
  sync_failed (set_os o w).
Proof.
  intros Hi Hp Hs Hinj Ho HF. split_and!; [by eapply injected_suffix| |].
  - eapply (inv_sync w F); [exact Hi|..|exact Ho]; by destruct HF as [->|[(f & _ & ->)| ->]].
  - simpl. rewrite (os_upd_fs _ _ _ Ho). destruct HF as [->|[(f & Hf & ->)| ->]]; [done|..].
    + eapply (passes_trans _ _ _ [L] []); [exact Hp|]. apply passes_sync.
      by apply (dk_content _ _ (inv_disk _ _ _ Hi)).
    + eapply passes_mono; [eapply passes_trans; [exact Hp|]|];
        [apply passes_dir_synced, (inv_disk _ _ _ Hi)|set_solver].
Qed.

Lemma wp_file_map_sync_all :
  wp file_map_sync_all (λ b w, syncing (cm_iter (fams (w_fm w0))) b w)
    (λ _ w, sync_failed w) sync_failed w0.
Proof.
  unfold file_map_sync_all. w_steps. eapply wp_mono; [apply (wp_foldM _ syncing
    (λ _ w, sync_failed w) sync_failed)|..]; [..|done|done|done].
  - split; try done; [..|apply passes_refl]; intros f _ Hin; by apply not_elem_of_nil in Hin.
  - intros dn [k p] rest b w E Hsy.
    destruct (drop_entry w0 L claimed Hi0 dn k p rest E) as (Hn & f & fam & Hf & -> & Hk & Hp & Hfam).
    w_steps. eapply wp_deref; [by rewrite (sy_left _ _ _ Hsy (lf_location f))|]. w_steps.
    destruct (fam_synced fam) eqn:Es; w_steps; rewrite set_file_map_id.
    { by eapply syncing_skip. }
    unfold sync_all_file. rewrite (fo_file _ _ _ _ Hfam).
    pose proof (sy_inv _ _ _ Hsy) as Hi. simpl negb. cbv match. w_steps. apply wp_atomic; cbn beta; rewrite ?(dk_content _ _ (inv_disk _ _ _ Hi) f Hf).
    + intros [] F o [= <-] Ho. w_steps. apply wp_update_fam. w_steps. exact (syncing_sync dn b w f p fam o Hsy Hf Hk Hp Hn Ho).
    + done.
    + intros e o Hinj Ho. eapply sync_failed_upd; [done|apply Hsy|apply Hsy|done|done|by left].
    + intros o Hinj [Ho|Ho]; (eapply sync_failed_upd; [done|apply Hsy|apply Hsy|done|exact Ho|]); eauto.
Qed.

(** The whole of [sync_all]. *)
Record synced_all (w : World) : Prop := {
  sa_inv : Inv w L claimed;
  sa_marked f : f ∈ L → marked_synced w f;
  sa_durable f : f ∈ L → ¬ marked_synced w0 f → durable w f ∧ durable_dir w;
  sa_passes : passes (os_fs (w_os w0)) (os_fs (w_os w)) [L];
  sa_faults : os_faults (w_os w) `suffix_of` os_faults (w_os w0);
}.

Lemma wp_sync_all : wp sync_all (λ _ w, synced_all w) (λ _ w, sync_failed w) sync_failed w0.
Proof.
  assert (∀ f, f ∈ L → lf_location f ∈ (cm_iter (fams (w_fm w0))).*1) as Hall.
  { intros f Hf. destruct (fs_fam _ _ _ (inv_fams _ _ _ Hi0) f Hf) as (fam & (p & Hk & _)%fam_at_Some & _).
    apply list_elem_of_fmap. exists (lf_location f, p). split; [done|]. by apply cm_iter_elem. }
  unfold sync_all. w_steps. eapply wp_mono; [by apply wp_file_map_sync_all|..]; [|done|done].
  intros b w1 [Hi1 Em Hl Hd Hdu Hf Hps]. apply wp_when; intros Eb; w_steps.
  - unfold sync_all_dir. w_steps. apply wp_atomic; [..|done| |].
    + intros [] F o [= <-] Ho. pose proof (os_upd_fs _ _ _ Ho) as Efs. split.
      * by (eapply inv_sync; [..|exact Ho]).
      * intros f Hf'. apply Hd; auto.
      * intros f Hf' Hns. unfold durable, durable_dir. simpl. rewrite Efs. simpl. split; [|done].
        by apply Hdu; auto.
      * simpl. rewrite Efs. eapply passes_mono; [eapply passes_trans; [exact Hps|]|];
          [apply passes_dir_synced, (inv_disk _ _ _ Hi1)|set_solver].
      * etrans; [apply Ho|done].
    + intros e o Hinj Ho. eapply sync_failed_upd; eauto.
    + intros o Hinj [Ho|Ho]; eapply sync_failed_upd; eauto.
  - split; [done|by auto| |done|done]. intros f Hf' Hns. destruct (Hdu f Hf' (Hall f Hf') Hns). congruence.
Qed.
End sync.

(** ** After [open] *)

Section reopened.
Context `{Deps, !DepsLaws}.

(** Every file counts as synced. *)
Definition all_synced (m : FileMap) : Prop := ∀ p fam, arcs m !! p = Some fam → fam_synced fam = true.

Lemma on_error_ok_inv {S A} (m : M S A) cleanup a s s' : on_error m cleanup s = (Ok a, s') → m s = (Ok a, s').
Proof.
  unfold on_error, try, mbind, M_bind. destruct (m s) as [[b|e| |] s1] eqn:E; try done.
  simpl. destruct (cleanup s1) as [[?|?| |] ?]; done.
Qed.

Lemma recover_file_synced st entry o st' o' :
  recover_file st entry o = (Ok st', o') → all_synced (rec_fams st) → all_synced (rec_fams st').
Proof.
  destruct entry as [md name]. intros Hrun Hall. unfold recover_file in Hrun.
  apply bind_ok_inv in Hrun as (file & o1 & _ & Hrun). apply bind_ok_inv in Hrun as ([tr z] & o2 & _ & Hrun).
  apply bind_ok_inv in Hrun as (pt & o3 & _ & Hrun). apply bind_ok_inv in Hrun as (fl & o4 & _ & Hrun).
  apply bind_ok_inv in Hrun as (loc & o5 & _ & Hrun). apply bind_ok_inv in Hrun as ([] & o6 & _ & Hrun).
  injection Hrun as <- <-. intros p fam. simpl. rewrite lookup_insert_Some.
  intros [[_ <-]|[_ Hp]]; [done|by apply (Hall p)].
Qed.

Lemma recover_files_synced files st o st' o' :
  recover_files st files o = (Ok st', o') → all_synced (rec_fams st) → all_synced (rec_fams st').
Proof.
  revert st o. induction files as [|entry files IH]; intros st o Hrun Hall; [by injection Hrun as <- <-|].
  apply bind_ok_inv in Hrun as (st1 & o1 & Hfile%on_error_ok_inv & Hrun).
  by eapply IH, recover_file_synced.
Qed.

Lemma recover_locations_synced entries acc o acc' o' :
  foldM recover_location acc entries o = (Ok acc', o') → all_synced acc.1.1 → all_synced acc'.1.1.
Proof.
  revert acc o. induction entries as [|[oid loc] entries IH]; intros [[m t] mx] o Hrun Hall; [by injection Hrun as <- <-|].
  apply bind_ok_inv in Hrun as (acc1 & o1 & Hone & Hrun). eapply IH; [exact Hrun|].
  unfold recover_location in Hone. apply bind_ok_inv in Hone as ([k p] & o2 & _ & Hone).
  apply bind_ok_inv in Hone as (fam & o3 & Hfam & Hone). injection Hone as <- <-. intros q fam'. simpl.
  rewrite lookup_insert_Some. intros [[_ <-]|[_ Hq]]; [|by apply (Hall q)].
  unfold unwrap in Hfam. destruct (arcs m !! p) as [fam0|] eqn:Hp; [|done]. injection Hfam as <- <-.
  exact (Hall p fam0 Hp).
Qed.

Lemma open_synced config o m o' : open config o = (Ok m, o') → all_synced (file_map m).
Proof.
  unfold open. destruct (validate config) as [[]|e]; [|done]. intros Hrun.
  apply bind_ok_inv in Hrun as ([] & o1 & _ & Hrun). apply bind_ok_inv in Hrun as ([] & o2 & _ & Hrun).
  apply bind_ok_inv in Hrun as (files & o3 & _ & Hrun). apply bind_ok_inv in Hrun as (st & o4 & Hst & Hrun).
  apply bind_ok_inv in Hrun as ([[m1 t] mx] & o5 & Hloc & Hrun). injection Hrun as <- <-. simpl.
  apply (recover_locations_synced _ _ _ _ _ Hloc), (recover_files_synced _ _ _ _ _ Hst).
  intros p fam. simpl. by rewrite lookup_empty.
Qed.

(** Nothing is left to do for a file map all whose files count as synced. *)
Lemma file_map_sync_idle w :
  fm_wf (w_fm w) → all_synced (w_fm w) → file_map_sync_all w = (Ok false, w).
Proof.
  intros Hm Hall.
  destruct (wp_no_faults file_map_sync_all (λ b w', b = false ∧ w' = w) (λ _ _, False) (λ _, False) w)
    as (b & w' & E & -> & ->); [|by intros ? ?|by intros ?|done].
  unfold file_map_sync_all. w_steps.
  eapply wp_mono; [apply (wp_foldM _ (λ _ b w', b = false ∧ w' = w) (λ _ _, False) (λ _, False))|..]; [done|..|done|done|done].
  intros dn [k p] rest b w' E [-> ->].
  assert (cm_get (fams (w_fm w)) k = Some p) as Hk by (apply cm_iter_elem; rewrite E; set_solver).
  destruct (fw_ptr _ Hm k p Hk) as (fam & Hp & _).
  w_steps. eapply wp_deref; [done|]. w_steps. rewrite (Hall p fam Hp). w_steps. by rewrite set_file_map_id.
Qed.
End reopened.

Section theorem.
Context `{Deps, !DepsLaws}.

(** C37. Recovery takes every file it finds for synced: right after [open], whatever the process
    before has left unsynced, [sync_all] does nothing at all. It returns [Ok] without a
    system call and so leaves the machine in the state in which it was, with whatever a
    power loss may take away. *)
Theorem sync_all_after_open config faults thread o L w o' :
  disk_ok (os_fs o) L → open_store config (new_process faults thread o) = (Ok w, o') →
  sync_all w = (Ok (), w).
Proof.
  intros Hd Hopen. unfold open_store in Hopen. set (o1 := new_process faults thread o) in *.
  destruct (validate config) as [[]|e] eqn:Hv; [|by unfold open in Hopen; rewrite Hv in Hopen].
  assert (wp (open config) (λ m o', opened L o1 m o') (λ _ _, True) (λ _, True) o1) as Hw
    by (apply (wp_open L o1); done).
  unfold wp in Hw. destruct (open config o1) as [[m| | |] o2] eqn:Ho; simplify_eq.
  destruct Hw as (Hi & _ & _). unfold sync_all.
  by rewrite (bind_ok (file_map_sync_idle _ (fs_wf _ _ _ (inv_fams _ _ _ Hi)) (open_synced _ _ _ _ Ho))).
Qed.

(** After [sync_all] every file of the store is marked as synced; those that were not
    have been synced with their whole content, and then the directory too. The store does
    not change; [sync_all] never panics and fails only when a system call does. *)
Theorem sync_all_syncs w L claimed r w' :
  Inv w L claimed → sync_all w = (r, w') →
  match r with
  | Ok _ =>
      Inv w' L claimed ∧ (∀ f, f ∈ L → marked_synced w' f) ∧
      ∀ f, f ∈ L → ¬ marked_synced w f → durable w' f ∧ durable_dir w'
  | Err _ => injected (w_os w) ∧ Inv w' L claimed
  | Panic => False
  | Crash => injected (w_os w)
  end.
Proof.
  intros Hi Hrun. pose proof (wp_run _ _ _ _ _ _ _ (wp_sync_all w L claimed Hi) Hrun) as Hr.
  destruct r as [[]| | |]; [|by destruct Hr as (? & ? & _)|done|by destruct Hr].
  destruct Hr. split_and!; done.
Qed.

(** C22. If a file has not been synced before, a successful [sync_all] makes the whole store
    durable: after a power loss at any later moment without further operations the disk
    holds exactly its files. *)
Theorem sync_all_durable w L claimed P w' F :
  Inv w L claimed → lasting P (os_fs (w_os w)) → (∃ f, f ∈ L ∧ ¬ marked_synced w f) →
  sync_all w = (Ok (), w') → power_loss (os_fs (w_os w')) F → settled F L.
Proof.
  intros Hi HP (f & Hf & Hns) Hrun Hpl.
  pose proof (wp_run _ _ _ _ _ _ _ (wp_sync_all w L claimed Hi) Hrun) as [Hi' _ Hdu Hps _].
  destruct (Hdu f Hf Hns) as [_ [Ed Ej]].
  assert (lasting (λ L', P L' ∨ L' = L) (os_fs (w_os w'))) as Hl.
  { apply Hps; [by eapply lasting_mono; [|by left]|]. apply Forall_singleton. by right. }
  destruct (lasting_power_loss (.= L) (os_fs (w_os w')) F) as (L' & -> & Hset & _); [|done|done].
  eapply lasting_clean; [done|done|apply Hi'|done].
Qed.
End theorem.
