(* ===== verification/Refinement.v ===== *)
(** Refinement: the theorems about the store as a whole. *)
From S2P Require Import Prelude Effects Os Deps Locations LocationTable Config Metadata.
From S2P Require Import ZstdDict Storage State FileMap WritePath ReadPath Recovery Store Spec.
From S2P Require Import FileMapSpec Layout PowerLoss Invariant ReadSpec WriteSpec InstallSpec BatchSpec.
From S2P Require Import ShardSpec RecoverySpec StoreSpec Gc RewriteSpec MaintSpec.

Section lemmas.
Context `{Deps, !DepsLaws}.
Implicit Types L : list LogFile.

(** What a reader sees, object by object. *)
Definition reads (w : World) (m : AbsStore) : Prop :=
  ∀ oid, (read oid w).1 = Ok (spec_read oid m).

Lemma reads_view w L claimed :
  Inv w L claimed → os_faults (w_os w) = [] → reads w (view L).
Proof.
  intros Hi Hf oid. pose proof (wp_read w L claimed oid Hi) as Hr. unfold wp in Hr.
  destruct (read oid w) as [[r| | |] w']; simpl.
  - destruct Hr as (-> & _). f_equal. symmetry. apply view_lookup.
  - by destruct Hr as [[] _].
  - done.
  - by destruct Hr as [[] _].
Qed.

(** A new process opens whatever the previous one has left. *)
Lemma reopen_passes config thread o L :
  disk_ok (os_fs o) L → validate config = inl () →
  ∃ w o', open_store config (new_process [] thread o) = (Ok w, o') ∧
    Inv w L unclaimed ∧ os_faults (w_os w) = [] ∧ passes (os_fs o) (os_fs (w_os w)) [L].
Proof.
  intros Hd Hv. set (o1 := new_process [] thread o).
  assert (wp (open config) (λ m o', opened L o1 m o')
            (λ _ _, injected o1) (λ _, injected o1) o1) as Hw.
  { apply (wp_open L o1); auto; done. }
  unfold wp in Hw. unfold open_store. destruct (open config o1) as [[m| | |] o']; try done; try by destruct Hw.
  destruct Hw as (Hi & Ho & _). exists (MkWorld o' m), o'. split_and!; [done|done| |].
  - pose proof (og_faults _ _ _ Ho) as Hs. by apply suffix_nil_inv in Hs.
  - apply Ho.
Qed.

Lemma reopen config thread o L :
  disk_ok (os_fs o) L → validate config = inl () →
  ∃ w o', open_store config (new_process [] thread o) = (Ok w, o') ∧
    Inv w L unclaimed ∧ os_faults (w_os w) = [].
Proof.
  intros Hd Hv. destruct (reopen_passes config thread o L Hd Hv) as (w & o' & ? & ? & ? & _). eauto.
Qed.
End lemmas.

(** ** Programs of operations *)

Section programs.
Context `{Deps, !DepsLaws}.

(** The operations of the crate's model test: write a batch, read an object, defragment,
    close the store and open it again. *)
Inductive op :=
  | WriteBatch (batch : list (Z * option bytes))
  | Read (object_id : Z)
  | Maintain
  | Restart.

Inductive event :=
  | Done
  | Value (v : option bytes).

(** [None]: the operation has failed, or the process is gone. *)
Definition run_op (config : Config) (w : World) (o : op) : option (event * World) :=
  match o with
  | WriteBatch batch =>
      match write_batch config batch w with
      | (Ok _, w') => Some (Done, w')
      | _ => None
      end
  | Read object_id =>
      match read object_id w with
      | (Ok v, w') => Some (Value v, w')
      | _ => None
      end
  | Maintain =>
      match maintenance config w with
      | (Ok _, w') => Some (Done, w')
      | _ => None
      end
  | Restart =>
      match drop_store w with
      | (Ok _, w') =>
          match open_store config (w_os w') with
          | (Ok w'', _) => Some (Done, w'')
          | _ => None
          end
      | _ => None
      end
  end.

Fixpoint run (config : Config) (w : World) (ops : list op) : option (list event * World) :=
  match ops with
  | [] => Some ([], w)
  | o :: ops =>
      '(e, w) ← run_op config w o;
      '(es, w) ← run config w ops;
      Some (e :: es, w)
  end.

Definition spec_op (m : AbsStore) (o : op) : event * AbsStore :=
  match o with
  | WriteBatch batch => (Done, spec_write batch m)
  | Read object_id => (Value (spec_read object_id m), m)
  | Maintain | Restart => (Done, m)
  end.

Fixpoint spec_run (m : AbsStore) (ops : list op) : list event :=
  match ops with
  | [] => []
  | o :: ops => let '(e, m) := spec_op m o in e :: spec_run m ops
  end.

(** A store [maintenance] can rewrite: there is room, and no object is too large for it. *)
Definition maintain_fits (config : Config) (w : World) : Prop :=
  ∃ L, Inv w L unclaimed ∧ maintenance_fits w L ∧ ∀ e, ¬ gc_refuses config L e.

(** Every batch fits when it is written, every store when it is defragmented. *)
Definition op_fits (config : Config) (w : World) (o : op) : Prop :=
  match o with
  | WriteBatch batch => batch_fits w batch ∧ ¬ batch_oversize config batch
  | Maintain => maintain_fits config w
  | _ => True
  end.

Fixpoint run_fits (config : Config) (w : World) (ops : list op) : Prop :=
  match ops with
  | [] => True
  | o :: ops =>
      op_fits config w o ∧
      match run_op config w o with
      | Some (_, w') => run_fits config w' ops
      | None => True
      end
  end.
End programs.

Section steps.
Context `{Deps, !DepsLaws}.

(** What a store reads determines its objects. *)
Lemma reads_same w m m' : reads w m → reads w m' → m = m'.
Proof.
  intros Hm Hm'. apply map_eq. intros oid. specialize (Hm oid). rewrite Hm' in Hm. by injection Hm.
Qed.

Lemma run_op_refines config w L o :
  validate config = inl () → Config_typed config → Inv w L unclaimed → os_faults (w_os w) = [] → op_fits config w o →
  ∃ e w1 L1, run_op config w o = Some (e, w1) ∧ spec_op (view L) o = (e, view L1) ∧
    Inv w1 L1 unclaimed ∧ os_faults (w_os w1) = [].
Proof.
  intros Hv Ht Hi Hf Hfit. assert (¬ injected (w_os w)) as Hinj by by intros [].
  destruct o as [batch|oid| |]; simpl in *.
  - destruct Hfit as [Hfit Hsize].
    destruct (wp_no_faults _ _ _ _ _ (wp_write_batch config w L batch Hi Hfit))
      as ([] & w1 & -> & L1 & Hi1 & Hview%view_write & _ & _ & Hs); [naive_solver..|].
    rewrite Hf in Hs. apply suffix_nil_inv in Hs. exists Done, w1, L1. by rewrite Hview.
  - destruct (wp_no_faults _ _ _ _ _ (wp_read w L unclaimed oid Hi))
      as (v & w1 & -> & -> & Hi1 & _ & _ & _ & Hs); [naive_solver..|].
    rewrite Hf in Hs. apply suffix_nil_inv in Hs. exists (Value (spec_read oid (view L))), w1, L.
    unfold spec_read. by rewrite <- view_lookup.
  - destruct Hfit as (L0 & Hi0 & Hfit & Hno).
    destruct (wp_no_faults _ _ _ _ _ (wp_maintenance config Ht w L0 Hi0 Hfit))
      as (n & w1 & -> & [_ Hinv _ _ Hs]); [naive_solver..|].
    destruct Hinv as [(L1 & Hi1 & Ev & _)|?]; [|done].
    rewrite Hf in Hs. apply suffix_nil_inv in Hs. exists Done, w1, L1. split_and!; try done.
    f_equal. transitivity (view L0).
    + apply (reads_same w); by eapply reads_view.
    + unfold view. by rewrite Ev.
  - destruct (wp_no_faults _ _ _ _ _ (wp_drop_store w L unclaimed Hi))
      as ([] & w1 & -> & L1 & Hd & Hview & Hc & Hs & _); [naive_solver..|].
    rewrite Hf in Hs. apply suffix_nil_inv in Hs.
    assert (wp (open config) (λ m o', opened L1 (w_os w1) m o') (λ _ _, injected (w_os w1))
              (λ _, injected (w_os w1)) (w_os w1)) as Hw.
    { apply (wp_open L1 (w_os w1)); auto. rewrite Hc. apply (mo_tmp _ _ _ (inv_mem _ _ _ Hi)). }
    unfold wp in Hw. unfold open_store.
    destruct (open config (w_os w1)) as [[m| | |] o2]; try (by destruct Hw); try done.
    destruct Hw as (Hi2 & Ho & _). exists Done, (MkWorld o2 m), L1. rewrite Hview.
    split_and!; [done..|]. pose proof (og_faults _ _ _ Ho) as Hs'. rewrite Hs in Hs'. by apply suffix_nil_inv in Hs'.
Qed.
End steps.

(** * Theorems *)

Section theorems.
Context `{Deps, !DepsLaws}.
Implicit Types L : list LogFile.

(** C1. A batch is written entirely or not at all, whatever system call fails and wherever
    the process is killed. [write_batch] never panics; it fails only when a system call
    does or an object is too large. After [Ok] the store holds the old contents updated
    by the batch; after any outcome a new process opens the disk and reads either the
    contents before the batch or the contents after it, and those after it when the
    outcome was [Ok]. *)
Theorem write_batch_atomic config w L batch r w' :
  Inv w L unclaimed → batch_fits w batch → validate config = inl () →
  write_batch config batch w = (r, w') →
  match r with
  | Ok _ => ∃ L', Inv w' L' unclaimed ∧ view L' = spec_write batch (view L)
  | Err e => injected (w_os w) ∨ e = Unsupported ∧ batch_oversize config batch
  | Panic => False
  | Crash => injected (w_os w)
  end ∧
  ∀ thread, ∃ w'' o'' m,
    open_store config (new_process [] thread (w_os w')) = (Ok w'', o'') ∧ reads w'' m ∧
    (m = view L ∨ m = spec_write batch (view L)) ∧
    (r = Ok () → m = spec_write batch (view L)).
Proof.
  intros Hi Hfit Hv Hrun.
  pose proof (wp_run _ _ _ _ _ _ _ (wp_write_batch config w L batch Hi Hfit) Hrun) as Hw.
  assert (∀ L', disk_ok (os_fs (w_os w')) L' → ∀ thread, ∃ w'' o'',
    open_store config (new_process [] thread (w_os w')) = (Ok w'', o'') ∧ reads w'' (view L')) as Hopen.
  { intros L' Hd thread. destruct (reopen config thread (w_os w') L' Hd Hv) as (w'' & o'' & ? & ? & ?).
    exists w'', o''. split; [done|]. by eapply reads_view. }
  destruct r as [[]|e| |]; [|..|done|].
  - destruct Hw as (L' & Hi' & Hview%view_write & _). split; [eauto|]. intros thread.
    destruct (Hopen L' (inv_disk _ _ _ Hi') thread) as (w'' & o'' & ? & ?).
    exists w'', o'', (view L'). auto.
  - destruct Hw as [(L' & Hd & Hview) ?]. split; [done|]. intros thread.
    destruct (Hopen L' Hd thread) as (w'' & o'' & ? & ?). exists w'', o'', (view L').
    split_and!; [done..|]. by intros [=].
  - destruct Hw as [(L' & Hd & Hview) ?]. split; [done|]. intros thread.
    destruct (Hopen L' Hd thread) as (w'' & o'' & ? & ?). exists w'', o'', (view L').
    split_and!; [done..|]. by intros [=].
Qed.

(** C7. Opening a directory that describes a store rebuilds it: the tables agree with the
    files, the temporary files are deleted, and readers see its contents. [open] never
    panics, and fails only when a system call does; a failure changes nothing but that
    files of the store may be missing afterwards. *)
Theorem open_recovers config o L r o' :
  disk_ok (os_fs o) L → 0 ≤ os_tmp_counter o → validate config = inl () →
  open_store config o = (r, o') →
  match r with
  | Ok w => Inv w L unclaimed ∧ w_os w = o' ∧
            (∀ n, fs_dir (os_fs o') !! tmp_file_name n = None) ∧
            (os_faults o = [] → reads w (view L))
  | Err _ | Crash => injected o ∧ ∃ L', L' `sublist_of` L ∧ disk_ok (os_fs o') L'
  | Panic => False
  end.
Proof.
  intros Hd Hc Hv Hrun. unfold open_store in Hrun.
  assert (wp (open config) (λ m o', opened L o m o') (λ _ o', injected o ∧ damaged L (os_fs o'))
            (λ o', injected o ∧ damaged L (os_fs o')) o) as Hw by (apply (wp_open L o); auto).
  unfold wp in Hw. destruct (open config o) as [[m| | |] o1]; simplify_eq; try done.
  destruct Hw as (Hi & Ho & Htmp). split_and!; [done..|]. intros Hf.
  apply (reads_view _ L unclaimed); [done|]. pose proof (og_faults _ _ _ Ho) as Hs. rewrite Hf in Hs.
  by apply suffix_nil_inv in Hs.
Qed.

(** C5. [maintenance] changes no object. It never panics; it fails only when a system call
    does, or when it meets an object at or above the size limit. After [Ok] without
    faults the store holds the same contents in files none of which is empty; after any
    outcome a new process opens the disk and reads the same contents as before. *)
Theorem maintenance_preserves config w L r w' :
  Inv w L unclaimed → maintenance_fits w L → validate config = inl () → Config_typed config →
  maintenance config w = (r, w') →
  match r with
  | Ok _ => os_faults (w_os w) = [] →
      ∃ L', Inv w' L' unclaimed ∧ view L' = view L ∧ ∀ f, f ∈ L' → live (locs L') f ≠ 0
  | Err e => injected (w_os w) ∨ gc_refuses config L e
  | Panic => False
  | Crash => injected (w_os w)
  end ∧
  ∀ thread, ∃ w'' o'',
    open_store config (new_process [] thread (w_os w')) = (Ok w'', o'') ∧ reads w'' (view L).
Proof.
  intros Hi Hfit Hv Ht Hrun.
  pose proof (wp_run _ _ _ _ _ _ _ (wp_maintenance config Ht w L Hi Hfit) Hrun) as Hw.
  assert (same_on_disk (os_fs (w_os w)) L (os_fs (w_os w')) → ∀ thread, ∃ w'' o'',
    open_store config (new_process [] thread (w_os w')) = (Ok w'', o'') ∧ reads w'' (view L)) as Hopen.
  { intros [(L' & Hd & Ev) _] thread. destruct (reopen config thread (w_os w') L' Hd Hv) as (w'' & o'' & ? & ? & ?).
    exists w'', o''. split; [done|]. assert (view L = view L') as -> by (unfold view; by rewrite Ev).
    by eapply reads_view. }
  destruct r as [n|e| |]; [|..|done|]; (split; [|by apply Hopen, Hw]).
  - intros Hf. destruct (md_inv _ _ _ _ _ Hw) as [(L' & ? & Ev & ? & _)|?]; [|done].
    exists L'. split_and!; [done|by unfold view; rewrite Ev|done].
  - apply Hw.
  - apply Hw.
Qed.

(** C2. The store refines the finite map: any program of writes, reads, defragmentations and
    restarts that fits runs to its end, and every event is the one of the abstract store. *)
Theorem store_refines_map config ops w L :
  validate config = inl () → Config_typed config → Inv w L unclaimed → os_faults (w_os w) = [] →
  run_fits config w ops →
  ∃ w', run config w ops = Some (spec_run (view L) ops, w').
Proof.
  intros Hv Ht. revert w L. induction ops as [|o ops IH]; intros w L Hi Hf Hfits; [by exists w|].
  destruct Hfits as [Hop Hfits].
  assert (∃ e w1 L1, run_op config w o = Some (e, w1) ∧ spec_op (view L) o = (e, view L1) ∧
    Inv w1 L1 unclaimed ∧ os_faults (w_os w1) = []) as (e & w1 & L1 & E1 & E2 & Hi1 & Hf1).
  { by apply run_op_refines. }
  rewrite E1 in Hfits. destruct (IH w1 L1 Hi1 Hf1 Hfits) as [w' E'].
  exists w'. cbn [run spec_run]. rewrite E1. simpl. rewrite E'. simpl. by rewrite E2.
Qed.
End theorems.
