(* ===== verification/Durability.v ===== *)
(** Durability: what survives a power loss. With [fsync_each_batch] a batch whose write has
    returned is found by whoever opens the store afterwards; without it, and for a batch
    whose write has not returned, all of it or nothing. *)
From S2P Require Import Prelude Effects Os Deps Locations Config Metadata Storage State FileMap.
From S2P Require Import WritePath ReadPath Recovery Store Spec FileMapSpec Layout Invariant PowerLoss.
From S2P Require Import WriteSpec StoreSpec Refinement.

Section durability.
Context `{Deps, !DepsLaws}.
Implicit Types L : list LogFile.

(** Every power loss leaves the objects [m]. *)
Definition durably (w : World) (m : AbsStore) : Prop := lasting (λ L, view L = m) (os_fs (w_os w)).

Lemma settled_opens config thread o F L :
  settled F L → validate config = inl () →
  ∃ w o', open_store config (new_process [] thread (set_fs F o)) = (Ok w, o') ∧ reads w (view L).
Proof.
  intros [Hd _] Hv. destruct (reopen config thread (set_fs F o) L Hd Hv) as (w & o' & E & Hi & Hf).
  exists w, o'. split; [done|]. by eapply reads_view.
Qed.

(** The stores the disk may come back as during and after a write. *)
Lemma written_durably config w L batch r w' :
  Inv w L unclaimed → batch_fits w batch → durably w (view L) → write_batch config batch w = (r, w') →
  lasting (λ L', view L' = view L ∨ view L' = spec_write batch (view L)) (os_fs (w_os w')) ∧
  (fsync_each_batch config = true → r = Ok () → durably w' (spec_write batch (view L))).
Proof.
  intros Hi Hfit Hl Hrun. set (P := λ L', view L' = view L ∨ view L' = spec_write batch (view L)).
  pose proof (wp_run _ _ _ _ _ _ _ (wp_write_batch_went config w L batch Hi Hfit) Hrun) as Hw.
  assert (∀ L' F, passes (os_fs (w_os w)) F [L; L'] → P L' → lasting P F) as Hgo.
  { intros L' F Hps HP. apply Hps; [eapply lasting_mono; [exact Hl|intros ? ?; by left]|].
    apply Forall_cons. split; [by left|by apply Forall_singleton]. }
  assert (∀ F, went_old_or_new w L batch F → lasting P F) as Hwent.
  { intros F (L' & [_ Hps] & Hv). by eapply Hgo. }
  assert (r ≠ Ok () → went_old_or_new w L batch (os_fs (w_os w'))) as Hnot.
  { destruct r as [[]| | |]; [done|intros _; apply Hw|done|intros _; apply Hw]. }
  destruct (decide (r = Ok ())) as [->|Hr]; [|split; [by apply Hwent, Hnot|done]].
  destruct Hw as (L' & [Hi' Hv%view_write _ _ _ Hps Hj]).
  assert (lasting P (os_fs (w_os w'))) as Hl' by (eapply Hgo; [done|by right]).
  split; [done|]. intros Hfs _. eapply lasting_clean; [exact Hl'|by apply Hj|apply Hi'|done].
Qed.

(** * Theorem *)

(** C4. A batch is atomic under power losses, too: whatever the outcome of the write, and
    wherever it was interrupted, the next process that opens the store reads the contents
    before the batch or those after it; with [fsync_each_batch], those after it when the
    write has returned [Ok]. *)
Theorem write_batch_durable config w L batch r w' F :
  Inv w L unclaimed → batch_fits w batch → validate config = inl () → durably w (view L) →
  write_batch config batch w = (r, w') → power_loss (os_fs (w_os w')) F →
  ∀ thread, ∃ w'' o'' m,
    open_store config (new_process [] thread (set_fs F (w_os w'))) = (Ok w'', o'') ∧ reads w'' m ∧
    (m = view L ∨ m = spec_write batch (view L)) ∧
    (fsync_each_batch config = true → r = Ok () → m = spec_write batch (view L)).
Proof.
  intros Hi Hfit Hv Hl Hrun Hpl thread.
  destruct (written_durably config w L batch r w' Hi Hfit Hl Hrun) as [Hany Hok].
  assert (∀ P, lasting P (os_fs (w_os w')) → ∃ L', P L' ∧ settled F L') as Hfind.
  { intros P HP. destruct (lasting_power_loss _ _ _ HP Hpl) as (L' & ? & ? & _). by exists L'. }
  assert (∀ L', settled F L' → ∃ w'' o'',
    open_store config (new_process [] thread (set_fs F (w_os w'))) = (Ok w'', o'') ∧ reads w'' (view L')) as Hopen.
  { intros L' Hset. by apply settled_opens. }
  destruct (decide (fsync_each_batch config = true)) as [Hfs|Hfs].
  - assert ((r = Ok () ∧ durably w' (spec_write batch (view L))) ∨ r ≠ Ok ()) as [[-> Hd]|Hr].
    { destruct r as [[]| | |]; [left; auto|right; by intros [=]..]. }
    + destruct (Hfind _ Hd) as (L' & Ev & (w'' & o'' & E & Hr)%Hopen). exists w'', o'', (view L'). auto.
    + destruct (Hfind _ Hany) as (L' & Ev & (w'' & o'' & E & Hr')%Hopen). exists w'', o'', (view L').
      split_and!; [done..|]. by intros _ ?.
  - destruct (Hfind _ Hany) as (L' & Ev & (w'' & o'' & E & Hr')%Hopen). exists w'', o'', (view L'). by split_and!.
Qed.
End durability.
