(* ===== verification/Queries.v ===== *)
(** Queries: what [free_object_ids], [allocated_object_ids] and [stats] report about a
    store. *)
From S2P Require Import Prelude Effects Os Deps Locations LocationTable Config Metadata.
From S2P Require Import ZstdDict Storage State FileMap WritePath ReadPath Recovery Store.
From S2P Require Import FileMapSpec Layout Invariant CountSpec.

Section lemmas.
Context `{Deps, !DepsLaws}.
Implicit Types L : list LogFile.

Lemma object_ids_elem max keep oid :
  oid ∈ object_ids max keep ↔ 0 ≤ oid ≤ max ∧ keep oid = true.
Proof. unfold object_ids. rewrite list_elem_of_filter, elem_of_seqZ. intuition lia. Qed.

(** ** The loop of [stats] *)

Lemma stats_loop m tbl claimed es fs n a b c :
  Forall2 (entry_for m (fam_ok tbl claimed)) es fs →
  foldM stats_step (n, wrap64 a, wrap64 b, wrap64 c) es m
  = (Ok (n + len fs, wrap64 (a + total (λ f, file_size (lf_md f)) fs),
         wrap64 (b + total (λ f, present_objects (lf_md f)) fs), wrap64 (c + total (live tbl) fs)), m).
Proof.
  intros HF. revert n a b c. induction HF as [|[k p] f es fs [_ (fam & Hp & Hfam)] _ IH]; intros n a b c.
  - simpl. by rewrite !Z.add_0_r.
  - assert (stats_step (n, wrap64 a, wrap64 b, wrap64 c) (k, p) m
      = (Ok (n + 1, wrap64 (wrap64 a + file_size (lf_md f)),
             wrap64 (wrap64 b + present_objects (lf_md f)), wrap64 (wrap64 c + live tbl f)), m)) as Estep.
    { unfold stats_step, deref, unwrap, gets, mbind, M_bind, mret, M_ret. simpl in Hp. rewrite Hp.
      by rewrite (fo_metadata _ _ _ _ Hfam), (fo_live _ _ _ _ Hfam). }
    cbn [foldM]. unfold mbind, M_bind. rewrite Estep.
    assert (∀ x y, wrap64 (wrap64 x + y) = wrap64 (x + y)) as Hw.
    { intros x y. unfold wrap64. apply Zplus_mod_idemp_l. }
    rewrite !Hw, IH, <- !Z.add_assoc.
    replace (1 + len fs) with (len (f :: fs)) by (rewrite length_cons; lia). done.
Qed.

(** The sums over the files of a store. *)
Lemma file_map_stats_sums w L claimed :
  Inv w L claimed →
  file_map_stats (w_fm w)
  = (Ok (len L, wrap64 (total (λ f, len (lf_content f)) L), wrap64 (total (λ f, present_objects (lf_md f)) L),
         wrap64 (Z.of_nat (size (vals L)))), w_fm w).
Proof.
  intros Hi. pose proof (inv_sorted _ _ _ Hi) as Hs. pose proof (inv_wf _ _ _ Hi) as Hwf.
  destruct (iter_files (w_fm w) L _ Hs Hwf (inv_fams _ _ _ Hi)) as (fs & Hperm & HF).
  change (file_map_stats (w_fm w))
    with (foldM stats_step (0, wrap64 0, wrap64 0, wrap64 0) (cm_iter (fams (w_fm w))) (w_fm w)).
  rewrite (stats_loop (w_fm w) _ _ _ _ 0 0 0 0 HF).
  assert (total (live (locs L)) fs = Z.of_nat (size (vals L))) as ->.
  { rewrite (total_perm _ _ _ Hperm), (live_sum L), live_in_all by (done || by apply sorted_nodup).
    f_equal. rewrite <- !size_dom. f_equal. apply set_eq. intros oid.
    rewrite !elem_of_dom. by apply locs_vals_dom. }
  rewrite !(total_perm _ _ _ Hperm), (Permutation_length Hperm). simpl.
  rewrite (total_ext _ (λ f, len (lf_content f))); [done|]. intros f Hf.
  apply (wf_size f (proj1 (Forall_forall _ _) Hwf f Hf)).
Qed.
End lemmas.

Section theorems.
Context `{Deps, !DepsLaws}.
Implicit Types L : list LogFile.

(** Some file of the store has an entry for the object, be it a deletion. *)
Definition mentioned (L : list LogFile) (oid : Z) : Prop := is_Some (vals L !! oid).

(** C33. [free_object_ids] lists exactly the ids up to the greatest one ever stored that no
    file mentions, and [allocated_object_ids] exactly the others. In particular a
    deleted object is listed as allocated until its deletion is forgotten. *)
Theorem object_ids_partition w L claimed :
  Inv w L claimed →
  let max := max_object_id (w_marble w) in
  ∃ free allocated,
    free_object_ids w = (Ok (wrap64 (max + 1), free), w) ∧
    allocated_object_ids w = (Ok allocated, w) ∧
    (∀ oid, oid ∈ free ↔ 0 ≤ oid ≤ max ∧ ¬ mentioned L oid) ∧
    (∀ oid, oid ∈ allocated ↔ mentioned L oid).
Proof.
  intros Hi max. do 2 eexists. do 2 (split; [reflexivity|]). fold max.
  assert (∀ oid, load (w_table w) oid = None ↔ vals L !! oid = None) as Hload.
  { intros oid. rewrite (inv_load _ _ _ _ Hi), !eq_None_not_Some, locs_vals_dom; [done|].
    by eapply inv_wf. }
  unfold mentioned. split; intros oid; rewrite object_ids_elem; rewrite <- ?eq_None_not_Some.
  - by rewrite bool_decide_eq_true, Hload.
  - rewrite bool_decide_eq_true, Hload, <- not_eq_None_Some. split; [tauto|]. intros Hs. split; [|done].
    apply not_eq_None_Some in Hs. rewrite <- locs_vals_dom in Hs by by eapply inv_wf.
    pose proof (mo_max _ _ _ (inv_mem _ _ _ Hi) oid Hs). destruct Hs as [loc Hloc].
    apply locs_oid_u64 in Hloc; [|by eapply inv_wf]. subst max. u64_lia.
Qed.

End theorems.
