(* ===== verification/InterleavingSpec.v ===== *)
(** InterleavingSpec: any number of writers, whose steps come in any order.

    The invariant is the accounting of the file map: the live count of a file is the number
    of table entries in its extent plus what the writers still owe it. Every step keeps it,
    no assertion fails, neither those of the file map nor those of the debug history, and
    every execution comes to an end, where the counts are exact. Steps 3 to 6 of
    [write_batch_inner] are the steps of one writer, up to input and output. *)
From S2P Require Import Prelude Effects Os Deps Locations LocationTable Config Metadata.
From S2P Require Import ZstdDict Storage State FileMap WritePath DebugHistory Interleaving.
From S2P Require Import FileMapSpec Layout Invariant InstallSpec.

(** ** Counting *)

(** 1 if the location is in the range, else 0 *)
Definition ind (lo hi l : Z) : Z := if decide (lo ≤ l < hi) then 1 else 0.

(** the entries of a table in a range *)
Definition inhabitants (tbl : gmap Z Z) (lo hi : Z) : Z :=
  map_fold (λ _ l acc, ind lo hi l + acc) 0 tbl.

Definition count_in (lo hi : Z) (l : list (Z * Z)) : Z := foldr (λ e acc, ind lo hi e.2 + acc) 0 l.

Definition sum_over {A} (f : A → Z) (l : list A) : Z := foldr (λ x acc, f x + acc) 0 l.

Lemma ind_range lo hi l : 0 ≤ ind lo hi l ≤ 1.
Proof. unfold ind. case_decide; lia. Qed.

Lemma inhabitants_insert_new tbl lo hi oid l :
  tbl !! oid = None → inhabitants (<[oid := l]> tbl) lo hi = ind lo hi l + inhabitants tbl lo hi.
Proof.
  intros Hn. unfold inhabitants. apply (map_fold_insert_L (λ _ l acc, ind lo hi l + acc)); [|done].
  intros. lia.
Qed.

Lemma inhabitants_insert tbl lo hi oid old l :
  tbl !! oid = Some old →
  inhabitants (<[oid := l]> tbl) lo hi = ind lo hi l + inhabitants tbl lo hi - ind lo hi old.
Proof.
  intros Ho. rewrite <- (insert_delete_id tbl oid old Ho) at 2. rewrite <- insert_delete_eq.
  rewrite !inhabitants_insert_new by apply lookup_delete_eq. lia.
Qed.

Lemma inhabitants_nonneg tbl lo hi : 0 ≤ inhabitants tbl lo hi.
Proof.
  unfold inhabitants. apply (map_fold_weak_ind (λ r _, 0 ≤ r)); [done|].
  intros. pose proof (ind_range lo hi x). lia.
Qed.

(** A range with no inhabitants has no entries. *)
Lemma inhabitants_zero tbl lo hi oid l :
  inhabitants tbl lo hi = 0 → tbl !! oid = Some l → ¬ lo ≤ l < hi.
Proof.
  intros Hz Ho Hin. rewrite <- (insert_delete_id tbl oid l Ho) in Hz.
  rewrite inhabitants_insert_new in Hz by apply lookup_delete_eq.
  pose proof (inhabitants_nonneg (delete oid tbl) lo hi). unfold ind in Hz. rewrite decide_True in Hz by done. lia.
Qed.

Lemma count_in_app lo hi a b : count_in lo hi (a ++ b) = count_in lo hi a + count_in lo hi b.
Proof. unfold count_in. induction a as [|x a IH]; simpl; [done|]. rewrite IH. lia. Qed.

Lemma count_in_cons lo hi x l : count_in lo hi (x :: l) = ind lo hi x.2 + count_in lo hi l.
Proof. done. Qed.

Lemma count_in_nonneg lo hi l : 0 ≤ count_in lo hi l.
Proof. unfold count_in. induction l as [|x l IH]; simpl; [done|]. pose proof (ind_range lo hi x.2). lia. Qed.

Lemma sum_over_insert {A} (f : A → Z) l i x y :
  l !! i = Some x → sum_over f (<[i := y]> l) = sum_over f l - f x + f y.
Proof.
  unfold sum_over. revert i. induction l as [|z l IH]; intros [|i]; simpl; try done.
  - intros [= ->]. lia.
  - intros Hi. rewrite (IH i Hi). lia.
Qed.

Lemma sum_over_nonneg {A} (f : A → Z) l : (∀ y, y ∈ l → 0 ≤ f y) → 0 ≤ sum_over f l.
Proof.
  unfold sum_over. induction l as [|x l IH]; intros Hf; simpl; [done|].
  pose proof (Hf x (list_elem_of_here _ _)). assert (0 ≤ foldr (λ x acc, f x + acc) 0 l); [|lia].
  apply IH. intros y Hy. apply Hf. by right.
Qed.

Lemma sum_over_ge {A} (f : A → Z) l x :
  (∀ y, y ∈ l → 0 ≤ f y) → x ∈ l → f x ≤ sum_over f l.
Proof.
  intros Hf (a & b & ->)%list_elem_of_split. unfold sum_over. rewrite foldr_app. simpl.
  assert (0 ≤ sum_over f b) as Hb by (apply sum_over_nonneg; intros; apply Hf; set_solver).
  assert (∀ z, z ≤ foldr (λ y acc, f y + acc) z a) as Ha.
  { intros z. assert (∀ y, y ∈ a → 0 ≤ f y) as Hfa by (intros; apply Hf; set_solver).
    clear -Hfa. induction a as [|y a IH]; simpl; [done|]. pose proof (Hfa y (list_elem_of_here _ _)).
    assert (z ≤ foldr (λ y acc, f y + acc) z a); [|lia]. apply IH. intros; apply Hfa. by right. }
  unfold sum_over in Hb. specialize (Ha (f x + foldr (λ y acc, f y + acc) 0 b)). lia.
Qed.

Lemma sum_over_zero {A} (f : A → Z) l : (∀ x, x ∈ l → f x = 0) → sum_over f l = 0.
Proof.
  intros Hf. unfold sum_over. induction l as [|x l IH]; simpl; [done|].
  rewrite (Hf x) by by left. rewrite IH; [done|]. intros y Hy. apply Hf. by right.
Qed.

(** ** The invariant *)

Section invariant.
Context `{Deps, !DepsLaws}.
(** The files: the first location of each, and the first one after it. *)
Context (ext : gmap Z Z).

Definition in_extent (b loc : Z) : Prop := ∃ e, ext !! b = Some e ∧ b ≤ loc < e.

Definition in_some_extent (loc : Z) : Prop := 0 < loc ∧ ∃ b, in_extent b loc.

(** What a writer still owes the file [b, e): the objects of its own that have not come to
    the table, and the locations it has replaced and not yet accounted for. *)
Definition owed (b e : Z) (wr : Writer) : Z :=
  match wr_phase wr with
  | Installing todo acc =>
      (if decide (wr_base wr = b) then len todo + subtract_from_len acc else 0)
      + count_in b e (replaced_locations acc)
  | Decrementing todo s => (if decide (wr_base wr = b) then s else 0) + count_in b e todo
  | Abandoned s => if decide (wr_base wr = b) then s else 0
  | Releasing | Finished => 0
  end.

(** An entry still to be installed: its location is in the file of the writer and has
    never been seen, and the entry that a rewrite is about to replace exists. *)
Record pending_entry (tbl : gmap Z Z) (h : DebugHistory) (wr : Writer)
    (entry : Z * RelativeDiskLocation.t) (new : Z) : Prop := {
  eo_new : RelativeDiskLocation.to_absolute entry.2 (DiskLocation.lsn (wr_base wr)) = Some new;
  eo_extent : in_extent (wr_base wr) new;
  eo_pos : 0 < new;
  eo_outside l : tbl !! entry.1 = Some l → ¬ in_extent (wr_base wr) l;
  eo_unseen : ¬ added h entry.1 new ∧ ¬ removed h entry.1 new;
  eo_old : is_Some (wr_old wr !! entry.1) → is_Some (tbl !! entry.1);
}.

Definition evacuated (h : DebugHistory) (wr : Writer) (e : Z * Z) : Prop :=
  in_some_extent e.2 ∧ ¬ in_extent (wr_base wr) e.2 ∧ added h e.1 e.2.

(** Whatever has been installed of the writer's own file is of the given objects. *)
Definition installed_only (P : Z → Prop) (h : DebugHistory) (wr : Writer) : Prop :=
  ∀ oid l, added h oid l → in_extent (wr_base wr) l → P oid.

Definition writer_ok (tbl : gmap Z Z) (h : DebugHistory) (wr : Writer) : Prop :=
  match wr_phase wr with
  | Installing todo acc =>
      (∀ entry, entry ∈ todo → ∃ new, pending_entry tbl h wr entry new) ∧
      NoDup (todo.*1 ++ failed_gc_locations acc) ∧
      (∀ oid, oid ∈ todo.*1 ++ failed_gc_locations acc →
         is_Some (wr_rels wr !! oid) ∧ oid ∉ (replaced_locations acc).*1) ∧
      (∀ e, e ∈ replaced_locations acc → evacuated h wr e ∧ is_Some (wr_rels wr !! e.1)) ∧
      0 ≤ subtract_from_len acc ∧
      installed_only (λ oid, is_Some (wr_rels wr !! oid) ∧ oid ∉ todo.*1 ++ failed_gc_locations acc) h wr
  | Decrementing todo s => (∀ e, e ∈ todo → evacuated h wr e) ∧ 0 ≤ s
  | Abandoned s => 0 ≤ s ∧ installed_only (λ _, False) h wr
  | Releasing | Finished => True
  end.

Definition published (wr : Writer) : bool :=
  match wr_phase wr with Releasing | Finished => true | _ => false end.

(** The writer has let go of its file. *)
Definition ended (wr : Writer) : bool := match wr_phase wr with Finished => true | _ => false end.

(** The location has been handed out, if [next] is the next sequence number. *)
Definition allocated (next l : Z) : Prop :=
  ∃ base n d, 2 * (base + Z.b2z d * 2 ^ 62) ≤ l < 2 * (base + Z.b2z d * 2 ^ 62 + n) + 2 ∧
    0 < base ∧ 0 ≤ n ∧ base + n < next.

Record consistent (tbl : gmap Z Z) (sys : system) : Prop := {
  co_table : table_ok (w_table sys.1.1) tbl;
  co_locs oid l : tbl !! oid = Some l → in_some_extent l;
  co_wf : fm_wf (w_fm sys.1.1);
  co_files b : is_Some (fam_at (w_fm sys.1.1) b) ↔ is_Some (ext !! b);
  co_live b e fam : ext !! b = Some e → fam_at (w_fm sys.1.1) b = Some fam →
    fam_live_objects fam = inhabitants tbl b e + sum_over (owed b e) sys.2;
  co_bound b fam : fam_at (w_fm sys.1.1) b = Some fam → fam_live_objects fam < two64;
  co_history oid l : tbl !! oid = Some l → added sys.1.2 oid l ∧ ¬ removed sys.1.2 oid l;
  co_writers wr : wr ∈ sys.2 → (ended wr = false → is_Some (ext !! wr_base wr)) ∧ writer_ok tbl sys.1.2 wr;
  co_unpublished wr fam : wr ∈ sys.2 → published wr = false → fam_at (w_fm sys.1.1) (wr_base wr) = Some fam →
    fam_metadata fam = None ∧ fam_path fam = None;
  co_claimed wr fam : wr ∈ sys.2 → ended wr = false → fam_at (w_fm sys.1.1) (wr_base wr) = Some fam →
    fam_rewrite_claim fam = true;
  co_bases : NoDup (wr_base <$> sys.2);
  co_based wr : wr ∈ sys.2 → allocated (next_file_lsn (w_fm sys.1.1)) (wr_base wr);
  co_located oid l : added sys.1.2 oid l ∨ removed sys.1.2 oid l → allocated (next_file_lsn (w_fm sys.1.1)) l;
  co_alloc b e : ext !! b = Some e →
    ∃ base n d, b = 2 * (base + Z.b2z d * 2 ^ 62) ∧ e = 2 * (base + Z.b2z d * 2 ^ 62 + n) + 2 ∧
      0 < base ∧ 0 ≤ n ∧ base + n < next_file_lsn (w_fm sys.1.1);
  co_next : 0 < next_file_lsn (w_fm sys.1.1);
}.

Lemma owed_nonneg tbl h b e wr : writer_ok tbl h wr → 0 ≤ owed b e wr.
Proof.
  unfold writer_ok, owed. destruct (wr_phase wr) as [todo acc|todo s| |s|]; intros Hw; repeat case_decide;
    try pose proof (count_in_nonneg b e (replaced_locations acc));
    try pose proof (count_in_nonneg b e todo); lia.
Qed.

(** *** Files do not overlap *)

Definition files_disjoint : Prop :=
  (∀ b e, ext !! b = Some e → 0 < b) ∧
  ∀ b e b' e', ext !! b = Some e → ext !! b' = Some e' → b < b' → e ≤ b'.

Context (Hext : files_disjoint).

Lemma in_extent_unique b b' loc : in_extent b loc → in_extent b' loc → b = b'.
Proof.
  intros (e & Hb & ?) (e' & Hb' & ?). destruct Hext as [_ Hd].
  destruct (Z.lt_total b b') as [Hlt|[->|Hlt]]; [|done|].
  - specialize (Hd _ _ _ _ Hb Hb' Hlt). lia.
  - specialize (Hd _ _ _ _ Hb' Hb Hlt). lia.
Qed.

Lemma in_extent_ind b e loc : ext !! b = Some e → (in_extent b loc ↔ ind b e loc = 1).
Proof.
  intros Hb. unfold ind, in_extent. case_decide; split; try done; [eauto|].
  intros (e' & ? & ?). by simplify_eq.
Qed.

Lemma ind_other b e b' loc : ext !! b = Some e → in_extent b' loc → b ≠ b' → ind b e loc = 0.
Proof.
  intros Hb Hin Hne. pose proof (in_extent_ind b e loc Hb) as Hi. pose proof (ind_range b e loc).
  destruct (decide (ind b e loc = 1)) as [E|]; [|lia]. apply Hi in E. by destruct Hne; eapply in_extent_unique.
Qed.

(** The file map finds the file of a location. *)
Lemma range_next_file m b loc :
  (∀ b, is_Some (fam_at m b) ↔ is_Some (ext !! b)) → fm_wf m → in_extent b loc →
  ∃ p fam, range_next loc m = Some (b, p) ∧ cm_get (fams m) b = Some p ∧ arcs m !! p = Some fam
           ∧ fam_at m b = Some fam.
Proof.
  intros Hfiles Hwf (e & Hb & Hin). unfold range_next.
  assert (∀ k p, cm_get (fams m) k = Some p → is_Some (ext !! k)) as Hkey.
  { intros k p Hk. apply Hfiles, fam_at_key; [done|eauto]. }
  assert (is_Some (cm_get (fams m) b)) as [p Hp] by (apply fam_at_key, Hfiles; eauto).
  destruct (cm_range_from_head (fams m) loc) as [[Hnone _]|(j & v & rest & -> & Hj & Hle & Hmax)].
  - specialize (Hnone b p Hp). lia.
  - assert (j = b) as ->.
    { destruct (Hkey j v Hj) as [ej Hej]. specialize (Hmax b p Hp). destruct Hext as [_ Hd].
      destruct (Z.lt_total j b) as [Hlt|[->|Hlt]]; [lia|done|].
      specialize (Hd _ _ _ _ Hb Hej Hlt). lia. }
    destruct (fw_ptr m Hwf b v Hj) as (fam & Hv & _). exists v, fam. split_and!; [done..|].
    apply fam_at_Some. eauto.
Qed.
End invariant.

(** ** Installing one object *)

Section install.
Context `{Deps, !DepsLaws}.

Lemma table_ok_rewrite t tbl oid l :
  table_ok t tbl → pt_read t oid = l → table_ok (pt_write t oid l) tbl.
Proof. intros Ht <- i. rewrite pt_read_write. case_decide; [by subst|]; apply Ht. Qed.

(** What one iteration of the installation does: it replaces an entry, adds one, or finds
    a newer one in its place. *)
Inductive installs (tbl : gmap Z Z) (h : DebugHistory) (acc : Installed) (oid new : Z)
    : gmap Z Z → DebugHistory → Installed → Prop :=
  | installs_replaced old :
      tbl !! oid = Some old →
      installs tbl h acc oid new (<[oid := new]> tbl) (history_remove oid old (history_add oid new h))
        (MkInstalled (replaced_locations acc ++ [(oid, old)]) (failed_gc_locations acc)
           (subtract_from_len acc))
  | installs_fresh :
      tbl !! oid = None →
      installs tbl h acc oid new (<[oid := new]> tbl) (history_add oid new h) acc
  | installs_lost failed :
      is_Some (tbl !! oid) → failed = [] ∨ failed = [oid] →
      installs tbl h acc oid new tbl h
        (MkInstalled (replaced_locations acc) (failed_gc_locations acc ++ failed)
           (subtract_from_len acc + 1)).

Lemma installed_marks (w : World) h oid old new :
  ¬ added h oid new → ¬ removed h oid new → added h oid old → ¬ removed h oid old → old ≠ new →
  (hist (mark_add oid new);; hist (mark_remove oid old)) (w, h)
  = (Ok (), (w, history_remove oid old (history_add oid new h))).
Proof.
  intros Ha Hr Hao Hro Hne. destruct (mark_add_spec oid new h) as [_ Hadd].
  destruct (mark_remove_spec oid old (history_add oid new h)) as [_ Hrem].
  unfold hist, zoom, mbind, M_bind. simpl. rewrite Hadd by tauto. simpl. rewrite Hrem; [done|].
  rewrite added_add, removed_add. tauto.
Qed.

Lemma installed_mark (w : World) h oid new :
  ¬ added h oid new → ¬ removed h oid new →
  hist (mark_add oid new) (w, h) = (Ok (), (w, history_add oid new h)).
Proof.
  intros Ha Hr. destruct (mark_add_spec oid new h) as [_ Hadd].
  unfold hist, zoom. simpl. by rewrite Hadd by tauto.
Qed.

Lemma wrld_table {A} (f : PT → option A * PT) a t (w : World) (h : DebugHistory) :
  f (w_table w) = (Some a, t) → wrld (table f) (w, h) = (Ok a, (set_location_table t w, h)).
Proof. intros Hf. unfold wrld, zoom, table, mbind, M_bind. simpl. by rewrite Hf. Qed.

Lemma install_runs ext tbl (w : World) h wr acc entry new :
  pending_entry ext tbl h wr entry new → table_ok (w_table w) tbl →
  (∀ l, tbl !! entry.1 = Some l → 0 < l ∧ added h entry.1 l ∧ ¬ removed h entry.1 l) →
  ∃ t tbl' h' acc',
    install_object_validated (wr_old wr) (wr_base wr) acc entry (w, h)
    = (Ok acc', (set_location_table t w, h')) ∧
    table_ok t tbl' ∧ installs tbl h acc entry.1 new tbl' h' acc'.
Proof.
  intros [Enew Hin Hpos Hout [Hna Hnr] Hold] Ht Hcur. destruct entry as [oid rel]. simpl in *.
  assert (∀ l, tbl !! oid = Some l → l ≠ new) as Hne by (intros l Hl ->; by apply (Hout new)).
  unfold install_object_validated. rewrite Enew. unfold mbind at 1, M_bind at 1. unfold unwrap at 1.
  unfold mret at 1, M_ret at 1. pose proof (Ht oid) as Hread.
  destruct (wr_old wr !! oid) as [expected|] eqn:Eold.
  - destruct (Hold (mk_is_Some _ _ eq_refl)) as [l Hl]. rewrite Hl in Hread. simpl in Hread.
    destruct (Hcur l Hl) as (Hlpos & Hla & Hlr).
    assert (load (w_table w) oid = Some l) as Hload by (apply load_Some; lia).
    unfold mbind at 1, M_bind at 1. destruct (decide (l = expected)) as [->|Hdiff].
    + rewrite (wrld_table _ _ _ _ _ (cas_hit _ _ _ new Hlpos Hload)).
      do 4 eexists. split; [|split; [by apply table_ok_write|by apply installs_replaced]].
      pose proof (installed_marks (set_location_table (pt_write (w_table w) oid new) w) h oid expected new
        Hna Hnr Hla Hlr (Hne _ Hl)) as Hm. unfold mbind, M_bind in Hm |- *.
      destruct (hist (mark_add oid new) _) as [[[]| | |] s]; try done. by rewrite Hm.
    + rewrite (wrld_table _ _ _ _ _ (cas_miss _ _ _ new l Hload Hdiff)).
      do 4 eexists. split; [done|]. split; [by apply (table_ok_rewrite _ tbl)|].
      apply installs_lost; eauto.
  - unfold mbind at 1, M_bind at 1. destruct (tbl !! oid) as [l|] eqn:Hl; simpl in Hread.
    + destruct (Hcur l eq_refl) as (Hlpos & Hla & Hlr). specialize (Hne l eq_refl).
      assert (load (w_table w) oid = Some l) as Hload by (apply load_Some; lia).
      destruct (decide (l < new)) as [Hlt|Hge].
      * rewrite (wrld_table _ (inl (load (w_table w) oid)) (pt_write (w_table w) oid new)) by (apply fetch_max_above; lia).
        rewrite Hload. do 4 eexists. split; [|split; [by apply table_ok_write|by apply installs_replaced]].
        pose proof (installed_marks (set_location_table (pt_write (w_table w) oid new) w) h oid l new
          Hna Hnr Hla Hlr Hne) as Hm. unfold mbind, M_bind in Hm |- *.
        destruct (hist (mark_add oid new) _) as [[[]| | |] s]; try done. by rewrite Hm.
      * rewrite (wrld_table _ (inr (load (w_table w) oid)) (pt_write (w_table w) oid l)).
        2: { unfold fetch_max, atomic_fetch_max, DiskLocation.to_raw, load. rewrite Hread, Z.max_l by lia.
             destruct (Z.ltb_spec l new); [lia|]. by destruct (Z.eqb_spec l new). }
        do 4 eexists. split; [done|]. split; [by apply (table_ok_rewrite _ tbl)|].
        rewrite <- (app_nil_r (failed_gc_locations acc)). apply installs_lost; [by rewrite Hl|by left].
    + rewrite (wrld_table _ (inl (load (w_table w) oid)) (pt_write (w_table w) oid new)) by (apply fetch_max_above; lia).
      assert (load (w_table w) oid = None) as -> by by apply load_None.
      do 4 eexists. split; [|split; [by apply table_ok_write|by apply installs_fresh]].
      unfold mbind, M_bind. by rewrite (installed_mark _ h oid new Hna Hnr).
Qed.
End install.

(** ** Steps keep the invariant *)

Section steps.
Context `{Deps, !DepsLaws}.
Context (ext : gmap Z Z) (Hext : files_disjoint ext).

Lemma other_writers (ws : list Writer) i wr wr' wr2 :
  NoDup (wr_base <$> ws) → ws !! i = Some wr → wr2 ∈ <[i := wr']> ws →
  wr2 = wr' ∨ wr2 ∈ ws ∧ wr_base wr2 ≠ wr_base wr.
Proof.
  intros Hnd Hi (j & Hj)%list_elem_of_lookup. destruct (decide (i = j)) as [<-|Hij].
  - rewrite list_lookup_insert_eq in Hj by by eapply lookup_lt_Some. left. congruence.
  - rewrite list_lookup_insert_ne in Hj by done. right.
    split; [by eapply list_elem_of_lookup_2|]. intros E. apply Hij.
    eapply (NoDup_lookup (wr_base <$> ws)); [done|rewrite list_lookup_fmap, Hi; done|].
    rewrite list_lookup_fmap, Hj. simpl. by rewrite E.
Qed.

(** What the step of a writer does to the file map: no file comes or goes, no live count
    grows, the claims and paths of the files of others stay, and the metadata that comes is
    its own. *)
Record drains (wr : Writer) (m m' : FileMap) : Prop := {
  dr_keys b : is_Some (fam_at m b) → is_Some (fam_at m' b);
  dr_fam b fam' : fam_at m' b = Some fam' → ∃ fam, fam_at m b = Some fam ∧
    fam_live_objects fam' ≤ fam_live_objects fam ∧
    (b ≠ wr_base wr → fam_path fam' = fam_path fam ∧ fam_rewrite_claim fam' = fam_rewrite_claim fam) ∧
    (fam_metadata fam' = fam_metadata fam ∨ fam_metadata fam' = Some (wr_md wr));
}.

(** The next state of the system after a step of [wr]. *)
Record stepped (sys : system) (wr : Writer) (tbl : gmap Z Z) (sys' : system) : Prop := {
  st_consistent : consistent ext tbl sys';
  st_drains : drains wr (w_fm sys.1.1) (w_fm sys'.1.1);
  st_next : next_file_lsn (w_fm sys'.1.1) = next_file_lsn (w_fm sys.1.1);
  st_writers wr2 : wr2 ∈ sys'.2 → wr2 ∈ sys.2 ∨ wr_base wr2 = wr_base wr ∧ wr_md wr2 = wr_md wr;
  st_others wr2 : wr2 ∈ sys.2 → wr2 ∈ sys'.2 ∨ wr_base wr2 = wr_base wr;
  st_released fam : fam_at (w_fm sys'.1.1) (wr_base wr) = Some fam →
    (∃ wr2, wr2 ∈ sys'.2 ∧ wr_base wr2 = wr_base wr ∧ ended wr2 = false) ∨ fam_rewrite_claim fam = false;
}.

(** A step of one writer keeps the invariant if it keeps its own part and those of the
    others, and changes no live count but by what it changes in the account. *)
Lemma consistent_step tbl tbl' w h w' h' ws i wr wr' :
  consistent ext tbl ((w, h), ws) → ws !! i = Some wr → wr_base wr' = wr_base wr → wr_md wr' = wr_md wr →
  table_ok (w_table w') tbl' →
  (∀ oid l, tbl' !! oid = Some l → in_some_extent ext l ∧ added h' oid l ∧ ¬ removed h' oid l) →
  (∀ oid l, added h' oid l ∨ removed h' oid l →
     added h oid l ∨ removed h oid l ∨ ∃ b, in_extent ext b l) →
  fm_wf (w_fm w') → next_file_lsn (w_fm w') = next_file_lsn (w_fm w) →
  (∀ b fam', fam_at (w_fm w') b = Some fam' →
     ∃ fam, fam_at (w_fm w) b = Some fam ∧
       (fam_live_objects fam' ≤ fam_live_objects fam) ∧
       (b ≠ wr_base wr → fam_metadata fam' = fam_metadata fam ∧ fam_path fam' = fam_path fam) ∧
       (published wr' = false → fam_metadata fam' = fam_metadata fam ∧ fam_path fam' = fam_path fam) ∧
       (b ≠ wr_base wr ∨ ended wr' = false → fam_rewrite_claim fam' = fam_rewrite_claim fam) ∧
       (fam_metadata fam' = fam_metadata fam ∨ fam_metadata fam' = Some (wr_md wr)) ∧
       (b = wr_base wr → ended wr' = true → fam_rewrite_claim fam' = false) ∧
       ∀ e, ext !! b = Some e →
         fam_live_objects fam' - fam_live_objects fam
         = inhabitants tbl' b e + owed b e wr' - (inhabitants tbl b e + owed b e wr)) →
  (∀ b, is_Some (fam_at (w_fm w) b) → is_Some (fam_at (w_fm w') b)) →
  (published wr' = false → published wr = false) → (ended wr' = false → ended wr = false) →
  writer_ok ext tbl' h' wr' →
  (∀ wr2, wr2 ∈ ws → wr_base wr2 ≠ wr_base wr → writer_ok ext tbl h wr2 → writer_ok ext tbl' h' wr2) →
  stepped ((w, h), ws) wr tbl' ((w', h'), <[i := wr']> ws).
Proof.
  intros [Ht Hl Hwf Hf Hlive Hb Hh Hw Hu Hcl Hnd Hbased Hloc Halloc Hnextpos].
  intros Hi Hbase Hmd Ht' Hl' Hloc' Hwf' Hnext Hfam Hkeys Hpub Hend Hwr' Hothers. simpl in *.
  assert (∀ wr2, wr2 ∈ <[i:=wr']> ws → wr2 = wr' ∨ wr2 ∈ ws ∧ wr_base wr2 ≠ wr_base wr) as Helem
    by (intros wr2; by apply other_writers).
  pose proof (list_elem_of_lookup_2 _ _ _ Hi) as Hin.
  assert (∀ wr2, wr2 ∈ ws → wr2 ∈ <[i:=wr']> ws ∨ wr_base wr2 = wr_base wr) as Hkept.
  { intros wr2 (j & Hj)%list_elem_of_lookup. destruct (decide (i = j)) as [<-|Hne]; [right; congruence|left].
    apply (list_elem_of_lookup_2 _ j). by rewrite list_lookup_insert_ne. }
  split; [split; simpl| |done|by intros wr2 [->|[? _]]%Helem; [right|left]|done|]; cycle -1.
  { simpl. intros fam' Hfam'. destruct (ended wr') eqn:He.
    - right. destruct (Hfam _ fam' Hfam') as (fam & _ & _ & _ & _ & _ & _ & Hr & _). by apply Hr.
    - left. exists wr'. split_and!; [|done..]. apply (list_elem_of_lookup_2 _ i).
      by rewrite list_lookup_insert_eq by by eapply lookup_lt_Some. }
  - done.
  - intros oid l. apply Hl'.
  - done.
  - intros b. rewrite <- Hf. split; [|apply Hkeys]. intros [fam' Hfam']. destruct (Hfam b fam' Hfam') as (fam & Hb' & _); eauto.
  - intros b e fam' He Hfam'. destruct (Hfam b fam' Hfam') as (fam & Hfam0 & _ & _ & _ & _ & _ & _ & Hacc).
    specialize (Hlive b e fam He Hfam0). specialize (Hacc e He).
    rewrite (sum_over_insert _ _ _ _ wr' Hi). lia.
  - intros b fam' Hfam'. destruct (Hfam b fam' Hfam') as (fam & Hfam0 & Hle & _). specialize (Hb b fam Hfam0). lia.
  - intros oid l. apply Hl'.
  - intros wr2 [->|[Hwr2 Hne]]%Helem; [rewrite Hbase; split; [by intros ?%Hend; apply (Hw wr Hin)|done]|].
    destruct (Hw wr2 Hwr2). auto.
  - intros wr2 fam' Hwr2 Hp Hfam'. destruct (Hfam _ fam' Hfam') as (fam & Hfam0 & _ & Hne & Heq & _).
    apply Helem in Hwr2 as [->|[Hwr2 Hd]].
    + destruct (Heq Hp) as [-> ->]. rewrite Hbase in Hfam0. apply (Hu wr fam); auto.
    + destruct (Hne Hd) as [-> ->]. by apply (Hu wr2 fam).
  - intros wr2 fam' Hwr2 Hp Hfam'. destruct (Hfam _ fam' Hfam') as (fam & Hfam0 & _ & _ & _ & Heq & _).
    apply Helem in Hwr2 as [->|[Hwr2 Hd]].
    + rewrite Heq by by right. rewrite Hbase in Hfam0. apply (Hcl wr fam); auto.
    + rewrite Heq by by left. by apply (Hcl wr2 fam).
  - rewrite list_fmap_insert, Hbase. rewrite list_insert_id; [done|]. by rewrite list_lookup_fmap, Hi.
  - rewrite Hnext. intros wr2 [->|[Hwr2 _]]%Helem; [rewrite Hbase|]; by apply Hbased.
  - rewrite Hnext. intros oid l [?|[?|(b & e & He & Hin')]]%Hloc'; [eauto..|].
    destruct (Halloc b e He) as (base & n & d & -> & -> & ? & ? & ?). by exists base, n, d.
  - by rewrite Hnext.
  - by rewrite Hnext.
  - split; [done|]. intros b fam' Hfam'. destruct (Hfam b fam' Hfam') as (fam & ? & ? & Hne & _ & Hcl' & ? & _).
    exists fam. split_and!; [done..| |done]. intros Hb'. split; [by apply Hne|]. apply Hcl'. by left.
Qed.

(** *** Installing *)

(** The account is unchanged: what leaves a file is owed to it. *)
Lemma installs_account tbl h wr todo acc entry new tbl' h' acc' b e :
  installs tbl h acc entry.1 new tbl' h' acc' →
  in_extent ext (wr_base wr) new → ext !! b = Some e →
  wr_phase wr = Installing (entry :: todo) acc →
  inhabitants tbl' b e + owed b e (set_phase (Installing todo acc') wr)
  = inhabitants tbl b e + owed b e wr.
Proof.
  intros Hinst Hin He Hp. unfold owed. rewrite Hp. simpl.
  assert (ind b e new = if decide (wr_base wr = b) then 1 else 0) as Enew.
  { case_decide as Hb; [subst b; by apply (in_extent_ind ext)|]. by eapply (ind_other ext). }
  destruct Hinst as [old Hold|Hnone|failed Hsome Hfailed]; simpl.
  - rewrite (inhabitants_insert _ _ _ _ old) by done. rewrite count_in_app, Enew. simpl.
    case_decide; simpl; lia.
  - rewrite inhabitants_insert_new by done. rewrite Enew. case_decide; simpl; lia.
  - case_decide; simpl; lia.
Qed.

Lemma installs_lookup tbl h acc oid new tbl' h' acc' i l :
  installs tbl h acc oid new tbl' h' acc' → tbl' !! i = Some l →
  tbl !! i = Some l ∨ i = oid ∧ l = new.
Proof.
  intros [old Hold|Hnone|failed Hsome Hfailed]; [..|by left]; rewrite lookup_insert_Some; naive_solver.
Qed.

Lemma installs_dom tbl h acc oid new tbl' h' acc' i :
  installs tbl h acc oid new tbl' h' acc' → is_Some (tbl !! i) → is_Some (tbl' !! i).
Proof.
  intros [old Hold|Hnone|failed Hsome Hfailed]; [..|done]; rewrite lookup_insert_is_Some'; auto.
Qed.

Lemma installs_added tbl h acc oid new tbl' h' acc' i l :
  installs tbl h acc oid new tbl' h' acc' → added h i l → added h' i l.
Proof.
  intros [old Hold|Hnone|failed Hsome Hfailed]; rewrite ?added_remove, ?added_add; auto.
Qed.

(** Only the new location has been added, and only if it is in the table. *)
Lemma installs_added_inv tbl h acc oid new tbl' h' acc' i l :
  installs tbl h acc oid new tbl' h' acc' → added h' i l →
  added h i l ∨ i = oid ∧ l = new ∧ failed_gc_locations acc' = failed_gc_locations acc.
Proof.
  intros [old Hold|Hnone|failed Hsome Hfailed]; rewrite ?added_remove, ?added_add; naive_solver.
Qed.

Lemma installs_evacuated tbl h acc oid new tbl' h' acc' wr e :
  installs tbl h acc oid new tbl' h' acc' → evacuated ext h wr e → evacuated ext h' wr e.
Proof. intros Hinst (? & ? & ?). split_and!; [done..|]. by eapply installs_added. Qed.

Lemma installs_only_others tbl h acc oid new tbl' h' acc' wr wr2 P :
  installs tbl h acc oid new tbl' h' acc' → in_extent ext (wr_base wr) new →
  wr_base wr2 ≠ wr_base wr → installed_only ext P h wr2 → installed_only ext P h' wr2.
Proof.
  intros Hinst Hin Hne HP i l Hl Hb. apply (installs_added_inv _ _ _ _ _ _ _ _ _ _ Hinst) in Hl as [Hl|(-> & -> & _)]; [by eapply HP|].
  destruct Hne. by eapply (in_extent_unique ext).
Qed.

(** An entry that is neither installed now nor in the same file is as it was. *)
Lemma installs_entry tbl h acc oid new tbl' h' acc' wr2 entry2 new2 :
  installs tbl h acc oid new tbl' h' acc' →
  pending_entry ext tbl h wr2 entry2 new2 → entry2.1 ≠ oid ∨ ¬ in_extent ext (wr_base wr2) new →
  pending_entry ext tbl' h' wr2 entry2 new2.
Proof.
  intros Hinst [En Hin Hpos Hout [Hna Hnr] Hold] Hne. split; try done.
  - intros l Hl. eapply installs_lookup in Hl as [Hl|[E ->]]; [..|done]; [by apply Hout|]. naive_solver.
  - destruct Hinst as [old Ho|Hnone|failed Hsome Hfailed]; rewrite ?added_remove, ?removed_remove, ?added_add, ?removed_add;
      [..|done]; (split; [intros [?|[? ->]]; [done|naive_solver]|]); [|done].
    intros [?|[E ->]]; [done|]. rewrite <- E in Ho. by apply (Hout old).
  - intros Hs. eapply installs_dom; [done|]. auto.
Qed.

Lemma installs_others tbl h acc oid new tbl' h' acc' wr wr2 :
  installs tbl h acc oid new tbl' h' acc' → in_extent ext (wr_base wr) new →
  wr_base wr2 ≠ wr_base wr → writer_ok ext tbl h wr2 → writer_ok ext tbl' h' wr2.
Proof.
  intros Hinst Hin Hne. unfold writer_ok. destruct (wr_phase wr2) as [todo2 acc2|todo2 s| |s|]; try done.
  - intros (Hentries & Hnd & Hids & Hrep & Hs & Honly). split_and!; [|done..| |done|].
    + intros entry (new2 & Hok)%Hentries. exists new2.
      eapply installs_entry; [done..|]. right. intros Hin2. apply Hne. by eapply (in_extent_unique ext).
    + intros e He. destruct (Hrep e He). split; [by eapply installs_evacuated|done].
    + eapply installs_only_others; [done| |done..]. done.
  - intros [Hev Hs]. split; [|done]. intros e He. eapply installs_evacuated; eauto.
  - intros [Hs Honly]. split; [done|]. by eapply installs_only_others.
Qed.

Lemma installs_history tbl h acc oid new tbl' h' acc' :
  installs tbl h acc oid new tbl' h' acc' →
  (∀ i l, tbl !! i = Some l → in_some_extent ext l ∧ added h i l ∧ ¬ removed h i l) →
  in_some_extent ext new → ¬ removed h oid new → (∀ l, tbl !! oid = Some l → l ≠ new) →
  ∀ i l, tbl' !! i = Some l → in_some_extent ext l ∧ added h' i l ∧ ¬ removed h' i l.
Proof.
  intros Hinst Hcur Hnew Hnr Hne i l Hl.
  destruct Hinst as [old Ho|Hnone|failed Hsome Hfailed]; [..|by apply Hcur];
    rewrite ?added_remove, ?removed_remove, ?added_add, ?removed_add;
    apply lookup_insert_Some in Hl as [[<- <-]|[Hi Hl]].
  - specialize (Hne old Ho). naive_solver.
  - destruct (Hcur i l Hl) as (? & ? & ?). naive_solver.
  - naive_solver.
  - destruct (Hcur i l Hl) as (? & ? & ?). naive_solver.
Qed.

Lemma installs_located tbl h acc oid new tbl' h' acc' :
  installs tbl h acc oid new tbl' h' acc' → (∃ b, in_extent ext b new) →
  (∀ l, tbl !! oid = Some l → added h oid l) →
  ∀ i l, added h' i l ∨ removed h' i l → added h i l ∨ removed h i l ∨ ∃ b, in_extent ext b l.
Proof.
  intros Hinst Hnew Hcur i l.
  destruct Hinst as [old Ho|Hnone|failed Hsome Hfailed];
    rewrite ?added_remove, ?removed_remove, ?added_add, ?removed_add; [|naive_solver..].
  specialize (Hcur old Ho). naive_solver.
Qed.

Lemma installs_own tbl h wr todo acc entry new tbl' h' acc' :
  (∀ oid l, tbl !! oid = Some l → in_some_extent ext l ∧ added h oid l) →
  installs tbl h acc entry.1 new tbl' h' acc' →
  (∀ l, tbl !! entry.1 = Some l → ¬ in_extent ext (wr_base wr) l) →
  wr_phase wr = Installing (entry :: todo) acc → writer_ok ext tbl h wr →
  writer_ok ext tbl' h' (set_phase (Installing todo acc') wr).
Proof.
  intros Hlocs Hinst Hout Hp Hok. unfold writer_ok in *. rewrite Hp in Hok. simpl.
  destruct Hok as (Hentries & Hnd & Hids & Hrep & Hs & Honly). csimpl in Hnd. apply NoDup_cons in Hnd as [Hfresh Hnd].
  assert (∀ e2, e2 ∈ todo → ∃ new2, pending_entry ext tbl' h' (set_phase (Installing todo acc') wr) e2 new2) as Hentries'.
  { intros e2 He2. destruct (Hentries e2) as [new2 [? ? ? ? ? ?]]; [by right|]. exists new2.
    eapply installs_entry; [done|by split|]. left. intros E. apply Hfresh. apply elem_of_app. left.
    rewrite <- E. by apply (list_elem_of_fmap_2 fst). }
  destruct (Hids entry.1) as [Hrel Hnrep]; [by left|].
  assert (∀ oid, oid ∈ todo.*1 ++ failed_gc_locations acc →
    is_Some (wr_rels wr !! oid) ∧ oid ∉ (replaced_locations acc).*1 ∧ oid ≠ entry.1) as Hids'.
  { intros oid Hoid. destruct (Hids oid) as [? ?]; [by right|]. split_and!; [done..|]. by intros ->. }
  assert (∀ e, e ∈ replaced_locations acc →
    evacuated ext h' (set_phase (Installing todo acc') wr) e ∧ is_Some (wr_rels wr !! e.1)) as Hrep'.
  { intros e He. destruct (Hrep e He) as [Hev ?]. split; [by eapply installs_evacuated in Hev|done]. }
  assert (installed_only ext (λ oid, is_Some (wr_rels wr !! oid) ∧ oid ∉ todo.*1 ++ failed_gc_locations acc') h'
    (set_phase (Installing todo acc') wr)) as Honly'.
  { intros i l Hl Hb. apply (installs_added_inv _ _ _ _ _ _ _ _ _ _ Hinst) in Hl as [Hl|(-> & -> & ->)]; [|done].
    destruct (Honly i l Hl Hb) as [Hi Hn]. csimpl in Hn. rewrite not_elem_of_cons in Hn. destruct Hn as [Hne Hn].
    split; [done|]. destruct Hinst as [| |failed Hsome [->| ->]]; simpl; rewrite ?app_nil_r; [done..|].
    rewrite app_assoc, elem_of_app, list_elem_of_singleton. tauto. }
  destruct Hinst as [old Ho|Hnone|failed Hsome Hfailed]; simpl; split_and!; try done.
  - intros oid Hoid. destruct (Hids' oid Hoid) as (? & ? & ?). split; [done|].
    rewrite fmap_app, elem_of_app. simpl. rewrite list_elem_of_singleton. tauto.
  - intros e2 [He2| ->%list_elem_of_singleton]%elem_of_app; [by apply Hrep'|]. simpl. split; [|done].
    destruct (Hlocs _ _ Ho). split_and!; simpl; [done|by apply Hout|]. rewrite added_remove, added_add. auto.
  - intros oid Hoid. by destruct (Hids' oid Hoid) as (? & ? & ?).
  - rewrite app_assoc. destruct Hfailed as [->| ->]; [by rewrite app_nil_r|].
    apply NoDup_app. split_and!; [done| |by apply NoDup_singleton].
    intros x Hx ->%list_elem_of_singleton. done.
  - intros oid Hoid. rewrite app_assoc, elem_of_app in Hoid. destruct Hoid as [Hoid|Hoid].
    + by destruct (Hids' oid Hoid) as (? & ? & ?).
    + destruct Hfailed as [->| ->]; [by apply not_elem_of_nil in Hoid|].
      by apply list_elem_of_singleton in Hoid as ->.
  - lia.
Qed.

Lemma step_install tbl w h ws i wr entry todo acc :
  consistent ext tbl ((w, h), ws) → ws !! i = Some wr → wr_phase wr = Installing (entry :: todo) acc →
  ∃ wr' s' tbl', writer_step wr (w, h) = (Ok wr', s') ∧ stepped ((w, h), ws) wr tbl' (s', <[i := wr']> ws).
Proof.
  intros Hc Hi Hp. pose proof (list_elem_of_lookup_2 _ _ _ Hi) as Hin.
  destruct (co_writers _ _ _ Hc wr Hin) as [Hb Hok]. simpl in Hok.
  assert (∃ new, pending_entry ext tbl h wr entry new) as [new Hentry].
  { unfold writer_ok in Hok. rewrite Hp in Hok. apply Hok. by left. }
  assert (∀ j l, tbl !! j = Some l → in_some_extent ext l ∧ added h j l ∧ ¬ removed h j l) as Hcur.
  { intros j l Hj. split; [by eapply (co_locs _ _ _ Hc)|by apply (co_history _ _ _ Hc)]. }
  destruct (install_runs ext tbl w h wr acc entry new Hentry) as (t & tbl' & h' & acc' & Erun & Ht' & Hinst).
  { apply (co_table _ _ _ Hc). }
  { intros l Hl. destruct (Hcur _ l Hl) as ([? _] & ? & ?). done. }
  exists (set_phase (Installing todo acc') wr), (set_location_table t w, h'), tbl'. split.
  { unfold writer_step. rewrite Hp. unfold mbind, M_bind. by rewrite Erun. }
  pose proof (eo_extent _ _ _ _ _ _ Hentry) as Hne. pose proof (eo_outside _ _ _ _ _ _ Hentry) as Hout.
  apply (consistent_step tbl tbl' w h (set_location_table t w) h' ws i wr); try done.
  - eapply (installs_history tbl h); [done..| |apply (eo_unseen _ _ _ _ _ _ Hentry)|].
    + split; [apply (eo_pos _ _ _ _ _ _ Hentry)|eauto].
    + intros l Hl ->. by apply (Hout new).
  - eapply (installs_located tbl h); [done|eauto|]. intros l Hl. by apply Hcur.
  - apply (co_wf _ _ _ Hc).
  - intros b fam Hfam. exists fam. split_and!; try (done || by left). intros e He.
    rewrite (installs_account _ _ _ _ _ _ _ _ _ _ b e Hinst Hne He Hp). lia.
  - intros _. unfold published. by rewrite Hp.
  - intros _. unfold ended. by rewrite Hp.
  - eapply (installs_own tbl h); [|done..]. intros j l Hj. by destruct (Hcur j l Hj) as (? & ? & _).
  - intros wr2 _ Hb2. by eapply (installs_others tbl h).
Qed.

(** *** The end of the installation *)

Lemma remove_failed_runs rels failed (w : World) :
  NoDup failed → (∀ oid, oid ∈ failed → is_Some (rels !! oid)) →
  ∃ rels', foldM remove_failed rels failed w = (Ok rels', w) ∧
    ∀ oid, rels' !! oid = if decide (oid ∈ failed) then None else rels !! oid.
Proof.
  revert rels. induction failed as [|x failed IH]; intros rels Hnd Hin.
  - exists rels. split; [done|]. intros oid. rewrite decide_False; [done|]. apply not_elem_of_nil.
  - apply NoDup_cons in Hnd as [Hx Hnd]. destruct (Hin x) as [r Hr]; [by left|].
    destruct (IH (delete x rels) Hnd) as (rels' & E & Hl).
    { intros oid Hoid. rewrite lookup_delete_ne; [apply Hin; by right|]. by intros ->. }
    exists rels'. split.
    + cbn [foldM]. unfold mbind at 1, M_bind at 1. unfold remove_failed at 1.
      rewrite Hr. unfold mbind at 1, M_bind at 1. exact E.
    + intros oid. rewrite Hl, lookup_delete. repeat case_decide; set_solver.
Qed.

Lemma step_settle tbl w h ws i wr acc :
  consistent ext tbl ((w, h), ws) → ws !! i = Some wr → wr_phase wr = Installing [] acc →
  ∃ wr' s' tbl', writer_step wr (w, h) = (Ok wr', s') ∧ stepped ((w, h), ws) wr tbl' (s', <[i := wr']> ws).
Proof.
  intros Hc Hi Hp. pose proof (list_elem_of_lookup_2 _ _ _ Hi) as Hin.
  destruct (co_writers _ _ _ Hc wr Hin) as [Hb Hok]. unfold writer_ok in Hok. rewrite Hp in Hok. simpl in Hok.
  destruct Hok as (_ & Hnd & Hids & Hrep & Hs & Honly).
  destruct (remove_failed_runs (wr_rels wr) (failed_gc_locations acc) w Hnd) as (rels & Erun & Hrels).
  { intros oid Hoid. by destruct (Hids oid Hoid). }
  assert (∀ x, published (set_phase x wr) = false → writer_ok ext tbl h (set_phase x wr) →
    (∀ b e, owed b e (set_phase x wr) = owed b e wr) →
    stepped ((w, h), ws) wr tbl ((w, h), <[i := set_phase x wr]> ws)) as Hnext.
  { intros x Hpx Hokx Howed. apply (consistent_step tbl tbl w h w h ws i wr); try done.
    - apply (co_table _ _ _ Hc).
    - intros j l Hj. split; [by eapply (co_locs _ _ _ Hc)|by apply (co_history _ _ _ Hc)].
    - intros oid l. tauto.
    - apply (co_wf _ _ _ Hc).
    - intros b fam Hfam. exists fam. split_and!; try (done || by left); [|intros e _; rewrite Howed; lia].
      intros _ He. unfold published, ended in Hpx, He. by destruct x.
    - intros _. unfold published. by rewrite Hp.
    - intros _. unfold ended. by rewrite Hp. }
  assert (writer_step wr (w, h) = (Ok (set_phase (if bool_decide (size rels = 0%nat) then
      Abandoned (subtract_from_len acc) else Decrementing (replaced_locations acc) (subtract_from_len acc)) wr), (w, h))) as Estep.
  { unfold writer_step. rewrite Hp. unfold wrld, zoom, mbind, M_bind. simpl. rewrite Erun. by case_bool_decide. }
  rewrite Estep. do 3 eexists. split; [done|]. apply Hnext.
  - by case_bool_decide.
  - case_bool_decide as Hz; unfold writer_ok; simpl; (split; [|done]) || split; [done|..].
    + intros oid l Hl Hb'. destruct (Honly oid l Hl Hb') as [[r Hr] Hn]. simpl in Hn.
      apply map_size_empty_iff in Hz. specialize (Hrels oid). rewrite Hz, lookup_empty, decide_False in Hrels by done.
      congruence.
    + intros e He. by apply Hrep.
  - intros b e. unfold owed. rewrite Hp. simpl. case_bool_decide as Hz; simpl; [|by repeat case_decide].
    destruct (replaced_locations acc) as [|x rest] eqn:Erep; [simpl; case_decide; lia|exfalso].
    destruct (Hrep x) as [_ [r Hr]]; [by left|].
    apply map_size_empty_iff in Hz. specialize (Hrels x.1). rewrite Hz, lookup_empty in Hrels.
    case_decide as Hf; [|congruence]. destruct (Hids x.1 Hf) as [_ Hn]. apply Hn. by left.
Qed.

(** *** Accounting for a replaced location *)

Lemma decrement_runs m base oid loc b p fam :
  range_next loc m = Some (b, p) → arcs m !! p = Some fam → b ≠ base → 1 ≤ fam_live_objects fam →
  decrement_evacuated_fams base [(oid, loc)] m
  = (Ok (), updated p (set_fam_live_objects (wrap64 (fam_live_objects fam - 1))) m).
Proof.
  intros Hr Hp Hne Hl. set (m' := updated p _ m).
  assert (wp (decrement_evacuated_fams base [(oid, loc)]) (λ _ m2, m2 = m') (λ _ _, False) (λ _, False) m) as Hw.
  { unfold decrement_evacuated_fams. cbn [forM]. wp_steps. eapply wp_unwrap; [exact Hr|]. wp_steps.
    apply wp_assert; [lia|]. wp_steps. eapply wp_deref; [exact Hp|]. wp_steps. apply wp_update_fam.
    apply wp_assert; [lia|]. by wp_steps. }
  unfold wp in Hw. destruct (decrement_evacuated_fams base [(oid, loc)] m) as [[[]| | |] m2]; try done.
  by subst m2.
Qed.

Lemma step_decrement tbl w h ws i wr x todo s :
  consistent ext tbl ((w, h), ws) → ws !! i = Some wr → wr_phase wr = Decrementing (x :: todo) s →
  ∃ wr' s' tbl', writer_step wr (w, h) = (Ok wr', s') ∧ stepped ((w, h), ws) wr tbl' (s', <[i := wr']> ws).
Proof.
  intros Hc Hi Hp. pose proof (list_elem_of_lookup_2 _ _ _ Hi) as Hin.
  destruct (co_writers _ _ _ Hc wr Hin) as [Hbase Hok]. simpl in Hok. pose proof Hok as Hok'.
  unfold writer_ok in Hok'. rewrite Hp in Hok'. destruct Hok' as [Hev Hs].
  destruct x as [oid loc]. destruct (Hev (oid, loc)) as ([_ [b Hb]] & Hnb & _); [by left|]. simpl in Hb, Hnb.
  set (m := w_fm w). pose proof (co_wf _ _ _ Hc) as Hwf. simpl in Hwf. fold m in Hwf.
  destruct (range_next_file ext Hext m b loc (co_files _ _ _ Hc) Hwf Hb) as (p & fam & Hr & Hk & Harc & Hfam).
  assert (b ≠ wr_base wr) as Hbw by (by intros ->).
  destruct Hb as (e & He & Hrange).
  assert (∀ y, y ∈ ws → 0 ≤ owed b e y) as Hpos.
  { intros y Hy. eapply owed_nonneg. by apply (co_writers _ _ _ Hc y Hy). }
  pose proof (co_live _ _ _ Hc b e fam He Hfam) as Hlive. simpl in Hlive.
  pose proof (co_bound _ _ _ Hc b fam Hfam) as Hbound.
  pose proof (sum_over_ge (owed b e) ws wr Hpos Hin) as Hge. pose proof (inhabitants_nonneg tbl b e) as Hinh.
  assert (1 ≤ fam_live_objects fam) as Hone.
  { assert (owed b e wr = 1 + count_in b e todo) as Eo.
    { unfold owed. rewrite Hp, decide_False, count_in_cons by done. unfold ind. simpl. by rewrite decide_True. }
    pose proof (count_in_nonneg b e todo). lia. }
  set (dec := set_fam_live_objects (wrap64 (fam_live_objects fam - 1))).
  destruct (updated_fam_at m b p dec fam Hwf Hk Harc eq_refl) as [Hwf' Hat].
  assert (writer_step wr (w, h) = (Ok (set_phase (Decrementing todo s) wr), (set_file_map (updated p dec m) w, h))) as Estep.
  { unfold writer_step. rewrite Hp. unfold wrld, fm, zoom, mbind, M_bind. cbn [fst snd]. fold m.
    by rewrite (decrement_runs m (wr_base wr) oid loc b p fam). }
  rewrite Estep. do 3 eexists. split; [done|].
  apply (consistent_step tbl tbl w h (set_file_map (updated p dec m) w) h ws i wr); try done.
  - apply (co_table _ _ _ Hc).
  - intros j l Hj. split; [by eapply (co_locs _ _ _ Hc)|by apply (co_history _ _ _ Hc)].
  - intros j l. tauto.
  - intros b' fam'. rewrite w_fm_set, Hat. case_decide as Hd.
    + subst b'. intros [= <-]. exists fam. simpl. rewrite wrap64_small by u64_lia.
      split_and!; [done|lia|done..|by left|done|]. intros e' He'. assert (e' = e) as -> by congruence.
      unfold owed. rewrite Hp, count_in_cons. cbn [wr_phase wr_base set_phase snd]. rewrite decide_False by done. unfold ind. rewrite decide_True by done. lia.
    + intros Hfam'. exists fam'. split_and!; try (done || by left). intros e' He'. unfold owed. rewrite Hp, count_in_cons. cbn [wr_phase wr_base set_phase snd].
      rewrite (ind_other ext Hext b' e' b loc); [case_decide; lia|done|by exists e|done].
  - intros b' Hb'. rewrite w_fm_set, Hat. case_decide; [eauto|done].
  - intros _. unfold published. by rewrite Hp.
  - intros _. unfold ended. by rewrite Hp.
  - unfold writer_ok. simpl. split; [|done]. intros y Hy. apply Hev. by right.
Qed.

(** *** Publishing the file *)

Lemma finalize_runs m b md s path p fam :
  cm_get (fams m) b = Some p → arcs m !! p = Some fam →
  fam_metadata fam = None → fam_path fam = None → s ≤ fam_live_objects fam →
  ∃ fin, finalize_fam b md s path m = (Ok (), updated p fin m) ∧
    fin fam = set_fam_live_objects (wrap64 (fam_live_objects fam - s))
                (set_fam_metadata (Some md) (set_fam_path (Some path) fam)).
Proof.
  intros Hk Hp Emd Epath Hs.
  assert (wp (finalize_fam b md s path) (λ _ m', ∃ fin, m' = updated p fin m ∧
    fin fam = set_fam_live_objects (wrap64 (fam_live_objects fam - s))
                (set_fam_metadata (Some md) (set_fam_path (Some path) fam))) (λ _ _, False) (λ _, False) m) as Hw.
  { unfold finalize_fam, install_metadata_and_path. wp_steps. eapply wp_unwrap; [exact Hk|]. wp_steps.
    eapply wp_deref; [exact Hp|]. wp_steps. apply wp_update_fam. wp_steps.
    apply wp_assert; [by apply bool_decide_eq_true|]. wp_steps. apply wp_update_fam. wp_steps.
    apply wp_assert; [by apply bool_decide_eq_true|]. wp_steps.
    eapply wp_deref; [by do 2 apply updated_arc|]. wp_steps. apply wp_update_fam.
    apply wp_assert; [simpl; lia|]. rewrite !updated_compose. eexists. split; [reflexivity|]. reflexivity. }
  unfold wp in Hw. destruct (finalize_fam b md s path m) as [[[]| | |] m']; try done.
  destruct Hw as (fin & -> & E). by exists fin.
Qed.

Lemma step_publish tbl w h ws i wr s :
  consistent ext tbl ((w, h), ws) → ws !! i = Some wr → wr_phase wr = Decrementing [] s →
  ∃ wr' s' tbl', writer_step wr (w, h) = (Ok wr', s') ∧ stepped ((w, h), ws) wr tbl' (s', <[i := wr']> ws).
Proof.
  intros Hc Hi Hp. pose proof (list_elem_of_lookup_2 _ _ _ Hi) as Hin.
  destruct (co_writers _ _ _ Hc wr Hin) as [Hbase Hok]. simpl in Hok.
  destruct Hbase as [e He]; [unfold ended; by rewrite Hp|].
  unfold writer_ok in Hok. rewrite Hp in Hok. destruct Hok as [_ Hs].
  set (m := w_fm w). pose proof (co_wf _ _ _ Hc) as Hwf. simpl in Hwf. fold m in Hwf. set (b := wr_base wr).
  assert (is_Some (fam_at m b)) as [fam Hfam] by (apply (co_files _ _ _ Hc); eauto).
  destruct (co_unpublished _ _ _ Hc wr fam Hin) as [Emd Epath]; [unfold published; by rewrite Hp|done|].
  apply fam_at_Some in Hfam as Hfam'. destruct Hfam' as (p & Hk & Harc).
  assert (∀ y, y ∈ ws → 0 ≤ owed b e y) as Hpos.
  { intros y Hy. eapply owed_nonneg. by apply (co_writers _ _ _ Hc y Hy). }
  pose proof (co_live _ _ _ Hc b e fam He Hfam) as Hlive. simpl in Hlive.
  pose proof (co_bound _ _ _ Hc b fam Hfam) as Hbound.
  pose proof (sum_over_ge (owed b e) ws wr Hpos Hin) as Hge. pose proof (inhabitants_nonneg tbl b e) as Hinh.
  assert (owed b e wr = s) as Hs'.
  { unfold owed. rewrite Hp, decide_True by done. simpl. lia. }
  destruct (finalize_runs m b (wr_md wr) s (wr_path wr) p fam Hk Harc Emd Epath) as (fin & Erun & Efin); [lia|].
  destruct (updated_fam_at m b p fin fam Hwf Hk Harc) as [Hwf' Hat]; [by rewrite Efin|].
  assert (writer_step wr (w, h) = (Ok (set_phase Releasing wr), (set_file_map (updated p fin m) w, h))) as Estep.
  { unfold writer_step. rewrite Hp. unfold wrld, fm, zoom, mbind, M_bind. cbn [fst snd]. fold m. fold b.
    by rewrite Erun. }
  rewrite Estep. do 3 eexists. split; [done|].
  apply (consistent_step tbl tbl w h (set_file_map (updated p fin m) w) h ws i wr); try done.
  - apply (co_table _ _ _ Hc).
  - intros j l Hj. split; [by eapply (co_locs _ _ _ Hc)|by apply (co_history _ _ _ Hc)].
  - intros j l. tauto.
  - intros b' fam'. rewrite w_fm_set, Hat. case_decide as Hd.
    + subst b'. intros [= <-]. exists fam. rewrite Efin. simpl. rewrite wrap64_small by u64_lia.
      split_and!; [done|lia|done..|by right|done|]. intros e' He'. assert (e' = e) as -> by (change (ext !! b = Some e) in He; congruence).
      rewrite Hs'. unfold owed. simpl. lia.
    + intros Hfam'. exists fam'. split_and!; try (done || by left). intros e' He'. unfold owed. rewrite Hp. simpl.
      rewrite decide_False by done. lia.
  - intros b' Hb'. rewrite w_fm_set, Hat. case_decide; [eauto|done].
  - intros _. unfold ended. by rewrite Hp.
Qed.

(** *** Releasing the claim *)

Lemma release_runs m b p fam :
  cm_get (fams m) b = Some p → arcs m !! p = Some fam → fam_rewrite_claim fam = true →
  drop_claims [b] m = (Ok (), updated p (set_fam_rewrite_claim false) m).
Proof.
  intros Hk Hp Hcl. set (m' := updated p _ m).
  assert (wp (drop_claims [b]) (λ _ m2, m2 = m') (λ _ _, False) (λ _, False) m) as Hw.
  { unfold drop_claims. cbn [forM]. wp_steps. rewrite Hk. wp_steps. eapply wp_deref; [exact Hp|]. wp_steps.
    apply wp_update_fam. apply wp_assert; [done|]. by wp_steps. }
  unfold wp in Hw. destruct (drop_claims [b] m) as [[[]| | |] m2]; try done. by subst m2.
Qed.

Lemma step_release tbl w h ws i wr :
  consistent ext tbl ((w, h), ws) → ws !! i = Some wr → wr_phase wr = Releasing →
  ∃ wr' s' tbl', writer_step wr (w, h) = (Ok wr', s') ∧ stepped ((w, h), ws) wr tbl' (s', <[i := wr']> ws).
Proof.
  intros Hc Hi Hp. pose proof (list_elem_of_lookup_2 _ _ _ Hi) as Hin.
  destruct (co_writers _ _ _ Hc wr Hin) as [Hbase _].
  assert (ended wr = false) as Hend by (unfold ended; by rewrite Hp). specialize (Hbase Hend).
  set (m := w_fm w). pose proof (co_wf _ _ _ Hc) as Hwf. simpl in Hwf. fold m in Hwf. set (b := wr_base wr) in *.
  assert (is_Some (fam_at m b)) as [fam Hfam] by by apply (co_files _ _ _ Hc).
  pose proof (co_claimed _ _ _ Hc wr fam Hin Hend Hfam) as Hcl.
  apply fam_at_Some in Hfam as Hfam'. destruct Hfam' as (p & Hk & Harc).
  set (rel := set_fam_rewrite_claim false). destruct (updated_fam_at m b p rel fam Hwf Hk Harc eq_refl) as [Hwf' Hat].
  assert (writer_step wr (w, h) = (Ok (set_phase Finished wr), (set_file_map (updated p rel m) w, h))) as Estep.
  { unfold writer_step. rewrite Hp. unfold wrld, fm, zoom, mbind, M_bind. cbn [fst snd]. fold m. fold b.
    by rewrite (release_runs m b p fam). }
  rewrite Estep. do 3 eexists. split; [done|].
  apply (consistent_step tbl tbl w h (set_file_map (updated p rel m) w) h ws i wr); try done.
  - apply (co_table _ _ _ Hc).
  - intros j l Hj. split; [by eapply (co_locs _ _ _ Hc)|by apply (co_history _ _ _ Hc)].
  - intros j l. tauto.
  - assert (∀ b' e, owed b' e (set_phase Finished wr) = owed b' e wr) as Ho by (intros; unfold owed; by rewrite Hp).
    intros b' fam'. rewrite w_fm_set, Hat. case_decide as Hd.
    + subst b'. intros [= <-]. exists fam. split_and!; try (done || by left); [|intros; rewrite Ho; simpl; lia].
      by intros [?|?].
    + intros Hfam'. exists fam'. split_and!; try (done || by left). intros e' He'. rewrite Ho. lia.
  - intros b' Hb'. rewrite w_fm_set, Hat. case_decide; [eauto|done].
Qed.
End steps.

(** ** New writers *)

Section join.
Context `{Deps, !DepsLaws}.

(** Extents for a file of [written] bytes at the next sequence number. *)
Definition extended (ext : gmap Z Z) (next written : Z) (d : bool) : gmap Z Z :=
  <[2 * (next + Z.b2z d * 2 ^ 62) := 2 * (next + Z.b2z d * 2 ^ 62 + written) + 2]> ext.

Section extend.
Context (ext : gmap Z Z) (tbl : gmap Z Z) (sys : system).
Context (Hext : files_disjoint ext) (Hc : consistent ext tbl sys).
Context (written : Z) (d : bool).
Abbreviation next := (next_file_lsn (w_fm sys.1.1)).
Context (Hw : 0 ≤ written) (Hroom : next + written + 1 < 2 ^ 62) (Hpos : 0 < next).
Abbreviation base := (2 * (next + Z.b2z d * 2 ^ 62)).
Abbreviation ext' := (extended ext next written d).

Lemma extended_fresh : ext !! base = None.
Proof.
  apply eq_None_not_Some. intros [e He]. destruct (co_alloc _ _ _ Hc _ e He) as (b & n & d' & E & _ & ? & ? & ?).
  destruct d, d'; cbn [Z.b2z] in *; lia.
Qed.

Lemma extended_disjoint : files_disjoint ext'.
Proof.
  destruct Hext as [Hp Hd]. unfold extended. split.
  - intros b e [[<- _]|[_ Hb]]%lookup_insert_Some; [destruct d; simpl; lia|by eapply Hp].
  - intros b e b' e' [[<- <-]|[_ Hb]]%lookup_insert_Some [[<- <-]|[_ Hb']]%lookup_insert_Some Hlt; [lia|..|by eapply Hd].
    + destruct (co_alloc _ _ _ Hc _ _ Hb') as (bb & n & d' & -> & -> & ? & ? & ?). destruct d, d'; cbn [Z.b2z] in *; lia.
    + destruct (co_alloc _ _ _ Hc _ _ Hb) as (bb & n & d' & -> & -> & ? & ? & ?). destruct d, d'; cbn [Z.b2z] in *; lia.
Qed.

Lemma extended_old b l : b ≠ base → (in_extent ext' b l ↔ in_extent ext b l).
Proof. intros Hne. unfold in_extent, extended. by rewrite lookup_insert_ne by auto. Qed.

Lemma extended_mono b l : in_extent ext b l → in_extent ext' b l.
Proof.
  intros Hin. apply extended_old; [|done]. intros ->. destruct Hin as (e & He & _). by rewrite extended_fresh in He.
Qed.

Lemma extended_some l : in_some_extent ext l → in_some_extent ext' l.
Proof. intros [? [b Hb]]. split; [done|]. exists b. by apply extended_mono. Qed.

(** Locations handed out before are not in the new file. *)
Lemma allocated_apart l : allocated next l → ¬ in_extent ext' base l.
Proof.
  intros (b & n & d' & Hl & ? & ? & ?) (e & He & Hin). unfold extended in He. rewrite lookup_insert_eq in He.
  injection He as <-. destruct d, d'; cbn [Z.b2z] in *; lia.
Qed.

Lemma in_extent_allocated b l : in_extent ext b l → allocated next l.
Proof.
  intros (e & He & Hin). destruct (co_alloc _ _ _ Hc b e He) as (base & n & d' & -> & -> & ? & ? & ?).
  by exists base, n, d'.
Qed.

Lemma extended_apart b l : in_extent ext b l → ¬ in_extent ext' base l.
Proof. intros Hb. by eapply allocated_apart, in_extent_allocated. Qed.

Lemma allocated_mono n1 n2 l : n1 ≤ n2 → allocated n1 l → allocated n2 l.
Proof. intros ? (b & n & d' & ? & ? & ? & ?). exists b, n, d'. split_and!; lia. Qed.

Lemma base_fresh : ¬ allocated next base.
Proof.
  intros Hal. apply (allocated_apart base Hal). eexists. split; [apply lookup_insert_eq|lia].
Qed.

Lemma extended_evacuated h wr x : wr_base wr ≠ base → evacuated ext h wr x → evacuated ext' h wr x.
Proof.
  intros Hne (? & ? & ?). unfold evacuated. rewrite extended_old by done.
  split_and!; [by apply extended_some|done..].
Qed.

Lemma extended_only P h wr : wr_base wr ≠ base → installed_only ext P h wr → installed_only ext' P h wr.
Proof. intros Hne HP oid l Hl Hb. apply (HP oid l Hl). by apply extended_old in Hb. Qed.

Lemma extended_writer h wr :
  allocated next (wr_base wr) → writer_ok ext tbl h wr → writer_ok ext' tbl h wr.
Proof.
  intros Hal. assert (wr_base wr ≠ base) as Hne by (intros E; rewrite E in Hal; by apply base_fresh in Hal).
  unfold writer_ok. destruct (wr_phase wr) as [todo acc|todo s| |s|]; [..|done].
  - intros (Hent & Hnd & Hids & Hrep & Hs & Honly). split_and!; try done; [..|by apply extended_only].
    + intros entry (new & [])%Hent. exists new. split; try done; [by apply extended_mono|].
      intros l Hl. rewrite extended_old by done. auto.
    + intros x Hx. destruct (Hrep x Hx). split; [by apply extended_evacuated|done].
  - intros [Hev Hs]. split; [|done]. intros x Hx. apply extended_evacuated; auto.
  - done.
  - intros [Hs Honly]. split; [done|by apply extended_only].
Qed.

Lemma in_extended_new off b :
  0 ≤ off ≤ written → in_extent ext' base (2 * (off + (next + Z.b2z d * 2 ^ 62)) + Z.b2z b).
Proof.
  intros Hoff. unfold in_extent, extended. eexists. split; [apply lookup_insert_eq|].
  destruct b; cbn [Z.b2z]; lia.
Qed.

(** A writer that has just joined. *)
Lemma joined_writer old rels md path :
  (∀ oid rel, rels !! oid = Some rel → ∃ off db, rel = 2 * off + Z.b2z db ∧ 0 ≤ off ≤ written) →
  (∀ oid, is_Some (old !! oid) → is_Some (tbl !! oid)) →
  writer_ok ext' tbl sys.1.2 (MkWriter base old rels md path (start_phase rels)).
Proof.
  intros Hrels Hold. unfold writer_ok. simpl. rewrite app_nil_r.
  assert (∀ oid l, added sys.1.2 oid l ∨ removed sys.1.2 oid l → ¬ in_extent ext' base l) as Hunseen.
  { intros oid l Hl. apply allocated_apart. by apply (co_located _ _ _ Hc oid). }
  split_and!.
  - intros [oid rel] Hin%iter_order_elem. destruct (Hrels oid rel Hin) as (off & db & -> & Hoff).
    exists (2 * (off + (next + Z.b2z d * 2 ^ 62)) + Z.b2z db).
    assert (0 ≤ Z.b2z d ≤ 1) as Hd by (destruct d; simpl; lia).
    split; simpl.
    + rewrite lsn_fam. apply to_absolute_spec; lia.
    + by apply in_extended_new.
    + destruct db; simpl; lia.
    + intros l Hl. apply (Hunseen oid). left. by apply (co_history _ _ _ Hc).
    + split; intros Hl; eapply Hunseen; eauto; by apply in_extended_new.
    + apply Hold.
  - apply iter_order_nodup.
  - intros oid ([i r] & -> & Hin)%list_elem_of_fmap. apply iter_order_elem in Hin. simpl.
    split; [eauto|apply not_elem_of_nil].
  - intros e He. by apply not_elem_of_nil in He.
  - done.
  - intros oid l Hl Hb. destruct (Hunseen oid l); [by left|done].
Qed.

Lemma extended_counts : inhabitants tbl base (2 * (next + Z.b2z d * 2 ^ 62 + written) + 2) = 0 ∧
  ∀ wr, wr ∈ sys.2 → owed base (2 * (next + Z.b2z d * 2 ^ 62 + written) + 2) wr = 0.
Proof.
  set (e := 2 * (next + Z.b2z d * 2 ^ 62 + written) + 2).
  assert (∀ l, in_some_extent ext l → ind base e l = 0) as Hind.
  { intros l [_ [b Hb]]. unfold ind. rewrite decide_False; [done|]. intros Hin. apply (extended_apart b l Hb).
    exists e. split; [apply lookup_insert_eq|done]. }
  split.
  - pose proof (co_locs _ _ _ Hc) as Hl. unfold inhabitants.
    assert (∀ m, m ⊆ tbl → map_fold (λ _ l acc, ind base e l + acc) 0 m = 0) as Hgen; [|by apply Hgen].
    intros m. induction m as [|i x m Hi IH] using map_ind; [done|]. intros Hsub.
    rewrite (map_fold_insert_L (λ _ l acc, ind base e l + acc)) by (done || (intros; lia)).
    rewrite (Hind x), IH; [done| |].
    + etrans; [by apply insert_subseteq|done].
    + apply (Hl i). eapply lookup_weaken; [apply lookup_insert_eq|done].
  - intros wr Hwr. destruct (co_writers _ _ _ Hc wr Hwr) as [_ Hok]. pose proof (co_based _ _ _ Hc wr Hwr) as Hal.
    assert (wr_base wr ≠ base) as Hne by (intros E; rewrite E in Hal; by apply base_fresh in Hal).
    assert (∀ l, (∀ x, x ∈ l → in_some_extent ext x.2) → count_in base e l = 0) as Hcnt.
    { intros l. unfold count_in. induction l as [|x l IH]; simpl; intros Hl; [done|].
      rewrite Hind by (apply Hl; by left). rewrite IH; [done|]. intros y Hy. apply Hl. by right. }
    unfold owed. unfold writer_ok, evacuated in Hok.
    destruct (wr_phase wr) as [todo acc|todo s| |s|]; rewrite ?decide_False by done; [..|done|done|done].
    + rewrite Hcnt; [done|]. intros x Hx. by apply Hok.
    + rewrite Hcnt; [done|]. intros x Hx. by apply Hok.
Qed.
End extend.

(** The system after a writer has joined. *)
Record joined (ext tbl : gmap Z Z) (sys : system) (ext' : gmap Z Z) (sys' : system) : Prop := {
  jd_disjoint : files_disjoint ext';
  jd_consistent : consistent ext' tbl sys';
  jd_extent b l : in_extent ext b l → in_extent ext' b l;
  jd_old b l : allocated (next_file_lsn (w_fm sys.1.1)) l → in_extent ext' b l → in_extent ext b l;
  jd_fam b fam : fam_at (w_fm sys.1.1) b = Some fam → fam_at (w_fm sys'.1.1) b = Some fam;
  jd_new b : is_Some (fam_at (w_fm sys'.1.1) b) →
    is_Some (fam_at (w_fm sys.1.1) b) ∨ ¬ allocated (next_file_lsn (w_fm sys.1.1)) b;
  jd_next : next_file_lsn (w_fm sys.1.1) ≤ next_file_lsn (w_fm sys'.1.1);
  jd_writers wr : wr ∈ sys'.2 → wr ∈ sys.2 ∨
    fam_at (w_fm sys.1.1) (wr_base wr) = None ∧ present_objects (wr_md wr) ≠ 0;
  jd_others wr : wr ∈ sys.2 → wr ∈ sys'.2;
  jd_added b fam : fam_at (w_fm sys'.1.1) b = Some fam → fam_at (w_fm sys.1.1) b = Some fam ∨
    fam_metadata fam = None ∧ ∃ wr, wr ∈ sys'.2 ∧ ended wr = false ∧ wr_base wr = b;
}.

(** One writer joins: [m] is the file map after [FileMap::insert]. *)
Section joining.
Context (ext tbl : gmap Z Z) (w : World) (h : DebugHistory) (ws : list Writer).
Context (Hext : files_disjoint ext) (Hc : consistent ext tbl ((w, h), ws)).
Context (file : File) (written gen : Z) (is_gc : bool) (config : Config) (z : ZstdDict)
  (old : gmap Z DiskLocation.t) (rels : gmap Z RelativeDiskLocation.t) (md : Metadata) (path : string) (m : FileMap).
Context (Hj : joins w written old rels) (Hmd : present_objects md ≠ 0).

Let d := negb is_gc.
Let next := next_file_lsn (w_fm w).
Let nb := 2 * (next + Z.b2z d * 2 ^ 62).
Let ext' := extended ext next written d.
Let fam := MkFam file nb None None (Z.of_nat (size rels)) gen true (fsync_each_batch config) z.
Let wr := MkWriter nb old rels md path (start_phase rels).

Context (Hwf' : fm_wf m) (Hnext : next_file_lsn m = next + written + 1).
Context (Hat : ∀ j, fam_at m j = if decide (j = nb) then Some fam else fam_at (w_fm w) j).

Lemma joining_fresh : ext !! nb = None.
Proof. destruct Hj as [Hw Hroom _ _ _]. apply (extended_fresh ext tbl ((w, h), ws) Hc written d Hw Hroom). Qed.

Lemma joining_none : fam_at (w_fm w) nb = None.
Proof.
  apply eq_None_not_Some. rewrite (co_files _ _ _ Hc nb : is_Some (fam_at (w_fm w) nb) ↔ _), joining_fresh.
  by intros [].
Qed.

Lemma joining_unallocated : ¬ allocated next nb.
Proof. destruct Hj as [Hw Hroom _ _ _]. apply (base_fresh ext ((w, h), ws) written d Hw Hroom). Qed.

Lemma joining_other wr2 : wr2 ∈ ws → wr_base wr2 ≠ nb.
Proof. intros Hwr2 E. apply joining_unallocated. rewrite <- E. by apply (co_based _ _ _ Hc). Qed.

Lemma joining_lookup b : ext' !! b = if decide (b = nb) then Some (2 * (next + Z.b2z d * 2 ^ 62 + written) + 2) else ext !! b.
Proof.
  unfold ext', extended. rewrite lookup_insert. fold nb.
  destruct (decide (b = nb)) as [->|Hne]; [by rewrite decide_True|by rewrite decide_False].
Qed.

(** The new file has as many live objects as the new writer owes. *)
Lemma joining_live b e fam' :
  ext' !! b = Some e → fam_at m b = Some fam' →
  fam_live_objects fam' = inhabitants tbl b e + sum_over (owed b e) (ws ++ [wr]).
Proof.
  intros He. rewrite Hat. destruct Hj as [Hw Hroom _ _ _].
  assert (sum_over (owed b e) (ws ++ [wr]) = sum_over (owed b e) ws + owed b e wr) as ->.
  { unfold sum_over. rewrite foldr_app. simpl. clear. induction ws as [|y ws' IH]; simpl; lia. }
  assert (wr_phase wr = Installing (iter_order rels) (MkInstalled [] [] 0)) as Hp by done.
  pose proof (extended_counts ext tbl ((w, h), ws) Hc written d Hw Hroom) as [Hinh Howed].
  rewrite joining_lookup in He. destruct (decide (b = nb)) as [->|Hne].
  - injection He as <-. intros [= <-]. simpl.
    change (inhabitants tbl nb (2 * (next + Z.b2z d * 2 ^ 62 + written) + 2) = 0) in Hinh. rewrite Hinh.
    rewrite sum_over_zero by exact Howed. unfold owed. rewrite Hp, decide_True by done.
    simpl. rewrite iter_order_length. lia.
  - intros Hfam'. rewrite (co_live _ _ _ Hc b e fam' He Hfam').
    unfold owed at 3. rewrite Hp, decide_False by auto. simpl. lia.
Qed.

Lemma joining_writers wr2 :
  wr2 ∈ ws ++ [wr] → (ended wr2 = false → is_Some (ext' !! wr_base wr2)) ∧ writer_ok ext' tbl h wr2.
Proof.
  pose proof (co_next _ _ _ Hc) as Hpos. change (0 < next) in Hpos. destruct Hj as [Hw Hroom Hsize Hrels Hold].
  intros [Hwr2| ->%list_elem_of_singleton]%elem_of_app.
  - destruct (co_writers _ _ _ Hc wr2 Hwr2) as [Hb Hok]. split.
    + intros Hs%Hb. rewrite joining_lookup, decide_False by by apply joining_other. exact Hs.
    + apply (extended_writer ext tbl ((w, h), ws) Hc written d Hw Hroom); [by apply (co_based _ _ _ Hc)|done].
  - split; [intros _; change (wr_base wr) with nb; rewrite joining_lookup, decide_True by done; eauto|].
    apply (joined_writer ext tbl ((w, h), ws) Hc written d Hroom Hpos); try done.
    intros oid Hs%Hold. pose proof (co_table _ _ _ Hc oid) as Ht. simpl in Ht.
    destruct Hs as [l [Hl Hlne]%load_Some]. rewrite Ht in Hl. destruct (tbl !! oid); [eauto|done].
Qed.

Lemma joining_fam (P : FileAndMetadata → Prop) wr2 fam' :
  (wr2 ∈ ws → fam_at (w_fm w) (wr_base wr2) = Some fam' → P fam') → P fam →
  wr2 ∈ ws ++ [wr] → fam_at m (wr_base wr2) = Some fam' → P fam'.
Proof.
  intros Hold Hnew [Hwr2| ->%list_elem_of_singleton]%elem_of_app; rewrite Hat.
  - rewrite decide_False by by apply joining_other. by apply Hold.
  - rewrite decide_True by done. by intros [= <-].
Qed.

Lemma joining_alloc b e : ext' !! b = Some e →
  ∃ base n d', b = 2 * (base + Z.b2z d' * 2 ^ 62) ∧ e = 2 * (base + Z.b2z d' * 2 ^ 62 + n) + 2 ∧
    0 < base ∧ 0 ≤ n ∧ base + n < next_file_lsn m.
Proof.
  pose proof (co_next _ _ _ Hc) as Hpos. change (0 < next) in Hpos. destruct Hj as [Hw _ _ _ _].
  rewrite joining_lookup, Hnext. case_decide as E.
  - intros [= <-]. exists next, written, d. subst b. unfold nb. split_and!; lia.
  - intros He. destruct (co_alloc _ _ _ Hc b e He) as (bb & n & d' & ? & ? & ? & ? & Hlt). simpl in Hlt.
    fold next in Hlt. exists bb, n, d'. split_and!; lia || done.
Qed.

Lemma joining_allocated l : allocated next l → allocated (next_file_lsn m) l.
Proof. rewrite Hnext. destruct Hj. apply (allocated_mono next). lia. Qed.

Lemma joining_consistent : consistent ext' tbl ((set_file_map m w, h), ws ++ [wr]).
Proof.
  pose proof (co_next _ _ _ Hc) as Hpos. change (0 < next) in Hpos. destruct Hj as [Hw Hroom _ _ _].
  split; simpl; rewrite ?w_fm_set.
  - apply (co_table _ _ _ Hc).
  - intros oid l Hl. apply (extended_some ext tbl ((w, h), ws) Hc written d Hw Hroom). by apply (co_locs _ _ _ Hc oid).
  - done.
  - intros b. rewrite Hat, joining_lookup. case_decide; [split; eauto|]. apply (co_files _ _ _ Hc).
  - apply joining_live.
  - intros b fam'. rewrite Hat. case_decide; [intros [= <-]; apply Hj|]. apply (co_bound _ _ _ Hc).
  - apply (co_history _ _ _ Hc).
  - apply joining_writers.
  - intros wr2 fam' Hwr2 Hpub. apply (joining_fam (λ f, fam_metadata f = None ∧ fam_path f = None)); [|done..].
    intros ?. by apply (co_unpublished _ _ _ Hc wr2).
  - intros wr2 fam' Hwr2 Hpub. apply (joining_fam (λ f, fam_rewrite_claim f = true)); [|done..].
    intros ?. by apply (co_claimed _ _ _ Hc wr2).
  - rewrite fmap_app. apply NoDup_app. split_and!; [apply (co_bases _ _ _ Hc)| |apply NoDup_singleton].
    intros b (wr2 & -> & Hwr2)%list_elem_of_fmap E%list_elem_of_singleton. by apply (joining_other wr2 Hwr2).
  - intros wr2 [Hwr2| ->%list_elem_of_singleton]%elem_of_app; [by apply joining_allocated, (co_based _ _ _ Hc)|].
    rewrite Hnext. exists next, written, d. change (wr_base wr) with nb. unfold nb. split_and!; lia.
  - intros oid l Hl%(co_located _ _ _ Hc). by apply joining_allocated.
  - apply joining_alloc.
  - rewrite Hnext. lia.
Qed.

Lemma joining_joined : joined ext tbl ((w, h), ws) ext' ((set_file_map m w, h), ws ++ [wr]).
Proof.
  pose proof (co_next _ _ _ Hc) as Hpos. destruct Hj as [Hw Hroom _ _ _].
  split; [by apply (extended_disjoint ext tbl ((w, h), ws))|apply joining_consistent|..]; simpl; rewrite ?w_fm_set.
  - intros b l. apply (extended_mono ext tbl ((w, h), ws) Hc written d Hw Hroom).
  - intros b l Hal Hin. destruct (decide (b = nb)) as [->|Hne].
    + by apply (allocated_apart ext ((w, h), ws) written d Hroom) in Hin.
    + by apply (extended_old ext ((w, h), ws) written d) in Hin.
  - intros b fam' Hb. rewrite Hat, decide_False; [done|]. intros ->. by rewrite joining_none in Hb.
  - intros b. rewrite Hat. case_decide; [subst b; right; apply joining_unallocated|by left].
  - rewrite Hnext. fold next. lia.
  - intros wr2 [Hwr2| ->%list_elem_of_singleton]%elem_of_app; [by left|right; split; [apply joining_none|done]].
  - intros wr2 Hwr2. apply elem_of_app. by left.
  - intros b fam'. rewrite Hat. case_decide as E; [|by left]. intros [= <-]. right. split; [done|].
    exists wr. split_and!; [|done..]. apply elem_of_app. right. by left.
Qed.
End joining.

Lemma sys_join_consistent ext tbl sys sys' :
  files_disjoint ext → consistent ext tbl sys → sys_join sys sys' → ∃ ext', joined ext tbl sys ext' sys'.
Proof.
  intros Hext Hc Hjoin.
  destruct Hjoin as [w h ws file written gen is_gc config z old rels md path base claims m Hj Hmd Erun].
  pose proof (co_next _ _ _ Hc) as Hpos. simpl in Hpos.
  set (nb := 2 * (next_file_lsn (w_fm w) + Z.b2z (negb is_gc) * 2 ^ 62)).
  set (fam := MkFam file nb None None (Z.of_nat (size rels)) gen true (fsync_each_batch config) z).
  assert (wp (FileMap.insert file written (Z.of_nat (size rels)) gen is_gc config z)
    (λ r m', r.1 = nb ∧ fm_wf m' ∧ (∀ j, fam_at m' j = if decide (j = nb) then Some fam else fam_at (w_fm w) j) ∧
       next_file_lsn m' = next_file_lsn (w_fm w) + written + 1) (λ _ _, False) (λ _, False) (w_fm w)) as Hins.
  { destruct Hj. apply wp_insert; try done; [apply (co_wf _ _ _ Hc)|].
    eapply (joining_none ext tbl w h ws Hc written is_gc old rels). done. }
  pose proof (wp_run _ _ _ _ _ _ _ Hins Erun) as (Eb & Hwf' & Hat & Hnext).
  simpl in Eb. subst base. eexists. by eapply joining_joined.
Qed.
End join.

(** ** A store without writers *)

Section start.
Context `{Deps, !DepsLaws}.
Implicit Types L : list LogFile.

Lemma inhabitants_size tbl lo hi :
  inhabitants tbl lo hi = Z.of_nat (size (filter (λ e : Z * Z, lo ≤ e.2 < hi) tbl)).
Proof.
  induction tbl as [|i x m Hi IH] using map_ind.
  - by rewrite map_filter_empty, map_size_empty.
  - rewrite inhabitants_insert_new, IH by done. unfold ind. case_decide as Hd.
    + rewrite map_filter_insert_True by done. rewrite map_size_insert_None; [lia|].
      apply map_lookup_filter_None. by left.
    + rewrite map_filter_insert_False by done. rewrite delete_id; [done|]. done.
Qed.

Definition extents (L : list LogFile) : gmap Z Z :=
  list_to_map ((λ f, (lf_location f, 2 * (lf_lsn f + lf_end f) + 2)) <$> L).

Lemma extents_lookup L b e :
  sorted L → Forall lf_wf L →
  extents L !! b = Some e ↔ ∃ f, f ∈ L ∧ b = lf_location f ∧ e = 2 * (lf_lsn f + lf_end f) + 2.
Proof.
  intros Hs HF. unfold extents. rewrite <- elem_of_list_to_map.
  - rewrite list_elem_of_fmap. split; [intros (f & [= -> ->] & Hf); eauto|intros (f & Hf & -> & ->); eauto].
  - rewrite <- list_fmap_compose. apply NoDup_fmap_2_strong.
    + intros f g Hf Hg E. apply (sorted_lsn L); try done. unfold lf_location in E. simpl in E. lia.
    + by apply sorted_nodup.
Qed.

Lemma extents_disjoint L : sorted L → Forall lf_wf L → files_disjoint (extents L).
Proof.
  intros Hs HF. pose proof HF as HF'. rewrite Forall_forall in HF'. split.
  - intros b e (f & Hf & -> & _)%extents_lookup; [|done..]. unfold lf_location.
    pose proof (lf_lsn_range f (HF' f Hf)). lia.
  - intros b e b' e' (f & Hf & -> & ->)%extents_lookup (g & Hg & -> & ->)%extents_lookup Hlt; [|done..].
    unfold lf_location in *. pose proof (HF' f Hf) as Hwf. pose proof (HF' g Hg) as Hwg.
    pose proof (lf_end_pos f Hwf). pose proof (lf_end_pos g Hwg).
    destruct (Z.le_gt_cases (2 * (lf_lsn f + lf_end f) + 2) (2 * lf_lsn g)) as [?|Hgt]; [lia|exfalso].
    destruct (sorted_elem L f g Hs Hf Hg) as [->|Hord]; [lia|].
    apply (in_file_disjoint f g (2 * lf_lsn g)); [done..| |]; unfold in_file; lia.
Qed.

Lemma in_extents L f loc :
  sorted L → Forall lf_wf L → f ∈ L → in_file f loc → in_extent (extents L) (lf_location f) loc.
Proof.
  intros Hs HF Hf Hin. exists (2 * (lf_lsn f + lf_end f) + 2). split; [apply extents_lookup; eauto|].
  unfold in_file, lf_location in *. lia.
Qed.

(** The marks recovery leaves in the history of a validation build. *)
Definition recovery_marks (tbl : gmap Z Z) : list mark := (λ e, Add e.1 e.2) <$> iter_order tbl.

Lemma recovery_marks_run tbl :
  ∃ h, run_marks (recovery_marks tbl) DebugHistory_default = (Ok (), h) ∧
    ∀ oid l, (added h oid l ↔ tbl !! oid = Some l) ∧ ¬ removed h oid l.
Proof.
  pose proof (run_marks_legal (recovery_marks tbl)) as Hr.
  assert (∀ oid l, Add oid l ∈ recovery_marks tbl ↔ tbl !! oid = Some l) as Hin.
  { intros oid l. unfold recovery_marks. rewrite list_elem_of_fmap, <- iter_order_elem. split.
    - intros ([i x] & [= -> ->] & Hi). done.
    - intros Hi. by exists (oid, l). }
  assert (∀ oid l, Remove oid l ∉ recovery_marks tbl) as Hno.
  { intros oid l (e & ? & _)%list_elem_of_fmap. done. }
  assert (legal (recovery_marks tbl)) as Hlegal.
  { intros bf m af E. assert (NoDup (recovery_marks tbl)) as Hnd.
    { unfold recovery_marks. apply NoDup_fmap_2_strong.
      - intros [i x] [j y] _ _ [= -> ->]. done.
      - apply (NoDup_fmap_1 fst), iter_order_nodup. }
    rewrite E in Hnd. apply NoDup_app in Hnd as (_ & Hd & Hnd).
    assert (m ∈ recovery_marks tbl) as Hm by (rewrite E; set_solver).
    destruct m as [oid l|oid l]; [|by apply Hno in Hm]. split.
    - intros Hb. apply (Hd _ Hb). by left.
    - intros Hb. apply (Hno oid l). rewrite E. set_solver. }
  destruct (run_marks (recovery_marks tbl) DebugHistory_default) as [[[]| | |] h]; [|done..].
  exists h. split; [done|]. intros oid l. destruct Hr as [_ Hh]. destruct (Hh oid l) as [-> ->].
  split; [apply Hin|apply Hno].
Qed.

(** An open store is a system without writers. *)
Lemma inv_consistent w L h :
  Inv w L unclaimed → run_marks (recovery_marks (locs L)) DebugHistory_default = (Ok (), h) →
  files_disjoint (extents L) ∧ consistent (extents L) (locs L) ((w, h), []).
Proof.
  intros Hi Hh. pose proof (inv_sorted _ _ _ Hi) as Hs. pose proof (inv_wf _ _ _ Hi) as HF.
  pose proof HF as HF'. rewrite Forall_forall in HF'. split; [by apply extents_disjoint|].
  destruct (recovery_marks_run (locs L)) as (h' & Eh & Hmarks). rewrite Hh in Eh. injection Eh as <-.
  pose proof (inv_fams _ _ _ Hi) as [Hwf Hfam Hkey [Hnext0 Hnext]].
  assert (∀ oid l, locs L !! oid = Some l → ∃ f, f ∈ L ∧ in_file f l) as Howner.
  { intros oid l Hl. destruct (locs_owner L oid l HF Hl) as (f & Hf & Ha & _). exists f.
    split; [done|]. by apply (lf_abs_in_file f oid); auto. }
  assert (∀ b e, extents L !! b = Some e → ∃ base n d,
    b = 2 * (base + Z.b2z d * 2 ^ 62) ∧ e = 2 * (base + Z.b2z d * 2 ^ 62 + n) + 2 ∧
    0 < base ∧ 0 ≤ n ∧ base + n < next_file_lsn (w_fm w)) as Halloc.
  { intros b e (f & Hf & -> & ->)%extents_lookup; [|done..]. pose proof (HF' f Hf) as Hw.
    destruct (wf_lsn f Hw) as [d E]. exists (lf_base f), (lf_end f), d. unfold lf_location.
    pose proof (wf_base f Hw). pose proof (lf_end_pos f Hw). specialize (Hnext f Hf). rewrite E. split_and!; lia. }
  split; simpl.
  - apply (mo_table _ _ _ (inv_mem _ _ _ Hi)).
  - intros oid l Hl. split; [apply (locs_range L oid l HF Hl)|]. destruct (Howner oid l Hl) as (f & Hf & Hin).
    exists (lf_location f). by apply in_extents.
  - done.
  - intros b. split.
    + intros [fam Hb]. destruct (Hkey b fam Hb) as (f & Hf & ->). eexists. apply extents_lookup; eauto.
    + intros [e (f & Hf & -> & _)%extents_lookup]; [|done..]. destruct (Hfam f Hf) as (fam & ? & _); eauto.
  - intros b e fam (f & Hf & -> & ->)%extents_lookup Hb; [|done..].
    destruct (Hfam f Hf) as (fam' & Hb' & Hok). assert (fam' = fam) as -> by congruence.
    rewrite (fo_live _ _ _ _ Hok), inhabitants_size. unfold live, sum_over. simpl. rewrite Z.add_0_r.
    do 2 f_equal. apply map_filter_ext. intros oid l _. simpl. unfold in_file, lf_location. lia.
  - intros b fam Hb. destruct (Hkey b fam Hb) as (f & Hf & ->).
    destruct (Hfam f Hf) as (fam' & Hb' & Hok). assert (fam' = fam) as -> by congruence.
    rewrite (fo_live _ _ _ _ Hok). pose proof (live_le L (locs L) f Hs HF Hf (reflexivity _)).
    pose proof (entries_u64 f (HF' f Hf)). unfold two64. lia.
  - intros oid l Hl. split; [by apply Hmarks|]. by apply Hmarks.
  - intros wr Hwr. by apply not_elem_of_nil in Hwr.
  - intros wr fam Hwr. by apply not_elem_of_nil in Hwr.
  - intros wr fam Hwr. by apply not_elem_of_nil in Hwr.
  - constructor.
  - intros wr Hwr. by apply not_elem_of_nil in Hwr.
  - intros oid l [Hl|Hl]; [|by apply Hmarks in Hl]. apply Hmarks in Hl.
    destruct (Howner oid l Hl) as (f & Hf & Hin). destruct (in_extents L f l Hs HF Hf Hin) as (e & He & Hl').
    destruct (Halloc _ e He) as (base & n & d & Eb & Ee & ? & ? & ?). rewrite Eb, Ee in Hl'. by exists base, n, d.
  - exact Halloc.
  - done.
Qed.
End start.

(** ** Executions *)

Section executions.
Context `{Deps, !DepsLaws}.
Implicit Types sys : system.

Definition accounted sys : Prop := ∃ ext tbl, files_disjoint ext ∧ consistent ext tbl sys.

(** A writer that has not finished can take its next step, whatever the others do. *)
Lemma writer_progress ext tbl sys i wr :
  files_disjoint ext → consistent ext tbl sys → sys.2 !! i = Some wr → finished wr = false →
  ∃ wr' s' tbl', writer_step wr sys.1 = (Ok wr', s') ∧ stepped ext sys wr tbl' (s', <[i := wr']> sys.2).
Proof.
  destruct sys as [[w h] ws]. simpl. intros Hext Hc Hi Hfin. unfold finished in Hfin.
  destruct (wr_phase wr) as [[|e todo] acc|[|e todo] s| |s|] eqn:Hp; try done.
  - by eapply step_settle.
  - by eapply step_install.
  - by eapply step_publish.
  - by eapply step_decrement.
  - by eapply step_release.
Qed.

Lemma accounted_next sys sys' : accounted sys → sys_next sys sys' → accounted sys'.
Proof.
  intros (ext & tbl & Hext & Hc) [Hstep|Hjoin].
  - destruct Hstep as [s s' ws i wr wr' Hi Hfin Erun].
    destruct (writer_progress ext tbl (s, ws) i wr Hext Hc Hi Hfin) as (wr2 & s2 & tbl2 & E & Hc2).
    simpl in E. rewrite Erun in E. injection E as <- <-. exists ext, tbl2. split; [done|apply Hc2].
  - destruct (sys_join_consistent ext tbl sys sys' Hext Hc Hjoin) as [ext' Hj]. exists ext', tbl. split; apply Hj.
Qed.

Lemma accounted_reachable sys sys' : accounted sys → rtc sys_next sys sys' → accounted sys'.
Proof. intros Ha Hr. induction Hr; eauto using accounted_next. Qed.

Definition total_steps_left sys : nat := sum_list_with steps_left sys.2.

(** Every step brings its writer closer to its end. *)
Lemma step_decreases wr s wr' s' :
  finished wr = false → writer_step wr s = (Ok wr', s') → (steps_left wr' < steps_left wr)%nat.
Proof.
  unfold writer_step, steps_left, finished.
  destruct (wr_phase wr) as [[|e todo] acc|[|e todo] x| |x|] eqn:Hp; try done; intros _.
  - unfold mbind, M_bind. destruct (wrld _ s) as [[rels| | |] s1]; try done.
    case_bool_decide; intros [= <- _]; simpl; lia.
  - unfold mbind, M_bind. destruct (install_object_validated (wr_old wr) (wr_base wr) acc e s) as [[acc'| | |] s1] eqn:E; try done.
    intros [= <- _]. simpl. assert (length (replaced_locations acc') ≤ S (length (replaced_locations acc)))%nat; [|lia].
    revert E. unfold install_object_validated, mbind, M_bind, mret, M_ret. destruct e as [oid rel].
    repeat case_match; intros; simplify_eq/=; rewrite ?length_app; simpl; lia.
  - unfold mbind, M_bind. destruct (wrld _ s) as [[[]| | |] s1]; try done. intros [= <- _]. simpl. lia.
  - unfold mbind, M_bind. destruct (wrld _ s) as [[[]| | |] s1]; try done. intros [= <- _]. simpl. lia.
  - unfold mbind, M_bind. destruct (wrld _ s) as [[[]| | |] s1]; try done. intros [= <- _]. simpl. lia.
Qed.

Lemma sum_list_with_insert (ws : list Writer) i wr wr' :
  ws !! i = Some wr →
  (sum_list_with steps_left (<[i := wr']> ws) + steps_left wr = sum_list_with steps_left ws + steps_left wr')%nat.
Proof.
  revert i. induction ws as [|x ws IH]; intros [|i]; simpl; try done.
  - intros [= ->]. lia.
  - intros Hi%IH. lia.
Qed.

Lemma sys_step_decreases sys sys' :
  sys_step sys sys' → (total_steps_left sys' < total_steps_left sys)%nat.
Proof.
  intros [s s' ws i wr wr' Hi Hfin Erun]. unfold total_steps_left. simpl.
  pose proof (sum_list_with_insert ws i wr wr' Hi). pose proof (step_decreases wr s wr' s' Hfin Erun). lia.
Qed.

(** *** One writer by itself *)

(** The marks of the debug history change nothing else. *)
Lemma install_object_erased old base acc e w h acc' w' h' :
  install_object_validated old base acc e (w, h) = (Ok acc', (w', h')) →
  install_object old base acc e w = (Ok acc', w').
Proof.
  unfold install_object_validated, install_object, mbind, M_bind, wrld, hist, zoom, unwrap, mret, M_ret, panic.
  destruct e as [oid rel]. cbn [fst snd].
  repeat case_match; intros; simplify_eq/=; congruence.
Qed.

(** Steps 3, 4 and the end of step 6 of [write_batch_inner] and the release of the claim,
    without the input and output in between; [true] if the file is left to be deleted. *)
Definition install_sequentially (wr : Writer) : M World bool :=
  installed ← foldM (install_object (wr_old wr) (wr_base wr)) (MkInstalled [] [] 0)
    (iter_order (wr_rels wr));
  rels ← foldM remove_failed (wr_rels wr) (failed_gc_locations installed);
  if bool_decide (size rels = 0%nat) then mret true
  else
    fm (decrement_evacuated_fams (wr_base wr) (replaced_locations installed));;
    fm (finalize_fam (wr_base wr) (wr_md wr) (subtract_from_len installed) (wr_path wr));;
    fm (drop_claims [wr_base wr]);;
    mret false.

Definition abandoned (wr : Writer) : bool := match wr_phase wr with Abandoned _ => true | _ => false end.

Lemma run_writer_finished n wr s : finished wr = true → run_writer n wr s = (Ok wr, s).
Proof. intros Hf. destruct n; [done|]. cbn [run_writer]. by rewrite Hf. Qed.

Lemma run_writer_S n wr s :
  finished wr = false → run_writer (S n) wr s = (writer_step wr ≫= run_writer n) s.
Proof. intros Hf. cbn [run_writer]. by rewrite Hf. Qed.

Lemma run_installing todo acc wr n w h wr' s' :
  wr_phase wr = Installing todo acc → run_writer (length todo + n) wr (w, h) = (Ok wr', s') →
  ∃ acc' w1 h1, foldM (install_object (wr_old wr) (wr_base wr)) acc todo w = (Ok acc', w1) ∧
    run_writer n (set_phase (Installing [] acc') wr) (w1, h1) = (Ok wr', s') ∧
    (length (replaced_locations acc') ≤ length (replaced_locations acc) + length todo)%nat.
Proof.
  revert acc wr w h. induction todo as [|e todo IH]; intros acc wr w h Hp Hrun.
  - exists acc, w, h. split_and!; [done| |simpl; lia]. destruct wr. simpl in *. by subst.
  - cbn [length Nat.add] in Hrun. rewrite run_writer_S in Hrun by (unfold finished; by rewrite Hp).
    unfold mbind, M_bind in Hrun. destruct (writer_step wr (w, h)) as [[wr1| | |] [w1 h1]] eqn:Estep; try done.
    pose proof (step_decreases wr (w, h) wr1 (w1, h1) ltac:(unfold finished; by rewrite Hp) Estep) as Hdec.
    unfold writer_step in Estep. rewrite Hp in Estep. unfold mbind, M_bind in Estep.
    destruct (install_object_validated (wr_old wr) (wr_base wr) acc e (w, h)) as [[acc1| | |] [w2 h2]] eqn:E; try done.
    injection Estep as <- <- <-. apply install_object_erased in E.
    destruct (IH acc1 (set_phase (Installing todo acc1) wr) w2 h2 eq_refl Hrun) as (acc' & w3 & h3 & Ef & Er & Hl).
    exists acc', w3, h3. split_and!; [|done|].
    + cbn [foldM]. unfold mbind, M_bind. rewrite E. exact Ef.
    + unfold steps_left in Hdec. rewrite Hp in Hdec. simpl in *. lia.
Qed.

Lemma decrement_cons base e l m :
  decrement_evacuated_fams base (e :: l) m
  = (decrement_evacuated_fams base [e] ≫= λ _, decrement_evacuated_fams base l) m.
Proof.
  unfold decrement_evacuated_fams. match goal with |- context [forM _ ?g] => set (f := g) end.
  cbn [forM]. unfold mbind, M_bind, mret, M_ret. by destruct (f e m) as [[[]| | |] m'].
Qed.

Lemma run_decrementing todo x wr n w h wr' s' :
  wr_phase wr = Decrementing todo x → run_writer (length todo + n) wr (w, h) = (Ok wr', s') →
  ∃ w1, fm (decrement_evacuated_fams (wr_base wr) todo) w = (Ok (), w1) ∧
    run_writer n (set_phase (Decrementing [] x) wr) (w1, h) = (Ok wr', s').
Proof.
  revert wr w. induction todo as [|e todo IH]; intros wr w Hp Hrun.
  - exists w. split; [unfold fm, zoom, decrement_evacuated_fams; simpl; by rewrite set_file_map_id|].
    destruct wr. simpl in *. by subst.
  - cbn [length Nat.add] in Hrun. rewrite run_writer_S in Hrun by (unfold finished; by rewrite Hp).
    unfold mbind, M_bind in Hrun. destruct (writer_step wr (w, h)) as [[wr1| | |] [w1 h1]] eqn:Estep; try done.
    unfold writer_step in Estep. rewrite Hp in Estep. unfold mbind, M_bind, wrld, fm, zoom in Estep.
    cbn [fst snd] in Estep.
    destruct (decrement_evacuated_fams (wr_base wr) [e] (w_fm w)) as [[[]| | |] m] eqn:E; try done.
    injection Estep as <- <- <-.
    destruct (IH (set_phase (Decrementing todo x) wr) _ eq_refl Hrun) as (w3 & Ef & Er).
    exists w3. split; [|exact Er]. revert Ef. unfold fm, zoom. rewrite decrement_cons. unfold mbind, M_bind.
    rewrite E, w_fm_set. simpl. destruct (decrement_evacuated_fams (wr_base wr) todo m) as [r m'].
    by rewrite set_file_map_twice.
Qed.
End executions.

(** * Theorems *)

Section theorems.
Context `{Deps, !DepsLaws}.
Implicit Types sys : system.

(** A process that has opened a store, in a validation build, and everything that may have
    happened in it since. *)
Definition process_of (L : list LogFile) sys : Prop :=
  ∃ w h, Inv w L unclaimed ∧ run_marks (recovery_marks (locs L)) DebugHistory_default = (Ok (), h) ∧
         rtc sys_next ((w, h), []) sys.

Lemma process_accounted L sys : process_of L sys → accounted sys.
Proof.
  intros (w & h & Hi & Hh & Hr). eapply accounted_reachable; [|exact Hr].
  destruct (inv_consistent w L h Hi Hh). by exists (extents L), (locs L).
Qed.

(** The entries of the table that fall into the file at [b]. *)
Definition entries_at (m : FileMap) (b : Z) (tbl : gmap Z Z) : gmap Z Z :=
  filter (λ e : Z * Z, fst <$> range_next e.2 m = Some b) tbl.

(** What the invariant says about the whole. *)
Lemma consistent_no_panic ext tbl sys : files_disjoint ext → consistent ext tbl sys → ¬ sys_panics sys.
Proof.
  intros Hext Hc (i & wr & s' & Hi & Hfin & Hrun).
  destruct (writer_progress ext tbl sys i wr Hext Hc Hi Hfin) as (? & ? & ? & E & _). congruence.
Qed.

Lemma consistent_located ext tbl sys oid loc :
  files_disjoint ext → consistent ext tbl sys → tbl !! oid = Some loc →
  ∃ b e p fam, ext !! b = Some e ∧ b ≤ loc < e ∧ range_next loc (w_fm sys.1.1) = Some (b, p) ∧
    arcs (w_fm sys.1.1) !! p = Some fam ∧ fam_at (w_fm sys.1.1) b = Some fam ∧ fam_live_objects fam ≠ 0.
Proof.
  intros Hext Hc Hl. destruct (co_locs _ _ _ Hc oid loc Hl) as [_ [b Hb]].
  destruct (range_next_file ext Hext (w_fm sys.1.1) b loc (co_files _ _ _ Hc) (co_wf _ _ _ Hc) Hb)
    as (p & fam & Hr & _ & Hp & Hfam). destruct Hb as (e & He & Hin). exists b, e, p, fam.
  split_and!; try done; try lia. rewrite (co_live _ _ _ Hc b e fam He Hfam). intros Hz.
  assert (0 ≤ sum_over (owed b e) sys.2) as Hs.
  { apply sum_over_nonneg. intros wr Hwr. eapply owed_nonneg. by apply (co_writers _ _ _ Hc wr Hwr). }
  pose proof (inhabitants_nonneg tbl b e). apply (inhabitants_zero tbl b e oid loc); [lia|done|lia].
Qed.

Lemma consistent_counts ext tbl sys b fam :
  files_disjoint ext → consistent ext tbl sys → (∀ wr, wr ∈ sys.2 → published wr = true) →
  fam_at (w_fm sys.1.1) b = Some fam →
  fam_live_objects fam = Z.of_nat (size (entries_at (w_fm sys.1.1) b tbl)).
Proof.
  intros Hext Hc Hpub Hfam. destruct (proj1 (co_files _ _ _ Hc b) (mk_is_Some _ _ Hfam)) as [e He].
  rewrite (co_live _ _ _ Hc b e fam He Hfam), sum_over_zero, inhabitants_size, Z.add_0_r.
  - do 2 f_equal. apply map_filter_ext. intros oid loc Hl. simpl.
    destruct (consistent_located ext tbl sys oid loc Hext Hc Hl) as (b' & e' & p & fam' & He' & Hb' & -> & _). simpl.
    split; [|intros [= ->]; by simplify_eq].
    intros Hin. f_equal. apply (in_extent_unique ext Hext b' b loc); [by exists e'|by exists e].
  - intros wr Hwr%Hpub. unfold published in Hwr. unfold owed. by destruct (wr_phase wr).
Qed.

(** Writers and collectors that install concurrently, in any order and any number: no
    assertion fails, neither those of the tables nor those of the debug history. Every
    location in the table is in a file whose count is not zero, so that no file in use
    can be deleted; and when all writers have published their files, the count of a file
    is the number of table entries in it. *)
Theorem concurrent_writers_accounted L sys :
  process_of L sys →
  ¬ sys_panics sys ∧
  ∃ tbl, table_ok (w_table sys.1.1) tbl ∧
    (∀ oid loc, tbl !! oid = Some loc →
       ∃ b p fam, range_next loc (w_fm sys.1.1) = Some (b, p) ∧
         arcs (w_fm sys.1.1) !! p = Some fam ∧ fam_live_objects fam ≠ 0) ∧
    ((∀ wr, wr ∈ sys.2 → published wr = true) →
     ∀ b fam, fam_at (w_fm sys.1.1) b = Some fam →
       fam_live_objects fam = Z.of_nat (size (entries_at (w_fm sys.1.1) b tbl))).
Proof.
  intros (ext & tbl & Hext & Hc)%process_accounted. split; [by eapply consistent_no_panic|].
  exists tbl. split_and!; [apply (co_table _ _ _ Hc)| |intros Hpub b fam; by eapply consistent_counts].
  intros oid loc Hl. destruct (consistent_located ext tbl sys oid loc Hext Hc Hl)
    as (b & e & p & fam & _ & _ & ? & ? & _ & ?). by exists b, p, fam.
Qed.

(** C21. Writers make progress and finish: one that has not finished can always take its next
    step, whatever the others have done, and every execution without new writers has at
    most as many steps as the writers have left. *)
Theorem concurrent_writers_terminate L sys :
  process_of L sys →
  (∀ i wr, sys.2 !! i = Some wr → finished wr = false → ∃ wr' s', sys_step sys (s', <[i := wr']> sys.2)) ∧
  (∀ n sys', nsteps sys_step n sys sys' → (n + total_steps_left sys' ≤ total_steps_left sys)%nat).
Proof.
  intros (ext & tbl & Hext & Hc)%process_accounted. split.
  - intros i wr Hi Hfin. destruct (writer_progress ext tbl sys i wr Hext Hc Hi Hfin) as (wr' & s' & tbl' & E & _).
    exists wr', s'. destruct sys as [s ws]. by econstructor.
  - clear. intros n sys' Hn. induction Hn as [sys|n sys sys1 sys' Hstep _ IH]; [lia|].
    apply sys_step_decreases in Hstep. lia.
Qed.

(** The steps of a validation build, run to the end, are the installation loop, the removal
    of the failed entries, the decrements and the publication. *)
Lemma writer_runs_sequentially wr w h wr' w' h' :
  wr_phase wr = start_phase (wr_rels wr) →
  run_writer (steps_left wr) wr (w, h) = (Ok wr', (w', h')) →
  install_sequentially wr w = (Ok (abandoned wr'), w') ∧ finished wr' = true.
Proof.
  intros Hp Hrun. unfold start_phase in Hp. set (todo := iter_order (wr_rels wr)) in *.
  assert (steps_left wr = length todo + S (length todo + 2))%nat as Esteps.
  { unfold steps_left. rewrite Hp. simpl. lia. }
  rewrite Esteps in Hrun.
  destruct (run_installing todo _ wr _ w h wr' (w', h') Hp Hrun) as (acc & w1 & h1 & Einst & Hrun1 & Hlen).
  simpl in Hlen. unfold install_sequentially. fold todo. unfold mbind at 1, M_bind at 1. rewrite Einst.
  rewrite run_writer_S in Hrun1 by done. unfold mbind at 1, M_bind at 1 in Hrun1.
  unfold writer_step in Hrun1. cbn [wr_phase set_phase wr_rels] in Hrun1.
  unfold mbind at 1, M_bind at 1 in Hrun1. unfold wrld at 1, zoom at 1 in Hrun1. cbn [fst snd] in Hrun1.
  unfold mbind at 1, M_bind at 1.
  destruct (foldM remove_failed (wr_rels wr) (failed_gc_locations acc) w1) as [[rels| | |] w2]; try done.
  case_bool_decide as Hz; unfold mret at 1, M_ret at 1 in Hrun1.
  - rewrite run_writer_finished in Hrun1 by done. by injection Hrun1 as <- <- <-.
  - assert (length todo + 2 = length (replaced_locations acc) + (2 + (length todo - length (replaced_locations acc))))%nat
      as En by lia. rewrite En in Hrun1.
    destruct (run_decrementing (replaced_locations acc) (subtract_from_len acc)
      (set_phase (Decrementing (replaced_locations acc) (subtract_from_len acc)) (set_phase (Installing [] acc) wr))
      _ w2 h1 wr' (w', h') eq_refl Hrun1) as (w3 & Edec & Hrun2).
    cbn [wr_base set_phase] in Edec. unfold mbind at 1, M_bind at 1. rewrite Edec.
    cbn [Nat.add] in Hrun2. rewrite run_writer_S in Hrun2 by done. unfold mbind at 1, M_bind at 1 in Hrun2.
    unfold writer_step in Hrun2. cbn [wr_phase set_phase wr_base wr_md wr_path] in Hrun2.
    unfold mbind at 1, M_bind at 1 in Hrun2. unfold wrld at 1, zoom at 1 in Hrun2. cbn [fst snd] in Hrun2.
    unfold mbind at 1, M_bind at 1.
    destruct (fm (finalize_fam (wr_base wr) (wr_md wr) (subtract_from_len acc) (wr_path wr)) w3) as [[[]| | |] w4]; try done.
    unfold mret at 1, M_ret at 1 in Hrun2. rewrite run_writer_S in Hrun2 by done. unfold mbind at 1, M_bind at 1 in Hrun2.
    unfold writer_step in Hrun2. cbn [wr_phase set_phase wr_base] in Hrun2.
    unfold mbind at 1, M_bind at 1 in Hrun2. unfold wrld at 1, zoom at 1 in Hrun2. cbn [fst snd] in Hrun2.
    unfold mbind at 1, M_bind at 1.
    destruct (fm (drop_claims [wr_base wr]) w4) as [[[]| | |] w5]; try done.
    unfold mret at 1, M_ret at 1 in Hrun2. rewrite run_writer_finished in Hrun2 by done.
    by injection Hrun2 as <- <- <-.
Qed.

Lemma fm_set_os {A} (m : M FileMap A) o w :
  fm m (set_os o w) = ((fm m w).1, set_os o (fm m w).2).
Proof. unfold fm, zoom. simpl. change (w_fm (set_os o w)) with (w_fm w). by destruct (m (w_fm w)). Qed.

Lemma io_inv {A} (m : IO A) w r w1 : io m w = (r, w1) → ∃ o, w1 = set_os o w.
Proof. unfold io, zoom. destruct (m (w_os w)) as [r' o]. intros [= _ <-]. by exists o. Qed.

Lemma try_io_inv {A} (m : IO A) w r w1 : try (io m) w = (Ok r, w1) → ∃ o, w1 = set_os o w.
Proof.
  unfold try. destruct (io m w) as [r' w2] eqn:E. apply io_inv in E as [o ->].
  destruct r'; intros; simplify_eq; eauto.
Qed.

(** The end of a successful write is the end of a writer, up to input and output. *)
Lemma rename_then_publish config objects gen tmp file_2 st dict base rels acc w w' :
  write_trailer_and_rename config objects gen tmp file_2 st dict base rels acc w = (Ok (), w') →
  ∃ md path w1 w2 o, present_objects md = Z.of_nat (size objects) ∧
    fm (decrement_evacuated_fams base (replaced_locations acc)) w = (Ok (), w1) ∧
    fm (finalize_fam base md (subtract_from_len acc) path) w1 = (Ok (), w2) ∧ w' = set_os o w2.
Proof.
  unfold write_trailer_and_rename. cbv zeta. set (md := {| lsn := _ |}). intros Hrun. exists md, (to_file_name md).
  apply bind_ok_inv in Hrun as (res & w1 & [o1 ->]%try_io_inv & Hrun). destruct res as [[]|e].
  2: { apply bind_ok_inv in Hrun as (? & ? & _ & Hrun). by apply bind_ok_inv in Hrun as (? & ? & _ & ?). }
  apply bind_ok_inv in Hrun as (file_len & w2 & [o2 ->]%io_inv & Hrun).
  apply bind_ok_inv in Hrun as ([] & w3 & Hassert & Hrun). unfold assert_that, mret, M_ret, panic in Hassert.
  case_match; simplify_eq. apply bind_ok_inv in Hrun as ([] & w4 & Hdec & Hrun). rewrite !fm_set_os in Hdec.
  destruct (fm (decrement_evacuated_fams _ _) w) as [r5 w5]. simpl in Hdec. simplify_eq. rewrite !fm_set_os in Hrun.
  destruct (fm (finalize_fam _ _ _ _) w5) as [r6 w6] eqn:E6. simpl in Hrun. simplify_eq.
  exists w5, w6, o2. split_and!; done.
Qed.

(** The code of a writer, up to input and output. *)
Lemma install_is_sequential config objects gen old tmp file_2 st dict base w w' :
  finally (install_and_finish config objects gen old tmp file_2 st dict base) (fm (drop_claims [base])) w
  = (Ok (), w') →
  ∃ md path b w1, present_objects md = Z.of_nat (size objects) ∧
    let rels := new_relative_locations st in
    install_sequentially (MkWriter base old rels md path (start_phase rels)) w = (Ok b, w1) ∧
    if b : bool then (delete_partially_installed_fam base tmp;; fm (drop_claims [base])) w1 = (Ok (), w')
    else ∃ o, w' = set_os o w1.
Proof.
  unfold install_and_finish, install_sequentially. intros (w0 & Hrun & Hdrop)%finally_ok_inv.
  apply bind_ok_inv in Hrun as (acc & w1 & Einst & Hrun). apply bind_ok_inv in Hrun as (rels & w2 & Erem & Hrun).
  cbv zeta in Hrun. case_bool_decide as Hz.
  - exists {| lsn := 0; trailer_offset := 0; present_objects := Z.of_nat (size objects); generation := 0; file_size := 0 |}, "", true, w2.
    split; [done|]. cbn [wr_old wr_base wr_rels]. rewrite (bind_ok Einst), (bind_ok Erem), bool_decide_true by done.
    by rewrite (bind_ok Hrun).
  - apply rename_then_publish in Hrun as (md & path & w3 & w4 & o & Emd & Edec & Efin & ->).
    rewrite fm_set_os in Hdrop. destruct (fm (drop_claims [base]) w4) as [r w5] eqn:Edrop. simpl in Hdrop.
    injection Hdrop as -> <-. exists md, path, false, w5. split; [done|]. cbn [wr_old wr_base wr_rels wr_md wr_path].
    rewrite (bind_ok Einst), (bind_ok Erem), bool_decide_false, (bind_ok Edec), (bind_ok Efin), (bind_ok Edrop) by done.
    eauto.
Qed.

(** C19. Steps 3 to 6 of [write_batch_inner] are a writer: whenever they succeed, the tables end
    up as the atomic steps leave them, taken one after the other without an assertion that
    fails; all that input and output add is the state of the system. If the steps abandon
    the file, the code goes on to delete it. The metadata counts the objects of the batch. *)
Theorem writer_steps_are_code config objects gen old tmp file_2 st dict base w h w' :
  finally (install_and_finish config objects gen old tmp file_2 st dict base) (fm (drop_claims [base])) w
  = (Ok (), w') →
  ∃ md path,
    let rels := new_relative_locations st in
    let wr := MkWriter base old rels md path (start_phase rels) in
    present_objects md = Z.of_nat (size objects) ∧
    ∀ wr' w1 h', run_writer (steps_left wr) wr (w, h) = (Ok wr', (w1, h')) →
      finished wr' = true ∧
      if abandoned wr' then (delete_partially_installed_fam base tmp;; fm (drop_claims [base])) w1 = (Ok (), w')
      else w_table w' = w_table w1 ∧ w_fm w' = w_fm w1.
Proof.
  intros (md & path & b & w1 & Emd & Eseq & Hb)%install_is_sequential. exists md, path. cbv zeta. split; [done|].
  intros wr' w2 h' Hrun.
  apply writer_runs_sequentially in Hrun as [Eseq' Hf]; [|done]. cbn [wr_rels] in *. rewrite Eseq in Eseq'.
  injection Eseq' as -> ->. split; [done|]. destruct (abandoned wr'); [done|]. by destruct Hb as [o ->].
Qed.
End theorems.
