(* ===== verification/ConcurrentReads.v ===== *)
(** ConcurrentReads: a reader next to writers and collectors that install ([Interleaving]).
    [read] loads a location and follows it into a file; between the two any number of steps
    of others may happen. They keep every file in the file map with its descriptor, its base
    and its dictionary ([keeps]), so the reader finds what it would have found at once. *)
From S2P Require Import Prelude Effects Os Deps Locations LocationTable Config Metadata.
From S2P Require Import ZstdDict Storage State FileMap WritePath ReadPath DebugHistory Interleaving.
From S2P Require Import Spec FileMapSpec Layout Invariant ReadSpec InstallSpec InterleavingSpec.

(** ** Computations that only extend their state *)

Section extends.
Context {S : Type} (R : S → S → Prop) `{!PreOrder R}.

(** [m] relates the state it starts from to the one it leaves, however it ends. *)
Definition extends {A} (m : M S A) : Prop := ∀ s, R s (m s).2.

Lemma extends_ret {A} (a : A) : extends (mret a).
Proof. by intros s. Qed.
Lemma extends_gets {A} (f : S → A) : extends (gets f).
Proof. by intros s. Qed.
Lemma extends_unwrap {A} (o : option A) : extends (unwrap o).
Proof. by intros s; destruct o. Qed.
Lemma extends_assert b : extends (assert_that b).
Proof. by intros s; destruct b. Qed.

Lemma extends_bind {A B} (m : M S A) (k : A → M S B) :
  extends m → (∀ a, extends (k a)) → extends (m ≫= k).
Proof.
  intros Hm Hk s. specialize (Hm s). unfold mbind, M_bind. destruct (m s) as [[a| | |] s1]; try done.
  etrans; [exact Hm|apply Hk].
Qed.

Lemma extends_foldM {A B} (f : B → A → M S B) l b : (∀ b a, extends (f b a)) → extends (foldM f b l).
Proof. intros Hf. revert b. induction l; intros b; [apply extends_ret|by apply extends_bind]. Qed.

Lemma extends_forM {A} l (f : A → M S ()) : (∀ a, extends (f a)) → extends (forM l f).
Proof. intros Hf. induction l; [apply extends_ret|by apply extends_bind]. Qed.
End extends.

Create HintDb extends.
#[export] Hint Resolve extends_ret extends_gets extends_unwrap extends_assert : extends.

(** Follows a computation to the calls that are not of the monad's own. *)
Ltac extends_steps :=
  repeat (auto with extends typeclass_instances;
          first [progress cbn beta|apply extends_bind; [apply _| |intros ?]|case_match; subst]).

(** ** What the steps of writers keep *)

Section keeps.
Context `{Deps, !DepsLaws}.

(** What a reader uses of a file. *)
Definition same_file (f f' : FileAndMetadata) : Prop :=
  fam_file f' = fam_file f ∧ fam_location f' = fam_location f ∧ fam_zstd_dict f' = fam_zstd_dict f.

(** The file at [b] is where it was. *)
Definition file_kept (b : Z) (m m' : FileMap) : Prop :=
  ∀ p f, cm_get (fams m) b = Some p → arcs m !! p = Some f →
    ∃ f', cm_get (fams m') b = Some p ∧ arcs m' !! p = Some f' ∧ same_file f f'.

Definition fm_keeps (m m' : FileMap) : Prop := ∀ b, file_kept b m m'.

Definition keeps (s s' : VWorld) : Prop :=
  w_os s'.1 = w_os s.1 ∧ fm_keeps (w_fm s.1) (w_fm s'.1).

#[export] Instance same_file_preorder : PreOrder same_file.
Proof.
  split; [done|]. intros f1 f2 f3 (? & ? & ?) (? & ? & ?). unfold same_file. split_and!; congruence.
Qed.

#[export] Instance file_kept_preorder b : PreOrder (file_kept b).
Proof.
  split; [by intros m p f ??; exists f|]. intros m1 m2 m3 H12 H23 p f Hb Hp.
  destruct (H12 p f Hb Hp) as (f2 & Hb2 & Hp2 & ?). destruct (H23 p f2 Hb2 Hp2) as (f3 & ? & ? & ?).
  exists f3. split_and!; [done..|by etrans].
Qed.

#[export] Instance fm_keeps_preorder : PreOrder fm_keeps.
Proof. split; [by intros m b|]. intros m1 m2 m3 H12 H23 b. etrans; [apply H12|apply H23]. Qed.

#[export] Instance keeps_preorder : PreOrder keeps.
Proof. split; [done|]. intros s1 s2 s3 [? ?] [? ?]. split; [congruence|by etrans]. Qed.

Lemma extends_update_fam p g : (∀ f, same_file f (g f)) → extends fm_keeps (update_fam p g).
Proof.
  intros Hg m b q f Hb Hq. simpl. rewrite Hb, lookup_alter. case_decide as E; [subst q|by eexists].
  rewrite Hq. simpl. eauto.
Qed.

Lemma extends_deref p : extends fm_keeps (deref p).
Proof. unfold deref. extends_steps. Qed.

Lemma extends_fm {A} (m : M FileMap A) : extends fm_keeps m → extends keeps (wrld (fm m)).
Proof.
  intros Hm [w h]. specialize (Hm (w_fm w)). unfold wrld, fm, zoom. simpl. by destruct (m (w_fm w)) as [a m'].
Qed.

Lemma extends_table {A} (f : PT → option A * PT) : extends keeps (wrld (table f)).
Proof.
  intros [w h]. unfold wrld, zoom, table, mbind, M_bind. simpl. destruct (f (w_table w)) as [[a|] t]; by split.
Qed.

Lemma extends_hist {A} (m : M DebugHistory A) : extends keeps (hist m).
Proof. intros [w h]. unfold hist, zoom. simpl. by destruct (m h) as [a h']. Qed.

Lemma extends_wrld_pure {A} (m : M World A) : extends eq m → extends keeps (wrld m).
Proof. intros Hm [w h]. specialize (Hm w). unfold wrld, zoom. simpl. destruct (m w) as [a w']. by simplify_eq/=. Qed.

Lemma extends_decrement base l : extends fm_keeps (decrement_evacuated_fams base l).
Proof.
  apply extends_forM; [apply _|]. intros [oid loc]. extends_steps. by apply extends_update_fam.
Qed.

Lemma extends_finalize base md s path : extends fm_keeps (finalize_fam base md s path).
Proof.
  unfold finalize_fam, install_metadata_and_path.
  extends_steps; solve [apply extends_deref|by apply extends_update_fam].
Qed.

Lemma extends_claims claims : extends fm_keeps (drop_claims claims).
Proof.
  apply extends_forM; [apply _|]. intros claim. extends_steps; by apply extends_update_fam.
Qed.

Lemma extends_install old base acc e : extends keeps (install_object_validated old base acc e).
Proof.
  unfold install_object_validated. extends_steps; solve [apply extends_table|apply extends_hist].
Qed.

Lemma extends_step wr : extends keeps (writer_step wr).
Proof.
  unfold writer_step. extends_steps.
  - apply extends_wrld_pure, extends_foldM; [apply _|]. intros rels oid. unfold remove_failed. extends_steps.
  - apply extends_install.
  - apply extends_fm, extends_finalize.
  - apply extends_fm, extends_decrement.
  - apply extends_fm, extends_claims.
Qed.

(** A writer that joins gets a file of its own. *)
Lemma extends_insert file written capacity gen is_gc config z m r m' :
  fm_wf m → FileMap.insert file written capacity gen is_gc config z m = (Ok r, m') → fm_keeps m m'.
Proof.
  intros Hwf Hrun b p f Hb Hp. pose proof (fw_fresh m Hwf p f Hp) as Hlt. exists f.
  unfold FileMap.insert, mbind, M_bind, gets, modify, unwrap, assert_that in Hrun. cbv zeta in Hrun. simpl in Hrun.
  destruct (DiskLocation.new_fam _) as [loc|]; simpl in Hrun; [|done].
  case_bool_decide as Hnone; [|done].
  assert (∃ n, m' = MkFileMap (cm_insert (fams m) loc (next_arc m))
    (<[next_arc m := MkFam file loc None None capacity gen true (fsync_each_batch config) z]> (arcs m))
    (next_arc m + 1) n) as [n ->].
  { cbn [bool_decide decide_rel] in Hrun. unfold mret, M_ret, panic in Hrun. repeat case_match; simplify_eq; eauto. }
  simpl. rewrite cm_get_insert, decide_False by congruence. by rewrite lookup_insert_ne by lia.
Qed.
End keeps.

(** ** Computations that cannot tell two states apart *)

Section agree.
Context {S : Type} (R : S → S → Prop).

(** From related states, the same outcome and related states again. *)
Definition agree {A} (m : M S A) : Prop :=
  ∀ s s', R s s' → (m s).1 = (m s').1 ∧ R (m s).2 (m s').2.

Lemma agree_ret {A} (a : A) : agree (mret a).
Proof. done. Qed.
Lemma agree_fail {A} e : agree (fail e : M S A).
Proof. done. Qed.
Lemma agree_unwrap {A} (o : option A) : agree (unwrap o).
Proof. by destruct o. Qed.
Lemma agree_assert b : agree (assert_that b).
Proof. by destruct b. Qed.

Lemma agree_bind {A B} (m : M S A) (k : A → M S B) :
  agree m → (∀ a, agree (k a)) → agree (m ≫= k).
Proof.
  intros Hm Hk s s' Hr. unfold mbind, M_bind. destruct (Hm s s' Hr) as [E Hr'].
  destruct (m s) as [o s1], (m s') as [o' s1']. simpl in *. subst o'.
  destruct o as [a| | |]; [by apply Hk|done..].
Qed.
End agree.

Create HintDb agree.
#[export] Hint Resolve agree_ret agree_fail agree_unwrap agree_assert : agree.

Ltac agree_steps :=
  repeat (auto with agree; first [progress cbn beta|apply agree_bind; [|intros ?]|case_match; subst]).

(** ** A reader among writers *)

Section reader.
Context `{Deps, !DepsLaws}.

(** What the reader needs of the world: the system, up to [Ro], and the file its location
    is in. *)
Definition reader_view (Ro : os → os → Prop) (loc b p : Z) (w w' : World) : Prop :=
  Ro (w_os w) (w_os w') ∧ range_next loc (w_fm w) = Some (b, p) ∧ range_next loc (w_fm w') = Some (b, p) ∧
  ∃ f f', arcs (w_fm w) !! p = Some f ∧ arcs (w_fm w') !! p = Some f' ∧ same_file f f'.

Section view.
Context (Ro : os → os → Prop) (loc b p : Z).
Context (Hread : ∀ file n pos, agree Ro (read_exact_at file n pos)) (Hthread : agree Ro current_thread).
Abbreviation view := (reader_view Ro loc b p).

Lemma agree_io {A} (m : IO A) : agree Ro m → agree view (io m).
Proof.
  intros Hm w w' [Hr Hf]. destruct (Hm _ _ Hr) as [E Hr']. unfold io, zoom.
  destruct (m (w_os w)) as [a o], (m (w_os w')) as [a' o']. simpl in E. by subst a'.
Qed.

Lemma agree_counters g : agree view (modify (λ w, set_counters (g (counters (w_marble w))) w)).
Proof. by intros w w' Hf. Qed.

Lemma agree_dict d : agree view (fm (update_fam p (set_fam_zstd_dict d))).
Proof.
  intros w w' (Eo & Hr & Hr' & f & f' & Hp & Hp' & ? & ? & _). split; [done|]. split_and!; [done..|].
  exists (set_fam_zstd_dict d f), (set_fam_zstd_dict d f'). simpl. by rewrite !lookup_alter_eq, Hp, Hp'.
Qed.

Lemma agree_allocate {R : World → World → Prop} n : agree R (uninit_boxed_slice n).
Proof. unfold uninit_boxed_slice, allocate. agree_steps. Qed.

Lemma agree_decompress {R : World → World → Prop} z tid buf : agree R (decompress z tid buf).
Proof.
  unfold decompress, ThreadLocalDict_decompress, DictInABox_decompress.
  agree_steps; apply agree_allocate.
Qed.

(** The pointer to the file is the same, and the file behind it. *)
Lemma find_file w b' :
  range_next loc (w_fm w) = Some (b', p) → fm (fam_for_location loc) w = (Ok p, w).
Proof.
  intros Hr. unfold fm, zoom, fam_for_location, mbind, M_bind, gets. rewrite Hr. simpl. by rewrite set_file_map_id.
Qed.

Lemma deref_file w f : arcs (w_fm w) !! p = Some f → fm (deref p) w = (Ok f, w).
Proof.
  intros Hf. unfold fm, zoom, deref, mbind, M_bind, gets. rewrite Hf. simpl. by rewrite set_file_map_id.
Qed.

(** The same location, read in two worlds in which the file is the same. *)
Lemma read_located_agrees oid : agree view (read_located oid (Some loc)).
Proof.
  intros w w' Hv. pose proof Hv as (_ & Hr & Hr' & f & f' & Hp & Hp' & Ef & El & Ez).
  unfold read_located. destruct (DiskLocation.is_delete loc); [done|].
  rewrite !(bind_ok (find_file _ b Hr)), !(bind_ok (find_file _ b Hr')).
  rewrite !(bind_ok (deref_file _ _ Hp)), !(bind_ok (deref_file _ _ Hp')), Ef, El, Ez. cbv zeta.
  lazymatch goal with |- (?m w).1 = _ ∧ _ => enough (agree view m) as Ha; [by apply Ha|] end.
  agree_steps; try solve [by apply agree_io|apply agree_allocate|apply agree_decompress|apply agree_dict].
  - apply (agree_counters (add_read_compressed _)).
  - apply (agree_counters (add_read_decompressed _)).
Qed.
End view.

(** *** The file of a location stays *)

(** The location is in the file at [b]. *)
Definition located (b loc : Z) (sys : system) : Prop :=
  ∃ ext tbl, files_disjoint ext ∧ consistent ext tbl sys ∧ in_extent ext b loc.

Lemma located_next b loc sys sys' : located b loc sys → sys_next sys sys' → located b loc sys'.
Proof.
  intros (ext & tbl & Hext & Hc & Hb) [Hstep|Hjoin].
  - destruct Hstep as [s s' ws i wr wr' Hi Hfin Erun].
    destruct (writer_progress ext tbl (s, ws) i wr Hext Hc Hi Hfin) as (wr2 & s2 & tbl2 & E & Hc2).
    simpl in E. rewrite Erun in E. injection E as <- <-. exists ext, tbl2. split_and!; [done|apply Hc2|done].
  - destruct (sys_join_consistent ext tbl sys sys' Hext Hc Hjoin) as [ext' []]. exists ext', tbl. auto.
Qed.

Lemma keeps_next sys sys' : accounted sys → sys_next sys sys' → keeps sys.1 sys'.1.
Proof.
  intros (ext & tbl & _ & Hc) [Hstep|Hjoin].
  - destruct Hstep as [s s' ws i wr wr' Hi Hfin Erun]. pose proof (extends_step wr s) as Hk. by rewrite Erun in Hk.
  - destruct Hjoin as [w h ws file written gen is_gc config z old rels md path base claims m Hj _ Erun].
    split; [done|]. eapply extends_insert; [apply (co_wf _ _ _ Hc)|exact Erun].
Qed.

Lemma keeps_reachable sys sys' : accounted sys → rtc sys_next sys sys' → keeps sys.1 sys'.1.
Proof.
  intros Ha Hr. induction Hr as [|s1 s2 s3 H12 _ IH]; [done|].
  etrans; [by apply keeps_next|]. by eapply IH, accounted_next.
Qed.

Lemma located_reachable b loc sys sys' : located b loc sys → rtc sys_next sys sys' → located b loc sys'.
Proof. intros Hl Hr. induction Hr; eauto using located_next. Qed.

(** A located file is found, the same at any later time. *)
Lemma located_view b loc sys sys' :
  located b loc sys → rtc sys_next sys sys' → ∃ p, reader_view eq loc b p sys.1.1 sys'.1.1.
Proof.
  intros Hl Hr. pose proof (located_reachable b loc sys sys' Hl Hr) as (ext' & tbl' & Hext' & Hc' & Hb').
  destruct Hl as (ext & tbl & Hext & Hc & Hb).
  destruct (keeps_reachable sys sys') as [Eo Hk]; [by exists ext, tbl|done|].
  destruct (range_next_file ext Hext _ b loc (co_files _ _ _ Hc) (co_wf _ _ _ Hc) Hb) as (p & f & Hn & Hp & Hf & _).
  destruct (range_next_file ext' Hext' _ b loc (co_files _ _ _ Hc') (co_wf _ _ _ Hc') Hb') as (p' & f2 & Hn' & Hp' & _).
  destruct (Hk b p f Hp Hf) as (f' & Hp2 & Hf' & Hsame). assert (p' = p) as -> by congruence.
  exists p. split_and!; [done..|]. by exists f, f'.
Qed.

Lemma read_located_later sys sys' oid :
  accounted sys → rtc sys_next sys sys' →
  (read_located oid (load (w_table sys.1.1) oid) sys'.1.1).1 = (read oid sys.1.1).1.
Proof.
  intros (ext & tbl & Hext & Hc) Hr.
  change (read oid sys.1.1) with (read_located oid (load (w_table sys.1.1) oid) sys.1.1).
  destruct (load (w_table sys.1.1) oid) as [loc|] eqn:Hl; [|done].
  apply load_Some in Hl as [Hl Hne]. pose proof (co_table _ _ _ Hc oid) as Ht. rewrite Hl in Ht.
  destruct (tbl !! oid) as [l|] eqn:Hoid; simpl in Ht; [subst l|done].
  destruct (co_locs _ _ _ Hc oid loc Hoid) as [_ [b Hb]].
  destruct (located_view b loc sys sys') as [p Hv]; [by exists ext, tbl|done|].
  symmetry. apply (read_located_agrees eq loc b p); [|..|exact Hv]; intros; by intros o ? <-.
Qed.

(** * Theorem *)

(** C9. A read next to any number of writers and collectors that install is linearizable: it
    returns what a read would have returned in one piece at the moment it loaded the
    location, whatever has been installed, and however often, before it follows that
    location. If the location was then still the one recovery had found, that is the value
    on disk. *)
Theorem reads_linearize L sys sys' oid r w' :
  process_of L sys → rtc sys_next sys sys' →
  read_located oid (load (w_table sys.1.1) oid) sys'.1.1 = (r, w') →
  r = (read oid sys.1.1).1 ∧
  (load (w_table sys.1.1) oid = locs L !! oid →
   match r with
   | Ok v => v = value_of L oid
   | Err _ | Crash => injected (w_os sys.1.1)
   | Panic => False
   end).
Proof.
  intros Hproc Hr Hrun. split.
  { rewrite <- (read_located_later sys sys' oid), Hrun; eauto using process_accounted. }
  intros Hl. destruct Hproc as (w & h & Hi & Hh & Hstart). rewrite Hl in Hrun.
  destruct (inv_consistent w L h Hi Hh) as [Hext Hc]. assert (accounted ((w, h), [])) as Ha by (do 2 eexists; eauto).
  destruct (keeps_reachable _ _ Ha Hstart) as [Eo _]. simpl in Eo. rewrite Eo.
  assert (rtc sys_next ((w, h), []) sys') as Hall by by etrans.
  pose proof (read_located_later _ sys' oid Ha Hall) as E. cbn [fst] in E.
  rewrite (inv_load _ _ _ _ Hi), Hrun in E. simpl in E.
  destruct (read oid w) as [r0 w0] eqn:E0. simpl in E. subst r0.
  destruct (read_returns_value w L unclaimed oid r w0 Hi E0) as [_ Hv]. destruct r; tauto.
Qed.
End reader.
