(* ===== verification/DeletionsSpec.v ===== *)
(** DeletionsSpec: calls of [maintenance] and abandoned files next to any number of writers.
    A file is claimed by one of them at a time. It is removed only when no location of the
    table is in it and nobody has still to account for one, so that the accounting of
    [InterleavingSpec] goes on without the file, and no assertion fails. *)
From S2P Require Import Prelude Effects Os Deps Locations LocationTable Config Metadata.
From S2P Require Import ZstdDict Storage State FileMap WritePath DebugHistory Interleaving Deletions.
From S2P Require Import ReadPath Spec FileMapSpec Layout Invariant InstallSpec InterleavingSpec ConcurrentReads.

(** ** An empty file may go *)

Section remove.
Context `{Deps, !DepsLaws}.
Context (ext tbl : gmap Z Z) (sys : system) (Hext : files_disjoint ext) (Hc : consistent ext tbl sys).

(** Nobody is in the file, and no writer but its own owes it anything. *)
Definition vacant (b : Z) : Prop :=
  ∀ e, ext !! b = Some e →
    inhabitants tbl b e = 0 ∧ ∀ wr, wr ∈ sys.2 → wr_base wr ≠ b → owed b e wr = 0.

Lemma vacant_live b fam : fam_at (w_fm sys.1.1) b = Some fam → fam_live_objects fam = 0 → vacant b.
Proof.
  intros Hfam Hz e He. rewrite (co_live _ _ _ Hc b e fam He Hfam) in Hz.
  assert (∀ wr, wr ∈ sys.2 → 0 ≤ owed b e wr) as Hpos.
  { intros wr Hwr. eapply owed_nonneg. by apply (co_writers _ _ _ Hc wr Hwr). }
  pose proof (inhabitants_nonneg tbl b e). pose proof (sum_over_nonneg _ _ Hpos).
  split; [lia|]. intros wr Hwr _. pose proof (sum_over_ge _ _ wr Hpos Hwr). specialize (Hpos wr Hwr). lia.
Qed.

Lemma in_extent_delete b b' l : b' ≠ b → in_extent (delete b ext) b' l ↔ in_extent ext b' l.
Proof. intros Hne. unfold in_extent. by rewrite lookup_delete_ne by auto. Qed.

Lemma in_extent_shrinks b b' l : in_extent (delete b ext) b' l → in_extent ext b' l.
Proof. intros (e & He & ?). apply lookup_delete_Some in He as [_ He]. by exists e. Qed.

Lemma some_extent_delete b l :
  in_some_extent ext l → ¬ in_extent ext b l → in_some_extent (delete b ext) l.
Proof.
  intros [Hpos [b' Hb']] Hn. split; [done|]. exists b'. apply in_extent_delete; [|done].
  by intros ->.
Qed.

Lemma count_in_zero b e l x : count_in b e l = 0 → x ∈ l → ¬ b ≤ x.2 < e.
Proof.
  unfold count_in. induction l as [|y l IH]; simpl; intros Hz; [by intros ?%not_elem_of_nil|].
  pose proof (count_in_nonneg b e l) as Hn. unfold count_in in Hn. pose proof (ind_range b e y.2).
  intros [->|Hx]%elem_of_cons; [|apply IH; [lia|done]].
  intros Hin. assert (ind b e y.2 = 1); [unfold ind; by rewrite decide_True|lia].
Qed.

Lemma evacuated_delete b wr h x l :
  vacant b → is_Some (ext !! b) → wr ∈ sys.2 → wr_base wr ≠ b → (∀ e, owed b e wr = 0 → count_in b e l = 0) → x ∈ l →
  evacuated ext h wr x → evacuated (delete b ext) h wr x.
Proof.
  intros Hv [e He] Hwr Hne Hcnt Hx (Hin & Hn & Ha). destruct (Hv e He) as [_ Ho].
  split_and!; [|by intros ?%in_extent_shrinks|done]. apply some_extent_delete; [done|].
  intros (e' & He' & Hl). simplify_eq. by apply (count_in_zero b e l x (Hcnt e (Ho wr Hwr Hne))).
Qed.

Lemma writer_ok_delete b wr h :
  vacant b → is_Some (ext !! b) → wr ∈ sys.2 → (ended wr = false → wr_base wr ≠ b) →
  writer_ok ext tbl h wr → writer_ok (delete b ext) tbl h wr.
Proof.
  intros Hv Hb Hwr Hne. assert (∀ P, installed_only ext P h wr → installed_only (delete b ext) P h wr) as Honly.
  { intros P HP oid l Hl Hin%in_extent_shrinks. by apply (HP oid l). }
  unfold writer_ok, ended in *. destruct (wr_phase wr) as [todo acc|todo s| |s|] eqn:Hp; try done.
  - specialize (Hne eq_refl). intros (Hent & Hnd & Hids & Hrep & Hs & Hon). split_and!; try done; [..|by apply Honly].
    + intros entry (new & [])%Hent. exists new. split; try done; [by apply in_extent_delete|].
      intros l Hl ?%in_extent_shrinks. naive_solver.
    + intros x Hx. destruct (Hrep x Hx) as [Hev ?]. split; [|done].
      eapply (evacuated_delete b wr h x (replaced_locations acc)); try done.
      intros e. unfold owed. by rewrite Hp, decide_False by done.
  - intros [Hev Hs]. specialize (Hne eq_refl). split; [|done]. intros x Hx.
    eapply (evacuated_delete b wr h x todo); try done; [|by apply Hev].
    intros e. unfold owed. by rewrite Hp, decide_False by done.
  - intros [Hs Hon]. split; [done|by apply Honly].
Qed.
(** The invariant without the file at [b]: its writer, if there was one, has ended. *)
Lemma consistent_remove b (w' : World) h' ws' :
  vacant b → is_Some (ext !! b) → h' = sys.1.2 → w_table w' = w_table sys.1.1 →
  fm_wf (w_fm w') → next_file_lsn (w_fm w') = next_file_lsn (w_fm sys.1.1) →
  (∀ j, fam_at (w_fm w') j = if decide (j = b) then None else fam_at (w_fm sys.1.1) j) →
  wr_base <$> ws' = wr_base <$> sys.2 →
  (∀ wr, wr ∈ ws' → ended wr = true ∨ wr ∈ sys.2 ∧ wr_base wr ≠ b) →
  (∀ b' e, b' ≠ b → sum_over (owed b' e) ws' = sum_over (owed b' e) sys.2) →
  consistent (delete b ext) tbl ((w', h'), ws').
Proof.
  intros Hv Hb -> Et Hwf Hn Hat Hbases Hws Hsum.
  assert (∀ b' fam, fam_at (w_fm w') b' = Some fam → b' ≠ b ∧ fam_at (w_fm sys.1.1) b' = Some fam) as Hfam.
  { intros b' fam. rewrite Hat. by case_decide. }
  split; simpl; rewrite ?Et, ?Hn.
  - apply (co_table _ _ _ Hc).
  - intros oid l Hl. apply some_extent_delete; [by apply (co_locs _ _ _ Hc oid)|].
    intros (e & He & Hin). destruct (Hv e He) as [Hz _]. by apply (inhabitants_zero tbl b e oid l Hz Hl).
  - done.
  - intros b'. rewrite Hat. destruct (decide (b' = b)) as [->|Hne].
    + rewrite lookup_delete_eq. by split; intros [].
    + rewrite lookup_delete_ne by auto. apply (co_files _ _ _ Hc).
  - intros b' e fam [Hne He]%lookup_delete_Some [_ Hf]%Hfam. rewrite Hsum by done. by apply (co_live _ _ _ Hc).
  - intros b' fam [_ Hf]%Hfam. by apply (co_bound _ _ _ Hc b').
  - apply (co_history _ _ _ Hc).
  - intros wr Hwr. destruct (Hws wr Hwr) as [Hend|[Hin Hne]].
    + split; [congruence|]. unfold ended in Hend. unfold writer_ok. by destruct (wr_phase wr).
    + destruct (co_writers _ _ _ Hc wr Hin) as [Hx Hok]. split; [|by apply writer_ok_delete].
      intros He. rewrite lookup_delete_ne by done. auto.
  - intros wr fam Hwr Hp [_ Hf]%Hfam. destruct (Hws wr Hwr) as [Hend|[Hin _]].
    + unfold ended in Hend. unfold published in Hp. by destruct (wr_phase wr).
    + by apply (co_unpublished _ _ _ Hc wr).
  - intros wr fam Hwr He [_ Hf]%Hfam. destruct (Hws wr Hwr) as [Hend|[Hin _]]; [congruence|].
    by apply (co_claimed _ _ _ Hc wr).
  - rewrite Hbases. apply (co_bases _ _ _ Hc).
  - intros wr Hwr. assert (wr_base wr ∈ wr_base <$> sys.2) as (wr0 & -> & Hin)%list_elem_of_fmap.
    { rewrite <- Hbases. by apply (list_elem_of_fmap_2 wr_base). }
    by apply (co_based _ _ _ Hc).
  - apply (co_located _ _ _ Hc).
  - intros b' e [_ He]%lookup_delete_Some. by apply (co_alloc _ _ _ Hc).
  - apply (co_next _ _ _ Hc).
Qed.

Lemma disjoint_delete b : files_disjoint (delete b ext).
Proof.
  destruct Hext as [Hp Hd]. split.
  - intros b' e [_ He]%lookup_delete_Some. by eapply Hp.
  - intros b1 e1 b2 e2 [_ H1']%lookup_delete_Some [_ H2']%lookup_delete_Some Hlt.
    by apply (Hd b1 e1 b2 e2).
Qed.
End remove.

(** ** The file map after a removal *)

Section runs.
Context `{Deps, !DepsLaws}.

(** The contents of all files are as they were, and at most some faults have been used up. *)
Record disk_kept (o o' : os) : Prop := {
  dk_inodes : fs_inodes (os_fs o') = fs_inodes (os_fs o);
  dk_thread : os_thread o' = os_thread o;
  dk_faults : os_faults o' `suffix_of` os_faults o;
}.

#[export] Instance disk_kept_preorder : PreOrder disk_kept.
Proof. split; [done|]. intros o1 o2 o3 [] []. split; [congruence..|by etrans]. Qed.

Lemma disk_kept_unlink name o o' : os_upd (fs_unlink name (os_fs o)) o o' → disk_kept o o'.
Proof. intros (E & _ & ? & ?). split; [by rewrite E|done..]. Qed.

Lemma disk_kept_same o o' : os_upd (os_fs o) o o' → disk_kept o o'.
Proof. intros (E & _ & ? & ?). split; [by rewrite E|done..]. Qed.

(** [w'] is [w] without the file at [b]. *)
Record without_file (b : Z) (w w' : World) : Prop := {
  wf_table : w_table w' = w_table w;
  wf_wf : fm_wf (w_fm w');
  wf_next : next_file_lsn (w_fm w') = next_file_lsn (w_fm w);
  wf_fams j : fam_at (w_fm w') j = if decide (j = b) then None else fam_at (w_fm w) j;
  wf_kept j : j ≠ b → file_kept j (w_fm w) (w_fm w');
  wf_disk : disk_kept (w_os w) (w_os w');
}.

(** The file map without the pointer [p] to the file at [b]. *)
Lemma without_file_intro b p w m' o :
  fm_wf (w_fm w) → cm_get (fams (w_fm w)) b = Some p →
  fams m' = cm_remove (fams (w_fm w)) b → arcs m' = delete p (arcs (w_fm w)) →
  next_arc m' = next_arc (w_fm w) → next_file_lsn m' = next_file_lsn (w_fm w) → disk_kept (w_os w) o →
  without_file b w (set_os o (set_file_map m' w)).
Proof.
  intros Hwf Hk Ef Ea Ena En Hd. destruct (removed_fam_at (w_fm w) b p Hwf Hk) as [Hwf' Hat].
  split; [done|..|done| | |done]; change (w_fm (set_os o (set_file_map m' w))) with m'.
  - by eapply fm_wf_ext; [..|exact Hwf'].
  - intros j. rewrite <- Hat. by apply fam_at_ext.
  - intros j Hne q f Hj Hq. exists f. rewrite Ef, Ea, cm_get_remove, decide_False by auto.
    rewrite lookup_delete_ne; [done|]. intros <-. apply Hne. by apply (fm_wf_inj (w_fm w) _ _ p).
Qed.

(** Removing a file that is empty and has a path: no assertion fails. *)
Lemma wp_remove_and_drop b w fam :
  fm_wf (w_fm w) → fam_at (w_fm w) b = Some fam → fam_live_objects fam = 0 → is_Some (fam_path fam) →
  wp (remove_and_drop b) (λ _ w', without_file b w w') (λ _ _, False) (λ _, injected (w_os w)) w.
Proof.
  intros Hwf (p & Hk & Hp)%fam_at_Some Hz [path Epath]. unfold remove_and_drop, drop_arc, drop_fam.
  w_steps. w_clean. rewrite Hk. eapply wp_unwrap; [done|]. w_steps. w_clean. eapply wp_deref; [done|].
  w_steps. w_clean. rewrite Hz. simpl Z.eqb. cbv match. w_steps. eapply wp_unwrap; [exact Epath|]. w_steps.
  apply wp_remove_file; intros; w_steps.
  - eapply without_file_intro; try done. by eapply disk_kept_unlink.
  - eapply without_file_intro; try done. by apply disk_kept_same.
  - done.
Qed.

(** Deleting a file nobody has published, whoever claims it. *)
Lemma wp_delete_abandoned b tmp w fam :
  fm_wf (w_fm w) → fam_at (w_fm w) b = Some fam → fam_path fam = None →
  wp (delete_partially_installed_fam b tmp) (λ _ w', without_file b w w') (λ _ _, False) (λ _, injected (w_os w)) w.
Proof.
  intros Hwf (p & Hk & Hp)%fam_at_Some Hpath. unfold delete_partially_installed_fam, drop_arc, drop_fam.
  w_steps. w_clean. rewrite Hk. eapply wp_unwrap; [done|]. w_steps. apply wp_update_fam. w_clean.
  w_steps. w_clean. eapply wp_deref; [by apply updated_arc|].
  w_steps. w_clean. apply wp_update_fam. rewrite updated_compose. w_clean. w_steps.
  apply wp_assert; [by apply bool_decide_eq_true|]. w_steps. w_clean.
  eapply wp_deref; [by apply updated_arc|]. w_steps. w_clean.
  cbn [fam_live_objects set_fam_live_objects set_fam_path fam_path compose Z.eqb].
  w_steps. eapply wp_unwrap; [done|]. w_steps.
  set (m1 := set_arcs _ (updated _ _ _)).
  assert (arcs m1 = delete p (arcs (w_fm w))) as Ea.
  { simpl. apply map_eq. intros q. rewrite !lookup_delete. case_decide; [done|]. by rewrite lookup_alter_ne. }
  assert (∀ o, disk_kept (w_os w) o → without_file b w (set_os o (set_file_map m1 w))) as Hw.
  { intros o Ho. by eapply without_file_intro. }
  clearbody m1. apply wp_remove_file; intros; w_steps; [..|done]; apply Hw.
  - by eapply disk_kept_unlink.
  - by apply disk_kept_same.
Qed.

Lemma release_gone m claims : (∀ c, c ∈ claims → fam_at m c = None) → fm_wf m → drop_claims claims m = (Ok (), m).
Proof.
  intros Hg Hwf. unfold drop_claims. induction claims as [|c claims IH]; [done|]. cbn [forM].
  assert (cm_get (fams m) c = None) as Hn.
  { specialize (Hg c (list_elem_of_here _ _)). apply eq_None_not_Some. rewrite <- fam_at_key by done. rewrite Hg. by intros []. }
  unfold mbind at 1, M_bind at 1. unfold mbind at 1, M_bind at 1. unfold gets at 1. rewrite Hn.
  unfold mret at 1, M_ret at 1. apply IH. intros c' Hc'. apply Hg. by right.
Qed.
End runs.

(** ** Calls of [maintenance] *)

Section passes.
Context `{Deps, !DepsLaws}.
Implicit Types (sys : system) (prs : list Pass) (m : FileMap).

(** Some writer has not let go of the file. *)
Definition written_by sys (b : Z) : Prop := ∃ wr, wr ∈ sys.2 ∧ ended wr = false ∧ wr_base wr = b.

(** A file is claimed exactly when a writer or a call of [maintenance] holds it, and only one
    of them does. The files that are to be removed are empty, and have a path; the other
    files whose claims a call is going to release are gone. The objects of a file are
    counted in its metadata. *)
Record pruning sys prs : Prop := {
  pu_marked b : b ∈ marked prs → ∃ fam, fam_at (w_fm sys.1.1) b = Some fam ∧ fam_rewrite_claim fam = true;
  pu_doomed x b fam : x ∈ prs → b ∈ doomed x → fam_at (w_fm sys.1.1) b = Some fam →
    fam_live_objects fam = 0 ∧ is_Some (fam_path fam);
  pu_idle b : b ∈ marked prs → ¬ written_by sys b;
  pu_nodup : NoDup (marked prs);
  pu_claims x c : x ∈ prs → c ∈ claimed_by x →
    c ∈ chosen x ∨ fam_at (w_fm sys.1.1) c = None ∧ allocated (next_file_lsn (w_fm sys.1.1)) c;
  pu_held b fam : fam_at (w_fm sys.1.1) b = Some fam → fam_rewrite_claim fam = true →
    b ∈ marked prs ∨ written_by sys b;
  pu_metadata b fam md : fam_at (w_fm sys.1.1) b = Some fam → fam_metadata fam = Some md →
    fam_live_objects fam ≠ 0 → present_objects md ≠ 0;
  pu_present wr : wr ∈ sys.2 → present_objects (wr_md wr) ≠ 0;
}.

Lemma marked_split prs i x :
  prs !! i = Some x →
  ∃ P Q, marked prs = P ++ chosen x ++ Q ∧ ∀ x', marked (<[i := x']> prs) = P ++ chosen x' ++ Q.
Proof.
  intros Hi. exists (marked (take i prs)), (marked (drop (S i) prs)). unfold marked. split.
  - rewrite <- (take_drop_middle prs i x Hi) at 1. by rewrite fmap_app, concat_app.
  - intros x'. rewrite insert_take_drop by by eapply lookup_lt_Some. by rewrite fmap_app, concat_app.
Qed.

Lemma insert_elem {A} (l : list A) i x y : y ∈ <[i := x]> l → y = x ∨ y ∈ l.
Proof.
  intros (j & Hj)%list_elem_of_lookup. apply list_lookup_insert_Some in Hj as [(_ & -> & _)|[_ Hj]]; [by left|].
  right. by eapply list_elem_of_lookup_2.
Qed.

Lemma doomed_chosen x b : b ∈ doomed x → b ∈ chosen x.
Proof. destruct x as [| | | |]; simpl; try done; by intros ?%not_elem_of_nil. Qed.

Lemma chosen_marked prs x b : x ∈ prs → b ∈ chosen x → b ∈ marked prs.
Proof.
  intros Hx Hb. unfold marked. apply list_elem_of_In, in_concat. exists (chosen x).
  split; [|by apply list_elem_of_In]. apply list_elem_of_In. by apply (list_elem_of_fmap_2 chosen).
Qed.

Lemma to_remove_elem prs b : b ∈ to_remove prs → ∃ x, x ∈ prs ∧ b ∈ doomed x.
Proof.
  unfold to_remove. intros (l & (x & -> & Hx)%list_elem_of_In%list_elem_of_fmap & Hb)%list_elem_of_In%in_concat.
  exists x. split; [done|]. by apply list_elem_of_In.
Qed.

(** *** Writers do not disturb them *)

Lemma live_nonneg_at ext tbl sys b fam :
  consistent ext tbl sys → fam_at (w_fm sys.1.1) b = Some fam → 0 ≤ fam_live_objects fam.
Proof.
  intros Hc Hf. assert (is_Some (ext !! b)) as [e He] by (apply (co_files _ _ _ Hc); eauto).
  rewrite (co_live _ _ _ Hc b e fam He Hf). pose proof (inhabitants_nonneg tbl b e).
  assert (0 ≤ sum_over (owed b e) sys.2); [|lia].
  apply sum_over_nonneg. intros y Hy. eapply owed_nonneg. by apply (co_writers _ _ _ Hc y Hy).
Qed.

Lemma pruning_step ext tbl tbl' sys wr sys' prs :
  consistent ext tbl sys → wr ∈ sys.2 → ended wr = false → stepped ext sys wr tbl' sys' →
  pruning sys prs → pruning sys' prs.
Proof.
  intros Hc Hwr Hend [Hc' [Hkeys Hfam] Hnext Hws Hothers Hrel] [Hm Hdo Hidle Hnd Hcl Hheld Hmd Hpr].
  assert (∀ b, written_by sys' b → b = wr_base wr ∨ written_by sys b) as Hback.
  { intros b (wr2 & [Hin|[E _]]%Hws & He & Hb); [right; by exists wr2|left; congruence]. }
  assert (∀ b, b ∈ marked prs → b ≠ wr_base wr) as Hne.
  { intros b Hb ->. apply (Hidle _ Hb). by exists wr. }
  split; [..|done| | | |].
  - intros b Hb. destruct (Hm b Hb) as (fam & Hf & Hclaim). destruct (Hkeys b) as [fam' Hf']; [eauto|].
    exists fam'. split; [done|]. destruct (Hfam b fam' Hf') as (fam0 & Hf0 & _ & Hsame & _).
    destruct (Hsame (Hne b Hb)) as [_ ->]. congruence.
  - intros x b fam' Hx Hb Hf'. destruct (Hfam b fam' Hf') as (fam0 & Hf0 & Hle & Hsame & _).
    destruct (Hdo x b fam0 Hx Hb Hf0) as [Hz Hpath]. pose proof (live_nonneg_at _ _ _ b fam' Hc' Hf').
    destruct Hsame as [-> _]; [by eapply Hne, chosen_marked, doomed_chosen|]. split; [lia|done].
  - intros b Hb [->|Hw]%Hback; [by apply (Hne _ Hb)|by apply (Hidle b)].
  - intros x c Hx Hin. rewrite Hnext. destruct (Hcl x c Hx Hin) as [?|[Hn ?]]; [by left|right].
    split; [|done]. destruct (fam_at (w_fm sys'.1.1) c) as [fam'|] eqn:E; [|done].
    destruct (Hfam c fam' E) as (? & ? & _). congruence.
  - intros b fam' Hf' Ht. destruct (decide (b = wr_base wr)) as [->|Hb].
    + destruct (Hrel fam' Hf') as [(wr2 & ? & ? & ?)|?]; [right; by exists wr2|congruence].
    + destruct (Hfam b fam' Hf') as (fam & Hf & _ & Hsame & _). destruct (Hsame Hb) as [_ E]. rewrite E in Ht.
      destruct (Hheld b fam Hf Ht) as [?|(wr2 & Hin & ? & Ew)]; [by left|right].
      exists wr2. destruct (Hothers wr2 Hin); [done|congruence].
  - intros b fam' md Hf' Emd Hl. destruct (Hfam b fam' Hf') as (fam & Hf & Hle & _ & [E|E]).
    + apply (Hmd b fam); [done|congruence|]. pose proof (live_nonneg_at _ _ _ b fam' Hc' Hf'). lia.
    + rewrite E in Emd. injection Emd as <-. by apply Hpr.
  - intros wr2 [Hin|[_ ->]]%Hws; by apply Hpr.
Qed.

Lemma pruning_join ext tbl sys ext' sys' prs :
  joined ext tbl sys ext' sys' → pruning sys prs → pruning sys' prs.
Proof.
  intros [_ _ _ _ Hfam Hnew Hnext Hws Hothers Hadd] [Hm Hdo Hidle Hnd Hcl Hheld Hmd Hpr].
  split; [..|done| | | |].
  - intros b Hb. destruct (Hm b Hb) as (fam & Hf & ?). exists fam. auto.
  - intros x b fam Hx Hb Hf. destruct (Hm b) as (fam0 & Hf0 & _); [by eapply chosen_marked, doomed_chosen|].
    apply (Hdo x b fam Hx Hb). specialize (Hfam b fam0 Hf0). congruence.
  - intros b Hb (wr & [Hin|[Hn _]]%Hws & He & Ew); [apply (Hidle b Hb); by exists wr|].
    destruct (Hm b Hb) as (fam & Hf & _). congruence.
  - intros x c Hx Hin. destruct (Hcl x c Hx Hin) as [?|[Hn Hal]]; [by left|right].
    split; [|by eapply allocated_mono]. apply eq_None_not_Some. intros [[? ?]|?]%Hnew; [congruence|done].
  - intros b fam [Hf|(_ & wr & ?)]%Hadd Ht; [|right; by exists wr].
    destruct (Hheld b fam Hf Ht) as [?|(wr & ? & ? & ?)]; [by left|right]. exists wr. auto.
  - intros b fam md [Hf|[E _]]%Hadd Emd; [by apply (Hmd b fam)|congruence].
  - intros wr [Hin|[_ ?]]%Hws; auto.
Qed.

(** *** A claim changes *)

(** Claiming a file changes nothing else of the invariant, nor does a release unless a
    writer has the file. *)
Lemma consistent_claim v ext tbl w h ws b p fam :
  consistent ext tbl ((w, h), ws) → cm_get (fams (w_fm w)) b = Some p → arcs (w_fm w) !! p = Some fam →
  (v = false → ¬ written_by ((w, h), ws) b) →
  consistent ext tbl ((set_file_map (updated p (set_fam_rewrite_claim v) (w_fm w)) w, h), ws).
Proof.
  intros [Ht Hl Hwf Hf Hlive Hb Hh Hw Hu Hcl Hnd Hbased Hloc Halloc Hnext] Hk Hp Hv. simpl in *.
  set (upd := set_fam_rewrite_claim v).
  destruct (updated_fam_at (w_fm w) b p upd fam Hwf Hk Hp eq_refl) as [Hwf' Hat].
  assert (∀ b' fam', fam_at (updated p upd (w_fm w)) b' = Some fam' →
    ∃ fam0, fam_at (w_fm w) b' = Some fam0 ∧ (fam' = fam0 ∨ fam' = upd fam0 ∧ b' = b)) as Hold.
  { intros b' fam'. rewrite Hat. case_decide as E; [|by eauto]. subst b'. intros [= <-]. exists fam.
    split; [apply fam_at_Some; eauto|by right]. }
  split; simpl; try done.
  - intros b'. rewrite Hat, <- Hf. case_decide as E; [|done]. subst b'. split; [|by eauto].
    intros _. exists fam. apply fam_at_Some; eauto.
  - intros b' e fam' He (fam0 & H0' & [->|[-> _]])%Hold; by apply (Hlive b' e fam0).
  - intros b' fam' (fam0 & H0' & [->|[-> _]])%Hold; by apply (Hb b' fam0).
  - intros wr fam' Hwr Hpub (fam0 & H0' & [->|[-> _]])%Hold; by apply (Hu wr fam0).
  - intros wr fam' Hwr He (fam0 & H0' & [->|[-> Eb]])%Hold; [by apply (Hcl wr fam0)|].
    simpl. destruct v; [done|]. destruct (Hv eq_refl). by exists wr.
Qed.

(** What a deletion leads to. *)
Record settled_with (ext tbl : gmap Z Z) (s : VWorld) (r : list Writer * list Pass) (s' : VWorld)
    (ext' : gmap Z Z) : Prop := {
  se_disjoint : files_disjoint ext';
  se_consistent : consistent ext' tbl (s', r.1);
  se_pruning : pruning (s', r.1) r.2;
  se_extent b l : in_extent ext' b l → in_extent ext b l;
  se_kept b : is_Some (ext' !! b) → file_kept b (w_fm s.1) (w_fm s'.1);
  se_disk : disk_kept (w_os s.1) (w_os s'.1);
  se_next : next_file_lsn (w_fm s'.1) = next_file_lsn (w_fm s.1);
}.

Definition settles (ext tbl : gmap Z Z) (s : VWorld) (r : list Writer * list Pass) (s' : VWorld) : Prop :=
  ∃ ext', settled_with ext tbl s r s' ext'.

Section deletions.
Context (ext tbl : gmap Z Z) (w : World) (h : DebugHistory) (ws : list Writer) (prs : list Pass).
Context (Hext : files_disjoint ext) (Hc : consistent ext tbl ((w, h), ws)) (Hp : pruning ((w, h), ws) prs).

Abbreviation deletes m := (wp m (settles ext tbl (w, h)) (λ _ _, False) (λ _, injected (w_os w)) (w, h)).

Lemma pruning_start : pruning ((w, h), ws) (prs ++ [Claiming (∅, [])]).
Proof.
  assert (marked (prs ++ [Claiming (∅, [])]) = marked prs) as Em.
  { unfold marked. rewrite fmap_app, concat_app. simpl. by rewrite app_nil_r. }
  destruct Hp as [Hm Hdo Hidle Hnd Hcl Hheld Hmd Hpr]. split; rewrite ?Em; try done.
  - intros x b fam [Hx| ->%list_elem_of_singleton]%elem_of_app; [by apply Hdo|]. by intros ?%not_elem_of_nil.
  - intros x c [Hx| ->%list_elem_of_singleton]%elem_of_app; [by apply Hcl|]. by intros ?%not_elem_of_nil.
Qed.

(** A call in another state, with the same files before it. *)
Lemma pruning_same i x x' :
  prs !! i = Some x → chosen x' = chosen x → (∀ c, c ∈ doomed x' → c ∈ doomed x) →
  (∀ c, c ∈ claimed_by x' → c ∈ claimed_by x) →
  pruning ((w, h), ws) (<[i := x']> prs).
Proof.
  intros Hi Ech Hdo' Hcl'. destruct (marked_split prs i x Hi) as (P & Q & Em & Em').
  assert (marked (<[i := x']> prs) = marked prs) as E by (by rewrite Em', Em, Ech).
  pose proof (list_elem_of_lookup_2 _ _ _ Hi) as Hin.
  destruct Hp as [Hm Hdo Hidle Hnd Hcl Hheld Hmd Hpr]. split; rewrite ?E; try done.
  - intros x2 b fam [->|Hx]%insert_elem Hb; [apply (Hdo x); auto|by apply (Hdo x2)].
  - intros x2 c [->|Hx]%insert_elem Hc2; [|by apply Hcl]. rewrite Ech. apply (Hcl x); auto.
Qed.

Lemma visit_runs m paths claims b p fam :
  arcs m !! p = Some fam →
  prune_visit (paths, claims) (b, p) m = (Ok (paths, claims), m) ∨
  ∃ path, fam_path fam = Some path ∧ fam_live_objects fam = 0 ∧
    prune_visit (paths, claims) (b, p) m
    = (Ok (if fam_rewrite_claim fam then (paths, claims) else (paths ++ [(b, path)], claims ++ [b])),
       updated p (set_fam_rewrite_claim true) m).
Proof.
  intros Harc. unfold prune_visit.
  assert (deref p m = (Ok fam, m)) as Ed by (unfold deref, mbind, M_bind, gets; by rewrite Harc).
  rewrite (bind_ok Ed). destruct (fam_path fam) as [path|] eqn:Epath; [|by left].
  destruct (fam_live_objects fam =? 0) eqn:Ez; [|by left]. right. exists path. split_and!; [done|lia|].
  unfold mbind, M_bind. simpl. by destruct (fam_rewrite_claim fam).
Qed.

(** The same for [defrag_visit]: the assertions hold, given what the metadata counts. *)
Lemma defrag_runs config n m ftd claims b p fam :
  arcs m !! p = Some fam → fam_location fam = b →
  (∀ md, fam_metadata fam = Some md → fam_live_objects fam ≠ 0 → present_objects md ≠ 0) →
  defrag_visit config n (ftd, claims) (b, p) m = (Ok (ftd, claims), m) ∨
  ∃ ftd', defrag_visit config n (ftd, claims) (b, p) m
    = (Ok (if fam_rewrite_claim fam then (ftd, claims) else (ftd', claims ++ [b])),
       updated p (set_fam_rewrite_claim true) m).
Proof.
  intros Harc Hloc Hmd. unfold defrag_visit.
  assert (deref p m = (Ok fam, m)) as Ed by (unfold deref, mbind, M_bind, gets; by rewrite Harc).
  rewrite (bind_ok Ed). rewrite bool_decide_true by done. unfold assert_that at 1, mbind at 1, M_bind at 1.
  unfold mret at 1, M_ret at 1. destruct (fam_metadata fam) as [md|] eqn:Emd; [|by left].
  destruct (should_defrag config n fam md) eqn:Es; [|by left]. right. specialize (Hmd md eq_refl).
  assert (fam_live_objects fam ≠ 0) as Hl%Hmd.
  { unfold should_defrag in Es. apply andb_true_iff in Es as [Hn _]. intros E. by rewrite E in Hn. }
  eexists. unfold mbind, M_bind. simpl. destruct (fam_rewrite_claim fam); [done|].
  assert (negb (present_objects md =? 0) = true) as -> by lia. done.
Qed.

Section claim.
Context (b p : Z) (fam : FileAndMetadata) (v : bool).
Context (Hk : cm_get (fams (w_fm w)) b = Some p) (Harc : arcs (w_fm w) !! p = Some fam).
Abbreviation wc := (set_file_map (updated p (set_fam_rewrite_claim v) (w_fm w)) w).

Lemma claimed_fams b' : fam_at (w_fm wc) b' =
  if decide (b' = b) then Some (set_fam_rewrite_claim v fam) else fam_at (w_fm w) b'.
Proof.
  rewrite w_fm_set. by apply (updated_fam_at (w_fm w) b p (set_fam_rewrite_claim v) fam (co_wf _ _ _ Hc) Hk Harc).
Qed.

Lemma claimed_kept b' : file_kept b' (w_fm w) (w_fm wc).
Proof. rewrite w_fm_set. apply (extends_update_fam p (set_fam_rewrite_claim v)). by intros f. Qed.

Lemma claim_fam : fam_at (w_fm w) b = Some fam.
Proof. apply fam_at_Some; eauto. Qed.

(** Apart from the claim the files are as they were. *)
Lemma claimed_fams_inv b' fam' :
  fam_at (w_fm wc) b' = Some fam' →
  ∃ fam0, fam_at (w_fm w) b' = Some fam0 ∧
    fam' = (if decide (b' = b) then set_fam_rewrite_claim v fam0 else fam0).
Proof.
  rewrite claimed_fams. case_decide as E; [|by eauto]. subst b'. intros [= <-]. exists fam. split; [apply claim_fam|done].
Qed.

(** The claim of the file at [b] has changed, and with it who holds it. *)
Lemma pruning_claim prs' :
  (if v then b ∈ marked prs' ∨ written_by ((w, h), ws) b else b ∉ marked prs') →
  (∀ c, c ≠ b → (c ∈ marked prs' ↔ c ∈ marked prs)) → NoDup (marked prs') →
  (b ∈ marked prs' → ¬ written_by ((w, h), ws) b) →
  (∀ x' c, x' ∈ prs' → c ∈ doomed x' →
     (∃ x, x ∈ prs ∧ c ∈ doomed x) ∨ c = b ∧ fam_live_objects fam = 0 ∧ is_Some (fam_path fam)) →
  (∀ x' c, x' ∈ prs' → c ∈ claimed_by x' → c ∈ chosen x' ∨ ∃ x, x ∈ prs ∧ c ∈ claimed_by x ∧ (c ∈ chosen x → False)) →
  pruning ((wc, h), ws) prs'.
Proof.
  intros Hb Hmk Hnd' Hw Hdo' Hcl'. destruct Hp as [Hm Hdo Hidle Hnd Hcl Hheld Hmd Hpr]. split; try done.
  - intros c Hcm. change (∃ f, fam_at (w_fm wc) c = Some f ∧ fam_rewrite_claim f = true). rewrite claimed_fams.
    case_decide as E; [|apply Hm, Hmk; done]. subst c. eexists. split; [done|]. simpl. by destruct v.
  - intros x' c fam' Hx' Hd (fam0 & Hf0 & ->)%claimed_fams_inv.
    assert (fam_live_objects fam0 = 0 ∧ is_Some (fam_path fam0)) as Hz; [|by case_decide].
    destruct (Hdo' x' c Hx' Hd) as [(x & Hx & Hxd)|(-> & ?)]; [by apply (Hdo x c)|].
    rewrite claim_fam in Hf0. by injection Hf0 as <-.
  - intros c Hcm. destruct (decide (c = b)) as [->|Hne]; [by apply Hw|]. by apply Hidle, Hmk.
  - intros x' c Hx' Hd. destruct (Hcl' x' c Hx' Hd) as [?|(x & Hx & Hxc & Hn)]; [by left|].
    destruct (Hcl x c Hx Hxc) as [?|[Hg ?]]; [done|right]. split; [|done].
    change (fam_at (w_fm wc) c = None). rewrite claimed_fams, decide_False; [done|].
    intros ->. pose proof claim_fam. simpl in Hg. congruence.
  - intros c fam' (fam0 & Hf0 & ->)%claimed_fams_inv. case_decide as E.
    + subst c. simpl. intros ->. done.
    + intros Ht. rewrite Hmk by done. by apply (Hheld c fam0).
  - intros c fam' md (fam0 & Hf0 & ->)%claimed_fams_inv. case_decide; by apply (Hmd c fam0).
Qed.
End claim.

Section choose.
Context (b p : Z) (fam : FileAndMetadata).
Context (Hk : cm_get (fams (w_fm w)) b = Some p) (Harc : arcs (w_fm w) !! p = Some fam).
Abbreviation wc := (set_file_map (updated p (set_fam_rewrite_claim true) (w_fm w)) w).

(** Somebody has claimed the file already. *)
Lemma pruning_claimed : fam_rewrite_claim fam = true → pruning ((wc, h), ws) prs.
Proof.
  intros Ht. pose proof (claim_fam b p fam Hk Harc) as Hfam. apply (pruning_claim b p fam true Hk Harc); try done.
  - by apply (pu_held _ _ Hp b fam).
  - apply (pu_nodup _ _ Hp).
  - intros Hb. by apply (pu_idle _ _ Hp).
  - eauto.
  - intros x c Hx Hxc. destruct (decide (c ∈ chosen x)); [by left|right]. by exists x.
Qed.

(** Choosing a file that nobody has claimed. *)
Lemma pruning_chosen i x x' :
  prs !! i = Some x → fam_rewrite_claim fam = false → chosen x' = chosen x ++ [b] →
  (∀ c, c ∈ doomed x' → c ∈ doomed x ∨ c = b ∧ fam_live_objects fam = 0 ∧ is_Some (fam_path fam)) →
  claimed_by x' = claimed_by x ++ [b] →
  pruning ((wc, h), ws) (<[i := x']> prs).
Proof.
  intros Hi Hfree Ech Edo Ecl. pose proof (claim_fam b p fam Hk Harc) as Hfam.
  destruct (marked_split prs i _ Hi) as (P & Q & Em & Em'). pose proof (list_elem_of_lookup_2 _ _ _ Hi) as Hin.
  assert (b ∉ marked prs) as Hfresh.
  { intros Hb. destruct (pu_marked _ _ Hp b Hb) as (fam' & Hf & Ht). simpl in Hf. congruence. }
  assert (marked (<[i := x']> prs) ≡ₚ b :: marked prs) as Hperm.
  { rewrite Em', Em, Ech. solve_Permutation. }
  apply (pruning_claim b p fam true Hk Harc).
  - left. rewrite Hperm. by left.
  - intros c Hne. rewrite Hperm, elem_of_cons. tauto.
  - rewrite Hperm. apply NoDup_cons. split; [done|apply (pu_nodup _ _ Hp)].
  - intros _ (wr & Hwr & He & Eb). subst b. by rewrite (co_claimed _ _ _ Hc wr fam Hwr He Hfam) in Hfree.
  - intros y c [->|Hy]%insert_elem Hd; [|left; by exists y]. destruct (Edo c Hd) as [?|?]; [left; by exists x|by right].
  - intros y c [->|Hy]%insert_elem Hd.
    + rewrite Ecl in Hd. rewrite Ech, elem_of_app, list_elem_of_singleton in *.
      destruct (decide (c ∈ chosen x)); [by left; left|]. destruct Hd as [Hd|?]; [right; by exists x|by left; right].
    + destruct (decide (c ∈ chosen y)); [by left|right]. by exists y.
Qed.

Lemma wp_prune_choose i acc :
  prs !! i = Some (Choosing acc) →
  deletes (x ← prune_choose acc (b, p); mret (ws, <[i := x]> prs)).
Proof.
  intros Hi. destruct acc as [paths claims]. unfold prune_choose, wrld, fm, zoom, wp, mbind, M_bind. cbn [fst snd].
  destruct (visit_runs (w_fm w) paths claims b p fam Harc) as [->|(path & Hpath & Hz & ->)]; cbv beta iota.
  - rewrite set_file_map_id. exists ext. split; try done. cbn [fst snd]. by rewrite list_insert_id.
  - exists ext. split; try done; [by eapply consistent_claim| |by intros b' _; apply claimed_kept]. cbn [fst snd].
    destruct (fam_rewrite_claim fam) eqn:Hfree.
    + rewrite list_insert_id by done. by apply pruning_claimed.
    + eapply pruning_chosen; try done; simpl; rewrite ?fmap_app; try done. intros c [?|Hcb]%elem_of_app; [by left|right].
      apply list_elem_of_singleton in Hcb as ->. split_and!; eauto.
Qed.

Lemma wp_defrag_choose i config n acc :
  prs !! i = Some (Claiming acc) →
  deletes (x ← defrag_choose config n acc (b, p); mret (ws, <[i := x]> prs)).
Proof.
  intros Hi. destruct acc as [ftd claims]. unfold defrag_choose, wrld, fm, zoom, wp, mbind, M_bind. cbn [fst snd].
  assert (fam_location fam = b) as Hloc.
  { destruct (fw_ptr _ (co_wf _ _ _ Hc) b p Hk) as (fam' & Harc' & ?). simpl in Harc'. congruence. }
  destruct (defrag_runs config n (w_fm w) ftd claims b p fam Harc Hloc) as [->|(ftd' & ->)]; cbv beta iota.
  - intros md. apply (pu_metadata _ _ Hp b fam md). by apply (claim_fam b p).
  - rewrite set_file_map_id. exists ext. split; try done. cbn [fst snd]. by rewrite list_insert_id.
  - exists ext. split; try done; [by eapply consistent_claim| |by intros b' _; apply claimed_kept]. cbn [fst snd].
    destruct (fam_rewrite_claim fam) eqn:Hfree.
    + rewrite list_insert_id by done. by apply pruning_claimed.
    + eapply pruning_chosen; try done. by intros c ?%not_elem_of_nil.
Qed.
End choose.

(** *** A claim is released *)

Lemma wp_release_one i claim claims :
  prs !! i = Some (Rewriting (claim :: claims)) →
  deletes (x ← release_one claim claims; mret (ws, <[i := x]> prs)).
Proof.
  intros Hi. pose proof (list_elem_of_lookup_2 _ _ _ Hi) as Hin.
  destruct (marked_split prs i _ Hi) as (P & Q & Em & Em').
  assert (claim ∈ marked prs) as Hmk by (eapply chosen_marked; [done|by left]).
  destruct (pu_marked _ _ Hp claim Hmk) as (fam & Hfam & Ht). apply fam_at_Some in Hfam as Hfam'.
  destruct Hfam' as (p & Hk & Harc). simpl in Hk, Harc.
  pose proof (pu_idle _ _ Hp claim Hmk) as Hidle. pose proof (pu_nodup _ _ Hp) as Hnd. rewrite Em in Hnd. simpl in Hnd.
  assert (claim ∉ P ++ claims ++ Q ∧ NoDup (P ++ claims ++ Q)) as [Hn Hnd'].
  { apply NoDup_cons. by rewrite Permutation_middle. }
  unfold release_one, wrld, fm, zoom, wp, mbind, M_bind. cbn [fst snd].
  rewrite (release_runs (w_fm w) claim p fam Hk Harc Ht). cbv beta iota. cbn [fst snd].
  exists ext. split; try done; [by eapply consistent_claim| |by intros b' _; apply claimed_kept]. cbn [fst snd].
  apply (pruning_claim claim p fam false Hk Harc).
  - by rewrite Em'.
  - intros c Hne. rewrite Em', Em. simpl. set_solver.
  - by rewrite Em'.
  - by rewrite Em'.
  - intros y c [->|Hy]%insert_elem Hd; [by apply not_elem_of_nil in Hd|left; by exists y].
  - intros y c [->|Hy]%insert_elem Hd; [by left|].
    destruct (decide (c ∈ chosen y)); [by left|right]. by exists y.
Qed.

(** *** A file is removed *)

(** The calls after the file at [b] has left the map, and who held it has gone on. *)
Lemma pruning_removed b w' ws' prs' :
  without_file b w w' → is_Some (fam_at (w_fm w) b) →
  (∀ c, c ∈ marked prs' ↔ c ∈ marked prs ∧ c ≠ b) → NoDup (marked prs') →
  (∀ wr, wr ∈ ws' → ended wr = true ∨ wr ∈ ws) → (∀ wr, wr ∈ ws → wr ∈ ws' ∨ wr_base wr = b) →
  (∀ wr, wr ∈ ws' → present_objects (wr_md wr) ≠ 0) →
  (∀ x', x' ∈ prs' → ∃ x, x ∈ prs ∧ (∀ c, c ∈ doomed x' → c ∈ doomed x) ∧
     ∀ c, c ∈ claimed_by x' → c ∈ claimed_by x ∧ (c ∈ chosen x → c ∈ chosen x' ∨ c = b)) →
  pruning ((w', h), ws') prs'.
Proof.
  intros [Et Hwf En Hat _ _] Hb Hmk Hnd' Hws Hws' Hpr' Hprs. destruct Hp as [Hm Hdo Hidle Hnd Hcl Hheld Hmd Hpr].
  assert (∀ c fam, fam_at (w_fm w') c = Some fam → c ≠ b ∧ fam_at (w_fm w) c = Some fam) as Hold.
  { intros c fam. rewrite Hat. by case_decide. }
  simpl in *. split; [..|done| | | |done].
  - intros c [Hc' Hne]%Hmk. simpl. rewrite Hat, decide_False by done. by apply Hm.
  - intros x' c fam Hx' Hd [_ Hf]%Hold. destruct (Hprs x' Hx') as (x & Hx & Hsub & _). by apply (Hdo x c); auto.
  - intros c [Hc' Hne]%Hmk (wr & [?|Hwr]%Hws & He & Ew); [congruence|]. apply (Hidle c Hc'). by exists wr.
  - intros x' c Hx' Hc'. destruct (Hprs x' Hx') as (x & Hx & _ & Hincl). destruct (Hincl c Hc') as [Hcx Hgo].
    simpl. rewrite Hat, En. destruct (Hcl x c Hx Hcx) as [[?|E]%Hgo|[Hn Hal]]; [by left|right|right].
    + subst c. rewrite decide_True by done. split; [done|]. destruct Hb as [fam Hfam].
      assert (is_Some (ext !! b)) as [e He] by (apply (co_files _ _ _ Hc); eauto).
      destruct (co_alloc _ _ _ Hc b e He) as (base & n & d & -> & -> & ? & ? & ?). exists base, n, d. simpl in *. lia.
    + by case_decide.
  - intros c fam [Hne Hf]%Hold Ht. destruct (Hheld c fam Hf Ht) as [?|(wr & Hwr & He & Ew)]; [left; by apply Hmk|right].
    exists wr. destruct (Hws' wr Hwr); [done|congruence].
  - intros c fam md [_ Hf]%Hold. by apply (Hmd c fam md).
Qed.

Lemma settled_without b w' r :
  without_file b w w' → consistent (delete b ext) tbl ((w', h), r.1) → pruning ((w', h), r.1) r.2 →
  settled_with ext tbl (w, h) r (w', h) (delete b ext).
Proof.
  intros [_ _ Hn _ Hkept Hdisk] ??. split; try done; [by apply disjoint_delete|..].
  - intros b' l. apply in_extent_shrinks.
  - intros b' [e [Hne _]%lookup_delete_Some]. apply Hkept. auto.
Qed.

Lemma wp_prune_remove i todo claims :
  prs !! i = Some (Removing todo claims) →
  deletes (pr ← prune_remove todo claims; mret (ws, <[i := pr]> prs)).
Proof.
  intros Hi. pose proof (list_elem_of_lookup_2 _ _ _ Hi) as Hin. destruct (marked_split prs i _ Hi) as (P & Q & Em & Em').
  destruct todo as [|[b path] todo]; unfold prune_remove, wrld; wp_steps.
  - apply wp_fm. unfold wp. rewrite release_gone; [|intros c Hcl|apply (co_wf _ _ _ Hc)].
    2: { destruct (pu_claims _ _ Hp _ c Hin Hcl) as [[]%not_elem_of_nil|[Hn _]]. done. }
    rewrite set_file_map_id. exists ext. split; try done.
    by apply (pruning_same i (Removing [] claims)); try done; intros c ?%not_elem_of_nil.
  - unfold verify_file_uninhabited. wp_steps.
    assert (b ∈ marked prs) as Hb by (rewrite Em; simpl; set_solver).
    destruct (pu_marked _ _ Hp b Hb) as (fam & Hfam & _). simpl in Hfam.
    destruct (pu_doomed _ _ Hp _ b fam Hin) as [Hz Hpath]; [by left|done|].
    eapply wp_mono; [apply (wp_remove_and_drop b w fam (co_wf _ _ _ Hc) Hfam Hz Hpath)|..]; [|done..].
    intros [] w' Hw'. wp_steps. pose proof Hw' as [Et Hwf En Hat _ _].
    assert (is_Some (ext !! b)) as Hext' by (apply (co_files _ _ _ Hc); eauto).
    exists (delete b ext). apply (settled_without b w'); [done..| |]; cbn [fst snd].
    + apply (consistent_remove ext tbl ((w, h), ws) Hc b); try done; [by eapply vacant_live|].
      intros wr Hwr. destruct (ended wr) eqn:E; [by left|right]. split; [done|].
      intros Eb. apply (pu_idle _ _ Hp b Hb). by exists wr.
    + pose proof (pu_nodup _ _ Hp) as Hnd. rewrite Em in Hnd. simpl in Hnd.
      assert (b ∉ P ++ todo.*1 ++ Q ∧ NoDup (P ++ todo.*1 ++ Q)) as [Hnb Hnd'].
      { apply NoDup_cons. by rewrite Permutation_middle. }
      eapply (pruning_removed b); [done|eauto|..].
      * intros c. rewrite Em', Em. simpl. set_solver.
      * by rewrite Em'.
      * intros wr Hwr. by right.
      * intros wr Hwr. by left.
      * apply (pu_present _ _ Hp).
      * intros x' [->|Hx']%insert_elem; [|exists x'; auto]. exists (Removing ((b, path) :: todo) claims).
        split_and!; [done| |].
        -- intros c Hd. simpl. by right.
        -- intros c Hcl. split; [done|]. simpl. rewrite elem_of_cons. tauto.
Qed.

(** *** A file is abandoned *)

(** Nothing of an abandoned file has come to the table. *)
Lemma abandoned_vacant wr x : wr ∈ ws → wr_phase wr = Abandoned x → vacant ext tbl ((w, h), ws) (wr_base wr).
Proof.
  intros Hin Hph e He. destruct (co_writers _ _ _ Hc wr Hin) as [_ Hok].
  unfold writer_ok in Hok. rewrite Hph in Hok. destruct Hok as [_ Honly].
  assert (∀ oid l, added h oid l → ind (wr_base wr) e l = 0) as Hout.
  { intros oid l Hl. unfold ind. rewrite decide_False; [done|]. intros Hlin. apply (Honly oid l Hl). by exists e. }
  split.
  - rewrite inhabitants_size. cut (filter (λ e0 : Z * Z, wr_base wr ≤ e0.2 < e) tbl = ∅); [by intros ->|].
    apply map_empty. intros oid. apply map_lookup_filter_None. right. intros l Hl Hlin. simpl in Hlin.
    destruct (co_history _ _ _ Hc oid l Hl) as [Ha _]. specialize (Hout oid l Ha). unfold ind in Hout. by case_decide.
  - intros wr2 Hwr2 Hne. destruct (co_writers _ _ _ Hc wr2 Hwr2) as [_ Hok2]. unfold owed. unfold writer_ok in Hok2.
    assert (∀ l, (∀ y, y ∈ l → evacuated ext h wr2 y) → count_in (wr_base wr) e l = 0) as Hcnt.
    { intros l. unfold count_in. induction l as [|y l IH]; simpl; intros Hl; [done|].
      destruct (Hl y) as (_ & _ & Ha); [by left|]. rewrite (Hout y.1 y.2 Ha), IH; [done|]. intros z Hz. apply Hl. by right. }
    destruct (wr_phase wr2) as [todo acc|todo s| |s|]; rewrite ?decide_False by done; try done.
    + rewrite Hcnt; [done|]. intros y Hy. by apply Hok2.
    + rewrite Hcnt; [done|]. intros y Hy. by apply Hok2.
Qed.

Lemma wp_abandon i wr x tmp :
  ws !! i = Some wr → wr_phase wr = Abandoned x →
  deletes (wr ← abandon tmp wr; mret (<[i := wr]> ws, prs)).
Proof.
  intros Hi Hph. pose proof (list_elem_of_lookup_2 _ _ _ Hi) as Hin. set (b := wr_base wr).
  assert (ended wr = false) as Hend by (unfold ended; by rewrite Hph).
  destruct (co_writers _ _ _ Hc wr Hin) as [Hext' Hok]. specialize (Hext' Hend). fold b in Hext'.
  unfold writer_ok in Hok. rewrite Hph in Hok. destruct Hok as [_ Honly].
  assert (is_Some (fam_at (w_fm w) b)) as [fam Hfam] by by apply (co_files _ _ _ Hc).
  destruct (co_unpublished _ _ _ Hc wr fam Hin) as [_ Hpath]; [unfold published; by rewrite Hph|done|].
  unfold abandon, wrld. wp_steps.
  eapply wp_mono; [apply (wp_delete_abandoned b tmp w fam (co_wf _ _ _ Hc) Hfam Hpath)|..]; [|done..].
  intros [] w' Hw'. pose proof Hw' as [Et Hwf En Hat _ _]. wp_steps. apply wp_fm. unfold wp. fold b.
  rewrite release_gone; [|intros c ->%list_elem_of_singleton; rewrite Hat; by rewrite decide_True|done].
  rewrite set_file_map_id. exists (delete b ext).
  apply (settled_without b w'); [done..| |]; cbn [fst snd].
  - apply (consistent_remove ext tbl ((w, h), ws) Hc b); try done.
    + apply (abandoned_vacant wr x); done.
    + by rewrite list_fmap_insert, list_insert_id by (by rewrite list_lookup_fmap, Hi).
    + intros wr2 [->|[Hwr2 Hne]]%(other_writers ws i wr); [by left|by right|apply (co_bases _ _ _ Hc)|done].
    + intros b' e Hne. rewrite (sum_over_insert _ _ _ _ _ Hi). unfold owed at 2 3. rewrite Hph. simpl.
      rewrite decide_False by (intros E; by apply Hne). lia.
  - assert (b ∉ marked prs) as Hnb by (intros Hb; apply (pu_idle _ _ Hp b Hb); by exists wr).
    eapply (pruning_removed b); [done|eauto|..].
    + intros c. split; [|tauto]. intros Hcm. split; [done|]. by intros ->.
    + apply (pu_nodup _ _ Hp).
    + intros wr2 [->|Hwr2]%insert_elem; [by left|by right].
    + intros wr2 (j & Hj)%list_elem_of_lookup. destruct (decide (i = j)) as [<-|Hij].
      * right. by assert (wr2 = wr) as -> by congruence.
      * left. apply (list_elem_of_lookup_2 _ j). by rewrite list_lookup_insert_ne.
    + intros wr2 [->|Hwr2]%insert_elem; [by apply (pu_present _ _ Hp wr)|by apply (pu_present _ _ Hp)].
    + intros y Hy. exists y. auto.
Qed.
End deletions.

(** *** The whole process *)

Record accounts (ext tbl : gmap Z Z) (pr : process) : Prop := {
  ac_disjoint : files_disjoint ext;
  ac_consistent : consistent ext tbl pr.1;
  ac_pruning : pruning pr.1 pr.2;
}.

Lemma action_runs ext tbl pr act :
  accounts ext tbl pr → action pr act →
  wp act (settles ext tbl pr.1.1) (λ _ _, False) (λ _, injected (w_os pr.1.1.1)) pr.1.1.
Proof.
  intros [Hext Hc Hp] Hd.
  assert (∀ w h ws prs i x x', pruning ((w, h), ws) prs → consistent ext tbl ((w, h), ws) → prs !! i = Some x →
    chosen x' = chosen x → (∀ c, c ∈ doomed x' → c ∈ doomed x) → (∀ c, c ∈ claimed_by x' → c ∈ claimed_by x) →
    settles ext tbl (w, h) (ws, <[i := x']> prs) (w, h)) as Hsame.
  { intros w h ws prs i x x' Hp' Hc' Hi ???. exists ext. split; try done. by apply (pruning_same w h ws prs Hp' i x). }
  assert (∀ (w : World) b p, fm_wf (w_fm w) → cm_get (fams (w_fm w)) b = Some p →
    ∃ fam, arcs (w_fm w) !! p = Some fam) as Hptr.
  { intros w b p Hwf Hk. destruct (fw_ptr _ Hwf b p Hk) as (fam & ? & _). eauto. }
  destruct Hd as [[w h] ws prs|[w h] ws prs i config n acc b p Hi Hk|[w h] ws prs i acc Hi
    |[w h] ws prs i claim claims Hi|[w h] ws prs i Hi|[w h] ws prs i Hi
    |[w h] ws prs i acc b p Hi Hk|[w h] ws prs i acc Hi
    |[w h] ws prs i todo claims Hi|[w h] ws prs i wr x tmp Hi Hph]; simpl in *.
  - apply wp_ret. exists ext. split; try done. by apply pruning_start.
  - destruct (Hptr w b p (co_wf _ _ _ Hc) Hk) as [fam Harc]. by eapply wp_defrag_choose.
  - apply wp_ret. by eapply (Hsame w h ws prs i (Claiming acc)).
  - by apply wp_release_one.
  - apply wp_ret. by eapply (Hsame w h ws prs i (Rewriting [])).
  - apply wp_ret. by eapply (Hsame w h ws prs i (Rewriting [])).
  - destruct (Hptr w b p (co_wf _ _ _ Hc) Hk) as [fam Harc]. by eapply wp_prune_choose.
  - apply wp_ret. by eapply (Hsame w h ws prs i (Choosing acc)).
  - by apply wp_prune_remove.
  - by eapply wp_abandon.
Qed.

(** One step of the process: what it keeps of a file that is still there. *)
Lemma accounts_next ext tbl pr pr' :
  accounts ext tbl pr → process_next pr pr' →
  ∃ ext' tbl', accounts ext' tbl' pr' ∧
    next_file_lsn (w_fm pr.1.1.1) ≤ next_file_lsn (w_fm pr'.1.1.1) ∧
    disk_kept (w_os pr.1.1.1) (w_os pr'.1.1.1) ∧
    (∀ b, is_Some (ext' !! b) → file_kept b (w_fm pr.1.1.1) (w_fm pr'.1.1.1)) ∧
    (∀ b l, allocated (next_file_lsn (w_fm pr.1.1.1)) l → in_extent ext' b l → in_extent ext b l).
Proof.
  intros Ha Hn. revert Ha. destruct Hn as [sys sys' prs Hnext|[sys prs] act s' ws' prs' Hd Hrun]; intros Ha; simpl in *.
  - destruct Ha as [Hext Hc Hp]. simpl in *.
    destruct (keeps_next sys sys') as [Eo Hk]; [by exists ext, tbl|done|].
    assert (disk_kept (w_os sys.1.1) (w_os sys'.1.1)) as Hdk by by rewrite Eo.
    destruct Hnext as [Hstep|Hjoin].
    + destruct Hstep as [s s' ws i wr wr' Hi Hfin Erun].
      destruct (writer_progress ext tbl (s, ws) i wr Hext Hc Hi Hfin) as (wr2 & s2 & tbl2 & E & Hst).
      simpl in E. rewrite Erun in E. injection E as <- <-. exists ext, tbl2. pose proof Hst as [Hc' _ En _].
      simpl in En. split_and!; cbn [fst snd]; try done; [|lia].
      split; [done..|]. apply (pruning_step ext tbl tbl2 (s, ws) wr); try done; [by eapply list_elem_of_lookup_2|].
      unfold finished in Hfin. unfold ended. by destruct (wr_phase wr).
    + destruct (sys_join_consistent ext tbl sys sys' Hext Hc Hjoin) as [ext' Hj]. exists ext', tbl.
      pose proof Hj as []. split_and!; try done. split; try done. by eapply pruning_join.
  - pose proof (wp_run _ _ _ _ _ _ _ (action_runs ext tbl (sys, prs) act Ha Hd) Hrun) as (ext' & Hs). simpl in Hs.
    exists ext', tbl. pose proof Hs as [? Hc' ? ? ? ? En]. simpl in En. split_and!; cbn [fst snd]; try done; [lia|auto].
Qed.

(** Everything that may have happened in a process since it has opened a store, deletions
    included. *)
Definition process_in (L : list LogFile) (pr : process) : Prop :=
  ∃ w h, Inv w L unclaimed ∧ run_marks (recovery_marks (locs L)) DebugHistory_default = (Ok (), h) ∧
         rtc process_next (((w, h), []), []) pr.

Lemma accounts_reachable ext tbl pr pr' :
  accounts ext tbl pr → rtc process_next pr pr' → ∃ ext' tbl', accounts ext' tbl' pr'.
Proof.
  intros Ha Hr. revert ext tbl Ha. induction Hr as [pr|pr1 pr2 pr3 H12 _ IH]; intros ext tbl Ha; [by exists ext, tbl|].
  destruct (accounts_next ext tbl pr1 pr2 Ha H12) as (ext' & tbl' & Ha' & _). by eapply IH.
Qed.

(** An open store: nothing is claimed. *)
Lemma inv_pruning w L h : Inv w L unclaimed → pruning ((w, h), []) [].
Proof.
  intros Hi. pose proof (inv_sorted _ _ _ Hi) as Hs. pose proof (inv_wf _ _ _ Hi) as HF.
  pose proof (inv_fams _ _ _ Hi) as [_ Hfam Hkey _].
  assert (∀ b fam, fam_at (w_fm w) b = Some fam → ∃ f, f ∈ L ∧ fam_ok (locs L) unclaimed f fam) as Hof.
  { intros b fam Hb. destruct (Hkey b fam Hb) as (f & Hf & ->). exists f. split; [done|].
    destruct (Hfam f Hf) as (fam' & Hb' & Hok). by assert (fam' = fam) as -> by congruence. }
  split; try (by intros ? ?%not_elem_of_nil); try (by intros ? ? ?%not_elem_of_nil).
  - by intros x b fam ?%not_elem_of_nil.
  - constructor.
  - intros b fam (f & _ & Hok)%Hof Ht. simpl in *. by rewrite (fo_claim _ _ _ _ Hok) in Ht.
  - intros b fam md (f & Hf & Hok)%Hof Emd Hl. rewrite (fo_metadata _ _ _ _ Hok) in Emd. injection Emd as <-.
    rewrite (fo_live _ _ _ _ Hok) in Hl. pose proof (live_le L (locs L) f Hs HF Hf (reflexivity _)).
    pose proof (live_nonneg (locs L) f). pose proof (wf_present f (proj1 (Forall_forall _ _) HF f Hf)). lia.
Qed.

Lemma process_accounts L pr : process_in L pr → ∃ ext tbl, accounts ext tbl pr.
Proof.
  intros (w & h & Hi & Hh & Hr). destruct (inv_consistent w L h Hi Hh). eapply accounts_reachable; [|exact Hr].
  split; [done..|]. by eapply inv_pruning.
Qed.

(** *** A reader *)

(** What may have become of the file at [b] in which a location was. *)
Definition kept_or_gone (b loc : Z) (pr : process) (ext' : gmap Z Z) (pr' : process) : Prop :=
  in_extent ext' b loc ∧ file_kept b (w_fm pr.1.1.1) (w_fm pr'.1.1.1) ∨ ¬ in_some_extent ext' loc.

Lemma in_extent_dec ext b loc : in_extent ext b loc ∨ ¬ in_extent ext b loc.
Proof.
  destruct (ext !! b) as [e|] eqn:He; [|right; intros (e & ? & _); congruence].
  destruct (decide (b ≤ loc < e)); [left; by exists e|right; intros (e' & ? & ?); congruence].
Qed.

Lemma kept_reachable ext tbl pr pr' b loc :
  accounts ext tbl pr → in_extent ext b loc → rtc process_next pr pr' →
  ∃ ext' tbl', accounts ext' tbl' pr' ∧ next_file_lsn (w_fm pr.1.1.1) ≤ next_file_lsn (w_fm pr'.1.1.1) ∧
    disk_kept (w_os pr.1.1.1) (w_os pr'.1.1.1) ∧ kept_or_gone b loc pr ext' pr'.
Proof.
  intros Ha Hb Hr. pose proof (in_extent_allocated ext tbl pr.1 (ac_consistent _ _ _ Ha) b loc Hb) as Hal.
  revert pr' Hr. refine (rtc_ind_r _ pr _ _).
  { exists ext, tbl. split_and!; [done|lia|done|by left]. }
  intros pr1 pr2 _ H12 (ext1 & tbl1 & Ha1 & Hn1 & Hd1 & Hk1).
  destruct (accounts_next ext1 tbl1 pr1 pr2 Ha1 H12) as (ext2 & tbl2 & Ha2 & Hn2 & Hd2 & Hk2 & Hsub).
  exists ext2, tbl2. split_and!; [done|lia|by etrans|].
  assert (∀ b', in_extent ext2 b' loc → in_extent ext1 b' loc) as Hsub'.
  { intros b'. apply Hsub. by eapply allocated_mono. }
  destruct Hk1 as [[Hin Hk1]|Hgone].
  - destruct (in_extent_dec ext2 b loc) as [Hin2|Hn].
    + left. split; [done|]. etrans; [exact Hk1|]. apply Hk2. destruct Hin2 as (e & ? & _); eauto.
    + right. intros [_ [b' Hb']]. apply Hn. rewrite (in_extent_unique ext1 (ac_disjoint _ _ _ Ha1) b b' loc); auto.
  - right. intros [Hpos [b' Hb']]. apply Hgone. split; [done|]. exists b'. auto.
Qed.

(** Two systems without faults to come, and with the same contents of files. *)
Definition quiet_same (o o' : os) : Prop := disk_kept o o' ∧ os_faults o = [].

Lemma quiet_read file n pos : agree quiet_same (read_exact_at file n pos).
Proof.
  intros o o' [[Ei Et Ef] Hq]. rewrite Hq in Ef. apply suffix_nil_inv in Ef.
  unfold read_exact_at, atomic_call, syscall. rewrite Hq, Ef, Ei.
  assert (∀ fl, fl = [] → quiet_same (MkOs (os_fs o) [] (os_tmp_counter o) (os_thread o))
    (MkOs (os_fs o') fl (os_tmp_counter o') (os_thread o'))) as Hs by (intros fl ->; by split; [split|]).
  destruct (fs_inodes (os_fs o) !! file) as [c|]; [destruct (slice c pos (pos + n)) as [buf|]|];
    (split; [done|by apply Hs]).
Qed.

Lemma quiet_thread : agree quiet_same current_thread.
Proof. intros o o' Hs. pose proof Hs as [[_ Et _] _]. unfold current_thread, gets. simpl. by rewrite Et. Qed.

(** A location that is still in the table is read as it was. *)
Lemma read_located_kept ext tbl pr pr' oid loc :
  accounts ext tbl pr → rtc process_next pr pr' → os_faults (w_os pr.1.1.1) = [] →
  load (w_table pr.1.1.1) oid = Some loc → load (w_table pr'.1.1.1) oid = Some loc →
  (read_located oid (Some loc) pr'.1.1.1).1 = (read_located oid (Some loc) pr.1.1.1).1.
Proof.
  intros Ha Hr Hq Hl Hl'.
  assert (∀ ext tbl pr, accounts ext tbl pr → load (w_table pr.1.1.1) oid = Some loc → in_some_extent ext loc) as Hlocs.
  { clear. intros ext tbl pr [_ Hc _] [Hl Hne]%load_Some. pose proof (co_table _ _ _ Hc oid) as Ht. rewrite Hl in Ht.
    destruct (tbl !! oid) as [l|] eqn:E; simpl in Ht; [subst l|done]. by apply (co_locs _ _ _ Hc oid). }
  destruct (Hlocs ext tbl pr Ha Hl) as [_ [b Hb]].
  destruct (kept_reachable ext tbl pr pr' b loc Ha Hb Hr) as (ext' & tbl' & Ha' & _ & Hd & Hk).
  destruct Hk as [[Hb' Hk]|Hn]; [|destruct Hn; by eapply Hlocs].
  destruct Ha as [Hext Hc _], Ha' as [Hext' Hc' _].
  destruct (range_next_file ext Hext _ b loc (co_files _ _ _ Hc) (co_wf _ _ _ Hc) Hb) as (p & f & Hn & Hp & Hf & _).
  destruct (range_next_file ext' Hext' _ b loc (co_files _ _ _ Hc') (co_wf _ _ _ Hc') Hb') as (p' & f2 & Hn' & Hp' & _).
  destruct (Hk p f Hp Hf) as (f' & Hp2 & Hf' & Hsame). assert (p' = p) as -> by congruence.
  symmetry. apply (read_located_agrees quiet_same loc b p); [apply quiet_read|apply quiet_thread|].
  split_and!; try done. by exists f, f'.
Qed.

(** * Theorems *)

(** C8. Next to any number of writers and collectors, any number of calls of [maintenance] that
    claim files, release them and delete empty ones, and the deletion of abandoned files,
    whatever the order: no assertion fails, and every step is taken, unless the process is
    killed. Every location of the table is in a file
    that nobody is about to delete, and whose count is not zero; when all writers have
    published their files, the count of a file is the number of table entries in it. *)
Theorem deletions_are_safe L pr :
  process_in L pr →
  ¬ process_panics pr ∧
  (∀ act, action pr act → (∃ r s', act pr.1.1 = (Ok r, s')) ∨ injected (w_os pr.1.1.1)) ∧
  ∃ tbl, table_ok (w_table pr.1.1.1) tbl ∧
    (∀ oid loc, tbl !! oid = Some loc →
       ∃ b p fam, range_next loc (w_fm pr.1.1.1) = Some (b, p) ∧
         arcs (w_fm pr.1.1.1) !! p = Some fam ∧ fam_live_objects fam ≠ 0 ∧ b ∉ to_remove pr.2) ∧
    ((∀ wr, wr ∈ pr.1.2 → published wr = true) →
     ∀ b fam, fam_at (w_fm pr.1.1.1) b = Some fam →
       fam_live_objects fam = Z.of_nat (size (entries_at (w_fm pr.1.1.1) b tbl))).
Proof.
  intros (ext & tbl & Ha)%process_accounts. pose proof Ha as [Hext Hc Hp]. split_and!.
  - intros [Hs|(act & s' & Hd & Hrun)]; [by eapply consistent_no_panic|].
    by apply (wp_run _ _ _ _ _ _ _ (action_runs ext tbl pr act Ha Hd)) in Hrun.
  - intros act Hd. pose proof (action_runs ext tbl pr act Ha Hd) as Hw. unfold wp in Hw.
    destruct (act pr.1.1) as [[r| | |] s']; [left; eauto|done|done|by right].
  - exists tbl. split_and!; [apply (co_table _ _ _ Hc)| |intros Hpub b fam; by eapply consistent_counts].
    intros oid loc Hl. destruct (consistent_located ext tbl pr.1 oid loc Hext Hc Hl)
      as (b & e & p & fam & _ & _ & ? & ? & Hfam & Hne). exists b, p, fam. split_and!; try done.
    intros (x & Hx & Hb)%to_remove_elem. destruct (pu_doomed _ _ Hp x b fam Hx Hb Hfam). congruence.
Qed.

(** C11. The claims are mutual exclusion for files, and none leaks: at any time each file is held
    at most once, by the writer that is writing it or by a call of [maintenance] that is
    going to rewrite or to remove it, and the claims in the file map are those of the files
    that are held. *)
Theorem claims_are_exclusive L pr :
  process_in L pr →
  NoDup (held_by_all pr) ∧
  ∀ b, b ∈ held_by_all pr ↔ ∃ fam, fam_at (w_fm pr.1.1.1) b = Some fam ∧ fam_rewrite_claim fam = true.
Proof.
  intros (ext & tbl & Ha)%process_accounts. pose proof Ha as [Hext Hc Hp].
  assert (∀ wr, wr_phase wr ≠ Finished ↔ ended wr = false) as Hend.
  { intros wr. unfold ended. by destruct (wr_phase wr). }
  assert (∀ b, b ∈ held_by_all pr ↔ written_by pr.1 b ∨ b ∈ marked pr.2) as Hheld.
  { intros b. unfold held_by_all, written_by. rewrite elem_of_app, list_elem_of_fmap. setoid_rewrite list_elem_of_filter.
    setoid_rewrite Hend. naive_solver. }
  split.
  - apply NoDup_app. split_and!; [|intros b Hw Hb|apply (pu_nodup _ _ Hp)].
    + eapply sublist_NoDup; [apply (co_bases _ _ _ Hc)|apply (fmap_sublist wr_base), sublist_filter].
    + apply (pu_idle _ _ Hp b Hb). apply list_elem_of_fmap in Hw as (wr & -> & [He Hwr]%list_elem_of_filter).
      exists wr. rewrite <- Hend. done.
  - intros b. rewrite Hheld. split.
    + intros [(wr & Hwr & He & <-)|Hb]; [|by apply (pu_marked _ _ Hp)].
      destruct (proj2 (co_files _ _ _ Hc (wr_base wr))) as [fam Hfam]; [by apply (co_writers _ _ _ Hc wr Hwr)|].
      exists fam. split; [done|]. by apply (co_claimed _ _ _ Hc wr).
    + intros (fam & Hfam & Ht). destruct (pu_held _ _ Hp b fam Hfam Ht); tauto.
Qed.

(** C10. A read that loads a location and follows it later is disturbed by a deletion only if its
    object has been written or moved in between: if the location is still in the table at
    the end, the read returns what it would have returned at once. *)
Theorem reads_survive_deletions L pr pr' oid loc :
  process_in L pr → rtc process_next pr pr' → os_faults (w_os pr.1.1.1) = [] →
  load (w_table pr.1.1.1) oid = Some loc → load (w_table pr'.1.1.1) oid = Some loc →
  (read_located oid (Some loc) pr'.1.1.1).1 = (read oid pr.1.1.1).1.
Proof.
  intros (ext & tbl & Ha)%process_accounts Hr Hq Hl Hl'. rewrite (read_located_kept ext tbl pr pr') by done.
  unfold read, mbind, M_bind, gets. by rewrite Hl.
Qed.
End passes.
