(* ===== verification/ObjectStore.v ===== *)
(** ObjectStore: what the store promises to its clients, as an interface. [ObjectStore] has
    the operations, [ObjectStoreLaws] their contract in terms of the finite map of [Spec]:
    the clients [Kv] and [FuzzModel] are verified against it, and [MarbleStore] shows that
    the crate implements it. *)
From S2P Require Import Prelude Effects Spec.

(** [W] is the state of a process with an open store, [O] that of the operating system it
    runs on. *)
Class ObjectStore (W O : Type) := {
  store_os : W → O;
  (** a new process on what an old one has left, without faults to come *)
  store_reboot : O → O;
  store_open : O → outcome W * O;
  store_read : Z → M W (option bytes);
  store_write_batch : list (Z * option bytes) → M W ();
  store_maintenance : M W Z;
  (** the live and the dead objects that [stats] reports *)
  store_stats : M W (Z * Z);
  store_drop : M W ();
}.

Class ObjectStoreLaws (W O : Type) `{St : ObjectStore W O} := {
  (** the store is open and holds these objects *)
  holds : W → AbsStore → Prop;
  (** the disk holds these objects, for whoever opens it next *)
  left_with : O → AbsStore → Prop;
  (** a process that may open a store *)
  ready : O → Prop;
  (** no system call is going to fail *)
  calm : O → Prop;
  (** there is room for the batch, and for rewriting the store *)
  fits_batch : W → list (Z * option bytes) → Prop;
  fits_maintenance : W → Prop;

  holds_left w m : holds w m → left_with (store_os w) m;

  reboot_left o m : left_with o m → left_with (store_reboot o) m;
  reboot_ready o : ready (store_reboot o);
  reboot_calm o : calm (store_reboot o);

  open_law o m : left_with o m → ready o →
    match store_open o with
    | (Ok w, _) => holds w m ∧ (calm o → calm (store_os w))
    | (Panic, _) => False
    | _ => ¬ calm o
    end;

  read_law w m object_id : holds w m →
    wp (store_read object_id)
      (λ v w', v = spec_read object_id m ∧ holds w' m ∧ (calm (store_os w) → calm (store_os w'))
               ∧ ∀ b, fits_batch w b → fits_batch w' b)
      (λ _ w', left_with (store_os w') m ∧ ¬ calm (store_os w))
      (λ w', left_with (store_os w') m ∧ ¬ calm (store_os w)) w;

  write_law w m batch : holds w m → fits_batch w batch →
    wp (store_write_batch batch)
      (λ _ w', holds w' (spec_write batch m) ∧ (calm (store_os w) → calm (store_os w')))
      (λ _ w', (left_with (store_os w') m ∨ left_with (store_os w') (spec_write batch m))
               ∧ ¬ calm (store_os w))
      (λ w', (left_with (store_os w') m ∨ left_with (store_os w') (spec_write batch m))
             ∧ ¬ calm (store_os w)) w;

  (** after faults a successful [maintenance] may have left an empty file behind *)
  maintenance_law w m : holds w m → fits_maintenance w →
    wp store_maintenance
      (λ _ w', left_with (store_os w') m ∧
               (calm (store_os w) → holds w' m ∧ calm (store_os w')))
      (λ _ w', left_with (store_os w') m ∧ ¬ calm (store_os w))
      (λ w', left_with (store_os w') m ∧ ¬ calm (store_os w)) w;

  stats_law w m : holds w m → ∃ live_dead, store_stats w = (Ok live_dead, w);

  drop_law w m : holds w m →
    wp store_drop
      (λ _ w', left_with (store_os w') m ∧ ready (store_os w') ∧
               (calm (store_os w) → calm (store_os w')))
      (λ _ _, False)
      (λ w', left_with (store_os w') m ∧ ¬ calm (store_os w)) w;
}.

(** [result.unwrap()] *)
Definition unwrap_result {S A} (m : M S A) : M S A := λ s,
  match m s with
  | (Err _, s') => (Panic, s')
  | r => r
  end.

Section facts.
Context {S : Type}.

Lemma wp_ok {A} (m : M S A) (Q : A → S → Prop) E C a s s' :
  m s = (Ok a, s') → Q a s' → wp m Q E C s.
Proof. unfold wp. by intros ->. Qed.

Lemma wp_unwrap_result {A} (m : M S A) (Q : A → S → Prop) E C s :
  wp m Q (λ _ _, False) C s → wp (unwrap_result m) Q E C s.
Proof. unfold wp, unwrap_result. destruct (m s) as [[] ?]; auto. Qed.

Lemma unwrap_result_ok {A} {m : M S A} {s a s'} : m s = (Ok a, s') → unwrap_result m s = (Ok a, s').
Proof. unfold unwrap_result. by intros ->. Qed.
End facts.

(** Programs that cannot fail. *)
Section calm.
Context {W O : Type} `{ObjectStoreLaws W O}.
Implicit Types w : W.

Lemma wp_calm {S A} (m : M S A) Q E C (P : Prop) s :
  wp m Q (λ e s', E e s' ∧ ¬ P) (λ s', C s' ∧ ¬ P) s → P →
  wp m Q (λ _ _, False) (λ _, False) s.
Proof. intros Hm HP. eapply wp_mono; [exact Hm|..]; naive_solver. Qed.

Definition holds_calmly w (m : AbsStore) : Prop := holds w m ∧ calm (store_os w).

Lemma open_calm o m :
  left_with o m → ready o → calm o → ∃ w o', store_open o = (Ok w, o') ∧ holds_calmly w m.
Proof.
  intros Hl Hr Hc. pose proof (open_law o m Hl Hr) as Ho. unfold holds_calmly.
  destruct (store_open o) as [[w| | |] o']; naive_solver.
Qed.

Lemma wp_read_calm w m object_id :
  holds_calmly w m →
  wp (store_read object_id)
    (λ v w', v = spec_read object_id m ∧ holds_calmly w' m ∧ ∀ b, fits_batch w b → fits_batch w' b)
    (λ _ _, False) (λ _, False) w.
Proof.
  intros [Hh Hc]. eapply wp_mono; [by eapply wp_calm, Hc; apply read_law|..]; simpl; [|done..].
  unfold holds_calmly. naive_solver.
Qed.

Lemma wp_write_calm w m batch :
  holds_calmly w m → fits_batch w batch →
  wp (store_write_batch batch) (λ _ w', holds_calmly w' (spec_write batch m))
    (λ _ _, False) (λ _, False) w.
Proof.
  intros [Hh Hc] Hf. eapply wp_mono; [by eapply wp_calm, Hc; apply write_law|..]; simpl; [|done..].
  unfold holds_calmly. naive_solver.
Qed.

Lemma wp_maintenance_calm w m :
  holds_calmly w m → fits_maintenance w →
  wp store_maintenance (λ _ w', holds_calmly w' m) (λ _ _, False) (λ _, False) w.
Proof.
  intros [Hh Hc] Hf. eapply wp_mono; [by eapply wp_calm, Hc; apply maintenance_law|..]; simpl; [|done..].
  unfold holds_calmly. naive_solver.
Qed.

Lemma wp_drop_calm w m :
  holds_calmly w m →
  wp store_drop (λ _ w', left_with (store_os w') m ∧ ready (store_os w') ∧ calm (store_os w')) (λ _ _, False) (λ _, False) w.
Proof.
  intros [Hh Hc]. pose proof (drop_law w m Hh) as Hd. eapply wp_mono; [exact Hd|..]; simpl; naive_solver.
Qed.
End calm.
