(* ===== verification/Kv.v ===== *)
(** Kv: [src/examples/kv.rs], a key-value store over the object store. Object 1 is an index
    that maps the least key of every page to the object of the page; the pages are the
    other objects, and hold the pairs.

    [serialize] and [deserialize] are those of the crate bincode, parameters here; the
    object store is any implementation of [ObjectStore]. *)
From S2P Require Import Prelude Effects Deps Spec ObjectStore.

#[global] Instance byte_countable : Countable byte.
Proof. by apply (inj_countable Byte.to_N Byte.of_N), Byte.of_to_N. Defined.

(** ** [BTreeMap<Vec<u8>, V>]: a finite map whose keys are ordered byte by byte *)

Fixpoint bytes_le (a b : bytes) : bool :=
  match a, b with
  | [], _ => true
  | _ :: _, [] => false
  | x :: a, y :: b => if Z_of_byte x =? Z_of_byte y then bytes_le a b else Z_of_byte x <? Z_of_byte y
  end.

(** [map.range(..=key).next_back()] *)
Definition range_next_back {V} (key : bytes) (m : gmap bytes V) : option (bytes * V) :=
  foldr (λ e best,
    if bytes_le e.1 key then
      match best with
      | Some b => if bytes_le b.1 e.1 then Some e else best
      | None => Some e
      end
    else best) None (map_to_list m).

(** ** Data *)

Definition INDEX_OBJECT_ID : Z := 1.

Record Index := MkIndex {
  pages : gmap bytes Z;
  max_pid : Z;
}.

Definition Index_default : Index := MkIndex ∅ (INDEX_OBJECT_ID + 1).

Record Page := MkPage {
  hi : option bytes;
  lo : bytes;
  kvs : gmap bytes bytes;
}.

(** [bincode::serialize] and [bincode::deserialize]; [None] is an error *)
Class Bincode := {
  serialize_index : Index → option bytes;
  deserialize_index : bytes → option Index;
  serialize_page : Page → option bytes;
  deserialize_page : bytes → option Page;
}.

(** The values of these types that fit into the memory of a process. *)
Definition vec_typed (b : bytes) : Prop := len b ≤ isize_max.

Record index_typed (i : Index) : Prop := {
  it_size : Z.of_nat (size (pages i)) ≤ isize_max;
  it_pages : map_Forall (λ lo pid, vec_typed lo ∧ is_u64 pid) (pages i);
  it_max : is_u64 (max_pid i);
}.

Record page_typed (p : Page) : Prop := {
  pt_hi : match hi p with Some h => vec_typed h | None => True end;
  pt_lo : vec_typed (lo p);
  pt_size : Z.of_nat (size (kvs p)) ≤ isize_max;
  pt_kvs : map_Forall (λ k v, vec_typed k ∧ vec_typed v) (kvs p);
}.

Class BincodeLaws `{Bincode} := {
  index_roundtrip i : index_typed i →
    ∃ data, serialize_index i = Some data ∧ deserialize_index data = Some i;
  page_roundtrip p : page_typed p →
    ∃ data, serialize_page p = Some data ∧ deserialize_page data = Some p;
}.

(** ** Operations *)

Section operations.
Context `{Deps, Bincode} {W O : Type} `{ObjectStore W O}.

Record Kv := MkKv {
  heap : W;
  index : Index;
}.

Definition set_heap (w : W) (kv : Kv) : Kv := MkKv w (index kv).
Definition set_index (i : Index) (kv : Kv) : Kv := MkKv (heap kv) i.

Definition on_heap {A} (m : M W A) : M Kv A := zoom heap set_heap m.

(** [Kv::allocate_leaf] *)
Definition allocate_leaf (leaf : Page) : M Kv () :=
  modify (λ kv, set_index (MkIndex (pages (index kv)) (wrap64 (max_pid (index kv) + 1))) kv);;
  object_id ← gets (λ kv, max_pid (index kv));
  previous ← gets (λ kv, pages (index kv) !! lo leaf);
  modify (λ kv, set_index
    (MkIndex (<[lo leaf := object_id]> (pages (index kv))) (max_pid (index kv))) kv);;
  assert_that (bool_decide (previous = None));;
  leaf_data ← unwrap (serialize_page leaf);
  i ← gets index;
  index_data ← unwrap (serialize_index i);
  let write_batch : gmap Z (option bytes) :=
    <[INDEX_OBJECT_ID := Some index_data]> (<[object_id := Some leaf_data]> ∅) in
  on_heap (store_write_batch (iter_order write_batch)).

Definition genesis_page : Page := MkPage None [] ∅.

(** [Kv::recover], once the heap is open *)
Definition recover_index : M Kv () :=
  index_data ← on_heap (store_read INDEX_OBJECT_ID);
  match index_data with
  | Some index_data =>
      i ← unwrap (deserialize_index index_data);
      modify (set_index i)
  | None => modify (set_index Index_default)
  end;;
  is_empty ← gets (λ kv, bool_decide (pages (index kv) = ∅));
  when is_empty (allocate_leaf genesis_page).

(** [Kv::recover]; an error drops the heap *)
Definition recover (o : O) : outcome Kv * O :=
  match store_open o with
  | (Ok w, _) =>
      match on_error recover_index (on_heap store_drop) (MkKv w Index_default) with
      | (Ok _, kv) => (Ok kv, store_os (heap kv))
      | (Err e, kv) => (Err e, store_os (heap kv))
      | (Panic, kv) => (Panic, store_os (heap kv))
      | (Crash, kv) => (Crash, store_os (heap kv))
      end
  | (Err e, o') => (Err e, o')
  | (Panic, o') => (Panic, o')
  | (Crash, o') => (Crash, o')
  end.

(** [Kv::pid_for_key] *)
Definition pid_for_key (key : bytes) : M Kv Z :=
  ps ← gets (λ kv, pages (index kv));
  '(_, pid) ← unwrap (range_next_back key ps);
  mret pid.

(** the page of a key, read and decoded *)
Definition read_leaf (object_id : Z) : M Kv Page :=
  leaf_data ← on_heap (store_read object_id);
  leaf_data ← unwrap leaf_data;
  unwrap (deserialize_page leaf_data).

(** [Kv::get] *)
Definition get (key : bytes) : M Kv (option bytes) :=
  object_id ← pid_for_key key;
  leaf ← read_leaf object_id;
  mret (kvs leaf !! key).

(** the change [Kv::mutate] makes to a page *)
Definition mutate_leaf (key : bytes) (value : option bytes) (leaf : Page) : Page :=
  MkPage (hi leaf) (lo leaf)
    match value with
    | Some v => <[key := v]> (kvs leaf)
    | None => delete key (kvs leaf)
    end.

(** [Kv::mutate] *)
Definition mutate (key : bytes) (value : option bytes) : M Kv (option bytes) :=
  object_id ← pid_for_key key;
  leaf ← read_leaf object_id;
  let ret := kvs leaf !! key in
  leaf_data ← unwrap (serialize_page (mutate_leaf key value leaf));
  on_heap (store_write_batch [(object_id, Some leaf_data)]);;
  '(live_objects, dead_objects) ← on_heap store_stats;
  when (live_objects <? dead_objects) (on_heap store_maintenance;; mret ());;
  mret ret.

(** [Kv::set] *)
Definition set (key value : bytes) : M Kv (option bytes) := mutate key (Some value).

(** [Kv::remove] *)
Definition remove (key : bytes) : M Kv (option bytes) := mutate key None.

(** [main], after the first line *)
Definition kv_main_body (yo hi : bytes) : M Kv () :=
  unwrap_result (set yo hi);;
  v ← unwrap_result (get yo);
  assert_that (bool_decide (v = Some hi));;
  unwrap_result (remove yo);;
  v ← unwrap_result (get yo);
  assert_that (bool_decide (v = None)).

(** [main]; the error of [recover] is unwrapped *)
Definition kv_main (o : O) : outcome () :=
  let yo := [x79; x6f] in
  let hi := [x68; x69] in
  match recover o with
  | (Ok kv, _) => (kv_main_body yo hi kv).1
  | (Crash, _) => Crash
  | _ => Panic
  end.
End operations.
Arguments Kv : clear implicits.
