(* ===== verification/FuzzModel.v ===== *)
(** FuzzModel: [src/fuzz/fuzz_targets/fuzz_model.rs], the model test of the crate: random
    programs of write batches, defragmentations and restarts, after each of which every
    object of a reference map is read back and compared.

    The crate arbitrary, which turns the bytes of the fuzzer into choices, is a parameter,
    and so are the random name of the directory and its removal; the store is any
    implementation of [ObjectStore]. *)
From S2P Require Import Prelude Effects Deps Config Spec ObjectStore.

(** ** [arbitrary::Unstructured] *)

(** [Err] is [arbitrary::Error]. *)
Class Unstructured (U : Type) := {
  int_in_range : Z → Z → M U Z;
  arbitrary_bool : M U bool;
  arbitrary_i32 : M U Z;
  u_bytes : Z → M U bytes;
}.

Class UnstructuredLaws (U : Type) `{Unstructured U} := {
  wp_int_in_range low high u : low ≤ high →
    wp (int_in_range low high) (λ n _, low ≤ n ≤ high) (λ _ _, True) (λ _, False) u;
  wp_arbitrary_bool u : wp arbitrary_bool (λ _ _, True) (λ _ _, True) (λ _, False) u;
  wp_arbitrary_i32 u : wp arbitrary_i32 (λ n _, - 2 ^ 31 ≤ n < 2 ^ 31) (λ _ _, True) (λ _, False) u;
  wp_u_bytes n u : 0 ≤ n → wp (u_bytes n) (λ bs _, len bs = n) (λ _ _, True) (λ _, False) u;
}.

(** [result.unwrap_or(a)] *)
Definition unwrap_or {S A} (m : M S A) (a : A) : M S A := λ s,
  match m s with
  | (Err _, s') => (Ok a, s')
  | r => r
  end.

Lemma wp_unwrap_or {S A} (m : M S A) a (Q : A → S → Prop) E C s :
  wp m Q (λ _, Q a) C s → wp (unwrap_or m a) Q E C s.
Proof. unfold wp, unwrap_or. by destruct (m s) as [[] ?]. Qed.

(** ** Arguments *)

Definition TEST_DIR : string := "testing_data_directories".

Definition KEYSPACE : Z := 32.
Definition BATCH_MIN_SZ : Z := 0.
Definition BATCH_MAX_SZ : Z := 16.
Definition VALUE_MAX_SZ : Z := 16.
Definition OPS : nat := 6.

Inductive fuzz_op :=
  | FuzzWriteBatch (write_batch : gmap Z (option bytes))
  | FuzzGc
  | FuzzRestart.

Section arguments.
Context {U : Type} `{Unstructured U}.

(** [Config::arbitrary], with the name that [Uuid::new_v4] makes up *)
Definition Config_arbitrary (uuid : string) : M U Config :=
  none ← unwrap_or arbitrary_bool false;
  zstd_compression_level ←
    (if (none : bool) then mret None
     else level ← unwrap_or arbitrary_i32 3; mret (Some level));
  target_file_size ← unwrap_or (int_in_range 1 1024) 50;
  file_compaction_percent ← unwrap_or (int_in_range 0 99) 50;
  mret {|
    path := TEST_DIR +:+ "/fuzz/" +:+ uuid;
    zstd_compression_level := zstd_compression_level;
    fsync_each_batch := fsync_each_batch Config_default;
    target_file_size := target_file_size;
    file_compaction_percent := file_compaction_percent;
    max_object_size := max_object_size Config_default;
    small_file_cleanup_threshold := small_file_cleanup_threshold Config_default;
    partition_function := partition_function Config_default;
    min_compaction_files := min_compaction_files Config_default;
  |}.

(** one iteration of the loop of [WriteBatch::arbitrary] *)
Definition arbitrary_entry (batch : gmap Z (option bytes)) (pid_default : Z)
    : M U (gmap Z (option bytes)) :=
  pid ← unwrap_or (int_in_range 0 KEYSPACE) pid_default;
  some ← unwrap_or arbitrary_bool true;
  page ←
    (if (some : bool) then
       n ← unwrap_or (int_in_range 0 VALUE_MAX_SZ) 0;
       value ← unwrap_or (u_bytes n) [x01; x02; x03; x04; x05; x06; x07; x08];
       mret (Some value)
     else mret None);
  mret (<[pid := page]> batch).

(** [WriteBatch::arbitrary] *)
Definition WriteBatch_arbitrary : M U (gmap Z (option bytes)) :=
  pages ← unwrap_or (int_in_range BATCH_MIN_SZ BATCH_MAX_SZ) BATCH_MIN_SZ;
  foldM arbitrary_entry ∅ (seqZ 0 pages).

(** [Op::arbitrary] *)
Definition Op_arbitrary : M U fuzz_op :=
  choice ← unwrap_or (int_in_range 0 2) 0;
  if choice =? 0 then mret FuzzGc
  else if choice =? 1 then batch ← unwrap_result WriteBatch_arbitrary; mret (FuzzWriteBatch batch)
  else if choice =? 2 then mret FuzzRestart
  else panic.
End arguments.

(** ** The target *)

Definition key_le {V} (a b : Z * V) : Prop := a.1 ≤ b.1.

#[global] Instance key_le_dec {V} (a b : Z * V) : Decision (key_le a b).
Proof. unfold key_le; apply _. Defined.

Section target.
Context `{Deps} {W O : Type} `{ObjectStore W O}.

(** [for (pid, expected) in &model], in the order of the [BTreeMap] *)
Definition btree_iter {V} (m : gmap Z V) : list (Z * V) := merge_sort key_le (map_to_list m).

(** the loop that compares the store with the reference *)
Definition check_object (e : Z * option bytes) : M W () :=
  let '(pid, expected) := e in
  actual ← unwrap_result (store_read pid);
  assert_that (bool_decide (expected = (actual : option bytes))).

(** [drop(marble); marble = config.open().unwrap()] *)
Definition store_reopen : M W () := λ w,
  match store_open (store_os w) with
  | (Ok w', _) => (Ok (), w')
  | (Crash, _) => (Crash, w)
  | _ => (Panic, w)
  end.

(** one operation of the target, with the reference it leaves *)
Definition run_fuzz_op (model : gmap Z (option bytes)) (op : fuzz_op) : M W (gmap Z (option bytes)) :=
  model ←
    match op with
    | FuzzWriteBatch write_batch =>
        let entries := iter_order write_batch in
        let model := foldl (λ m e, <[e.1 := e.2]> m) model entries in
        unwrap_result (store_write_batch entries);;
        mret model
    | FuzzGc => unwrap_result store_maintenance;; mret model
    | FuzzRestart => unwrap_result store_drop;; store_reopen;; mret model
    end;
  forM (btree_iter model) check_object;;
  mret model.

(** the target; [remove_dir_all] removes its directory *)
Definition fuzz_target (remove_dir_all : O → outcome ()) (ops : list fuzz_op) (o : O) : outcome () :=
  match store_open o with
  | (Ok w, _) =>
      match foldM run_fuzz_op ∅ ops w with
      | (Ok _, w') =>
          match unwrap_result store_drop w' with
          | (Ok _, w') =>
              match remove_dir_all (store_os w') with Err _ => Panic | r => r end
          | (r, _) => r
          end
      | (Crash, _) => Crash
      | _ => Panic
      end
  | (Crash, _) => Crash
  | _ => Panic
  end.
End target.
