(* ===== verification/Bench.v ===== *)
(** Bench: [src/examples/bench.rs], the load generator: threads that write random batches,
    threads that time random reads, the defragmentation beside them, and the one that ends
    the run.

    The crate rand, the clock and the text the values are cut from are parameters; the store
    is any implementation of [ObjectStore]. *)
From S2P Require Import Prelude Effects Deps Config Spec ObjectStore.

(** ** The surroundings *)

(** [rand::Rng]: [gen_range(low..high)] and [gen_bool(num / den)] *)
Class Rng (R : Type) := {
  gen_range : Z → Z → M R Z;
  gen_bool : Z → Z → M R bool;
}.

(** An empty range panics, and so does a probability above one. *)
Class RngLaws (R : Type) `{Rng R} := {
  wp_gen_range low high r : low < high →
    wp (gen_range low high) (λ n _, low ≤ n < high) (λ _ _, False) (λ _, False) r;
  gen_range_empty low high r : high ≤ low → (gen_range low high r).1 = Panic;
  wp_gen_bool num den r : 0 ≤ num ≤ den → 0 < den →
    wp (gen_bool num den) (λ _ _, True) (λ _ _, False) (λ _, False) r;
}.

(** [Instant::now], in nanoseconds *)
Class Clock (T : Type) := now : M T Z.

(** [Duration::MAX] *)
Definition duration_max : Z := (2 ^ 64 - 1) * 1000000000 + 999999999.

(** The clock does not run backwards, and counts seconds in 64 bits. *)
Class ClockLaws (T : Type) `{Clock T} := {
  clock : T → Z;
  clock_range c : 0 ≤ clock c ≤ duration_max;
  wp_now c : wp now (λ t c', t = clock c' ∧ clock c ≤ clock c') (λ _ _, False) (λ _, False) c;
}.

(** ** The constants *)

Definition KEYSPACE : Z := 1024 * 1024.
Definition BATCH_SZ : Z := 64 * 1024.
Definition VALUE_LEN : Z := 64.
Definition OPS_PER_THREAD : Z := 1 * 1024 * 1024.
Definition BATCHES_PER_THREAD : Z := OPS_PER_THREAD / BATCH_SZ.

(** ** The threads *)

Section threads.
Context `{Deps} {W O R T : Type} `{ObjectStore W O} `{Rng R} `{Clock T}.

(** What a thread sees: its generator, the clock, the store and [ANY_WRITERS_DONE]. *)
Record Thread := MkThread {
  rng : R;
  time : T;
  marble : W;
  any_writers_done : bool;
}.

Definition set_rng (r : R) (t : Thread) : Thread := MkThread r (time t) (marble t) (any_writers_done t).
Definition set_time (c : T) (t : Thread) : Thread := MkThread (rng t) c (marble t) (any_writers_done t).
Definition set_marble (w : W) (t : Thread) : Thread := MkThread (rng t) (time t) w (any_writers_done t).
Definition set_done (b : bool) (t : Thread) : Thread := MkThread (rng t) (time t) (marble t) b.

Definition with_rng {A} : M R A → M Thread A := zoom rng set_rng.
Definition with_time {A} : M T A → M Thread A := zoom time set_time.
Definition with_marble {A} : M W A → M Thread A := zoom marble set_marble.

(** one iteration of the loop that fills a batch *)
Definition random_entry (lorem_ipsum : bytes) (max_offset : Z) (batch : gmap Z (option bytes)) (_ : Z)
    : M Thread (gmap Z (option bytes)) :=
  pid ← with_rng (gen_range 0 KEYSPACE);
  deletion ← with_rng (gen_bool 1 10);
  v ←
    (if (deletion : bool) then mret None
     else
       start ← with_rng (gen_range 0 max_offset);
       value ← unwrap (slice lorem_ipsum start (start + VALUE_LEN));
       mret (Some value));
  mret (<[pid := v]> batch).

(** one iteration of the loop of [run_writer] *)
Definition write_random_batch (lorem_ipsum : bytes) (max_offset : Z) (_ : Z) : M Thread () :=
  batch ← foldM (random_entry lorem_ipsum max_offset) ∅ (seqZ 0 BATCH_SZ);
  with_marble (unwrap_result (store_write_batch (iter_order batch))).

Definition run_writer (lorem_ipsum : bytes) : M Thread () :=
  let max_offset := Z.max (len lorem_ipsum) VALUE_LEN - VALUE_LEN in
  forM (seqZ 0 BATCHES_PER_THREAD) (write_random_batch lorem_ipsum max_offset);;
  modify (set_done true).

(** [best_time], [worst_time], [total_time] and [count] *)
Record Latencies := MkLatencies {
  best_time : Z;
  worst_time : Z;
  total_time : Z;
  count : Z;
}.

(** [Duration::MAX] and [Duration::default()] *)
Definition no_latencies : Latencies := MkLatencies duration_max 0 0 0.

(** one iteration of the loop of [run_reader]; adding durations panics on overflow *)
Definition timed_read (l : Latencies) (_ : Z) : M Thread Latencies :=
  before ← with_time now;
  pid ← with_rng (gen_range 0 KEYSPACE);
  with_marble (unwrap_result (store_read pid));;
  after ← with_time now;
  let elapsed := Z.max (after - before) 0 in
  assert_that (total_time l + elapsed <=? duration_max);;
  mret (MkLatencies (Z.min (best_time l) elapsed) (Z.max (worst_time l) elapsed)
          (total_time l + elapsed) (count l + 1)).

(** [run_reader], where [loads] of the loads of [ANY_WRITERS_DONE] find no writer done, and
    the figures it prints: worst, best and average. *)
Definition run_reader (loads : Z) : M Thread (Z * Z * Z) :=
  l ← foldM timed_read no_latencies (seqZ 0 loads);
  if count l =? 0 then panic
  else mret (worst_time l / 1000, best_time l, total_time l / 1000 / count l).

(** ** The threads side by side

    A turn is one iteration of the loop of a thread, a call of the store with what comes
    with it; the calls themselves are taken one at a time. *)

(** A writer has so many batches left, a reader has measured so much; [None] is a thread that
    has finished. *)
Record Phase := MkPhase {
  ph_time : T;
  ph_marble : W;
  ph_done : bool;
  ph_writers : list (R * option nat);
  ph_readers : list (R * option Latencies);
}.

Definition set_ph_writers (ws : list (R * option nat)) (ph : Phase) : Phase :=
  MkPhase (ph_time ph) (ph_marble ph) (ph_done ph) ws (ph_readers ph).
Definition set_ph_readers (rs : list (R * option Latencies)) (ph : Phase) : Phase :=
  MkPhase (ph_time ph) (ph_marble ph) (ph_done ph) (ph_writers ph) rs.
Definition set_ph_thread (t : Thread) (ph : Phase) : Phase :=
  MkPhase (time t) (marble t) (any_writers_done t) (ph_writers ph) (ph_readers ph).

(** What the thread with generator [r] does next. *)
Definition by_thread {A} (r : R) (m : M Thread A) : M Phase (A * R) :=
  zoom (λ ph, MkThread r (ph_time ph) (ph_marble ph) (ph_done ph)) set_ph_thread
    (a ← m; r ← gets rng; mret (a, r)).

Definition writer_turn (lorem_ipsum : bytes) (i : nat) : M Phase () :=
  ws ← gets ph_writers;
  match ws !! i with
  | Some (r, Some n) =>
      '(todo, r) ← by_thread r
        (match n with
         | S n =>
             write_random_batch lorem_ipsum (Z.max (len lorem_ipsum) VALUE_LEN - VALUE_LEN) 0;;
             mret (Some n)
         | 0%nat => modify (set_done true);; mret None
         end);
      modify (set_ph_writers (<[i := (r, todo)]> ws))
  | _ => mret ()
  end.

Definition reader_turn (i : nat) : M Phase () :=
  rs ← gets ph_readers;
  match rs !! i with
  | Some (r, Some l) =>
      '(l, r) ← by_thread r
        (finished ← gets any_writers_done;
         if (finished : bool) then (if count l =? 0 then panic else mret None)
         else l ← timed_read l 0; mret (Some l));
      modify (set_ph_readers (<[i := (r, l)]> rs))
  | _ => mret ()
  end.

(** [!t.is_finished()] for some [t] *)
Definition unfinished (ph : Phase) : bool :=
  existsb (λ w, bool_decide (is_Some w.2)) (ph_writers ph) ||
  existsb (λ r, bool_decide (is_Some r.2)) (ph_readers ph).

(** one iteration of the loop of [main] beside the threads *)
Definition main_turn : M Phase () :=
  more ← gets unfinished;
  when more
    (zoom ph_marble (λ w ph, MkPhase (ph_time ph) w (ph_done ph) (ph_writers ph) (ph_readers ph))
       (cleaned_up ← unwrap_result store_maintenance;
        when (0 <? cleaned_up) (store_stats;; mret ()))).

Inductive turn := WriterTurn (i : nat) | ReaderTurn (i : nat) | MainTurn.

Definition take_turn (lorem_ipsum : bytes) (a : turn) : M Phase () :=
  match a with
  | WriterTurn i => writer_turn lorem_ipsum i
  | ReaderTurn i => reader_turn i
  | MainTurn => main_turn
  end.

(** A schedule of the threads; [concurrency] writers and readers start it. *)
Definition run_threads (lorem_ipsum : bytes) (schedule : list turn) : M Phase () :=
  forM schedule (take_turn lorem_ipsum).

Definition start_threads (concurrency : nat) (new_rng : nat → R) (c : T) (w : W) : Phase :=
  MkPhase c w false
    ((λ i, (new_rng (2 * i)%nat, Some (Z.to_nat BATCHES_PER_THREAD))) <$> seq 0 concurrency)
    ((λ i, (new_rng (2 * i + 1)%nat, Some no_latencies)) <$> seq 0 concurrency).
End threads.

#[global] Arguments Thread : clear implicits.
#[global] Arguments Phase : clear implicits.

(** ** [main] *)

Definition bench_config : Config := {|
  path := "bench_data";
  zstd_compression_level := None;
  fsync_each_batch := false;
  target_file_size := 5 * 1024 * 1024;
  file_compaction_percent := file_compaction_percent Config_default;
  max_object_size := max_object_size Config_default;
  small_file_cleanup_threshold := small_file_cleanup_threshold Config_default;
  partition_function := partition_function Config_default;
  min_compaction_files := min_compaction_files Config_default;
|}.

Section main.
Context {W O : Type} `{ObjectStore W O}.

(** from [config.open()] to the creation of the threads *)
Definition bench_start (o : O) : outcome () * option W :=
  match store_open o with
  | (Ok w, _) =>
      let (r, w') := (store_stats;; unwrap_result store_maintenance;; store_stats;; mret ()) w in
      (r, Some w')
  | (Crash, _) => (Crash, None)
  | _ => (Panic, None)
  end.

(** [while cleaned_up != 0 { .. }] *)
Fixpoint settle (fuel : nat) (cleaned_up : Z) : M W bool :=
  if cleaned_up =? 0 then mret true
  else
    match fuel with
    | 0%nat => mret false
    | S fuel =>
        cleaned_up ← unwrap_result store_maintenance;
        store_stats;;
        settle fuel cleaned_up
    end.

(** from [let mut cleaned_up = 1] to the [assert_eq!]; the result tells whether the fuel has
    been enough *)
Definition bench_finish (fuel : nat) : M W bool :=
  ended ← settle fuel 1;
  if (ended : bool) then
    cleaned_up_2 ← unwrap_result store_maintenance;
    assert_that (cleaned_up_2 =? 0);;
    mret true
  else mret false.
End main.

(** The figures of the last message. *)
Record Report := MkReport {
  megabytes_written : Z;
  writes_per_second : Z;
  kb_per_value : Z;
  megabytes_per_second : Z;
}.

(** the arithmetic at the end of [main]; [None] is a division by zero *)
Definition report (concurrency elapsed_millis : Z) : option Report :=
  let total_ops := wrap64 (concurrency * BATCH_SZ * BATCHES_PER_THREAD) in
  let bytes_written := wrap64 (total_ops * VALUE_LEN) in
  if elapsed_millis =? 0 then None
  else Some {|
    megabytes_written := bytes_written / 1000000;
    writes_per_second := total_ops * 1000 / elapsed_millis;
    kb_per_value := VALUE_LEN / 1000;
    megabytes_per_second := bytes_written / 1000 / elapsed_millis;
  |}.
