(* ===== verification/KvSpec.v ===== *)
(** KvSpec: the key-value store of [Kv] is a finite map from byte strings to byte strings,
    on any object store that keeps the contract of [ObjectStore]. *)
From S2P Require Import Prelude Effects Deps Spec ObjectStore Kv.

(** ** The order of the keys *)

Lemma bytes_le_refl a : bytes_le a a = true.
Proof. induction a as [|x a IH]; simpl; [done|]. by rewrite Z.eqb_refl. Qed.

Lemma Z_of_byte_inj x y : Z_of_byte x = Z_of_byte y → x = y.
Proof. intros E. by rewrite <- (byte_of_Z_of_byte x), E, byte_of_Z_of_byte. Qed.

Lemma bytes_le_trans a b c : bytes_le a b = true → bytes_le b c = true → bytes_le a c = true.
Proof.
  revert b c. induction a as [|x a IH]; intros [|y b] [|z c]; simpl; try done.
  destruct (Z.eqb_spec (Z_of_byte x) (Z_of_byte y)), (Z.eqb_spec (Z_of_byte y) (Z_of_byte z)),
    (Z.eqb_spec (Z_of_byte x) (Z_of_byte z)); try lia. by apply IH.
Qed.

Lemma bytes_le_antisym a b : bytes_le a b = true → bytes_le b a = true → a = b.
Proof.
  revert b. induction a as [|x a IH]; intros [|y b]; simpl; try done.
  destruct (Z.eqb_spec (Z_of_byte x) (Z_of_byte y)) as [E|]; rewrite Z.eqb_sym;
    destruct (Z.eqb_spec (Z_of_byte x) (Z_of_byte y)); try lia.
  intros. f_equal; [by apply Z_of_byte_inj|auto].
Qed.

Lemma bytes_le_total a b : bytes_le a b = true ∨ bytes_le b a = true.
Proof.
  revert b. induction a as [|x a IH]; intros [|y b]; simpl; auto.
  rewrite (Z.eqb_sym (Z_of_byte y)). destruct (Z.eqb_spec (Z_of_byte x) (Z_of_byte y)); [auto|lia].
Qed.

(** ** The page of a key *)

Lemma range_next_back_list {V} (key : bytes) (l : list (bytes * V)) :
  match foldr (λ e best,
      if bytes_le e.1 key then
        match best with
        | Some b => if bytes_le b.1 e.1 then Some e else best
        | None => Some e
        end
      else best) None l with
  | Some e => e ∈ l ∧ bytes_le e.1 key = true ∧
      ∀ e', e' ∈ l → bytes_le e'.1 key = true → bytes_le e'.1 e.1 = true
  | None => ∀ e, e ∈ l → bytes_le e.1 key = false
  end.
Proof.
  induction l as [|e l IH]; simpl; [by intros e ?%not_elem_of_nil|].
  set (best := foldr _ None l) in *. destruct (bytes_le e.1 key) eqn:Ee.
  - destruct best as [b|].
    + destruct IH as (Hb & Eb & Hmax). destruct (bytes_le b.1 e.1) eqn:Ebe.
      * split_and!; [by left|done|]. intros e' [->|Hin]%elem_of_cons Hle; [apply bytes_le_refl|].
        eapply bytes_le_trans; [by apply Hmax|done].
      * split_and!; [by right|done|]. intros e' [->|Hin]%elem_of_cons Hle; [|by apply Hmax].
        destruct (bytes_le_total e.1 b.1); [done|congruence].
    + split_and!; [by left|done|]. intros e' [->|Hin]%elem_of_cons Hle; [apply bytes_le_refl|].
      rewrite IH in Hle by done. done.
  - destruct best as [b|].
    + destruct IH as (Hb & Eb & Hmax). split_and!; [by right|done|].
      intros e' [->|Hin]%elem_of_cons Hle; [congruence|by apply Hmax].
    + intros e' [->|Hin]%elem_of_cons; auto.
Qed.

Lemma range_next_back_None {V} (key : bytes) (m : gmap bytes V) :
  range_next_back key m = None → ∀ k v, m !! k = Some v → bytes_le k key = false.
Proof.
  intros E k v Hk%elem_of_map_to_list. pose proof (range_next_back_list key (map_to_list m)) as Hl.
  unfold range_next_back in E. rewrite E in Hl. by apply (Hl (k, v)).
Qed.

Lemma range_next_back_Some {V} (key : bytes) (m : gmap bytes V) k v :
  range_next_back key m = Some (k, v) ↔
  m !! k = Some v ∧ bytes_le k key = true ∧
  ∀ k' v', m !! k' = Some v' → bytes_le k' key = true → bytes_le k' k = true.
Proof.
  pose proof (range_next_back_list key (map_to_list m)) as Hl. fold (range_next_back key m) in Hl.
  split.
  - intros E. rewrite E in Hl. destruct Hl as (Hin & Hle & Hmax).
    split_and!; [by apply elem_of_map_to_list|done|].
    intros k' v' Hk'%elem_of_map_to_list. by apply (Hmax (k', v')).
  - intros (Hk & Hle & Hmax). destruct (range_next_back key m) as [[k2 v2]|].
    + destruct Hl as (Hin%elem_of_map_to_list & Hle2 & Hmax2). simpl in *.
      assert (k2 = k) as ->; [|congruence]. apply bytes_le_antisym; [by eapply Hmax|].
      apply (Hmax2 (k, v)); [by apply elem_of_map_to_list|done].
    + apply elem_of_map_to_list in Hk. apply Hl in Hk. simpl in Hk. congruence.
Qed.

(** ** Batches from hash maps *)

Lemma spec_write_lookup (l : list (Z * option bytes)) m oid :
  NoDup l.*1 →
  spec_write l m !! oid = match (list_to_map l : gmap Z (option bytes)) !! oid with
                          | Some v => v
                          | None => m !! oid
                          end.
Proof.
  revert m. induction l as [|[k v] l IH]; intros m; cbn [fmap list_fmap fst]; [done|].
  intros [Hk Hnd]%NoDup_cons. change (spec_write ((k, v) :: l) m) with (spec_write l (spec_set m (k, v))).
  rewrite IH by done. cbn [list_to_map foldr uncurry]. rewrite lookup_insert, spec_set_lookup. simpl.
  case_decide as Hd; [subst k|done]. by rewrite not_elem_of_list_to_map_1.
Qed.

Lemma spec_write_map `{Deps, !DepsLaws} (b : gmap Z (option bytes)) m oid :
  spec_write (iter_order b) m !! oid = match b !! oid with Some v => v | None => m !! oid end.
Proof.
  rewrite spec_write_lookup by apply iter_order_nodup. by rewrite iter_order_to_map.
Qed.

(** ** What the objects mean *)

Section abstraction.
Context `{Bincode}.

(** The value the objects [m] give to a key under the index [i]. *)
Definition kv_lookup (i : Index) (m : AbsStore) (key : bytes) : option bytes :=
  '(_, pid) ← range_next_back key (pages i);
  data ← m !! pid;
  page ← deserialize_page data;
  kvs page !! key.

(** The objects [m] are those of a key-value store with the index [i] and the pairs [K]. *)
Record kv_rel (i : Index) (m : AbsStore) (K : gmap bytes bytes) : Prop := {
  kr_index : ∃ data, m !! INDEX_OBJECT_ID = Some data ∧ deserialize_index data = Some i;
  kr_first : is_Some (pages i !! []);
  kr_pages lo pid : pages i !! lo = Some pid →
    pid ≠ INDEX_OBJECT_ID ∧ is_u64 pid ∧
    ∃ data page, m !! pid = Some data ∧ deserialize_page data = Some page;
  kr_lookup key : kv_lookup i m key = K !! key;
}.

(** The same, or there is no store yet. *)
Definition kv_stored (m : AbsStore) (K : gmap bytes bytes) : Prop :=
  (m !! INDEX_OBJECT_ID = None ∧ K = ∅) ∨ ∃ i, kv_rel i m K.

Lemma kv_rel_page i m K key :
  kv_rel i m K →
  ∃ lo pid data page, range_next_back key (pages i) = Some (lo, pid) ∧ pid ≠ INDEX_OBJECT_ID ∧
    is_u64 pid ∧ m !! pid = Some data ∧ deserialize_page data = Some page ∧ K !! key = kvs page !! key.
Proof.
  intros [_ Hfirst Hpages Hlook]. destruct (range_next_back key (pages i)) as [[lo pid]|] eqn:E.
  - apply range_next_back_Some in E as E'. destruct E' as (Hp & _).
    destruct (Hpages lo pid Hp) as (? & ? & data & page & Hd & Hpg).
    exists lo, pid, data, page. split_and!; try done. rewrite <- Hlook. unfold kv_lookup.
    rewrite E. simpl. rewrite Hd. simpl. by rewrite Hpg.
  - exfalso. destruct Hfirst as [pid Hp]. pose proof (range_next_back_None _ _ E [] pid Hp) as Hle.
    by destruct key.
Qed.

(** Rewriting the page of a key changes the pairs like the page. *)
Lemma kv_rel_mutate i m K key value lo pid data page data' :
  kv_rel i m K →
  range_next_back key (pages i) = Some (lo, pid) → m !! pid = Some data →
  deserialize_page data = Some page → deserialize_page data' = Some (mutate_leaf key value page) →
  kv_rel i (spec_write [(pid, Some data')] m) (partial_alter (λ _, value) key K).
Proof.
  intros [(di & Hdi & Hi) Hfirst Hpages Hlook] Hr Hd Hpg Hd'.
  apply range_next_back_Some in Hr as Hr'. destruct Hr' as (Hp & _).
  destruct (Hpages lo pid Hp) as (Hne & _).
  change (spec_write [(pid, Some data')] m) with (spec_set m (pid, Some data')).
  split.
  - exists di. rewrite spec_set_lookup. simpl. by rewrite decide_False by done.
  - done.
  - intros lo' pid' Hp'. destruct (Hpages lo' pid' Hp') as (? & ? & d & pg & ? & ?).
    split_and!; try done. rewrite spec_set_lookup. simpl. case_decide; eauto.
  - intros key'. specialize (Hlook key'). revert Hlook. unfold kv_lookup.
    assert (∀ k, kvs (mutate_leaf key value page) !! k = if decide (key = k) then value else kvs page !! k) as Hmut.
    { intros k. unfold mutate_leaf. simpl. destruct value as [v|]; [apply lookup_insert|apply lookup_delete]. }
    destruct (range_next_back key' (pages i)) as [[lo' pid']|] eqn:E; simpl.
    + rewrite spec_set_lookup. simpl. case_decide as Hpp; [subst pid'|].
      * rewrite Hd. simpl. rewrite Hpg, Hd'. simpl. rewrite Hmut. case_decide as Hk.
        -- subst key'. by rewrite lookup_partial_alter_eq.
        -- by rewrite lookup_partial_alter_ne.
      * intros ->. rewrite lookup_partial_alter_ne; [done|].
        intros ->. rewrite Hr in E. congruence.
    + intros HK. destruct (decide (key = key')) as [<-|Hk]; [congruence|].
      by rewrite lookup_partial_alter_ne.
Qed.

(** A store with one page and no pairs. *)
Lemma kv_rel_genesis i m pid data page idata :
  pages i = {[ [] := pid ]} → pid ≠ INDEX_OBJECT_ID → is_u64 pid → kvs page = ∅ →
  deserialize_page data = Some page → deserialize_index idata = Some i →
  m !! pid = Some data → m !! INDEX_OBJECT_ID = Some idata → kv_rel i m ∅.
Proof.
  intros Hp Hne Hu Hk Hd Hi Hm Hmi. split; [by eauto|by rewrite Hp, lookup_singleton_eq; eauto|..].
  - rewrite Hp. intros lo pid' [<- <-]%lookup_singleton_Some. eauto 10.
  - intros key. unfold kv_lookup. rewrite lookup_empty.
    destruct (range_next_back key (pages i)) as [[lo pid']|] eqn:E; [|done].
    apply range_next_back_Some in E as (Hlo & _). rewrite Hp in Hlo.
    apply lookup_singleton_Some in Hlo as [_ <-]. simpl. rewrite Hm. simpl. rewrite Hd. simpl.
    by rewrite Hk.
Qed.
End abstraction.

(** ** The operations *)

Section operations.
Context `{Deps, !DepsLaws, Bincode, !BincodeLaws} {W O : Type} `{ObjectStoreLaws W O}.
Implicit Types kv : Kv W.
Implicit Types K : gmap bytes bytes.

(** An open key-value store with the pairs [K]. *)
Definition kv_holds kv K : Prop := ∃ m, holds (heap kv) m ∧ kv_rel (index kv) m K.

(** What [recover] will find on the disk. *)
Definition kv_left (o : O) K : Prop := ∃ m, left_with o m ∧ kv_stored m K.

Definition kv_calm kv : Prop := calm (store_os (heap kv)).

(** Room for a mutation: the new page is not too large for [serialize], the batch not for
    the store, and the store can be rewritten if [mutate] asks for it. *)
Definition mutate_fits kv (key : bytes) (value : option bytes) : Prop :=
  ∀ lo pid page kv',
    range_next_back key (pages (index kv)) = Some (lo, pid) → read_leaf pid kv = (Ok page, kv') →
    page_typed (mutate_leaf key value page) ∧
    ∀ data, serialize_page (mutate_leaf key value page) = Some data →
      fits_batch (heap kv') [(pid, Some data)] ∧
      ∀ w' l d, store_write_batch [(pid, Some data)] (heap kv') = (Ok (), w') →
        store_stats w' = (Ok (l, d), w') → l < d → fits_maintenance w'.

Lemma wp_on_heap {A} (m : M W A) (Q : A → Kv W → Prop) E C kv :
  wp m (λ a w, Q a (MkKv w (index kv))) (λ e w, E e (MkKv w (index kv)))
    (λ w, C (MkKv w (index kv))) (heap kv) →
  wp (on_heap m) Q E C kv.
Proof. intros Hm. apply (wp_zoom heap set_heap). exact Hm. Qed.

Lemma wp_pid_for_key kv key lo pid (Q : Z → Kv W → Prop) E C :
  range_next_back key (pages (index kv)) = Some (lo, pid) → Q pid kv →
  wp (pid_for_key key) Q E C kv.
Proof. intros Er HQ. unfold pid_for_key. wp_steps. eapply wp_unwrap; [exact Er|]. by wp_steps. Qed.

(** A page is read and decoded, or a system call fails. *)
Lemma wp_read_leaf w i m K pid data page :
  holds w m → kv_rel i m K → m !! pid = Some data → deserialize_page data = Some page →
  wp (read_leaf pid)
    (λ p kv', p = page ∧ index kv' = i ∧ holds (heap kv') m ∧ (calm (store_os w) → kv_calm kv'))
    (λ _ kv', kv_left (store_os (heap kv')) K ∧ ¬ calm (store_os w))
    (λ kv', kv_left (store_os (heap kv')) K ∧ ¬ calm (store_os w)) (MkKv w i).
Proof.
  intros Hh Hrel Hd Hp. unfold read_leaf. wp_steps. apply wp_on_heap.
  assert (kv_stored m K) as Hst by (right; eauto).
  eapply wp_mono; [by apply read_law|..]; simpl.
  - intros v w' (-> & Hh' & Hc & _). unfold spec_read. wp_steps. eapply wp_unwrap; [exact Hd|].
    by eapply wp_unwrap; [exact Hp|].
  - intros _ w' [Hl Hc]. split; [by exists m|done].
  - intros w' [Hl Hc]. split; [by exists m|done].
Qed.

Lemma wp_get kv K key :
  kv_holds kv K →
  wp (get key)
    (λ v kv', v = K !! key ∧ kv_holds kv' K ∧ (kv_calm kv → kv_calm kv'))
    (λ _ kv', kv_left (store_os (heap kv')) K ∧ ¬ kv_calm kv)
    (λ kv', kv_left (store_os (heap kv')) K ∧ ¬ kv_calm kv) kv.
Proof.
  destruct kv as [w i]. intros (m & Hh & Hrel).
  destruct (kv_rel_page i m K key Hrel) as (lo & pid & data & page & Er & _ & _ & Hd & Hp & ->).
  unfold get. wp_steps. apply (wp_pid_for_key (MkKv w i) key lo pid); [exact Er|]. wp_steps.
  eapply wp_mono; [by eapply wp_read_leaf|..]; simpl; [|done..].
  intros p kv' (-> & Ei & Hh' & Hc). wp_steps. split_and!; [done| |done].
  exists m. by rewrite Ei.
Qed.

(** After a mutation that returns, the pairs have changed at the key; otherwise the disk
    has the old pairs or the new ones. *)
Lemma wp_mutate kv K key value :
  kv_holds kv K → mutate_fits kv key value →
  let K' := partial_alter (λ _, value) key K in
  wp (mutate key value)
    (λ v kv', v = K !! key ∧ kv_left (store_os (heap kv')) K' ∧
              (kv_calm kv → kv_holds kv' K' ∧ kv_calm kv'))
    (λ _ kv', (kv_left (store_os (heap kv')) K ∨ kv_left (store_os (heap kv')) K') ∧ ¬ kv_calm kv)
    (λ kv', (kv_left (store_os (heap kv')) K ∨ kv_left (store_os (heap kv')) K') ∧ ¬ kv_calm kv) kv.
Proof.
  destruct kv as [w i]. intros (m & Hh & Hrel) Hfit K'. simpl in Hh, Hrel.
  destruct (kv_rel_page i m K key Hrel) as (lo & pid & data & page & Er & _ & _ & Hd & Hp & EK).
  unfold mutate. wp_steps. apply (wp_pid_for_key (MkKv w i) key lo pid); [exact Er|]. wp_steps.
  apply wp_with_run. assert (kv_stored m K) as Hst by (right; eauto).
  eapply wp_mono; [by eapply wp_read_leaf|..]; simpl; [|naive_solver..].
  intros p kv1 (-> & Ei & Hh1 & Hc1) Erun. destruct (Hfit lo pid page kv1 Er Erun) as [Ht Hfit1].
  destruct (page_roundtrip _ Ht) as (data' & Es & Ed). destruct (Hfit1 _ Es) as [Hb Hmaint].
  wp_steps. eapply wp_unwrap; [exact Es|]. wp_steps. apply wp_on_heap, wp_with_run.
  pose proof (kv_rel_mutate i m K key value lo pid data page data' Hrel Er Hd Hp Ed) as Hrel'.
  set (m' := spec_write [(pid, Some data')] m) in *.
  assert (kv_stored m' K') as Hst' by (right; eauto).
  assert (∀ o, left_with o m ∨ left_with o m' → kv_left o K ∨ kv_left o K') as Hor.
  { intros o [?|?]; [left; by exists m|right; by exists m']. }
  eapply wp_mono; [by apply write_law|..]; simpl; [|naive_solver..].
  intros [] w2 [Hh2 Hc2] Erun2. wp_steps. apply wp_on_heap.
  destruct (stats_law w2 m' Hh2) as [[l d] Estats]. eapply wp_ok; [exact Estats|]. wp_steps. apply wp_when; simpl.
  - intros Hlt. wp_steps. apply wp_on_heap.
    eapply wp_mono; [apply maintenance_law; [exact Hh2|by eapply Hmaint; [exact Erun2|exact Estats|lia]]|..]; simpl.
    + intros _ w3 [Hl3 Hc3]. wp_steps. split_and!; [done|by exists m'|].
      intros Hc. destruct Hc3 as [??]; [tauto|]. split; [exists m'; simpl; by rewrite Ei|done].
    + intros _ w3 [Hl3 Hc3]. split; [right; by exists m'|tauto].
    + intros w3 [Hl3 Hc3]. split; [right; by exists m'|tauto].
  - intros _. wp_steps. split_and!; [done| |].
    + exists m'. split; [by apply holds_left|done].
    + intros Hc. split; [exists m'; simpl; by rewrite Ei|unfold kv_calm; simpl; tauto].
Qed.

(** ** Recovery *)

(** The batch [allocate_leaf] writes: the page and the index. *)
Definition leaf_batch (pid : Z) (data idata : bytes) : gmap Z (option bytes) :=
  <[INDEX_OBJECT_ID := Some idata]> (<[pid := Some data]> ∅).

Definition genesis_index : Index := MkIndex {[ [] := 3 ]} 3.

Definition recover_fits (o : O) : Prop :=
  ∀ w o' data idata, store_open o = (Ok w, o') →
    serialize_page genesis_page = Some data → serialize_index genesis_index = Some idata →
    fits_batch w (iter_order (leaf_batch 3 data idata)).

Lemma genesis_page_typed : page_typed genesis_page.
Proof. split; simpl; rewrite ?map_size_empty; [done|done|done|apply map_Forall_empty]. Qed.

Lemma genesis_index_typed : index_typed genesis_index.
Proof.
  split; simpl; rewrite ?map_size_singleton; [done| |by compute].
  apply map_Forall_singleton. split; by compute.
Qed.

Lemma genesis_rel m data idata :
  deserialize_page data = Some genesis_page → deserialize_index idata = Some genesis_index →
  kv_rel genesis_index (spec_write (iter_order (leaf_batch 3 data idata)) m) ∅.
Proof.
  intros Hp Hi. apply (kv_rel_genesis _ _ 3 data genesis_page idata); try done; rewrite spec_write_map; done.
Qed.

(** On a store without an index, [allocate_leaf] of the first page makes it a key-value
    store without pairs, in one batch. *)
Lemma wp_allocate_genesis w m :
  holds w m → m !! INDEX_OBJECT_ID = None →
  (∀ data idata, serialize_page genesis_page = Some data → serialize_index genesis_index = Some idata →
     fits_batch w (iter_order (leaf_batch 3 data idata))) →
  wp (allocate_leaf genesis_page)
    (λ _ kv', kv_holds kv' ∅ ∧ (calm (store_os w) → kv_calm kv'))
    (λ _ kv', kv_left (store_os (heap kv')) ∅ ∧ ¬ calm (store_os w))
    (λ kv', kv_left (store_os (heap kv')) ∅ ∧ ¬ calm (store_os w)) (MkKv w Index_default).
Proof.
  intros Hh Hnone Hfit.
  destruct (page_roundtrip _ genesis_page_typed) as (data & Es & Ed).
  destruct (index_roundtrip _ genesis_index_typed) as (idata & Eis & Eid).
  unfold allocate_leaf. wp_steps. apply wp_assert; [done|]. wp_steps.
  eapply wp_unwrap; [exact Es|]. wp_steps. eapply wp_unwrap; [exact Eis|]. wp_steps.
  apply wp_on_heap. pose proof (genesis_rel m data idata Ed Eid) as Hrel.
  assert (∀ o, left_with o m ∨ left_with o (spec_write (iter_order (leaf_batch 3 data idata)) m) →
    kv_left o ∅) as Hleft.
  { intros o [Hl|Hl]; (eexists; split; [exact Hl|]); [by left|right; eauto]. }
  eapply wp_mono; [apply write_law; [exact Hh|by apply Hfit]|..]; simpl.
  - intros _ w' [Hh' Hc]. split; [by eexists|done].
  - intros _ w' [Hl Hc]. split; [by apply Hleft|done].
  - intros w' [Hl Hc]. split; [by apply Hleft|done].
Qed.

Lemma wp_recover_index w m K :
  holds w m → kv_stored m K →
  (∀ data idata, serialize_page genesis_page = Some data → serialize_index genesis_index = Some idata →
     fits_batch w (iter_order (leaf_batch 3 data idata))) →
  wp recover_index
    (λ _ kv', kv_holds kv' K ∧ (calm (store_os w) → kv_calm kv'))
    (λ _ kv', ¬ calm (store_os w))
    (λ kv', kv_left (store_os (heap kv')) K ∧ ¬ calm (store_os w)) (MkKv w Index_default).
Proof.
  intros Hh Hst Hfit. unfold recover_index. wp_steps. apply wp_on_heap.
  eapply wp_mono; [by apply read_law|..]; simpl.
  - intros v w' (-> & Hh' & Hc & Hkeep). unfold spec_read. destruct Hst as [[Hn ->]|[i Hrel]].
    + rewrite Hn. wp_steps. rewrite bool_decide_eq_true_2 by done. apply wp_when; [intros _|done].
      eapply wp_mono; [by eapply wp_allocate_genesis; eauto|..]; simpl; naive_solver.
    + destruct (kr_index _ _ _ Hrel) as (data & Hd & Hi). rewrite Hd. wp_steps.
      eapply wp_unwrap; [exact Hi|]. wp_steps. simpl.
      destruct (kr_first _ _ _ Hrel) as [pid Hpid].
      rewrite bool_decide_eq_false_2 by (intros E; by rewrite E, lookup_empty in Hpid).
      apply wp_when; [done|intros _]. split; [by exists m|done].
  - tauto.
  - intros w' [Hl Hc]. split; [by exists m|done].
Qed.
End operations.

(** ** Programs *)

Section programs.
Context `{Deps, Bincode} {W O : Type} `{ObjectStore W O}.

Inductive kv_op :=
  | KvGet (key : bytes)
  | KvSet (key value : bytes)
  | KvRemove (key : bytes)
  | KvRestart.

Definition kv_reopen : M (Kv W) (option bytes) := λ kv,
  match recover (store_os (heap kv)) with
  | (Ok kv', _) => (Ok None, kv')
  | (Err e, _) => (Err e, kv)
  | (Panic, _) => (Panic, kv)
  | (Crash, _) => (Crash, kv)
  end.

(** Dropping a key-value store and recovering it. *)
Definition kv_restart : M (Kv W) (option bytes) := on_heap store_drop;; kv_reopen.

Definition run_kv_op (op : kv_op) : M (Kv W) (option bytes) :=
  match op with
  | KvGet key => get key
  | KvSet key value => set key value
  | KvRemove key => remove key
  | KvRestart => kv_restart
  end.

(** the answers of a program, in their order *)
Definition run_kv (ops : list kv_op) : M (Kv W) (list (option bytes)) :=
  foldM (λ answers op, a ← run_kv_op op; mret (answers ++ [a])) [] ops.

Definition spec_kv_op (K : gmap bytes bytes) (op : kv_op) : option bytes * gmap bytes bytes :=
  match op with
  | KvGet key => (K !! key, K)
  | KvSet key value => (K !! key, <[key := value]> K)
  | KvRemove key => (K !! key, delete key K)
  | KvRestart => (None, K)
  end.

Fixpoint spec_kv (K : gmap bytes bytes) (ops : list kv_op) : list (option bytes) :=
  match ops with
  | [] => []
  | op :: ops => (spec_kv_op K op).1 :: spec_kv (spec_kv_op K op).2 ops
  end.
End programs.

Section fits.
Context `{Deps, Bincode} {W O : Type} `{ObjectStoreLaws W O}.

Definition kv_op_fits (kv : Kv W) (op : kv_op) : Prop :=
  match op with
  | KvGet _ => True
  | KvSet key value => mutate_fits kv key (Some value)
  | KvRemove key => mutate_fits kv key None
  | KvRestart => ∀ w', store_drop (heap kv) = (Ok (), w') → recover_fits (store_os w')
  end.

(** Every operation fits the state it finds. *)
Fixpoint run_kv_fits (kv : Kv W) (ops : list kv_op) : Prop :=
  match ops with
  | [] => True
  | op :: ops =>
      kv_op_fits kv op ∧
      ∀ a kv', run_kv_op op kv = (Ok a, kv') → run_kv_fits kv' ops
  end.
End fits.

(** * Theorems *)

Section theorems.
Context `{Deps, !DepsLaws, Bincode, !BincodeLaws} {W O : Type} `{ObjectStoreLaws W O}.
Implicit Types kv : Kv W.
Implicit Types K : gmap bytes bytes.

Lemma recover_left o K :
  kv_left o K → ready o → recover_fits o →
  match recover o with
  | (Ok kv, o') => kv_holds kv K ∧ o' = store_os (heap kv) ∧ (calm o → calm o')
  | _ => ¬ calm o
  end.
Proof.
  intros (m & Hl & Hst) Hready Hfit. unfold recover. pose proof (open_law o m Hl Hready) as Hopen.
  unfold recover_fits in Hfit. destruct (store_open o) as [[w| | |] o']; [|done..].
  destruct Hopen as [Hh Hc].
  pose proof (wp_recover_index w m K Hh Hst (λ data idata, Hfit w o' data idata eq_refl)) as Hw.
  unfold on_error, try, mbind, M_bind. unfold wp in Hw.
  destruct (recover_index (MkKv w Index_default)) as [[[]|e| |] kv]; simpl.
  - destruct Hw as [Hk Hck]. split_and!; [done|done|]. unfold kv_calm in Hck. tauto.
  - destruct (on_heap store_drop kv) as [[[]| | |] kv']; simpl; tauto.
  - done.
  - tauto.
Qed.

Lemma run_kv_op_refines kv K op :
  kv_holds kv K → kv_calm kv → kv_op_fits kv op →
  ∃ kv', run_kv_op op kv = (Ok (spec_kv_op K op).1, kv') ∧
         kv_holds kv' (spec_kv_op K op).2 ∧ kv_calm kv'.
Proof.
  intros Hk Hc Hfit. destruct op as [key|key value|key|]; simpl in *.
  - pose proof (wp_get kv K key Hk) as Hw. unfold wp in Hw.
    destruct (get key kv) as [[v| | |] kv']; naive_solver.
  - pose proof (wp_mutate kv K key (Some value) Hk Hfit) as Hw. unfold wp in Hw.
    unfold set. destruct (mutate key (Some value) kv) as [[v| | |] kv']; naive_solver.
  - pose proof (wp_mutate kv K key None Hk Hfit) as Hw. unfold wp in Hw.
    unfold remove. destruct (mutate key None kv) as [[v| | |] kv']; naive_solver.
  - destruct Hk as (m & Hh & Hrel). pose proof (drop_law (heap kv) m Hh) as Hd.
    unfold kv_restart, kv_reopen, on_heap, zoom, mbind, M_bind. unfold wp in Hd.
    destruct (store_drop (heap kv)) as [[[]| | |] w']; try tauto.
    destruct Hd as (Hl & Hready & Hc').
    assert (kv_left (store_os w') K) as Hleft by (exists m; split; [done|right; eauto]).
    pose proof (recover_left (store_os w') K Hleft Hready (Hfit w' eq_refl)) as Hr. simpl.
    destruct (recover (store_os w')) as [[kv'| | |] o']; [|tauto..].
    destruct Hr as (? & -> & ?). exists kv'. split_and!; [done|done|]. unfold kv_calm. tauto.
Qed.

(** The greatest low key at or below a key names its page. [pid_for_key] panics only if no
    page has such a low key. *)
Theorem pid_for_key_greatest kv key r kv' :
  pid_for_key key kv = (r, kv') →
  kv' = kv ∧
  match r with
  | Ok pid => ∃ lo, pages (index kv) !! lo = Some pid ∧ bytes_le lo key = true ∧
      ∀ lo' pid', pages (index kv) !! lo' = Some pid' → bytes_le lo' key = true → bytes_le lo' lo = true
  | Panic => ∀ lo pid, pages (index kv) !! lo = Some pid → bytes_le lo key = false
  | _ => False
  end.
Proof.
  unfold pid_for_key, gets, unwrap, mbind, M_bind, mret, M_ret.
  destruct (range_next_back key (pages (index kv))) as [[lo pid]|] eqn:E; intros [= <- <-].
  - split; [done|]. exists lo. by apply range_next_back_Some.
  - split; [done|]. by apply range_next_back_None.
Qed.

(** C15. A mutation of the key-value store is atomic: it returns the value it replaces, and
    fails or is killed only with a system call; afterwards a new process recovers the old
    pairs or the new ones, and the new ones after [Ok]. It never panics. *)
Theorem kv_mutation_atomic kv K key value r kv' :
  kv_holds kv K → mutate_fits kv key value → mutate key value kv = (r, kv') →
  let K' := partial_alter (λ _, value) key K in
  match r with
  | Ok v => v = K !! key
  | Panic => False
  | _ => ¬ kv_calm kv
  end ∧
  ∃ K'', (K'' = K ∨ K'' = K') ∧ (∀ v, r = Ok v → K'' = K') ∧
    (recover_fits (store_reboot (store_os (heap kv'))) →
     ∃ kv'' o, recover (store_reboot (store_os (heap kv'))) = (Ok kv'', o) ∧ kv_holds kv'' K'').
Proof.
  intros Hk Hfit Hrun K'.
  pose proof (wp_run _ _ _ _ _ _ _ (wp_mutate kv K key value Hk Hfit) Hrun) as Hw.
  assert (∀ K'', kv_left (store_os (heap kv')) K'' →
    recover_fits (store_reboot (store_os (heap kv'))) →
    ∃ kv'' o, recover (store_reboot (store_os (heap kv'))) = (Ok kv'', o) ∧ kv_holds kv'' K'') as Hrec.
  { intros K'' (m & Hl & Hst) Hfit'. set (o := store_reboot _) in *.
    assert (kv_left o K'') as Hl' by (exists m; split; [by apply reboot_left|done]).
    pose proof (recover_left o K'' Hl' (reboot_ready _) Hfit') as Hr. pose proof (reboot_calm (store_os (heap kv'))) as Hc.
    fold o in Hc. destruct (recover o) as [[kv''| | |] o']; naive_solver. }
  fold K' in Hw. destruct r as [v|e| |]; [|..|done|].
  - destruct Hw as (-> & Hl & _). split; [done|]. exists K'. split_and!; [by right|done|by apply Hrec].
  - destruct Hw as [[Hl|Hl] Hc]; (split; [done|]); [exists K|exists K']; (split_and!; [tauto|done|by apply Hrec]).
  - destruct Hw as [[Hl|Hl] Hc]; (split; [done|]); [exists K|exists K']; (split_and!; [tauto|done|by apply Hrec]).
Qed.

(** C14. The key-value store refines a finite map: on an object store that keeps its contract,
    with no system call failing, every program of gets, sets, removals and restarts runs
    to its end with the answers of the map. *)
Theorem kv_refines_map kv K ops :
  kv_holds kv K → kv_calm kv → run_kv_fits kv ops →
  ∃ kv', run_kv ops kv = (Ok (spec_kv K ops), kv').
Proof.
  assert (∀ acc kv K, kv_holds kv K → kv_calm kv → run_kv_fits kv ops →
    ∃ kv', foldM (λ answers op, a ← run_kv_op op; mret (answers ++ [a])) acc ops kv
           = (Ok (acc ++ spec_kv K ops), kv')) as Hgen; [|by apply (Hgen [])].
  induction ops as [|op ops IH]; intros acc kv0 K0 Hk Hc Hfit.
  - exists kv0. simpl. by rewrite app_nil_r.
  - destruct Hfit as [Hop Hfit]. destruct (run_kv_op_refines kv0 K0 op Hk Hc Hop) as (kv1 & E & Hk1 & Hc1).
    destruct (IH (acc ++ [(spec_kv_op K0 op).1]) kv1 _ Hk1 Hc1 (Hfit _ _ E)) as [kv2 E2].
    exists kv2. cbn [foldM]. unfold mbind at 1, M_bind at 1. unfold mbind at 1, M_bind at 1. rewrite E.
    unfold mret at 1, M_ret at 1. rewrite E2. cbn [spec_kv]. by rewrite <- app_assoc.
Qed.

(** The example program runs to its end: none of its assertions fails. *)
Theorem kv_main_succeeds o K :
  kv_left o K → ready o → calm o → recover_fits o →
  (∀ kv o', recover o = (Ok kv, o') →
     run_kv_fits kv [KvSet [x79; x6f] [x68; x69]; KvGet [x79; x6f]; KvRemove [x79; x6f]; KvGet [x79; x6f]]) →
  kv_main o = Ok ().
Proof.
  intros Hl Hready Hc Hfit Hrun. unfold kv_main. pose proof (recover_left o K Hl Hready Hfit) as Hr.
  destruct (recover o) as [[kv| | |] o']; try tauto. destruct Hr as (Hk & -> & Hc').
  specialize (Hrun kv _ eq_refl). unfold kv_calm in *.
  set (yo := [x79; x6f]) in *. set (hi := [x68; x69]) in *.
  destruct Hrun as [Hop1 Hrun]. destruct (run_kv_op_refines kv K _ Hk (Hc' Hc) Hop1) as (kv1 & E1 & Hk1 & Hc1).
  destruct (Hrun _ _ E1) as [Hop2 Hrun2].
  destruct (run_kv_op_refines kv1 _ _ Hk1 Hc1 Hop2) as (kv2 & E2 & Hk2 & Hc2).
  destruct (Hrun2 _ _ E2) as [Hop3 Hrun3].
  destruct (run_kv_op_refines kv2 _ _ Hk2 Hc2 Hop3) as (kv3 & E3 & Hk3 & Hc3).
  destruct (Hrun3 _ _ E3) as [Hop4 _].
  destruct (run_kv_op_refines kv3 _ _ Hk3 Hc3 Hop4) as (kv4 & E4 & Hk4 & Hc4).
  unfold kv_main_body, unwrap_result, mbind, M_bind. cbn [run_kv_op spec_kv_op fst snd] in *.
  rewrite E1, E2, lookup_insert_eq, bool_decide_eq_true_2 by done. cbn [assert_that].
  unfold mret at 1, M_ret at 1. rewrite E3, E4, lookup_delete_eq. done.
Qed.
End theorems.
