(* ===== verification/FuzzSpec.v ===== *)
(** FuzzSpec: the model test of [FuzzModel] passes. Its arguments are what its comments
    say, and on any object store that keeps its contract no comparison fails. *)
From S2P Require Import Prelude Effects Deps Config Spec ObjectStore FuzzModel.

(** ** The arguments *)

Section arguments.
Context {U : Type} `{UnstructuredLaws U}.

(** Choices with a default *)
Lemma wp_range_or low high d u (Q : Z → U → Prop) E C :
  low ≤ d ≤ high → (∀ n u', low ≤ n ≤ high → Q n u') →
  wp (unwrap_or (int_in_range low high) d) Q E C u.
Proof.
  intros Hd HQ. apply wp_unwrap_or. eapply wp_mono; [apply wp_int_in_range; lia|..]; simpl; auto. done.
Qed.

Lemma wp_bool_or d u (Q : bool → U → Prop) E C :
  (∀ b u', Q b u') → wp (unwrap_or arbitrary_bool d) Q E C u.
Proof. intros HQ. apply wp_unwrap_or. eapply wp_mono; [apply wp_arbitrary_bool|..]; simpl; auto. done. Qed.

Lemma wp_i32_or d u (Q : Z → U → Prop) E C :
  (∀ n u', Q n u') → wp (unwrap_or arbitrary_i32 d) Q E C u.
Proof. intros HQ. apply wp_unwrap_or. eapply wp_mono; [apply wp_arbitrary_i32|..]; simpl; auto. done. Qed.

Lemma wp_bytes_or n d u (Q : bytes → U → Prop) E C :
  0 ≤ n → (∀ bs u', len bs = n ∨ bs = d → Q bs u') →
  wp (unwrap_or (u_bytes n) d) Q E C u.
Proof. intros Hn HQ. apply wp_unwrap_or. eapply wp_mono; [by apply wp_u_bytes|..]; simpl; auto. done. Qed.

(** What the fuzzer may choose. *)
Definition small_op (op : fuzz_op) : Prop :=
  match op with
  | FuzzWriteBatch batch =>
      Z.of_nat (size batch) ≤ BATCH_MAX_SZ ∧
      map_Forall (λ pid page, 0 ≤ pid ≤ KEYSPACE ∧
        match page with Some value => len value ≤ VALUE_MAX_SZ | None => True end) batch
  | _ => True
  end.

Lemma wp_arbitrary_entry batch pid_default u (Q : gmap Z (option bytes) → U → Prop) E C :
  0 ≤ pid_default ≤ KEYSPACE → small_op (FuzzWriteBatch batch) → Z.of_nat (size batch) < BATCH_MAX_SZ →
  (∀ b u', small_op (FuzzWriteBatch b) → (size b ≤ S (size batch))%nat → Q b u') →
  wp (arbitrary_entry batch pid_default) Q E C u.
Proof.
  intros Hp [Hsz Hb] Hlt HQ.
  assert (∀ pid page u', 0 ≤ pid ≤ KEYSPACE →
    match page with Some value => len value ≤ VALUE_MAX_SZ | None => True end →
    Q (<[pid := page]> batch) u') as Hret.
  { intros pid page u' Hpid Hpage.
    assert (size (<[pid := page]> batch) ≤ S (size batch))%nat as Hs.
    { rewrite map_size_insert. destruct (batch !! pid); simpl; lia. }
    apply HQ; [|done]. split; [lia|]. by apply map_Forall_insert_2. }
  unfold arbitrary_entry. wp_steps. apply wp_range_or; [done|]. intros pid u1 Hpid.
  wp_steps. apply wp_bool_or. intros [] u2; wp_steps; [|by apply Hret].
  apply wp_range_or; [done|]. intros n u3 Hn. wp_steps. apply wp_bytes_or; [lia|].
  intros bs u4 Hbs. wp_steps. apply Hret; [done|]. simpl. unfold VALUE_MAX_SZ in *.
  destruct Hbs as [?| ->]; [lia|done].
Qed.

Lemma wp_WriteBatch_arbitrary u (Q : gmap Z (option bytes) → U → Prop) E C :
  (∀ b u', small_op (FuzzWriteBatch b) → Q b u') → wp WriteBatch_arbitrary Q E C u.
Proof.
  intros HQ. unfold WriteBatch_arbitrary. wp_steps. apply wp_range_or; [done|]. intros pages u1 Hpages.
  unfold BATCH_MIN_SZ, BATCH_MAX_SZ in *.
  eapply wp_mono with (E := λ _ _, False) (C := λ _, False); [apply (wp_foldM _ (λ dn b _,
    small_op (FuzzWriteBatch b) ∧ (size b ≤ length dn)%nat))|..]; [|..|done|done].
  - split; [|done]. split; [by rewrite map_size_empty|apply map_Forall_empty].
  - intros dn pid rest b u2 E2 [Hb Hsz].
    assert (length dn + S (length rest) = Z.to_nat pages)%nat as Hl.
    { rewrite <- (length_seqZ 0 pages), E2, length_app. done. }
    assert (pid ∈ seqZ 0 pages) as Hpid by (rewrite E2; apply elem_of_app; right; by left).
    apply elem_of_seqZ in Hpid. unfold KEYSPACE.
    apply wp_arbitrary_entry; [unfold KEYSPACE; lia|done|unfold BATCH_MAX_SZ; lia|].
    intros b' u3 Hb' Hsz'. split; [done|]. rewrite length_app. simpl. lia.
  - intros b u2 [Hb _]. by apply HQ.
Qed.

(** C31. The configurations of the fuzzer are accepted, and its batches are small: the
    [expect] and the [unreachable!] of [Op::arbitrary] are never reached. *)
Theorem arbitrary_arguments uuid u :
  wp (Config_arbitrary uuid) (λ c _, validate c = inl () ∧ Config_typed c) (λ _ _, False) (λ _, False) u ∧
  wp Op_arbitrary (λ op _, small_op op) (λ _ _, False) (λ _, False) u.
Proof.
  split.
  - unfold Config_arbitrary. wp_steps. apply wp_bool_or. intros none u1. wp_steps.
    assert (∀ level u2, wp (A := Config)
      (target_file_size ← unwrap_or (int_in_range 1 1024) 50;
       file_compaction_percent ← unwrap_or (int_in_range 0 99) 50;
       mret (MkConfig (TEST_DIR +:+ "/fuzz/" +:+ uuid) level false target_file_size file_compaction_percent
               (16 * 1024 * 1024 * 1024) 64 default_partition_function 2))
      (λ c _, validate c = inl () ∧ Config_typed c) (λ _ _, False) (λ _, False) u2) as Hrest.
    { intros level u2. wp_steps. apply wp_range_or; [done|]. intros t u3 Ht. wp_steps.
      apply wp_range_or; [done|]. intros p u4 Hp. wp_steps. split.
      - unfold validate. simpl. destruct (Z.eqb_spec t 0), (Z.ltb_spec 99 p); try lia. done.
      - split; simpl; try (u64_lia).
        intros i n. unfold default_partition_function. repeat case_match; lia. }
    destruct none; [apply wp_ret, Hrest|]. apply wp_bind, wp_i32_or. intros level u2. apply wp_ret, Hrest.
  - unfold Op_arbitrary. wp_steps. apply wp_range_or; [done|]. intros choice u1 Hc. wp_steps.
    destruct (Z.eqb_spec choice 0); [by wp_steps|].
    destruct (Z.eqb_spec choice 1); [|destruct (Z.eqb_spec choice 2); [by wp_steps|lia]].
    wp_steps. apply wp_unwrap_result, wp_WriteBatch_arbitrary. intros b u2 Hb. by wp_steps.
Qed.
End arguments.

(** ** The target *)

Section target.
Context `{Deps, !DepsLaws} {W O : Type} `{ObjectStoreLaws W O}.
Implicit Types w : W.

(** Every object of the reference is in the store with its value, or is not there. *)
Definition agrees (model : gmap Z (option bytes)) (m : AbsStore) : Prop :=
  ∀ pid expected, model !! pid = Some expected → spec_read pid m = expected.

Definition fuzz_op_fits w (op : fuzz_op) : Prop :=
  match op with
  | FuzzWriteBatch batch => fits_batch w (iter_order batch)
  | FuzzGc => fits_maintenance w
  | FuzzRestart => True
  end.

(** Every operation fits the state it finds. *)
Fixpoint fuzz_fits (model : gmap Z (option bytes)) w (ops : list fuzz_op) : Prop :=
  match ops with
  | [] => True
  | op :: ops =>
      fuzz_op_fits w op ∧
      ∀ model' w', run_fuzz_op model op w = (Ok model', w') → fuzz_fits model' w' ops
  end.

Lemma btree_iter_elem {V} (m : gmap Z V) k v : (k, v) ∈ btree_iter m ↔ m !! k = Some v.
Proof. unfold btree_iter. rewrite merge_sort_Permutation. apply elem_of_map_to_list. Qed.

Lemma agrees_write model m entries :
  agrees model m →
  agrees (foldl (λ m e, <[e.1 := e.2]> m) model entries) (spec_write entries m).
Proof.
  revert model m. induction entries as [|[k v] entries IH]; intros model m Ha; [done|].
  apply (IH (<[k := v]> model) (spec_set m (k, v))). intros pid expected.
  unfold spec_read. rewrite lookup_insert, spec_set_lookup. simpl. case_decide; [congruence|apply Ha].
Qed.

(** Comparing changes nothing, and succeeds if the store agrees with the reference. *)
Lemma wp_check_model model m w :
  holds_calmly w m → agrees model m →
  wp (forM (btree_iter model) check_object) (λ _ w', holds_calmly w' m) (λ _ _, False) (λ _, False) w.
Proof.
  intros Hh Ha. apply (wp_forM _ (λ _ w', holds_calmly w' m)); [done|].
  intros dn [pid expected] rest w' E Hh'. unfold check_object. wp_steps. apply wp_unwrap_result.
  eapply wp_mono; [by apply wp_read_calm|..]; simpl; [|done..].
  intros v w2 (-> & Hh2 & _). apply wp_assert; [|done]. apply bool_decide_eq_true. symmetry. apply Ha.
  apply btree_iter_elem. rewrite E. apply elem_of_app. right. by left.
Qed.

Lemma wp_store_reopen w m :
  left_with (store_os w) m → ready (store_os w) → calm (store_os w) →
  wp store_reopen (λ _ w', holds_calmly w' m) (λ _ _, False) (λ _, False) w.
Proof.
  intros Hl Hr Hc. destruct (open_calm _ _ Hl Hr Hc) as (w' & o' & E & Hh).
  unfold wp, store_reopen. by rewrite E.
Qed.

Lemma wp_run_fuzz_op model op m w :
  holds_calmly w m → agrees model m → fuzz_op_fits w op →
  wp (run_fuzz_op model op) (λ model' w', ∃ m', holds_calmly w' m' ∧ agrees model' m')
    (λ _ _, False) (λ _, False) w.
Proof.
  intros Hh Ha Hfit. unfold run_fuzz_op. wp_steps.
  assert (∀ model' m' w', holds_calmly w' m' → agrees model' m' →
    wp (forM (btree_iter model') check_object)
      (λ _, wp (mret model') (λ model' w', ∃ m', holds_calmly w' m' ∧ agrees model' m')
              (λ _ _, False) (λ _, False)) (λ _ _, False) (λ _, False) w') as Hchk.
  { intros model' m' w' Hh' Ha'. eapply wp_mono; [by eapply wp_check_model|..]; simpl; [|done..].
    intros _ w2 Hh2. wp_steps. eauto. }
  destruct op as [batch| |]; simpl in Hfit; wp_steps; apply wp_unwrap_result.
  - eapply wp_mono; [by apply wp_write_calm|..]; simpl; [|done..].
    intros _ w' Hh'. wp_steps. eapply Hchk; [done|]. by apply agrees_write.
  - eapply wp_mono; [by apply wp_maintenance_calm|..]; simpl; [|done..].
    intros _ w' Hh'. wp_steps. by eapply Hchk.
  - eapply wp_mono; [by apply wp_drop_calm|..]; simpl; [|done..].
    intros _ w' (Hl & Hr & Hc). wp_steps. eapply wp_mono; [by apply wp_store_reopen|..]; simpl; [|done..].
    intros _ w2 Hh2. wp_steps. by eapply Hchk.
Qed.

(** C16. The model test passes: whatever the disk held before, if no system call fails,
    the removal of the directory included, and there is room, the target ends without a panic, so every object it reads back is the
    one of the reference. *)
Theorem fuzz_target_passes remove_dir_all o m ops :
  left_with o m → ready o → calm o →
  (∀ o' m', left_with o' m' → calm o' → remove_dir_all o' = Ok ()) →
  (∀ w o', store_open o = (Ok w, o') → fuzz_fits ∅ w ops) →
  fuzz_target remove_dir_all ops o = Ok ().
Proof.
  intros Hl Hr Hc Hrm Hfit. destruct (open_calm o m Hl Hr Hc) as (w & o' & E & Hh).
  specialize (Hfit w o' E). unfold fuzz_target. rewrite E.
  assert (wp (foldM run_fuzz_op ∅ ops) (λ _ w', ∃ m', holds_calmly w' m') (λ _ _, False) (λ _, False) w) as Hw.
  { assert (∀ model m w, holds_calmly w m → agrees model m → fuzz_fits model w ops →
      wp (foldM run_fuzz_op model ops) (λ _ w', ∃ m', holds_calmly w' m') (λ _ _, False) (λ _, False) w)
      as Hgen; [|by apply (Hgen _ m)]. clear.
    induction ops as [|op ops IH]; intros model m w Hh Ha Hfit; simpl; wp_steps; [by exists m|].
    destruct Hfit as [Hop Hfit]. apply wp_with_run.
    eapply wp_mono; [by eapply wp_run_fuzz_op|..]; simpl; [|done..].
    intros model' w' (m' & Hh' & Ha') Erun. eapply IH; eauto. }
  unfold wp in Hw. destruct (foldM run_fuzz_op ∅ ops w) as [[model| | |] w']; try done.
  destruct Hw as [m' Hh']. pose proof (wp_drop_calm w' m' Hh') as Hd. unfold wp in Hd.
  unfold unwrap_result. destruct (store_drop w') as [[[]| | |] w2]; try done.
  destruct Hd as (Hl' & _ & Hc'). by rewrite (Hrm _ _ Hl' Hc').
Qed.
End target.
