(* ===== verification/MarbleStore.v ===== *)
(** MarbleStore: the crate implements the interface [ObjectStore] and keeps its contract,
    so that the theorems about the clients hold on it. *)
From S2P Require Import Prelude Effects Os Deps Locations LocationTable Config Metadata.
From S2P Require Import ZstdDict Storage State FileMap WritePath ReadPath Gc Recovery Store Spec.
From S2P Require Import FileMapSpec Layout Invariant ReadSpec WriteSpec InstallSpec BatchSpec FrameSpec.
From S2P Require Import ShardSpec RecoverySpec StoreSpec RewriteSpec MaintSpec Refinement Queries.
From S2P Require Import ObjectStore.

Section marble.
Context `{Deps}.

(** The store with a fixed configuration. *)
#[export] Instance marble_store (config : Config) : ObjectStore World os := {
  store_os := w_os;
  store_reboot := new_process [] 0;
  store_open := open_store config;
  store_read := read;
  store_write_batch := write_batch config;
  store_maintenance := maintenance config;
  store_stats := s ← stats; mret (live_objects s, dead_objects s);
  store_drop := drop_store;
}.

Context `{!DepsLaws}.
Context (config : Config) (Hvalid : validate config = inl ()) (Htyped : Config_typed config).

Definition marble_holds (w : World) (m : AbsStore) : Prop := ∃ L, Inv w L unclaimed ∧ view L = m.

Definition marble_left (o : os) (m : AbsStore) : Prop := ∃ L, disk_ok (os_fs o) L ∧ view L = m.

Definition marble_ready (o : os) : Prop := 0 ≤ os_tmp_counter o.

Definition marble_calm (o : os) : Prop := os_faults o = [].

Definition marble_fits_batch (w : World) (batch : list (Z * option bytes)) : Prop :=
  batch_fits w batch ∧ ¬ batch_oversize config batch.

Lemma calm_suffix o o' : os_faults o' `suffix_of` os_faults o → marble_calm o → marble_calm o'.
Proof. unfold marble_calm. intros Hs E. rewrite E in Hs. by apply suffix_nil_inv in Hs. Qed.

Lemma marble_open_law o m :
  marble_left o m → marble_ready o →
  match open_store config o with
  | (Ok w, _) => marble_holds w m ∧ (marble_calm o → marble_calm (w_os w))
  | (Panic, _) => False
  | _ => ¬ marble_calm o
  end.
Proof.
  intros (L & Hd & Hv) Hr.
  assert (wp (open config) (λ m o', opened L o m o') (λ _ _, injected o) (λ _, injected o) o) as Hw
    by (apply (wp_open L o); auto).
  unfold wp in Hw. unfold open_store. destruct (open config o) as [[x| | |] o']; try done.
  destruct Hw as (Hi & [_ _ _ Hs] & _). split; [by exists L|]. by apply calm_suffix.
Qed.

(** Reading allocates no sequence number. *)
Lemma keeps_read_next n oid : keeps (λ w, next_file_lsn (w_fm w) = n) (read oid).
Proof.
  unfold read, read_located, fam_for_location, deref, update_fam, decompress, ThreadLocalDict_decompress,
    DictInABox_decompress, uninit_boxed_slice, allocate.
  assert (∀ A (m : IO A), keeps (λ w, next_file_lsn (w_fm w) = n) (io m)) as Hio.
  { intros A m w Hw. unfold wlp, io, zoom. by destruct (m (w_os w)) as [[] ?]. }
  assert (∀ A (m : M FileMap A), keeps (λ m, next_file_lsn m = n) m →
    keeps (λ w, next_file_lsn (w_fm w) = n) (fm m)) as Hfm.
  { intros A m Hm w Hw. specialize (Hm (w_fm w) Hw). unfold wlp, fm, zoom in *.
    by destruct (m (w_fm w)) as [[] ?]. }
  keeps_steps; try apply Hio; try (apply Hfm; keeps_steps); by apply keeps_modify.
Qed.

Lemma marble_read_law w m oid :
  marble_holds w m →
  wp (read oid)
    (λ v w', v = spec_read oid m ∧ marble_holds w' m ∧ (marble_calm (w_os w) → marble_calm (w_os w'))
             ∧ ∀ b, marble_fits_batch w b → marble_fits_batch w' b)
    (λ _ w', marble_left (w_os w') m ∧ ¬ marble_calm (w_os w))
    (λ w', marble_left (w_os w') m ∧ ¬ marble_calm (w_os w)) w.
Proof.
  intros (L & Hi & <-).
  assert (∀ w', os_upd (os_fs (w_os w)) (w_os w) (w_os w') → marble_left (w_os w') (view L)) as Hleft.
  { intros w' (E & _). exists L. rewrite E. split; [apply Hi|done]. }
  eapply wp_mono; [eapply wp_wlp; [by apply wp_read|by apply keeps_read_next]|..]; simpl.
  - intros v w' ((-> & Hi' & Hu) & En). split_and!.
    + unfold spec_read. by rewrite view_lookup.
    + by exists L.
    + apply calm_suffix, Hu.
    + intros b [[Hb1 Hb2 Hb3] Hb]. split; [|done]. split; [done|by rewrite En|].
      destruct Hu as (_ & -> & _). done.
  - intros e w' ((Hinj & _ & Hu) & _). split; [by apply Hleft|exact Hinj].
  - intros w' (Hinj & Hu). split; [by apply Hleft|exact Hinj].
Qed.

Lemma marble_write_law w m batch :
  marble_holds w m → marble_fits_batch w batch →
  wp (write_batch config batch)
    (λ _ w', marble_holds w' (spec_write batch m) ∧ (marble_calm (w_os w) → marble_calm (w_os w')))
    (λ _ w', (marble_left (w_os w') m ∨ marble_left (w_os w') (spec_write batch m))
             ∧ ¬ marble_calm (w_os w))
    (λ w', (marble_left (w_os w') m ∨ marble_left (w_os w') (spec_write batch m))
           ∧ ¬ marble_calm (w_os w)) w.
Proof.
  intros (L & Hi & <-) [Hfit Hsz]. unfold marble_left.
  eapply wp_mono; [by apply wp_write_batch|..]; simpl.
  - intros _ w' (L' & Hi' & Hv%view_write & _ & _ & Hs). split; [by exists L'|by apply calm_suffix].
  - intros e w' [(L' & Hd & Hv) Hinj]. split; [|by destruct Hinj as [?|[_ ?]]].
    destruct Hv as [Hv|Hv]; [left|right]; by exists L'.
  - intros w' [(L' & Hd & Hv) Hinj]. split; [|done]. destruct Hv as [Hv|Hv]; [left|right]; by exists L'.
Qed.

(** The objects of a store are determined by its state. *)
Lemma inv_view_unique w L L0 :
  Inv w L unclaimed → Inv w L0 unclaimed → view L = view L0.
Proof.
  intros Hi Hi0.
  set (w1 := set_os (MkOs (os_fs (w_os w)) [] (os_tmp_counter (w_os w)) (os_thread (w_os w))) w).
  assert (∀ L, Inv w L unclaimed → reads w1 (view L)) as Hreads.
  { intros L' [Hd [? ? ? ? ? ?]]. by apply (reads_view _ L' unclaimed); [split; [|split]|]. }
  eapply reads_same; by apply Hreads.
Qed.

Lemma marble_maintenance_law w m :
  marble_holds w m → maintain_fits config w →
  wp (maintenance config)
    (λ _ w', marble_left (w_os w') m ∧
             (marble_calm (w_os w) → marble_holds w' m ∧ marble_calm (w_os w')))
    (λ _ w', marble_left (w_os w') m ∧ ¬ marble_calm (w_os w))
    (λ w', marble_left (w_os w') m ∧ ¬ marble_calm (w_os w)) w.
Proof.
  intros (L & Hi & <-) (L0 & Hi0 & Hfit & Hno).
  assert (∀ L', vals L' = vals L0 → view L' = view L) as Hview.
  { intros L' E. transitivity (view L0); [unfold view; by rewrite E|]. by apply (inv_view_unique w). }
  assert (∀ F, same_on_disk (os_fs (w_os w)) L0 F → ∃ L', disk_ok F L' ∧ view L' = view L) as Hsame.
  { intros F [(L' & Hd & Ev) _]. exists L'. auto. }
  eapply wp_mono; [by apply (wp_maintenance config Htyped w L0)|..]; simpl.
  - intros n w' [Hd Hinv _ _ Hs]. split; [by apply Hsame|]. intros Hc.
    destruct Hinv as [(L' & Hi' & Ev & _)|Hinj]; [|by destruct Hinj].
    split; [exists L'; auto|by eapply calm_suffix].
  - intros e w' [Hd He]. split; [by apply Hsame|]. destruct He as [?|?]; [done|by edestruct Hno].
  - intros w' [Hd He]. split; [by apply Hsame|done].
Qed.

Lemma marble_drop_law w m :
  marble_holds w m →
  wp drop_store
    (λ _ w', marble_left (w_os w') m ∧ marble_ready (w_os w') ∧
             (marble_calm (w_os w) → marble_calm (w_os w')))
    (λ _ _, False)
    (λ w', marble_left (w_os w') m ∧ ¬ marble_calm (w_os w)) w.
Proof.
  intros (L & Hi & <-). eapply wp_mono; [by eapply wp_drop_store|..]; simpl; [|done|].
  - intros _ w' (L' & Hd & Hv & Hc & Hs & _). split_and!; [by exists L'| |by apply calm_suffix].
    unfold marble_ready. rewrite Hc. apply (mo_tmp _ _ _ (inv_mem _ _ _ Hi)).
  - intros w' [Hinj (L' & Hd & Hv & _)]. split; [by exists L'|done].
Qed.
End marble.

(** ** The contract *)

Section laws.
Context `{Deps, !DepsLaws}.

(** The crate keeps the contract, under every configuration [open] accepts. *)
#[export] Instance marble_store_laws (config : Config)
    (Hvalid : validate config = inl ()) (Htyped : Config_typed config)
    : ObjectStoreLaws World os (St := marble_store config).
Proof.
  refine (Build_ObjectStoreLaws World os (marble_store config) marble_holds marble_left marble_ready
    marble_calm (marble_fits_batch config) (maintain_fits config) _ _ _ _ _ _ _ _ _ _).
  - intros w m (L & Hi & Hv). exists L. split; [apply Hi|done].
  - done.
  - done.
  - done.
  - by apply marble_open_law.
  - intros w m oid. apply marble_read_law.
  - apply marble_write_law.
  - by apply marble_maintenance_law.
  - intros w m (L & Hi & _). eexists. simpl. unfold stats, fm, zoom, mbind, M_bind.
    by rewrite (file_map_stats_sums w L unclaimed Hi), set_file_map_id.
  - apply marble_drop_law.
Defined.
End laws.
