(* ===== verification/BenchSpec.v ===== *)
(** BenchSpec: the load generator of [Bench]. Its writers succeed on any object store that
    keeps its contract, its readers report sound figures if they have read anything, alone
    and side by side, and on the crate the final loop ends. *)
From S2P Require Import Prelude Effects Os Deps Config State FileMap Gc Store Spec Layout Invariant.
From S2P Require Import StoreSpec CompactSpec MaintSpec SettleSpec Refinement ObjectStore Bench MarbleStore.

Section threads.
Context `{Deps, !DepsLaws} {W O R T : Type} `{ObjectStoreLaws W O, RngLaws R, ClockLaws T}.
Implicit Types t : Thread W R T.

(** ** Writers *)

(** What a writer may put into a batch. *)
Definition bench_entry (lorem_ipsum : bytes) (pid : Z) (v : option bytes) : Prop :=
  0 ≤ pid < KEYSPACE ∧
  match v with
  | Some value => ∃ start, slice lorem_ipsum start (start + VALUE_LEN) = Some value
  | None => True
  end.

Definition bench_batch (lorem_ipsum : bytes) (batch : gmap Z (option bytes)) : Prop :=
  batch ≠ ∅ ∧ Z.of_nat (size batch) ≤ BATCH_SZ ∧ map_Forall (bench_entry lorem_ipsum) batch.

Lemma wp_random_entry lorem_ipsum max_offset batch i t (Q : gmap Z (option bytes) → Thread W R T → Prop) E C :
  0 < max_offset → max_offset + VALUE_LEN ≤ len lorem_ipsum →
  (∀ r' pid v, bench_entry lorem_ipsum pid v → Q (<[pid := v]> batch) (set_rng r' t)) →
  wp (random_entry lorem_ipsum max_offset batch i) Q E C t.
Proof.
  intros Hpos Hlen HQ. unfold random_entry, with_rng. wp_steps.
  eapply wp_mono; [apply wp_gen_range; done|..]; simpl; [|done..]. intros pid r1 Hpid. wp_steps.
  eapply wp_mono; [apply wp_gen_bool; lia|..]; simpl; [|done..]. intros [] r2 _; wp_steps.
  - by apply HQ.
  - eapply wp_mono; [by apply wp_gen_range|..]; simpl; [|done..]. intros start r3 Hstart. wp_steps.
    assert (is_Some (slice lorem_ipsum start (start + VALUE_LEN))) as [value Hv].
    { unfold slice, VALUE_LEN in *. rewrite bool_decide_eq_true_2 by lia. eauto. }
    eapply wp_unwrap; [done|]. wp_steps. apply HQ. split; [done|]. by exists start.
Qed.
(** Room for [n] batches, one after the other. *)
Fixpoint writer_fits (lorem_ipsum : bytes) (n : nat) (w : W) : Prop :=
  match n with
  | 0%nat => True
  | S n =>
      ∀ batch, bench_batch lorem_ipsum batch →
        fits_batch w (iter_order batch) ∧
        ∀ w', store_write_batch (iter_order batch) w = (Ok (), w') → writer_fits lorem_ipsum n w'
  end.

Lemma wp_random_batch lorem_ipsum max_offset t (Q : gmap Z (option bytes) → Thread W R T → Prop) E C :
  0 < max_offset → max_offset + VALUE_LEN ≤ len lorem_ipsum →
  (∀ r' batch, bench_batch lorem_ipsum batch → Q batch (set_rng r' t)) →
  wp (foldM (random_entry lorem_ipsum max_offset) ∅ (seqZ 0 BATCH_SZ)) Q E C t.
Proof.
  intros Hpos Hlen HQ.
  eapply wp_mono; [apply (wp_foldM _ (λ dn batch t', (dn ≠ [] → batch ≠ ∅) ∧ (size batch ≤ length dn)%nat ∧
    map_Forall (bench_entry lorem_ipsum) batch ∧ ∃ r', t' = set_rng r' t) (λ _ _, False) (λ _, False))|..];
    [..|done|done].
  - split_and!; [done|by rewrite map_size_empty|apply map_Forall_empty|]. exists (rng t). by destruct t.
  - intros dn i rest batch t' _ (_ & Hsz & Hall & r1 & ->). apply wp_random_entry; [done..|].
    intros r' pid v Hv. split_and!; [intros _; apply insert_non_empty| |by apply map_Forall_insert_2|by exists r'].
    rewrite map_size_insert, length_app. destruct (batch !! pid); simpl; lia.
  - intros batch t' (Hne & Hsz & Hall & r' & ->). apply HQ. rewrite length_seqZ in Hsz.
    assert (0 < BATCH_SZ) as Hbs by done. split_and!; [|lia|done]. apply Hne. intros E0%(f_equal length). rewrite length_seqZ in E0. simpl length in E0. lia.
Qed.

(** A writer writes its batches, one after the other, and then says that it is done: no call
    fails and nothing panics, if the text is longer than a value and there is room. *)
Theorem run_writer_writes lorem_ipsum m t :
  holds_calmly (marble t) m → VALUE_LEN < len lorem_ipsum →
  writer_fits lorem_ipsum (Z.to_nat BATCHES_PER_THREAD) (marble t) →
  ∃ t' batches, run_writer lorem_ipsum t = (Ok (), t') ∧ any_writers_done t' = true ∧
    length batches = Z.to_nat BATCHES_PER_THREAD ∧ Forall (bench_batch lorem_ipsum) batches ∧
    holds_calmly (marble t') (foldl (λ m batch, spec_write (iter_order batch) m) m batches).
Proof.
  intros Hh Hlen Hfit. pose proof (length_seqZ 0 BATCHES_PER_THREAD) as Hn.
  set (n := Z.to_nat BATCHES_PER_THREAD) in *. clearbody n.
  assert (wp (run_writer lorem_ipsum) (λ _ t', any_writers_done t' = true ∧ ∃ batches,
    length batches = n ∧ Forall (bench_batch lorem_ipsum) batches ∧
    holds_calmly (marble t') (foldl (λ m batch, spec_write (iter_order batch) m) m batches))
    (λ _ _, False) (λ _, False) t) as Hw.
  - unfold run_writer. wp_steps.
    eapply wp_mono; [apply (wp_forM _ (λ dn t', ∃ batches, length batches = length dn ∧
      Forall (bench_batch lorem_ipsum) batches ∧ writer_fits lorem_ipsum (n - length dn) (marble t') ∧
      holds_calmly (marble t') (foldl (λ m batch, spec_write (iter_order batch) m) m batches))
      (λ _ _, False) (λ _, False))|..]; [..|done|done].
    + exists []. split_and!; [done|constructor| |done]. by rewrite Nat.sub_0_r.
    + intros dn i rest t' E (batches & Hl & Hall & Hf & Hh'). unfold write_random_batch. wp_steps.
      assert (n = length dn + S (length rest))%nat as En.
      { rewrite <- Hn, E, length_app. done. }
      apply wp_random_batch; [unfold VALUE_LEN in *; lia..|]. intros r' batch Hb. unfold with_marble. wp_steps.
      replace (n - length dn)%nat with (S (length rest)) in Hf by lia. destruct (Hf batch Hb) as [Hfb Hnext].
      apply wp_unwrap_result, wp_with_run. eapply wp_mono; [by apply wp_write_calm|..]; simpl; [|done..].
      intros [] w' Hw' Erun. exists (batches ++ [batch]). rewrite foldl_app, !length_app, Hl. simpl.
      replace (n - (length dn + 1))%nat with (length rest) by lia.
      split_and!; [done|by apply Forall_app; split; [|apply Forall_singleton]|by apply Hnext|done].
    + intros [] t' (batches & Hl & Hall & _ & Hh'). wp_steps. split; [done|]. exists batches.
      split_and!; [|done..]. by rewrite Hl.
  - destruct (wp_no_faults _ _ _ _ _ Hw) as ([] & t' & E & Hd & batches & ?); [by intros ? ?|by intros ?|].
    by exists t', batches.
Qed.

(** ** Readers *)

(** What [l] says of [n] reads between two times of the clock. *)
Record measured (start n : Z) (l : Latencies) (stop : Z) : Prop := {
  me_count : count l = n;
  me_worst : 0 ≤ worst_time l;
  me_best : 0 ≤ best_time l;
  me_sums : n * best_time l ≤ total_time l ≤ n * worst_time l;
  me_total : 0 ≤ total_time l ≤ stop - start;
}.

Lemma wp_timed_read m start n l i t (Q : Latencies → Thread W R T → Prop) E C :
  holds_calmly (marble t) m → 0 ≤ start → 0 ≤ n → measured start n l (clock (time t)) →
  (∀ l' t', holds_calmly (marble t') m → measured start (n + 1) l' (clock (time t')) →
     clock (time t) ≤ clock (time t') → any_writers_done t' = any_writers_done t → Q l' t') →
  wp (timed_read l i) Q E C t.
Proof.
  intros Hh Hst Hn [Hc Hw Hb Hs Ht] HQ. unfold timed_read, with_time, with_rng, with_marble. wp_steps.
  eapply wp_mono; [apply wp_now|..]; simpl; [|done..]. intros before c1 [-> Hc1]. wp_steps.
  eapply wp_mono; [by apply wp_gen_range|..]; simpl; [|done..]. intros pid r1 _. wp_steps.
  apply wp_unwrap_result. eapply wp_mono; [by apply wp_read_calm|..]; simpl; [|done..].
  intros v w' (_ & Hh' & _). wp_steps.
  eapply wp_mono; [apply wp_now|..]; simpl; [|done..]. intros after c2 [-> Hc2]. wp_steps.
  pose proof (clock_range c2). rewrite Z.max_l by lia.
  apply wp_assert; [apply Z.leb_le; lia|]. wp_steps. apply HQ; simpl; [done| |lia|done].
  split; simpl; try nia.
Qed.

(** C38. A reader that has read something reports figures between the best and the worst; one
    that finds a writer done before its first read divides by zero. *)
Theorem run_reader_measures loads m t :
  holds_calmly (marble t) m →
  (0 < loads → ∃ worst best average t', run_reader loads t = (Ok (worst, best, average), t') ∧
     holds_calmly (marble t') m ∧ 0 ≤ best ∧ best / 1000 ≤ average ≤ worst) ∧
  (run_reader 0 t).1 = Panic.
Proof.
  intros Hh. split; [|done]. intros Hpos.
  assert (wp (run_reader loads) (λ r t', holds_calmly (marble t') m ∧ 0 ≤ r.1.2 ∧ r.1.2 / 1000 ≤ r.2 ≤ r.1.1)
    (λ _ _, False) (λ _, False) t) as Hw.
  - unfold run_reader. wp_steps. pose proof (clock_range (time t)) as Hr.
    eapply wp_mono; [apply (wp_foldM _ (λ dn l t', holds_calmly (marble t') m ∧
      measured (clock (time t)) (len dn) l (clock (time t'))) (λ _ _, False) (λ _, False))|..]; [..|done|done].
    + split; [done|]. split; simpl; unfold duration_max; lia.
    + intros dn i rest l t' _ [Hh' Hm]. apply (wp_timed_read m (clock (time t)) (len dn)); [done|lia|lia|done|].
      intros l' t2 Hh2 Hm2 _ _. split; [done|]. by rewrite length_app, Nat2Z.inj_add.
    + intros l t' [Hh' [Hc Hwo Hb Hs Ht]]. rewrite length_seqZ, Z2Nat.id in * by lia.
      rewrite Hc, (proj2 (Z.eqb_neq _ _)) by lia. wp_steps. simpl. split_and!; [done|done|..].
      * rewrite Z.div_div, Z.mul_comm, <- Z.div_div by lia. apply Z.div_le_mono; [lia|].
        apply Z.div_le_lower_bound; lia.
      * rewrite Z.div_div, Z.mul_comm, <- Z.div_div by lia. apply Z.div_le_mono; [lia|].
        apply Z.div_le_upper_bound; lia.
  - destruct (wp_no_faults _ _ _ _ _ Hw) as ([[worst best] average] & t' & E & ?);
      [by intros ? ?|by intros ?|]. by exists worst, best, average, t'.
Qed.

(** ** The threads side by side *)

Section phase.
Context (lorem_ipsum : bytes) (Hlong : VALUE_LEN < len lorem_ipsum).
Implicit Types ph : Phase W R T.

(** The batches that are still to be written. *)
Definition batches_left ph : nat := sum_list_with (λ w, default 0%nat w.2) (ph_writers ph).

(** The reader [i] has read nothing, and a writer is done. *)
Definition idle_reader (i : nat) ph : Prop :=
  ph_done ph = true ∧ ∃ r l, ph_readers ph !! i = Some (r, Some l) ∧ count l = 0.

(** Every call fits the store it finds. *)
Fixpoint phase_fits (schedule : list turn) ph : Prop :=
  match schedule with
  | [] => True
  | a :: schedule =>
      (∀ batch, bench_batch lorem_ipsum batch → fits_batch (ph_marble ph) (iter_order batch)) ∧
      fits_maintenance (ph_marble ph) ∧
      ∀ ph', take_turn lorem_ipsum a ph = (Ok (), ph') → phase_fits schedule ph'
  end.

Definition after_batches (m : AbsStore) (batches : list (gmap Z (option bytes))) : AbsStore :=
  foldl (λ m batch, spec_write (iter_order batch) m) m batches.

(** [batches] have been written of [total], and the readers have measured what they have. *)
Record phased (m : AbsStore) (total : nat) (batches : list (gmap Z (option bytes))) ph : Prop := {
  pd_holds : holds_calmly (ph_marble ph) (after_batches m batches);
  pd_batches : Forall (bench_batch lorem_ipsum) batches;
  pd_left : (length batches + batches_left ph = total)%nat;
  pd_readers i r l : ph_readers ph !! i = Some (r, Some l) →
    0 ≤ count l ∧ measured 0 (count l) l (clock (ph_time ph));
}.

Lemma sum_insert {A} (f : A → nat) (l : list A) i x y :
  l !! i = Some x → (sum_list_with f (<[i := y]> l) + f x = sum_list_with f l + f y)%nat.
Proof.
  revert i. induction l as [|z l IH]; intros [|i]; simpl; [done..|intros [= ->]; lia|].
  intros E%IH. lia.
Qed.

Lemma wp_by_thread {A} r (th : M (Thread W R T) A) ph (Q : A * R → Phase W R T → Prop) E C :
  wp th (λ a t, Q (a, rng t) (set_ph_thread t ph)) (λ _ _, False) (λ _, False)
    (MkThread r (ph_time ph) (ph_marble ph) (ph_done ph)) →
  wp (by_thread r th) Q E C ph.
Proof.
  intros Hth. unfold by_thread. wp_steps. eapply wp_mono; [exact Hth|..]; simpl; [|done..].
  intros a t HQ. by wp_steps.
Qed.

(** A turn of a writer: one more batch, or the end. *)
Lemma wp_writer_turn m total batches i ph E C :
  phased m total batches ph →
  (∀ batch, bench_batch lorem_ipsum batch → fits_batch (ph_marble ph) (iter_order batch)) →
  wp (writer_turn lorem_ipsum i) (λ _ ph', ∃ batches', phased m total batches' ph') E C ph.
Proof.
  intros Hp Hfit. pose proof Hp as [Hh Hall Hl Hr]. unfold writer_turn. wp_steps.
  destruct (ph_writers ph !! i) as [[r [n|]]|] eqn:Ei; [|by wp_steps; eauto..].
  wp_steps. apply wp_by_thread. destruct n as [|n].
  - wp_steps. exists batches. split; simpl; try done.
    pose proof (sum_insert (λ w : R * option nat, default 0%nat w.2) _ _ _ (r, None) Ei) as Es.
    unfold batches_left in *. simpl in *. lia.
  - unfold write_random_batch, with_marble. wp_steps.
    apply wp_random_batch; [unfold VALUE_LEN in *; lia..|]. intros r' batch Hb. wp_steps.
    apply wp_unwrap_result. eapply wp_mono; [apply wp_write_calm; [exact Hh|by apply Hfit]|..]; simpl; [|done..].
    intros [] w' Hw'. wp_steps. exists (batches ++ [batch]). split; simpl.
    + unfold after_batches in *. by rewrite foldl_app.
    + apply Forall_app. by rewrite Forall_singleton.
    + pose proof (sum_insert (λ w : R * option nat, default 0%nat w.2) _ _ _ (r', Some n) Ei) as Es.
      unfold batches_left in *. rewrite length_app. simpl in *. lia.
    + exact Hr.
Qed.

(** A turn of a reader: one more read, or the end. *)
Lemma wp_reader_turn m total batches i ph E C :
  phased m total batches ph → ¬ idle_reader i ph →
  wp (reader_turn i) (λ _ ph', ∃ batches', phased m total batches' ph') E C ph.
Proof.
  intros Hp Hni. pose proof Hp as [Hh Hall Hl Hr]. unfold reader_turn. wp_steps.
  destruct (ph_readers ph !! i) as [[r [l|]]|] eqn:Ei; [|by wp_steps; eauto..].
  destruct (Hr i r l Ei) as [Hc Hm]. wp_steps. apply wp_by_thread. wp_steps. cbn [any_writers_done].
  assert (∀ r' o c, clock (ph_time ph) ≤ clock c →
    (∀ l', o = Some l' → 0 ≤ count l' ∧ measured 0 (count l') l' (clock c)) →
    ∀ j r2 l2, <[i := (r', o)]> (ph_readers ph) !! j = Some (r2, Some l2) →
      0 ≤ count l2 ∧ measured 0 (count l2) l2 (clock c)) as Hrs.
  { intros r' o c Hle Ho j r2 l2. rewrite list_lookup_insert_Some. intros [(_ & [= _ ->] & _)|[_ Hj]]; [auto|].
    destruct (Hr j r2 l2 Hj) as [? []]. split; [done|]. split; try done. lia. }
  destruct (ph_done ph) eqn:Ed.
  - destruct (Z.eqb_spec (count l) 0) as [Hz|_].
    { destruct Hni. split; [done|]. by exists r, l. }
    wp_steps. exists batches. split; simpl; try done. by apply Hrs.
  - wp_steps. eapply (wp_timed_read (after_batches m batches) 0 (count l)); [exact Hh|done|done|exact Hm|].
    intros l' t' Hh' Hm' Hle _. wp_steps. exists batches. split; simpl; try done.
    apply Hrs; [done|]. intros l2 [= <-]. pose proof (me_count _ _ _ _ Hm') as Ec. rewrite Ec. split; [lia|done].
Qed.

Lemma wp_main_turn m total batches ph E C :
  phased m total batches ph → fits_maintenance (ph_marble ph) →
  wp main_turn (λ _ ph', ∃ batches', phased m total batches' ph') E C ph.
Proof.
  intros Hp Hfit. pose proof Hp as [Hh Hall Hl Hr]. unfold main_turn. wp_steps.
  apply wp_when; [|by exists batches]. intros _. wp_steps. apply wp_unwrap_result.
  eapply wp_mono; [by apply wp_maintenance_calm|..]; simpl; [|done..].
  intros n w' Hh'. assert (phased m total batches
    (MkPhase (ph_time ph) w' (ph_done ph) (ph_writers ph) (ph_readers ph))) as Hp' by done.
  apply wp_when; [|by exists batches]. intros _. wp_steps.
  destruct Hh' as [Hh' Hc']. destruct (stats_law w' _ Hh') as [s Es]. eapply wp_ok; [exact Es|]. wp_steps.
  by exists batches.
Qed.

(** A reader that has read nothing divides by zero. *)
Lemma idle_reader_panics i ph :
  idle_reader i ph → ∃ ph', reader_turn i ph = (Panic, ph') ∧ idle_reader i ph'.
Proof.
  intros (Hd & r & l & Ei & Hc). unfold reader_turn, by_thread, zoom, gets, mbind, M_bind.
  rewrite Ei. cbn. rewrite Hd, Hc. cbn. eexists. split; [done|]. split; [done|]. by exists r, l.
Qed.

Lemma take_turn_cases m total batches a ph :
  phased m total batches ph →
  (∀ batch, bench_batch lorem_ipsum batch → fits_batch (ph_marble ph) (iter_order batch)) →
  fits_maintenance (ph_marble ph) →
  (∃ ph' batches', take_turn lorem_ipsum a ph = (Ok (), ph') ∧ phased m total batches' ph') ∨
  (∃ ph' i, take_turn lorem_ipsum a ph = (Panic, ph') ∧ a = ReaderTurn i ∧ idle_reader i ph').
Proof.
  intros Hp Hfb Hfm.
  assert (∀ th, wp th (λ _ ph', ∃ batches', phased m total batches' ph') (λ _ _, False) (λ _, False) ph →
    ∃ ph' batches', th ph = (Ok (), ph') ∧ phased m total batches' ph') as Hok.
  { intros th Hth. destruct (wp_no_faults _ _ _ _ _ Hth) as ([] & ph' & E & batches' & ?);
      [by intros ? ?|by intros ?|]. by exists ph', batches'. }
  destruct a as [i|i|]; simpl; [left; by eapply Hok, wp_writer_turn| |left; by eapply Hok, wp_main_turn].
  destruct (ph_done ph) eqn:Ed.
  2: { left. eapply Hok, wp_reader_turn; [done|]. intros [E _]. congruence. }
  destruct (ph_readers ph !! i) as [[r [l|]]|] eqn:Ei.
  2,3: left; eapply Hok, wp_reader_turn; [done|]; intros (_ & r2 & l2 & E & _); congruence.
  destruct (decide (count l = 0)) as [Hz|Hnz].
  - right. destruct (idle_reader_panics i ph) as (ph' & ? & ?); [split; [done|by exists r, l]|]. by exists ph', i.
  - left. eapply Hok, wp_reader_turn; [done|]. intros (_ & r2 & l2 & E & ?). congruence.
Qed.

Lemma run_threads_cases m total batches schedule ph :
  phased m total batches ph → phase_fits schedule ph →
  (∃ ph' batches', run_threads lorem_ipsum schedule ph = (Ok (), ph') ∧ phased m total batches' ph') ∨
  (∃ ph' i, run_threads lorem_ipsum schedule ph = (Panic, ph') ∧ ReaderTurn i ∈ schedule ∧ idle_reader i ph').
Proof.
  unfold run_threads. revert batches ph. induction schedule as [|a schedule IH]; intros batches ph Hp Hfit.
  - left. by exists ph, batches.
  - destruct Hfit as (Hfb & Hfm & Hnext). simpl. unfold mbind, M_bind.
    destruct (take_turn_cases m total batches a ph Hp Hfb Hfm) as [(ph' & batches' & E & Hp')|(ph' & i & E & Hi)];
      rewrite E; [|right; exists ph', i; split_and!; [done|set_solver|by destruct Hi]].
    destruct (IH batches' ph' Hp' (Hnext ph' E)) as [?|(ph2 & i & E2 & Hin & Hi)]; [by left|right].
    exists ph2, i. split_and!; [done|by right|done].
Qed.

Lemma sum_writers new_rng n k s :
  sum_list_with (λ w : R * option nat, default 0%nat w.2)
    ((λ i, (new_rng (2 * i)%nat, Some n)) <$> seq s k) = (k * n)%nat.
Proof. revert s. induction k as [|k IH]; intros s; [done|]. cbn [seq fmap list_fmap sum_list_with]. by rewrite IH. Qed.

(** C18. Writers, readers and the collector side by side, in any order of their calls: no call
    fails, and the store holds what the batches written so far make of it, in the order in
    which they were written. The only panic is that of a reader which has read nothing when
    the first writer is done: it divides by the number of its reads. *)
Theorem threads_write_batches concurrency new_rng c w m schedule :
  let start := start_threads concurrency new_rng c w in
  holds_calmly w m → phase_fits schedule start →
  (∃ ph batches, run_threads lorem_ipsum schedule start = (Ok (), ph) ∧
     Forall (bench_batch lorem_ipsum) batches ∧
     (length batches + batches_left ph = concurrency * Z.to_nat BATCHES_PER_THREAD)%nat ∧
     holds_calmly (ph_marble ph) (after_batches m batches)) ∨
  (∃ ph i, run_threads lorem_ipsum schedule start = (Panic, ph) ∧ ReaderTurn i ∈ schedule ∧ idle_reader i ph).
Proof.
  intros start Hh Hfit.
  destruct (run_threads_cases m (concurrency * Z.to_nat BATCHES_PER_THREAD) [] schedule start)
    as [(ph & batches & E & [])|?]; [|done|left; by exists ph, batches|by right].
  split; simpl; [done|done|..].
  - apply sum_writers.
  - intros i r l Hr%list_elem_of_lookup_2. apply list_elem_of_fmap in Hr as (j & [= _ ->] & _).
    split; [done|]. pose proof (clock_range c). split; simpl; unfold duration_max; lia.
Qed.
End phase.
End threads.

(** ** The end of [main] *)

Section main.
Context `{Deps, !DepsLaws}.
Context (config : Config) (Hvalid : validate config = inl ()) (Htyped : Config_typed config).

#[local] Instance bench_store : ObjectStore World os := marble_store config.

(** A store with nothing left to defragment. *)
Record at_rest (L : list LogFile) (w : World) : Prop := {
  ar_inv : Inv w L unclaimed;
  ar_settled : settled config L;
  ar_inhabited f : f ∈ L → live (locs L) f ≠ 0;
  ar_few : few_files config w;
  ar_calm : os_faults (w_os w) = [];
}.

Lemma at_rest_maintenance L w :
  at_rest L w → ∃ w', maintenance config w = (Ok 0, w') ∧ at_rest L w'.
Proof.
  intros [Hi Hs Hl Hfew Hc]. destruct (maintenance_rests config w L) as (w' & E & Hi' & Hfew' & Hc'); [done..|].
  by exists w'.
Qed.

Lemma stats_same L w : at_rest L w → ∃ s, store_stats w = (Ok s, w).
Proof.
  intros [Hi _ _ _ _]. apply (stats_law (ObjectStoreLaws := marble_store_laws config Hvalid Htyped) w (view L)).
  by exists L.
Qed.

(** One round of the loop on a store at rest ends it. *)
Lemma settle_at_rest L w fuel cleaned_up :
  at_rest L w → ∃ w', settle (S fuel) cleaned_up w = (Ok true, w') ∧ at_rest L w'.
Proof.
  intros Hr. simpl. destruct (cleaned_up =? 0); [by exists w|].
  destruct (at_rest_maintenance L w Hr) as (w1 & E1 & Hr1), (stats_same L w1) as [s Es]; [done|].
  exists w1. split; [|done].
  rewrite (bind_ok (unwrap_result_ok E1)), (bind_ok Es). by destruct fuel.
Qed.

(** C17. On a store without faults to come and with room for a call of [maintenance], and if
    that call leaves fewer files than the threshold for cleaning up small ones, the loop
    that ends the run terminates: two rounds are enough. The assertion after it holds, and
    the store, which is at rest then, has the objects it had. *)
Theorem bench_finishes w m fuel :
  marble_holds w m → maintain_fits config w → os_faults (w_os w) = [] →
  (∀ n w', maintenance config w = (Ok n, w') → few_files config w') →
  (2 ≤ fuel)%nat →
  ∃ w' L, bench_finish fuel w = (Ok true, w') ∧ at_rest L w' ∧ view L = m.
Proof.
  intros (L & Hi & <-) (L0 & Hi0 & Hfit & Hno) Hc Hfew Hfuel.
  destruct fuel as [|[|fuel]]; [lia|lia|].
  destruct (wp_no_faults _ _ _ _ _ (wp_maintenance config Htyped w L0 Hi0 Hfit))
    as (n & w1 & E1 & _); [by intros e ? [_ [?|?%Hno]]|by intros ? [_ ?]|].
  destruct (maintenance_settled config w L0 n w1) as (L1 & Hi1 & Ev & Hl & Hset & Hc1); [done..|].
  assert (at_rest L1 w1) as Hr1 by (split; try done; by eapply Hfew).
  destruct (stats_same L1 w1 Hr1) as [s Es].
  destruct (settle_at_rest L1 w1 fuel n Hr1) as (w2 & E2 & Hr2).
  destruct (at_rest_maintenance L1 w2 Hr2) as (w3 & E3 & Hr3).
  exists w3, L1. split_and!; [|done|].
  - unfold bench_finish. assert (settle (S (S fuel)) 1 w = (Ok true, w2)) as Es2.
    { change (settle (S (S fuel)) 1) with (cleaned_up ← unwrap_result store_maintenance; store_stats;; settle (S fuel) cleaned_up).
      by rewrite (bind_ok (unwrap_result_ok E1)), (bind_ok Es). }
    by rewrite (bind_ok Es2), (bind_ok (unwrap_result_ok E3)).
  - transitivity (view L0); [unfold view; by rewrite Ev|].
    by apply (inv_view_unique w).
Qed.
End main.

(** ** The report *)

(** The figures are those of the run for any number of threads a machine can have, but the
    size of a value in kilobytes is printed as zero. *)
Lemma report_counts concurrency elapsed_millis :
  0 ≤ concurrency < 2 ^ 38 → 0 < elapsed_millis →
  report concurrency elapsed_millis = Some {|
    megabytes_written := concurrency * OPS_PER_THREAD * VALUE_LEN / 1000000;
    writes_per_second := concurrency * OPS_PER_THREAD * 1000 / elapsed_millis;
    kb_per_value := 0;
    megabytes_per_second := concurrency * OPS_PER_THREAD * VALUE_LEN / 1000 / elapsed_millis;
  |}.
Proof.
  intros Hc He. unfold report. rewrite (proj2 (Z.eqb_neq _ _)) by lia.
  assert (concurrency * BATCH_SZ * BATCHES_PER_THREAD = concurrency * OPS_PER_THREAD) as ->.
  { rewrite <- Z.mul_assoc. done. }
  unfold OPS_PER_THREAD, VALUE_LEN in *. by rewrite !wrap64_small by (rewrite ?wrap64_small; u64_lia).
Qed.
