(* ===== verification/Reachable.v ===== *)
(** Reachable: whole histories of a store: processes that open it, write, read, sync,
    defragment, close it, fail or are killed, one after the other, from an empty disk on;
    between them the machine may lose power, if every batch is synced. The store always
    holds every batch whose write has returned, in order, and of the others all or nothing. *)
From S2P Require Import Prelude Effects Os Deps Locations LocationTable Config Metadata.
From S2P Require Import ZstdDict Storage State FileMap WritePath ReadPath Gc Recovery Store Spec.
From S2P Require Import Layout Invariant PowerLoss ReadSpec RecoverySpec StoreSpec RewriteSpec.
From S2P Require Import MaintSpec SyncSpec Refinement Durability MarbleStore.

(** ** What a history promises *)

(** The batches of a history, and whether their write has returned [Ok]. *)
Definition trace : Type := list (list (Z * option bytes) * bool).

(** The contents a trace admits: the acknowledged batches and any of the others. *)
Inductive admits : trace → AbsStore → Prop :=
  | admits_nil : admits [] ∅
  | admits_write t m batch acknowledged :
      admits t m → admits (t ++ [(batch, acknowledged)]) (spec_write batch m)
  | admits_skip t m batch : admits t m → admits (t ++ [(batch, false)]) m.

(** ** Histories *)

Section histories.
Context `{Deps, !DepsLaws}.
Context (config : Config).

(** A process with an open store, or the disk between two processes. *)
Inductive state :=
  | Running (w : World)
  | Stopped (o : os).

Inductive history : trace → state → Prop :=
  | history_start o : os_fs o = fs_empty → history [] (Stopped o)
  (** a new process opens the store; system calls may fail from now on *)
  | history_open t o faults thread w o' :
      history t (Stopped o) → open_store config (new_process faults thread o) = (Ok w, o') →
      history t (Running w)
  | history_write t w batch w' :
      history t (Running w) → batch_fits w batch → write_batch config batch w = (Ok (), w') →
      history (t ++ [(batch, true)]) (Running w')
  (** a write fails, or the process is killed in the middle of it *)
  | history_write_lost t w batch r w' :
      history t (Running w) → batch_fits w batch → write_batch config batch w = (r, w') → r ≠ Ok () →
      history (t ++ [(batch, false)]) (Stopped (w_os w'))
  | history_read t w oid v w' :
      history t (Running w) → read oid w = (Ok v, w') → history t (Running w')
  | history_sync t w w' :
      history t (Running w) → sync_all w = (Ok (), w') → history t (Running w')
  | history_maintenance t w n w' :
      history t (Running w) → maintain_fits config w → os_faults (w_os w) = [] →
      maintenance config w = (Ok n, w') → history t (Running w')
  (** [maintenance] after which the process ends, whatever has failed *)
  | history_maintenance_last t w r w' :
      history t (Running w) → maintain_fits config w → maintenance config w = (r, w') →
      history t (Stopped (w_os w'))
  | history_drop t w r w' :
      history t (Running w) → drop_store w = (r, w') → history t (Stopped (w_os w'))
  | history_kill t w : history t (Running w) → history t (Stopped (w_os w))
  (** the machine loses power *)
  | history_power_loss t o F :
      fsync_each_batch config = true → history t (Stopped o) → power_loss (os_fs o) F →
      history t (Stopped (set_fs F o)).
End histories.

(** ** The invariant *)

Section invariant.
Context `{Deps, !DepsLaws}.
Context (config : Config) (Hvalid : validate config = inl ()) (Htyped : Config_typed config).

Definition state_os (s : state) : os := match s with Running w => w_os w | Stopped o => o end.

(** The objects of a state, in memory and on disk; if every batch is synced, whatever a
    power loss leaves is admitted, too. *)
Record sound (t : trace) (s : state) : Prop := {
  so_holds : ∃ L, admits t (view L) ∧
    match s with Running w => Inv w L unclaimed | Stopped o => disk_ok (os_fs o) L end;
  so_lasting : fsync_each_batch config = true → lasting (λ L, admits t (view L)) (os_fs (state_os s));
}.

Lemma sound_start o : os_fs o = fs_empty → sound [] (Stopped o).
Proof.
  intros E. split; simpl; rewrite E.
  - exists []. split; [constructor|apply disk_ok_empty].
  - intros _. apply lasting_empty. constructor.
Qed.

Lemma sound_open t o faults thread w o' :
  sound t (Stopped o) → open_store config (new_process faults thread o) = (Ok w, o') → sound t (Running w).
Proof.
  intros [(L & Ha & Hd) Hl] Hopen. unfold open_store in Hopen. set (o1 := new_process faults thread o) in *.
  assert (wp (open config) (λ m o', opened L o1 m o') (λ _ _, True) (λ _, True) o1) as Hw
    by (apply (wp_open L o1); done).
  unfold wp in Hw. destruct (open config o1) as [[m| | |] o2]; simplify_eq.
  destruct Hw as (Hi & Ho & _). split; [by exists L|]. intros Hf. simpl.
  apply (og_passes _ _ _ Ho); [by apply Hl|]. by apply Forall_singleton.
Qed.

Lemma sound_write t w batch w' :
  sound t (Running w) → batch_fits w batch → write_batch config batch w = (Ok (), w') →
  sound (t ++ [(batch, true)]) (Running w').
Proof.
  intros [(L & Ha & Hi) Hl] Hfit Hrun.
  pose proof (wp_run _ _ _ _ _ _ _ (wp_write_batch_went config w L batch Hi Hfit) Hrun)
    as (L' & [Hi' Hv%view_write _ _ _ Hps Hj]).
  assert (admits (t ++ [(batch, true)]) (view L')) as Ha' by (rewrite Hv; by constructor).
  split; [by exists L'|]. intros Hf. specialize (Hl Hf). specialize (Hj Hf). simpl in *.
  eapply (lasting_clean _ (λ _, True)); [|done|apply Hi'|done].
  apply Hps; [by eapply lasting_mono|]. by apply Forall_true.
Qed.

Lemma sound_write_lost t w batch r w' :
  sound t (Running w) → batch_fits w batch → write_batch config batch w = (r, w') → r ≠ Ok () →
  sound (t ++ [(batch, false)]) (Stopped (w_os w')).
Proof.
  intros [(L & Ha & Hi) Hl] Hfit Hrun Hr.
  pose proof (wp_run _ _ _ _ _ _ _ (wp_write_batch_went config w L batch Hi Hfit) Hrun) as Hw.
  assert (went_old_or_new w L batch (os_fs (w_os w'))) as (L' & [Hd Hps] & Hv).
  { destruct r as [[]| | |]; [done|apply Hw|done|apply Hw]. }
  assert (admits (t ++ [(batch, false)]) (view L')) as Ha' by (destruct Hv as [->| ->]; by constructor).
  split; [by exists L'|]. intros Hf. apply Hps.
  - eapply lasting_mono; [by apply Hl|]. intros L1. by constructor.
  - apply Forall_cons. split; [by constructor|by apply Forall_singleton].
Qed.

(** Any operation that changes no object. *)
Lemma sound_steady t w L s' :
  sound t (Running w) → Inv w L unclaimed → steady (os_fs (w_os w)) (os_fs (state_os s')) L →
  (∃ L', view L' = view L ∧
     match s' with Running w' => Inv w' L' unclaimed | Stopped o => disk_ok (os_fs o) L' end) →
  sound t s'.
Proof.
  intros [(L0 & Ha & Hi0) Hl] Hi Hst (L' & Ev & HL').
  assert (admits t (view L)) as HaL by by rewrite (inv_view_unique w L L0).
  split; [exists L'; by rewrite Ev|]. intros Hf. apply Hst; [by apply Hl|]. intros L1 E1.
  assert (view L1 = view L) as -> by (unfold view; by rewrite E1). done.
Qed.

Lemma sound_maintenance t w r w' s' :
  sound t (Running w) → maintain_fits config w → maintenance config w = (r, w') →
  (∃ n, r = Ok n) ∧ os_faults (w_os w) = [] ∧ s' = Running w' ∨ s' = Stopped (w_os w') → sound t s'.
Proof.
  intros Hs (L & Hi & Hfit & _) Hrun Hs'.
  pose proof (wp_run _ _ _ _ _ _ _ (wp_maintenance config Htyped w L Hi Hfit) Hrun) as Hw.
  assert (same_on_disk (os_fs (w_os w)) L (os_fs (w_os w'))) as [(L' & Hd & Ev) Hst].
  { destruct r; [apply Hw|apply Hw|done|apply Hw]. }
  destruct Hs' as [([n ->] & Hf & ->)| ->]; eapply (sound_steady t w L); try done.
  - destruct (md_inv _ _ _ _ _ Hw) as [(L1 & Hi1 & Ev1 & _)|Hinj]; [|done].
    exists L1. split; [unfold view; by rewrite Ev1|done].
  - exists L'. split; [unfold view; by rewrite Ev|done].
Qed.

Lemma sound_read t w oid v w' :
  sound t (Running w) → read oid w = (Ok v, w') → sound t (Running w').
Proof.
  intros Hs Hrun. pose proof Hs as [(L & Ha & Hi) _].
  pose proof (wp_run _ _ _ _ _ _ _ (wp_read w L unclaimed oid Hi) Hrun) as (_ & Hi' & Hu).
  eapply (sound_steady t w L); [done|done| |by exists L].
  simpl. rewrite (os_upd_fs _ _ _ Hu). apply steady_refl.
Qed.

Lemma sound_sync t w w' :
  sound t (Running w) → sync_all w = (Ok (), w') → sound t (Running w').
Proof.
  intros Hs Hrun. pose proof Hs as [(L & Ha & Hi) _].
  pose proof (wp_run _ _ _ _ _ _ _ (wp_sync_all w L unclaimed Hi) Hrun) as [Hi' _ _ Hps _].
  eapply (sound_steady t w L); [done|done| |by exists L].
  eapply steady_passes; [exact Hps|]. by intros L' ->%list_elem_of_singleton.
Qed.

Lemma sound_drop t w r w' :
  sound t (Running w) → drop_store w = (r, w') → sound t (Stopped (w_os w')).
Proof.
  intros Hs Hrun. pose proof Hs as [(L & Ha & Hi) _].
  pose proof (wp_run _ _ _ _ _ _ _ (wp_drop_store w L unclaimed Hi) Hrun) as Hw.
  assert (∃ L', disk_ok (os_fs (w_os w')) L' ∧ view L' = view L ∧ steady (os_fs (w_os w)) (os_fs (w_os w')) L)
    as (L' & Hd & Ev & Hst) by (destruct r; naive_solver).
  eapply (sound_steady t w L); [done|done|done|by exists L'].
Qed.

Lemma sound_power_loss t o F :
  fsync_each_batch config = true → sound t (Stopped o) → power_loss (os_fs o) F →
  sound t (Stopped (set_fs F o)).
Proof.
  intros Hf [_ Hl] Hpl. destruct (lasting_power_loss _ _ _ (Hl Hf) Hpl) as (L & Ha & Hset & Hl').
  split; [|done]. exists L. split; [done|apply Hset].
Qed.

Lemma history_sound t s : history config t s → sound t s.
Proof.
  induction 1 as [| | | | | | |t w r w' _ Hs Hfit Hrun| |t w _ [Hh Hl]|].
  - by apply sound_start.
  - by eapply sound_open.
  - by eapply sound_write.
  - by eapply sound_write_lost.
  - by eapply sound_read.
  - by eapply sound_sync.
  - eapply sound_maintenance; eauto.
  - eapply sound_maintenance; eauto.
  - by eapply sound_drop.
  - split; [|exact Hl]. destruct Hh as (L & Ha & Hi). exists L. split; [done|apply Hi].
  - by apply sound_power_loss.
Qed.

(** * Theorem *)

(** C3. A history starts with an empty disk. In it every [open] succeeds; batches, and calls of
    [maintenance], have the room they need; a process goes on after calls that return [Ok],
    a [maintenance] under faults excepted, and ends with a write that fails, with such a
    [maintenance], when it drops the store or when it is killed; the machine loses power
    only between two processes, and only with [fsync_each_batch]. Whatever has happened in
    such a history, an open store satisfies the invariant, and one that is not open can be
    opened by a process without faults; either way it holds the batches whose write has
    returned, in order, and any other batch entirely or not at all. *)
Theorem history_admitted t s :
  history config t s →
  match s with
  | Running w => ∃ L, Inv w L unclaimed ∧ admits t (view L)
  | Stopped o => ∀ thread, ∃ w o' m,
      open_store config (new_process [] thread o) = (Ok w, o') ∧ reads w m ∧ admits t m
  end.
Proof.
  intros [(L & Ha & Hs) _]%history_sound. destruct s as [w|o]; [by exists L|].
  intros thread. destruct (reopen config thread o L Hs Hvalid) as (w & o' & E & Hi & Hf).
  exists w, o', (view L). split_and!; [done|by eapply reads_view|done].
Qed.
End invariant.
