(* ===== verification/Demo.v ===== *)
(** Demo: concrete stores, for the witnesses and the counterexamples. Each world is the
    result of running the operations of the model on the empty file system, with the
    dependencies of [Instances]. *)
From S2P Require Import Prelude Effects Os Deps Locations LocationTable Config Metadata.
From S2P Require Import ZstdDict Storage State FileMap WritePath ReadPath Gc Recovery Store.
From S2P Require Import Instances Spec FileMapSpec Layout Invariant PowerLoss ReadSpec WriteSpec.
From S2P Require Import InstallSpec BatchSpec ShardSpec RecoverySpec StoreSpec.
From S2P Require Import Gc GcSpec RewriteSpec MaintSpec Refinement.

(** ** The worlds *)

Definition bytes_of (l : list Z) : bytes := byte_of_Z <$> l.

(** Before the first process: an empty disk, and no fault to come. *)
Definition demo_os : os := MkOs fs_empty [] 0 1.

Definition no_world : World :=
  MkWorld demo_os (MkMarble pt_default 0 (MkFileMap cm_default ∅ 0 0) Counters_zero).

Definition world_of (r : outcome World * os) : World :=
  match r with (Ok w, _) => w | _ => no_world end.

(** An open, empty store. *)
Definition demo0 : World := world_of (open_store Config_default demo_os).

Definition batch7 : list (Z * option bytes) := [(7, Some (bytes_of [1; 2; 3]))].

(** After one batch. *)
Definition demo1 : World := (write_batch Config_default batch7 demo0).2.

Definition batch8 : list (Z * option bytes) := [(8, Some (bytes_of [4])); (7, None)].

(** After two, the second of which deletes what the first has written. *)
Definition demo2 : World := (write_batch Config_default batch8 demo1).2.

(** A store that [maintenance] rewrites: of the two objects of the first file, one has been
    overwritten since. *)
Definition config_eager : Config := {|
  path := ""; zstd_compression_level := None; fsync_each_batch := true;
  target_file_size := Z.shiftl 1 28; file_compaction_percent := 66;
  max_object_size := 1024; small_file_cleanup_threshold := 64;
  partition_function := default_partition_function; min_compaction_files := 1;
|}.

Lemma config_eager_typed : Config_typed config_eager.
Proof.
  assert (∀ n, bool_decide (is_u64 n) = true → is_u64 n) as Hu by (intros n; apply bool_decide_eq_true).
  split; [apply Hu; vm_compute; reflexivity|simpl; lia|apply Hu; vm_compute; reflexivity..|].
  intros i n. simpl. unfold default_partition_function. repeat case_match; lia.
Qed.

Definition batch78 : list (Z * option bytes) :=
  [(7, Some (bytes_of [1; 2; 3])); (8, Some (bytes_of [4]))].
Definition batch7' : list (Z * option bytes) := [(7, Some (bytes_of [5; 6]))].

Definition demo3 : World :=
  (write_batch config_eager batch7' (write_batch config_eager batch78 demo0).2).2.

(** The same store, with faults to come. *)
Definition with_faults (faults : list fault) (w : World) : World :=
  set_os (MkOs (os_fs (w_os w)) faults (os_tmp_counter (w_os w)) (os_thread (w_os w))) w.

(** The [n]-th system call from now fails with [errno]. *)
Definition fail_at (n : nat) (errno : Z) : list fault :=
  replicate n NoFault ++ [Fault (OsError errno) 0].

(** ** Their invariants *)

Lemma demo0_inv : Inv demo0 [] unclaimed ∧ view [] = ∅ ∧ os_faults (w_os demo0) = [].
Proof.
  destruct (reopen Config_default 1 demo_os []) as (w & o & E & Hi & Hf); [apply disk_ok_empty|done|].
  change (new_process [] 1 demo_os) with demo_os in E.
  assert (demo0 = w) as -> by (unfold demo0; by rewrite E). split; [done|]. by split.
Qed.

Lemma w_table_with_faults faults w : w_table (with_faults faults w) = w_table w.
Proof. done. Qed.

Lemma inv_with_faults faults w L claimed : Inv w L claimed → Inv (with_faults faults w) L claimed.
Proof. intros Hi. eapply inv_ext; [exact Hi|done..|exact (inv_fams _ _ _ Hi)]. Qed.

Lemma batch_fits_demo w batch :
  bool_decide (Forall (λ e : Z * option bytes, is_u64 e.1) batch) = true →
  (next_file_lsn (w_fm w) + batch_room batch + 1 <? 2 ^ 62) = true →
  (os_tmp_counter (w_os w) + 1 <? two64) = true →
  batch_fits w batch.
Proof. intros ?%bool_decide_eq_true ??. split; [done|lia..]. Qed.

Lemma demo_step config w batch L :
  Inv w L unclaimed → batch_fits w batch → (write_batch config batch w).1 = Ok () →
  ∃ L', Inv (write_batch config batch w).2 L' unclaimed ∧ vals L' = batch_map batch ∪ vals L.
Proof.
  intros Hi Hfit Hok. pose proof (wp_write_batch config w L batch Hi Hfit) as Hw.
  unfold wp in Hw. destruct (write_batch config batch w) as [r w']. simpl in *. subst r.
  destruct Hw as (L' & ? & ? & _). eauto.
Qed.

Lemma demo0_fits : batch_fits demo0 batch7.
Proof. apply batch_fits_demo; vm_compute; reflexivity. Qed.

Lemma demo1_inv : ∃ L, Inv demo1 L unclaimed ∧ vals L = batch_map batch7 ∪ ∅.
Proof.
  destruct demo0_inv as (Hi & Hv & _).
  destruct (demo_step Config_default demo0 batch7 [] Hi demo0_fits) as (L & ? & HL).
  { vm_compute. reflexivity. }
  by exists L.
Qed.

Lemma demo1_view L : vals L = batch_map batch7 ∪ ∅ → view L = spec_write batch7 ∅.
Proof. intros E. exact (view_write batch7 [] L E). Qed.

Lemma demo1_fits : batch_fits demo1 batch8.
Proof. apply batch_fits_demo; vm_compute; reflexivity. Qed.

Lemma demo2_inv : ∃ L, Inv demo2 L unclaimed ∧ vals L = batch_map batch8 ∪ (batch_map batch7 ∪ ∅).
Proof.
  destruct demo1_inv as (L & Hi & Hv).
  destruct (demo_step Config_default demo1 batch8 L Hi demo1_fits) as (L' & ? & HL).
  { vm_compute. reflexivity. }
  exists L'. by rewrite HL, Hv.
Qed.

Lemma demo3_inv : ∃ L, Inv demo3 L unclaimed ∧ vals L = batch_map batch7' ∪ (batch_map batch78 ∪ ∅).
Proof.
  destruct demo0_inv as (Hi & _ & _).
  destruct (demo_step config_eager demo0 batch78 [] Hi) as (L & Hi' & Ev).
  { apply batch_fits_demo; vm_compute; reflexivity. }
  { vm_compute. reflexivity. }
  destruct (demo_step config_eager _ batch7' L Hi') as (L' & ? & Ev').
  { apply batch_fits_demo; vm_compute; reflexivity. }
  { vm_compute. reflexivity. }
  exists L'. rewrite Ev', Ev. by split.
Qed.

(** ** Checking that a store fits [maintenance] *)

Definition maintain_fits_check (config : Config) (w : World) (V : gmap Z (option bytes)) : bool :=
  let room := batch_room (map_to_list V) + Z.of_nat (size V) in
  (next_file_lsn (w_fm w) + 3 * room <? 2 ^ 62)
  && (os_tmp_counter (w_os w) + 3 * Z.of_nat (size V) <? two64)
  && forallb (λ e : Z * option bytes,
       match e.2 with Some v => len v <=? max_object_size config | None => true end) (map_to_list V)
  && forallb (λ e : Z * bytes, len e.2 <? max_object_size config) (map_to_list (fs_inodes (os_fs (w_os w)))).

Lemma maintain_fits_check_sound config w L V :
  Inv w L unclaimed → vals L = V → maintain_fits_check config w V = true →
  maintenance_fits w L ∧ ∀ e, ¬ gc_refuses config L e.
Proof.
  intros Hi <-. unfold maintain_fits_check. rewrite !andb_true_iff. intros [[[??] Hv] Hino].
  rewrite forallb_forall in Hv, Hino. split; [by split; unfold rewrite_room; lia|].
  intros e [(_ & f & Hf & oid & st & Hin & Hsz)|(_ & oid & v & Hl & raw & -> & Hsz)].
  - pose proof (dk_content _ _ (inv_disk _ _ _ Hi) f Hf) as Hc.
    apply elem_of_map_to_list, list_elem_of_In, Hino in Hc. simpl in Hc.
    apply list_elem_of_split in Hin as (a & b & E).
    unfold lf_content, lf_data in Hc. rewrite E, encode_objects_app, encode_objects_cons in Hc.
    rewrite !length_app, !Nat2Z.inj_add in Hc.
    pose proof (len_encode_object oid st). simpl in *. unfold HEADER_LEN in *. lia.
  - apply elem_of_map_to_list, list_elem_of_In, Hv in Hl. simpl in Hl. lia.
Qed.

(** ** Checking that a program fits by running it *)

Definition batch_fits_check (config : Config) (w : World) (batch : list (Z * option bytes)) : bool :=
  bool_decide (Forall (λ e : Z * option bytes, is_u64 e.1) batch)
  && (next_file_lsn (w_fm w) + batch_room batch + 1 <? 2 ^ 62)
  && (os_tmp_counter (w_os w) + 1 <? two64)
  && forallb (λ e : Z * option bytes,
       match e.2 with Some v => len v <=? max_object_size config | None => true end) batch.

Lemma batch_fits_check_sound config w batch :
  batch_fits_check config w batch = true → batch_fits w batch ∧ ¬ batch_oversize config batch.
Proof.
  unfold batch_fits_check. rewrite !andb_true_iff. intros [[[??]?] Hb].
  split; [by apply batch_fits_demo|]. intros (oid & v & Hin & raw & -> & Hsz).
  rewrite forallb_forall in Hb. apply list_elem_of_In in Hin. apply Hb in Hin. simpl in Hin. lia.
Qed.

Fixpoint run_fits_check (config : Config) (w : World) (ops : list op) : bool :=
  match ops with
  | [] => true
  | o :: ops =>
      match o with
      | WriteBatch batch => batch_fits_check config w batch
      | Maintain => false
      | _ => true
      end &&
      match run_op config w o with
      | Some (_, w') => run_fits_check config w' ops
      | None => true
      end
  end.

Lemma run_fits_check_sound config w ops :
  run_fits_check config w ops = true → run_fits config w ops.
Proof.
  revert w. induction ops as [|o ops IH]; intros w; simpl; [done|]. intros [Ho Hops]%andb_true_iff.
  split.
  - destruct o; simpl; [by apply batch_fits_check_sound|done..].
  - destruct (run_op config w o) as [[e w']|]; auto.
Qed.
