(* ===== verification/Failures.v ===== *)
(** Failures: what the store does where it does not do what it should, as runs of the
    operations on concrete stores, with a system call that fails at a chosen point. They
    are evidence for single cases. What holds in general is in [BatchSpec]
    ([failed_batch_tables]), [ResultSpec] ([maintenance_counts],
    [maintenance_rejects_limit]) and [SyncSpec] ([sync_all_after_open]). *)
From S2P Require Import Prelude Effects Os Deps Locations LocationTable Config Metadata.
From S2P Require Import ZstdDict Storage State FileMap WritePath ReadPath Gc Recovery Store.
From S2P Require Import Instances Spec PowerLoss ShardSpec Demo ObjectStore Bench MarbleStore.

Definition result {A} (r : outcome A * World) : outcome A := r.1.
Definition after {A} (r : outcome A * World) : World := r.2.

(** ** A failing rename *)

(** [demo1] holds object 7. The rename of the next batch, which writes the new object 1,
    fails with errno 5. *)
Definition torn : outcome () * World :=
  write_batch Config_default [(1, Some (bytes_of [9]))] (with_faults (fail_at 6 5) demo1).

Definition rewritten : outcome () * World :=
  write_batch Config_default [(1, Some (bytes_of [5]))] (after torn).

Definition maintained_after : outcome Z * World := maintenance Config_default (after rewritten).

Definition reopened : World :=
  world_of (open_store Config_default (new_process [] 1 (w_os (after maintained_after)))).

(** [undo_install] restores only objects that were there before. When the rename of a batch
    fails, an object the batch has created keeps its location although the file is gone:
    reading it fails. Writing it again decrements the live count of whatever file comes
    next, here the only file of object 7, and [maintenance] then deletes that file:
    reading object 7, which no batch has touched, panics, and after reopening the object
    is lost. *)
Example failed_rename_loses_data :
  result torn = Err (OsError 5) ∧
  result (read 1 (after torn)) = Err UnexpectedEof ∧
  result (read 7 (after torn)) = Ok (Some (bytes_of [1; 2; 3])) ∧
  result rewritten = Ok () ∧
  result maintained_after = Ok 0 ∧
  result (read 7 (after maintained_after)) = Panic ∧
  result (read 7 reopened) = Ok None.
Proof. vm_compute. repeat split. Qed.

(** ** A failing [open] *)

(** Two files: [demo1] and another batch. *)
Definition two_files : os := w_os (write_batch Config_default [(8, Some (bytes_of [4]))] demo1).2.

(** The second file cannot be opened: errno 24, too many open files. *)
Definition failed_open : outcome World * os := open_store Config_default (new_process (fail_at 16 24) 1 two_files).

Definition opened_after : World := world_of (open_store Config_default (new_process [] 1 failed_open.2)).

(** When [open] fails after it has recovered a file, the map it has built is dropped
    while every live count is still zero, and dropping an empty file deletes it: the
    object of the first file is lost although nothing was wrong with it. *)
Example failed_open_deletes_files :
  result (read 7 (world_of (open_store Config_default (new_process [] 1 two_files)))) = Ok (Some (bytes_of [1; 2; 3])) ∧
  (if failed_open.1 is Err e then Some e else None) = Some (OsError 24) ∧
  size (fs_dir (os_fs failed_open.2)) = pred (size (fs_dir (os_fs two_files))) ∧
  result (read 7 opened_after) = Ok None.
Proof. vm_compute. repeat split. Qed.

(** ** The size limit *)

(** An object of exactly [max_object_size] bytes in a file that is worth rewriting. *)
Definition at_limit : outcome () * World :=
  write_batch config_eager
    [(7, Some (replicate (Z.to_nat (max_object_size config_eager)) (byte_of_Z 3))); (8, Some (bytes_of [1]))] demo0.

Definition overwritten : outcome () * World :=
  write_batch config_eager [(8, Some (bytes_of [1]))] (after at_limit).

(** [write_batch] accepts an object of exactly [max_object_size] bytes, and [maintenance]
    takes it for corrupt: the limits of the two differ by one. *)
Example limits_disagree :
  result at_limit = Ok () ∧ result overwritten = Ok () ∧
  result (maintenance config_eager (after overwritten)) = Err InvalidData.
Proof. vm_compute. repeat split. Qed.

(** ** Syncing a recovered store *)

(** [demo1] after its process was killed and another one has opened it, [sync_all] there,
    and what a third one finds after a power loss. *)
Definition recovered1 : World :=
  world_of (open_store Config_default (new_process [] 1 (w_os demo1))).

Definition synced1 : outcome () * World := sync_all recovered1.

Definition lost1 : fs := lose 0 (os_fs (w_os synced1.2)).

Definition found_again : World :=
  world_of (open_store Config_default (new_process [] 1 (set_fs lost1 (w_os synced1.2)))).

(** Recovery takes every file it finds for synced, so [sync_all] does not sync the directory
    in which a process has written them that was killed before it could; it returns [Ok],
    and a power loss takes the object away. *)
Example sync_all_misses_recovered :
  result (read 7 recovered1) = Ok (Some (bytes_of [1; 2; 3])) ∧
  result synced1 = Ok () ∧
  power_loss (os_fs (w_os synced1.2)) lost1 ∧
  result (read 7 found_again) = Ok None.
Proof.
  split; [vm_compute; reflexivity|]. split; [vm_compute; reflexivity|].
  split; [apply lose_power_loss; vm_compute; reflexivity|vm_compute; reflexivity].
Qed.

(** ** A reader and the collector *)

(** The location of object 8 of [demo3], which [maintenance] is going to move. *)
Definition location8 : option DiskLocation.t := load (w_table demo3) 8.

Definition collected : outcome Z * World := maintenance config_eager demo3.

(** A store with one file and one object, which is then superseded. *)
Definition location7 : option DiskLocation.t := load (w_table demo1) 7.

Definition superseded : World := (write_batch config_eager batch7' demo1).2.

Definition pruned : outcome Z * World := maintenance config_eager superseded.

(** A reader that has loaded a location and continues after [maintenance] has moved
    the object, or deleted its old file, reads the wrong file: a present object gives an
    error, or, when no older file is left, the process aborts. Nothing keeps the file of
    a loaded location in the map until the reader has found it. *)
Example reader_races_maintenance :
  result collected = Ok 1 ∧
  result (read_located 8 location8 demo3) = Ok (Some (bytes_of [4])) ∧
  result (read_located 8 location8 (after collected)) = Err UnexpectedEof ∧
  result (read 8 (after collected)) = Ok (Some (bytes_of [4])) ∧
  result pruned = Ok 0 ∧
  result (read_located 7 location7 superseded) = Ok (Some (bytes_of [1; 2; 3])) ∧
  result (read_located 7 location7 (after pruned)) = Panic ∧
  result (read 7 (after pruned)) = Ok (Some (bytes_of [5; 6])).
Proof. vm_compute. repeat split. Qed.

(** ** A failing writer and one that has overtaken it *)

(** [write_batch] up to the installation of the objects: what is left to do then. *)
Definition begin_write (objects : gmap Z (option bytes)) : M World (string * File * WriteState * DiskLocation.t * Installed) :=
  n ← io (tmp_counter_fetch_add 1);
  let tmp_path := tmp_file_name n in
  '(file, st, dict_bytes_opt, decompressor) ← write_data Config_default objects tmp_path;
  file_2 ← io (try_clone file);
  let rels := new_relative_locations st in
  '(base, claims) ← fm (FileMap.insert file (written_bytes st) (Z.of_nat (size rels)) NEW_WRITE_GENERATION
                          false Config_default decompressor);
  installed ← foldM (install_object ∅ base) (MkInstalled [] [] 0) (iter_order rels);
  mret (tmp_path, file_2, st, base, installed).

(** ... and the rest of it. *)
Definition end_write (objects : gmap Z (option bytes)) (begun : string * File * WriteState * DiskLocation.t * Installed)
    : M World () :=
  let '(tmp_path, file_2, st, base, installed) := begun in
  finally
    (write_trailer_and_rename Config_default objects NEW_WRITE_GENERATION tmp_path file_2 st None base
       (new_relative_locations st) installed)
    (fm (drop_claims [base])).

Definition first_objects : gmap Z (option bytes) := batch_map [(1, Some (bytes_of [9]))].
Definition second_objects : gmap Z (option bytes) := batch_map [(1, Some (bytes_of [5; 5]))].

(** Both writers install object 1, the first one before the second; then the rename of the
    first fails with errno 5, and the second goes on. *)
Definition end_both (first second : string * File * WriteState * DiskLocation.t * Installed) (w : World)
    : (outcome () * outcome ()) * World :=
  let '(r1, w1) := end_write first_objects first (with_faults (fail_at 3 5) w) in
  let '(r2, w2) := end_write second_objects second w1 in
  ((r1, r2), w2).

Definition overtaken : (outcome () * outcome ()) * World :=
  match (first ← begin_write first_objects; second ← begin_write second_objects; mret (first, second)) demo1 with
  | (Ok (first, second), w) => end_both first second w
  | (_, w) => ((Panic, Panic), w)
  end.

Definition maintained_overtaken : outcome Z * World := maintenance Config_default overtaken.2.

Definition reopened_overtaken : World :=
  world_of (open_store Config_default (new_process [] 1 (w_os (after maintained_overtaken)))).

(** A writer whose rename fails deletes its file. Another writer, which has meanwhile
    replaced an object of it, still has to account for the location it has replaced, and
    takes the object from the live count of whatever file comes next: here the only file
    of object 7. Both have kept their promises, object 1 included; but [maintenance] now
    deletes the file of object 7: reading it panics, and after reopening it is lost,
    although no batch has touched it. *)
Example failed_writer_harms_third_object :
  overtaken.1 = (Err (OsError 5), Ok ()) ∧
  result (read 1 overtaken.2) = Ok (Some (bytes_of [5; 5])) ∧
  result (read 7 overtaken.2) = Ok (Some (bytes_of [1; 2; 3])) ∧
  result maintained_overtaken = Ok 0 ∧
  result (read 7 (after maintained_overtaken)) = Panic ∧
  result (read 7 reopened_overtaken) = Ok None.
Proof. vm_compute. repeat split. Qed.

(** ** Small files in different shards *)

(** Small files are squished together as soon as there are two, but objects with odd and
    even identifiers are kept in different files. *)
Definition config_scattered : Config := {|
  path := ""; zstd_compression_level := None; fsync_each_batch := false;
  target_file_size := Z.shiftl 1 28; file_compaction_percent := 66;
  max_object_size := 1024; small_file_cleanup_threshold := 2;
  partition_function := λ object_id _, object_id mod 2; min_compaction_files := 2;
|}.

(** Two objects, one in each shard. *)
Definition scattered_store : World :=
  (write_batch config_scattered [(8, Some (bytes_of [4]))] (write_batch config_scattered batch7' demo0).2).2.

(** [n] runs of [maintenance]: what they return, and the store they leave. *)
Fixpoint rounds (n : nat) (w : World) : list (outcome Z) * World :=
  match n with
  | O => ([], w)
  | S n => let (r, w) := maintenance config_scattered w in let (rs, w) := rounds n w in (r :: rs, w)
  end.

(** Where at least [small_file_cleanup_threshold] small files belong to different shards,
    cleaning them up cannot make them fewer: every run of [maintenance] takes the same
    objects from the same number of files and writes them to as many, with nothing dead
    in any of them, and a loop that waits for it to return zero, as the one in [bench.rs]
    does, goes on and on. *)
Example maintenance_does_not_settle :
  (rounds 8 scattered_store).1 = replicate 8 (Ok 2) ∧
  len (cm_iter (fams (w_fm (rounds 1 scattered_store).2))) = 2 ∧
  len (cm_iter (fams (w_fm (rounds 8 scattered_store).2))) = 2 ∧
  next_file_lsn (w_fm (rounds 1 scattered_store).2) < next_file_lsn (w_fm (rounds 8 scattered_store).2) ∧
  result (bench_finish (H := marble_store config_scattered) 8 scattered_store) = Ok false.
Proof. vm_compute. repeat split. Qed.
