(* ===== verification/ClientDemo.v ===== *)
(** ClientDemo: concrete clients, for the witnesses: an encoding for the key-value store, a
    source of choices for the model test, and both of them on the store of [Demo]. *)
From S2P Require Import Prelude Effects Os Deps Config State Store Instances Spec Invariant PowerLoss.
From S2P Require Import WritePath StoreSpec Refinement Demo ObjectStore Kv FuzzModel KvSpec FuzzSpec MarbleStore.

(** ** An encoding with the round trips of [BincodeLaws] *)

#[export] Instance index_eq_dec : EqDecision Index.
Proof. solve_decision. Defined.
#[export] Instance page_eq_dec : EqDecision Page.
Proof. solve_decision. Defined.

#[export] Instance index_countable : Countable Index.
Proof.
  by apply (inj_countable' (λ i, (pages i, max_pid i)) (λ p, MkIndex p.1 p.2)); intros [].
Defined.
#[export] Instance page_countable : Countable Page.
Proof.
  by apply (inj_countable' (λ p, (hi p, lo p, kvs p)) (λ p, MkPage p.1.1 p.1.2 p.2)); intros [].
Defined.

Fixpoint bytes_of_positive (p : positive) : bytes :=
  match p with
  | xH => []
  | xO p => x00 :: bytes_of_positive p
  | xI p => x01 :: bytes_of_positive p
  end.

Fixpoint positive_of_bytes (bs : bytes) : positive :=
  match bs with
  | [] => xH
  | x00 :: bs => xO (positive_of_bytes bs)
  | _ :: bs => xI (positive_of_bytes bs)
  end.

Lemma positive_of_bytes_of p : positive_of_bytes (bytes_of_positive p) = p.
Proof. induction p; simpl; congruence. Qed.

#[export] Instance demo_bincode : Bincode := {
  serialize_index i := Some (bytes_of_positive (encode i));
  deserialize_index data := decode (positive_of_bytes data);
  serialize_page p := Some (bytes_of_positive (encode p));
  deserialize_page data := decode (positive_of_bytes data);
}.

#[export] Instance demo_bincode_laws : BincodeLaws.
Proof. split; intros x _; eexists; (split; [done|]); simpl; by rewrite positive_of_bytes_of, decode_encode. Defined.

(** ** Checking that a program of the key-value store fits by running it *)

Section kv.
Context (config : Config).
#[local] Instance kv_store : ObjectStore World os := marble_store config.

Definition page_typed_check (p : Page) : bool :=
  match hi p with Some h => len h <=? isize_max | None => true end
  && (len (lo p) <=? isize_max) && (Z.of_nat (size (kvs p)) <=? isize_max)
  && forallb (λ e : bytes * bytes, (len e.1 <=? isize_max) && (len e.2 <=? isize_max)) (map_to_list (kvs p)).

Lemma page_typed_check_sound p : page_typed_check p = true → page_typed p.
Proof.
  unfold page_typed_check. rewrite !andb_true_iff, forallb_forall. intros [[[Hh Hl] Hs] Hk].
  split; unfold vec_typed; [destruct (hi p); [lia|done]|lia|lia|].
  intros k v Hkv%elem_of_map_to_list%list_elem_of_In%Hk. simpl in Hkv. lia.
Qed.

(** The mutations checked here do not make [mutate] call [maintenance]. *)
Definition mutate_fits_check (kv : Kv World) (key : bytes) (value : option bytes) : bool :=
  match range_next_back key (pages (index kv)) with
  | Some (_, pid) =>
      match read_leaf pid kv with
      | (Ok page, kv') =>
          page_typed_check (mutate_leaf key value page) &&
          match serialize_page (mutate_leaf key value page) with
          | Some data =>
              batch_fits_check config (heap kv') [(pid, Some data)] &&
              match store_write_batch [(pid, Some data)] (heap kv') with
              | (Ok _, w') => match store_stats w' with (Ok (l, d), _) => d <=? l | _ => true end
              | _ => true
              end
          | None => true
          end
      | _ => true
      end
  | None => true
  end.

Definition recover_fits_check (o : os) : bool :=
  match store_open o with
  | (Ok w, _) =>
      match serialize_page genesis_page, serialize_index genesis_index with
      | Some data, Some idata => batch_fits_check config w (iter_order (leaf_batch 3 data idata))
      | _, _ => true
      end
  | _ => true
  end.

Definition kv_op_fits_check (kv : Kv World) (op : kv_op) : bool :=
  match op with
  | KvGet _ => true
  | KvSet key value => mutate_fits_check kv key (Some value)
  | KvRemove key => mutate_fits_check kv key None
  | KvRestart => match store_drop (heap kv) with (Ok _, w') => recover_fits_check (store_os w') | _ => true end
  end.

Fixpoint run_kv_fits_check (kv : Kv World) (ops : list kv_op) : bool :=
  match ops with
  | [] => true
  | op :: ops =>
      kv_op_fits_check kv op &&
      match run_kv_op op kv with
      | (Ok _, kv') => run_kv_fits_check kv' ops
      | _ => true
      end
  end.

Context (Hvalid : validate config = inl ()) (Htyped : Config_typed config).
#[local] Instance kv_store_laws : ObjectStoreLaws World os := marble_store_laws config Hvalid Htyped.

Lemma mutate_fits_check_sound kv key value :
  mutate_fits_check kv key value = true → mutate_fits kv key value.
Proof.
  unfold mutate_fits_check. intros Hc lo pid page kv' Er Erun. rewrite Er, Erun in Hc.
  apply andb_true_iff in Hc as [Ht Hc]. split; [by apply page_typed_check_sound|].
  intros data Es. rewrite Es in Hc. apply andb_true_iff in Hc as [Hb Hc].
  split; [by apply batch_fits_check_sound|]. intros w' l d Ew Est Hlt. rewrite Ew, Est in Hc. lia.
Qed.

Lemma recover_fits_check_sound o : recover_fits_check o = true → recover_fits o.
Proof.
  unfold recover_fits_check. intros Hc w o' data idata Eo Es Eis. rewrite Eo, Es, Eis in Hc.
  by apply batch_fits_check_sound.
Qed.

Lemma run_kv_fits_check_sound kv ops : run_kv_fits_check kv ops = true → run_kv_fits kv ops.
Proof.
  revert kv. induction ops as [|op ops IH]; intros kv; [done|].
  cbn [run_kv_fits_check run_kv_fits]. intros [Hop Hops]%andb_true_iff. split.
  - destruct op; simpl in *; [done|by apply mutate_fits_check_sound..|].
    intros w' Ed. rewrite Ed in Hop. by apply recover_fits_check_sound.
  - intros a kv' Erun. rewrite Erun in Hops. by apply IH.
Qed.
End kv.

(** ** The worlds *)

Lemma config_default_typed : Config_typed Config_default.
Proof.
  assert (∀ n, bool_decide (is_u64 n) = true → is_u64 n) as Hu by (intros n; apply bool_decide_eq_true).
  split; [apply Hu; vm_compute; reflexivity|simpl; lia|apply Hu; vm_compute; reflexivity..|].
  intros i n. simpl. unfold default_partition_function. repeat case_match; lia.
Qed.

#[export] Instance demo_store : ObjectStore World os := marble_store Config_default.
#[export] Instance demo_store_laws : ObjectStoreLaws World os :=
  marble_store_laws Config_default eq_refl config_default_typed.

(** A key-value store without pairs. *)
Definition kv_demo : Kv World :=
  match recover demo_os with (Ok kv, _) => kv | _ => MkKv no_world Index_default end.

Lemma demo_os_left : kv_left demo_os ∅.
Proof. exists ∅. split; [|by left]. exists []. split; [apply disk_ok_empty|done]. Qed.

Lemma demo_os_ready : ready demo_os ∧ calm demo_os ∧ recover_fits demo_os.
Proof.
  split_and!; [done|done|]. apply (recover_fits_check_sound Config_default). vm_compute. reflexivity.
Qed.

Lemma kv_demo_holds : kv_holds kv_demo ∅ ∧ kv_calm kv_demo.
Proof.
  destruct demo_os_ready as (Hr & Hc & Hf). pose proof (recover_left demo_os ∅ demo_os_left Hr Hf) as Hk.
  unfold kv_demo. destruct (recover demo_os) as [[kv| | |] o']; [|by destruct Hk..].
  destruct Hk as (Hk & -> & Hc'). split; [done|by apply Hc'].
Qed.

(** ** Choices from a list; a choice out of range is an error *)

#[export] Instance demo_unstructured : Unstructured (list Z) := {
  int_in_range low high u :=
    match u with
    | n :: u => if (low <=? n) && (n <=? high) then (Ok n, u) else (Err Other, u)
    | [] => (Err Other, [])
    end;
  arbitrary_bool u := match u with n :: u => (Ok (n =? 1), u) | [] => (Err Other, []) end;
  arbitrary_i32 u :=
    match u with
    | n :: u => if (- 2 ^ 31 <=? n) && (n <? 2 ^ 31) then (Ok n, u) else (Err Other, u)
    | [] => (Err Other, [])
    end;
  u_bytes n u := if n <? 0 then (Err Other, u) else (Ok (replicate (Z.to_nat n) x00), u);
}.

#[export] Instance demo_unstructured_laws : UnstructuredLaws (list Z).
Proof.
  split.
  - intros low high [|n u] Hle; unfold wp; simpl; [done|].
    destruct (Z.leb_spec low n), (Z.leb_spec n high); simpl; lia || done.
  - by intros [|n u].
  - intros [|n u]; unfold wp; cbn [arbitrary_i32 demo_unstructured]; [done|].
    destruct (Z.leb_spec (- 2 ^ 31) n), (Z.ltb_spec n (2 ^ 31)); simpl; lia || done.
  - intros n u Hn. unfold wp. simpl. destruct (Z.ltb_spec n 0); [lia|]. rewrite length_replicate. lia.
Defined.
