(* ===== verification/ClientWitnesses.v ===== *)
(** ClientWitnesses: the theorems about the clients at concrete inputs. *)
From S2P Require Import Prelude Effects Os Deps Config State Store Instances Spec Invariant PowerLoss.
From S2P Require Import WritePath ReadPath Gc Layout ReadSpec WriteSpec BatchSpec ShardSpec StoreSpec FrameSpec RewriteSpec MaintSpec Refinement Demo.
From S2P Require Import ObjectStore Kv FuzzModel KvSpec FuzzSpec MarbleStore ClientDemo Reachable.

Definition yo : bytes := [x79; x6f].
Definition hi_ : bytes := [x68; x69].

Lemma pid_for_key_greatest_witness :
  ∃ lo, pages (index kv_demo) !! lo = Some 3 ∧ bytes_le lo yo = true ∧
    ∀ lo' pid', pages (index kv_demo) !! lo' = Some pid' → bytes_le lo' yo = true → bytes_le lo' lo = true.
Proof.
  assert (range_next_back yo (pages (index kv_demo)) = Some ([], 3)) as Er by (vm_compute; reflexivity).
  assert (pid_for_key yo kv_demo = (Ok 3, kv_demo)) as E.
  { unfold pid_for_key, gets, unwrap, mbind, M_bind, mret, M_ret. rewrite Er. reflexivity. }
  destruct (pid_for_key_greatest kv_demo yo (Ok 3) kv_demo E) as [_ Hr]. exact Hr.
Defined.

Lemma kv_mutation_atomic_witness :
  ∃ K'', (K'' = ∅ ∨ K'' = partial_alter (λ _, Some hi_) yo ∅) ∧
    ∃ kv'' o, recover (store_reboot (store_os (heap (mutate yo (Some hi_) kv_demo).2))) = (Ok kv'', o)
              ∧ kv_holds kv'' K''.
Proof.
  destruct kv_demo_holds as [Hk Hc].
  assert (mutate_fits kv_demo yo (Some hi_)) as Hfit.
  { apply (mutate_fits_check_sound Config_default eq_refl config_default_typed). vm_compute. reflexivity. }
  assert (recover_fits_check Config_default
    (store_reboot (store_os (heap (mutate yo (Some hi_) kv_demo).2))) = true) as Hr by (vm_compute; reflexivity).
  destruct (mutate yo (Some hi_) kv_demo) as [r kv'] eqn:E.
  destruct (kv_mutation_atomic kv_demo ∅ yo (Some hi_) r kv' Hk Hfit E) as (_ & K'' & HK & _ & Hrec).
  exists K''. split; [exact HK|]. apply Hrec. exact (recover_fits_check_sound Config_default eq_refl config_default_typed _ Hr).
Defined.

Definition kv_demo_ops : list kv_op :=
  [KvSet yo hi_; KvGet yo; KvRestart; KvGet yo; KvRemove yo; KvGet yo].

Lemma kv_refines_map_witness :
  ∃ kv', run_kv kv_demo_ops kv_demo = (Ok (spec_kv ∅ kv_demo_ops), kv').
Proof.
  destruct kv_demo_holds as [Hk Hc].
  apply (kv_refines_map kv_demo ∅ kv_demo_ops Hk Hc).
  apply (run_kv_fits_check_sound Config_default eq_refl config_default_typed). vm_compute. reflexivity.
Defined.

Lemma kv_main_succeeds_witness : kv_main demo_os = Ok ().
Proof.
  destruct demo_os_ready as (Hr & Hc & Hf).
  apply (kv_main_succeeds demo_os ∅ demo_os_left Hr Hc Hf). intros kv o' E.
  assert (kv = kv_demo) as -> by (unfold kv_demo; rewrite E; reflexivity).
  apply (run_kv_fits_check_sound Config_default eq_refl config_default_typed). vm_compute. reflexivity.
Defined.

Lemma arbitrary_arguments_witness :
  wp (Config_arbitrary "0") (λ c _, validate c = inl () ∧ Config_typed c) (λ _ _, False) (λ _, False) [1; 7; 66].
Proof. exact (proj1 (arbitrary_arguments "0" [1; 7; 66])). Defined.

(** ** The model test *)

Section fuzz.
#[local] Instance fuzz_store : ObjectStore World os := marble_store config_eager.

(** What a batch leaves, in terms of the files: the reads that follow it change nothing. *)
Lemma fuzz_batch_inv w L model batch model' w' :
  Inv w L unclaimed → batch_fits w (iter_order batch) →
  run_fuzz_op model (FuzzWriteBatch batch) w = (Ok model', w') →
  ∃ L', Inv w' L' unclaimed ∧ vals L' = batch_map (iter_order batch) ∪ vals L.
Proof.
  intros Hi Hfit Hrun. set (I := λ w', ∃ L', Inv w' L' unclaimed ∧ vals L' = batch_map (iter_order batch) ∪ vals L).
  assert (wlp (run_fuzz_op model (FuzzWriteBatch batch)) (λ _, I) (λ _ _, True) w) as Hw.
  { apply wlp_bind, wlp_bind. pose proof (wp_write_batch config_eager w L (iter_order batch) Hi Hfit) as Hw.
    change (store_write_batch (iter_order batch)) with (write_batch config_eager (iter_order batch)).
    unfold wp in Hw. unfold wlp at 1, unwrap_result.
    destruct (write_batch config_eager (iter_order batch) w) as [[[]|e| |] w1]; [|done..].
    destruct Hw as (L1 & Hi1 & Ev1 & _). change (wlp (forM (btree_iter
      (foldl (λ m e, <[e.1:=e.2]> m) model (iter_order batch))) check_object;;
      mret (foldl (λ m e, <[e.1:=e.2]> m) model (iter_order batch))) (λ _, I) (λ _ _, True) w1).
    eapply wlp_mono; [apply (keeps_bind I); [|intros; apply keeps_ret|]|done|done].
    - apply keeps_forM. intros [pid expected]. unfold check_object. apply keeps_bind; [|intros; apply keeps_assert].
      intros w2 (L2 & Hi2 & Ev2). pose proof (wp_read w2 L2 unclaimed pid Hi2) as Hr.
      change (store_read pid) with (read pid). unfold wp in Hr. unfold wlp, unwrap_result.
      destruct (read pid w2) as [[v|e| |] w3]; [|done..]. exists L2. naive_solver.
    - exists L1. by split. }
  unfold wlp in Hw. by rewrite Hrun in Hw.
Qed.

Definition fuzz_batch : gmap Z (option bytes) := <[8 := None]> (<[7 := Some (bytes_of [1; 2; 3])]> ∅).

Definition fuzz_ops : list fuzz_op := [FuzzWriteBatch fuzz_batch; FuzzGc; FuzzRestart].

Definition fuzz_demo0 : World := world_of (open_store config_eager demo_os).

Definition fuzz_demo1 : World := (run_fuzz_op ∅ (FuzzWriteBatch fuzz_batch) fuzz_demo0).2.

Lemma fuzz_demo0_inv : Inv fuzz_demo0 [] unclaimed.
Proof.
  destruct (reopen config_eager 1 demo_os []) as (w & o & E & Hi & _); [apply disk_ok_empty|done|].
  change (new_process [] 1 demo_os) with demo_os in E.
  assert (fuzz_demo0 = w) as -> by (unfold fuzz_demo0; by rewrite E). exact Hi.
Qed.

Lemma fuzz_demo0_fits : marble_fits_batch config_eager fuzz_demo0 (iter_order fuzz_batch).
Proof. apply batch_fits_check_sound. vm_compute. reflexivity. Qed.

Lemma fuzz_demo1_fits L :
  Inv fuzz_demo1 L unclaimed → vals L = batch_map (iter_order fuzz_batch) ∪ ∅ →
  maintain_fits config_eager fuzz_demo1.
Proof.
  intros Hi Ev. exists L. split; [done|].
  apply (maintain_fits_check_sound config_eager fuzz_demo1 L (batch_map (iter_order fuzz_batch) ∪ ∅)); [done..|].
  vm_compute. reflexivity.
Qed.

(** Removing the directory fails if a system call is going to fail. *)
Definition remove_demo (o : os) : outcome () :=
  match os_faults o with [] => Ok () | _ => Err Other end.

Lemma fuzz_target_passes_witness : fuzz_target remove_demo fuzz_ops demo_os = Ok ().
Proof.
  assert (marble_left demo_os ∅) as Hl.
  { exists []. split; [apply disk_ok_empty|reflexivity]. }
  apply (fuzz_target_passes (H1 := marble_store_laws config_eager eq_refl config_eager_typed) remove_demo demo_os ∅ fuzz_ops Hl);
    [done|reflexivity|by intros o' m' _ Hc; unfold remove_demo; rewrite Hc|].
  intros w o' E. assert (w = fuzz_demo0) as -> by (unfold fuzz_demo0; change (open_store config_eager demo_os = (Ok w, o')) in E; by rewrite E).
  split; [exact fuzz_demo0_fits|]. intros model1 w1 E1.
  change (run_fuzz_op ∅ (FuzzWriteBatch fuzz_batch) fuzz_demo0 = (Ok model1, w1)) in E1.
  assert (w1 = fuzz_demo1) as -> by (unfold fuzz_demo1; by rewrite E1).
  destruct (fuzz_batch_inv fuzz_demo0 [] ∅ fuzz_batch _ _ fuzz_demo0_inv (proj1 fuzz_demo0_fits) E1) as (L1 & Hi1 & Ev1).
  split; [exact (fuzz_demo1_fits L1 Hi1 Ev1)|]. intros model2 w2 _. split; [exact I|]. intros model3 w3 _. exact I.
Defined.
End fuzz.

(** ** Histories *)

Lemma demo1_history : history Config_default [(batch7, true)] (Running demo1).
Proof.
  assert (∃ o', open_store Config_default (new_process [] 1 demo_os) = (Ok demo0, o')) as [o' Eo].
  { unfold demo0. change (new_process [] 1 demo_os) with demo_os.
    assert (match (open_store Config_default demo_os).1 with Ok _ => true | _ => false end = true) as Hok
      by (vm_compute; reflexivity).
    destruct (open_store Config_default demo_os) as [[w|e| |] o']; [|discriminate Hok..]. by exists o'. }
  assert (match (write_batch Config_default batch7 demo0).1 with Ok _ => true | _ => false end = true) as Hok
    by (vm_compute; reflexivity).
  apply (history_write Config_default [] demo0 batch7 demo1).
  - exact (history_open Config_default [] demo_os [] 1 demo0 o' (history_start Config_default demo_os eq_refl) Eo).
  - exact demo0_fits.
  - unfold demo1. destruct (write_batch Config_default batch7 demo0) as [[[]|e| |] w']; [reflexivity|discriminate Hok..].
Defined.

Lemma history_admitted_witness :
  history Config_default [(batch7, true)] (Running demo1) ∧
  ∃ L, Inv demo1 L unclaimed ∧ admits [(batch7, true)] (view L).
Proof.
  split; [exact demo1_history|].
  exact (history_admitted Config_default eq_refl config_default_typed [(batch7, true)] (Running demo1) demo1_history).
Defined.
