(* ===== verification/BenchWitnesses.v ===== *)
(** BenchWitnesses: the theorems about the load generator and about settling at concrete
    inputs: the store of [Demo], and a store that is nothing but a finite map. *)
From S2P Require Import Prelude Effects Os Deps Config State FileMap Gc Store Instances Spec Layout.
From S2P Require Import Invariant StoreSpec CompactSpec MaintSpec SettleSpec Refinement Demo ShardSpec.
From S2P Require Import ObjectStore Bench MarbleStore BenchSpec.

(** ** A finite map as a store *)

#[local] Instance map_store : ObjectStore AbsStore AbsStore := {
  store_os m := m;
  store_reboot m := m;
  store_open m := (Ok m, m);
  store_read object_id := gets (spec_read object_id);
  store_write_batch batch := modify (spec_write batch);
  store_maintenance := mret 0;
  store_stats := gets (λ m, (Z.of_nat (size m), 0));
  store_drop := mret ();
}.

#[local] Instance map_store_laws : ObjectStoreLaws AbsStore AbsStore.
Proof.
  refine {| holds w m := w = m; left_with o m := o = m; ready _ := True; calm _ := True;
            fits_batch _ _ := True; fits_maintenance _ := True |}; unfold wp; simpl; try naive_solver.
  all: by intros w m ->; eexists.
Defined.

(** ** A generator and a clock *)

#[local] Instance demo_rng : Rng Z := {
  gen_range low high r := if low <? high then (Ok (low + r mod (high - low)), r + 1) else (Panic, r);
  gen_bool num den r := if (num <=? den) && (0 <? den) then (Ok (r mod den <? num), r + 1) else (Panic, r);
}.

#[local] Instance demo_rng_laws : RngLaws Z.
Proof.
  split.
  - intros low high r Hlt. unfold wp. simpl. rewrite (proj2 (Z.ltb_lt _ _)) by done.
    pose proof (Z.mod_pos_bound r (high - low)). lia.
  - intros low high r Hle. simpl. by rewrite (proj2 (Z.ltb_ge _ _)).
  - intros num den r Hle Hpos. unfold wp. simpl.
    rewrite (proj2 (Z.leb_le _ _)), (proj2 (Z.ltb_lt _ _)) by lia. done.
Defined.

Definition clamp (t : Z) : Z := Z.max 0 (Z.min t duration_max).

#[local] Instance demo_clock : Clock Z := λ t, (Ok (clamp (t + 1)), t + 1).

#[local] Instance demo_clock_laws : ClockLaws Z.
Proof.
  refine {| clock := clamp |}; unfold clamp, duration_max; [lia|].
  intros c. unfold wp, now, demo_clock, clamp, duration_max. simpl. lia.
Defined.

Definition demo_thread : Thread AbsStore Z Z := MkThread 0 0 ∅ false.
Definition demo_text : bytes := replicate 70 x61.

Lemma demo_thread_holds : holds_calmly (marble demo_thread) ∅.
Proof. split; [reflexivity|exact I]. Qed.

Lemma demo_writer_fits n (w : AbsStore) : writer_fits demo_text n w.
Proof. revert w. induction n as [|n IH]; intros w; [exact I|]. intros batch _. split; [exact I|]. intros w' _. apply IH. Qed.

Lemma run_writer_writes_witness :
  ∃ t' batches, run_writer demo_text demo_thread = (Ok (), t') ∧ any_writers_done t' = true ∧
    length batches = 16%nat ∧
    marble t' = foldl (λ m batch, spec_write (iter_order batch) m) ∅ batches.
Proof.
  destruct (run_writer_writes demo_text ∅ demo_thread demo_thread_holds eq_refl (demo_writer_fits _ _))
    as (t' & batches & E & Hd & Hl & _ & Hh & _).
  exists t', batches. split; [exact E|]. split; [exact Hd|]. split; [exact Hl|exact Hh].
Defined.

Lemma run_reader_measures_witness :
  (∃ worst best average t', run_reader 3 demo_thread = (Ok (worst, best, average), t') ∧ average ≤ worst) ∧
  (run_reader 0 demo_thread).1 = Panic.
Proof.
  destruct (run_reader_measures 3 ∅ demo_thread demo_thread_holds) as [Hr H0]. split; [|exact H0].
  destruct (Hr eq_refl) as (worst & best & average & t' & E & _ & _ & _ & Hle).
  exists worst, best, average, t'. split; [exact E|exact Hle].
Defined.

Definition demo_schedule : list turn := [WriterTurn 0; MainTurn; WriterTurn 0; WriterTurn 1].

Lemma demo_phase_fits schedule (ph : Phase AbsStore Z Z) : phase_fits demo_text schedule ph.
Proof.
  revert ph. induction schedule as [|a schedule IH]; intros ph; [exact I|].
  split; [intros batch _; exact I|]. split; [exact I|]. intros ph' _. apply IH.
Qed.

Lemma threads_write_batches_witness :
  ∃ ph batches, run_threads demo_text demo_schedule (start_threads 2 Z.of_nat 0 ∅) = (Ok (), ph) ∧
    (length batches + batches_left ph = 32)%nat ∧ ph_marble ph = after_batches ∅ batches.
Proof.
  destruct (threads_write_batches demo_text eq_refl 2 Z.of_nat 0 ∅ ∅ demo_schedule demo_thread_holds
    (demo_phase_fits demo_schedule _)) as [(ph & batches & E & _ & Hl & Hh & _)|(ph & i & _ & Hin & _)].
  - exists ph, batches. split; [exact E|]. split; [exact Hl|exact Hh].
  - exfalso. unfold demo_schedule in Hin. set_solver.
Defined.

(** ** The crate *)

Lemma demo3_few n w' :
  maintenance config_eager demo3 = (Ok n, w') →
  few_files config_eager w'.
Proof.
  intros E. assert (w' = (maintenance config_eager demo3).2) as -> by by rewrite E.
  apply Z.ltb_lt. vm_compute. reflexivity.
Qed.

Lemma demo3_ready :
  ∃ L, Inv demo3 L unclaimed ∧ maintenance_fits demo3 L ∧ maintain_fits config_eager demo3 ∧
    os_faults (w_os demo3) = [].
Proof.
  destruct demo3_inv as (L & Hi & Ev).
  assert (maintain_fits_check config_eager demo3 (batch_map batch7' ∪ (batch_map batch78 ∪ ∅)) = true) as Hc
    by (vm_compute; reflexivity).
  destruct (maintain_fits_check_sound _ _ _ _ Hi Ev Hc) as [Hfit Hno]. exists L.
  split; [exact Hi|]. split; [exact Hfit|]. split; [exact (ex_intro _ L (conj Hi (conj Hfit Hno)))|].
  vm_compute. reflexivity.
Qed.

Lemma maintenance_settles_witness :
  ∃ L' w' w'', maintenance config_eager demo3 = (Ok 1, w') ∧ Inv w' L' unclaimed ∧
    settled config_eager L' ∧ maintenance config_eager w' = (Ok 0, w'') ∧ Inv w'' L' unclaimed.
Proof.
  destruct demo3_ready as (L & Hi & Hfit & _ & Hf).
  assert ((maintenance config_eager demo3).1 = Ok 1) as Ho by (vm_compute; reflexivity).
  destruct (maintenance config_eager demo3) as [r w'] eqn:E. change (r = Ok 1) in Ho. subst r.
  destruct (maintenance_settles config_eager demo3 L 1 w' Hi Hfit eq_refl config_eager_typed Hf E)
    as (L' & Hi' & _ & _ & Hs & Hnext). destruct (Hnext (demo3_few 1 w' E)) as (w'' & E2 & Hi'').
  exists L', w', w''. split; [reflexivity|]. split; [exact Hi'|]. split; [exact Hs|]. split; [exact E2|exact Hi''].
Defined.

Lemma bench_finishes_witness :
  ∃ L' w', bench_finish (H := marble_store config_eager) 2 demo3 = (Ok true, w') ∧ at_rest config_eager L' w' ∧
    spec_read 7 (view L') = Some (bytes_of [5; 6]).
Proof.
  destruct demo3_inv as (L & Hi & Ev). destruct demo3_ready as (_ & _ & _ & Hfit & Hf).
  destruct (bench_finishes config_eager eq_refl config_eager_typed demo3 (view L) 2
    (ex_intro _ L (conj Hi eq_refl)) Hfit Hf demo3_few (le_n 2)) as (w' & L' & E & Hh & Ev').
  exists L', w'. split; [exact E|]. split; [exact Hh|]. rewrite Ev'. unfold view. rewrite Ev. vm_compute. reflexivity.
Defined.
