(* ===== verification/ConcurrencyWitnesses.v ===== *)
(** ConcurrencyWitnesses: the theorems of [InterleavingSpec] and [ConcurrentReads] on a
    concrete process, in which a writer and a collector install the same object. *)
From S2P Require Import Prelude Effects Os Deps Locations LocationTable Config Metadata.
From S2P Require Import ZstdDict Storage State FileMap WritePath ReadPath DebugHistory Interleaving Store.
From S2P Require Import Instances Spec FileMapSpec Layout Invariant ShardSpec InterleavingSpec ConcurrentReads Demo.

(** ** Two writers over the store of one object *)

Definition some_md : Metadata :=
  {| lsn := 0; trailer_offset := 0; present_objects := 2; Metadata.generation := 0; file_size := 0 |}.

Definition rels_a : gmap Z RelativeDiskLocation.t := <[8 := 46]> (<[7 := 0]> ∅).
Definition rels_b : gmap Z RelativeDiskLocation.t := {[7 := 0]}.

Definition insert_a : outcome (Z * list Z) * FileMap :=
  FileMap.insert 10 46 2 0 false Config_default ZstdDict_default (w_fm demo1).

Definition world_a : World := set_file_map insert_a.2 demo1.

Definition insert_b : outcome (Z * list Z) * FileMap :=
  FileMap.insert 11 23 1 1 true Config_default ZstdDict_default (w_fm world_a).

Definition world_b : World := set_file_map insert_b.2 world_a.

Definition base_of (r : outcome (Z * list Z)) : Z := match r with Ok (b, _) => b | _ => 0 end.

Definition writer_a : Writer :=
  MkWriter (base_of insert_a.1) ∅ rels_a some_md "a" (start_phase rels_a).

(** the collector has read the location of object 7 before *)
Definition old_b : gmap Z DiskLocation.t := {[7 := default 0 (load (w_table demo1) 7)]}.

Definition writer_b : Writer :=
  MkWriter (base_of insert_b.1) old_b rels_b some_md "b" (start_phase rels_b).

(** ** Their process *)

(** A store of object 7 alone. *)
Lemma lone_locs w L x :
  Inv w L unclaimed → vals L = {[7 := x]} → locs L = {[7 := default 0 (load (w_table w) 7)]}.
Proof.
  intros Hi Ev. assert (∀ oid, is_Some (locs L !! oid) ↔ oid = 7) as Hdom.
  { intros oid. rewrite locs_vals_dom by by eapply inv_wf. rewrite Ev, lookup_singleton.
    case_decide as E; [split; [done|eauto]|split; [by intros []|congruence]]. }
  apply map_eq. intros oid. rewrite lookup_singleton. case_decide as E.
  - subst oid. destruct (proj2 (Hdom 7) eq_refl) as [l Hl]. rewrite Hl. f_equal. rewrite (inv_load _ _ _ _ Hi).
    by rewrite Hl.
  - apply eq_None_not_Some. rewrite Hdom. congruence.
Qed.

(** What the debug history has seen when such a store has been opened. *)
Definition lone_history (w : World) : DebugHistory :=
  (run_marks (recovery_marks {[7 := default 0 (load (w_table w) 7)]}) DebugHistory_default).2.

Lemma lone_history_run w L x :
  Inv w L unclaimed → vals L = {[7 := x]} →
  run_marks (recovery_marks (locs L)) DebugHistory_default = (Ok (), lone_history w).
Proof.
  intros Hi Ev. rewrite (lone_locs w L x Hi Ev). unfold lone_history.
  by destruct (recovery_marks_run {[7 := default 0 (load (w_table w) 7)]}) as (h & -> & _).
Qed.

Definition history1 : DebugHistory := lone_history demo1.

Definition step_a : outcome Writer * VWorld := writer_step writer_a (world_b, history1).

Definition writer_a1 : Writer := match step_a.1 with Ok wr => wr | _ => writer_a end.

Definition demo_process : system := (step_a.2, [writer_a1; writer_b]).

Lemma joins_a : joins demo1 46 ∅ rels_a.
Proof.
  split; [lia|vm_compute; reflexivity..| |].
  - intros oid rel. unfold rels_a. intros [[_ <-]|[_ [[_ <-]|[_ Hx]]%lookup_insert_Some]]%lookup_insert_Some.
    + exists 23, false. done.
    + exists 0, false. done.
    + by rewrite lookup_empty in Hx.
  - intros oid [x Hx]. by rewrite lookup_empty in Hx.
Qed.

Lemma joins_b : joins world_a 23 old_b rels_b.
Proof.
  split; [lia|vm_compute; reflexivity..| |].
  - intros oid rel. unfold rels_b. intros [_ <-]%lookup_singleton_Some. exists 0, false. done.
  - intros oid. unfold old_b. intros [x [<- _]%lookup_singleton_Some].
    assert (bool_decide (load (w_table world_a) 7 = None) = false) as E by (vm_compute; reflexivity).
    apply bool_decide_eq_false in E. by apply not_eq_None_Some.
Qed.

Lemma insert_ok (r : outcome (Z * list Z) * FileMap) :
  match r.1 with Ok _ => true | _ => false end = true →
  ∃ claims, r = (Ok (base_of r.1, claims), r.2).
Proof. destruct r as [[[b claims]| | |] m]; intros E; try done. by exists claims. Qed.

(** the store before the two writers *)
Definition demo_start : system := ((demo1, history1), []).

Lemma demo_start_of : ∃ L, process_of L demo_start.
Proof.
  destruct demo1_inv as (L & Hi & Ev). exists L. exists demo1, history1.
  split_and!; [done| |done]. apply (lone_history_run demo1 L (Some (bytes_of [1; 2; 3])) Hi).
  rewrite Ev. vm_compute. reflexivity.
Qed.

Lemma demo_process_run : rtc sys_next demo_start demo_process.
Proof.
  destruct (insert_ok insert_a) as [claims_a Ea]; [vm_compute; reflexivity|].
  destruct (insert_ok insert_b) as [claims_b Eb]; [vm_compute; reflexivity|].
  eapply rtc_l; [right; apply (sys_join_writer demo1 history1 [] 10 46 0 false Config_default ZstdDict_default
    ∅ rels_a some_md "a" (base_of insert_a.1) claims_a insert_a.2 joins_a (ltac:(done) : present_objects some_md ≠ 0) Ea)|].
  eapply rtc_l; [right; apply (sys_join_writer world_a history1 _ 11 23 1 true Config_default ZstdDict_default
    old_b rels_b some_md "b" (base_of insert_b.1) claims_b insert_b.2 joins_b (ltac:(done) : present_objects some_md ≠ 0) Eb)|].
  apply rtc_once. left. apply (sys_step_writer (world_b, history1) step_a.2 [writer_a; writer_b] 0 writer_a writer_a1);
    [reflexivity|vm_compute; reflexivity|].
  assert (match step_a.1 with Ok _ => true | _ => false end = true) as Eok by (vm_compute; reflexivity).
  unfold writer_a1. fold step_a. destruct step_a as [[wr| | |] s]; done.
Qed.

Lemma demo_process_of : ∃ L, process_of L demo_process.
Proof.
  destruct demo_start_of as (L & w & h & ? & ? & Hr). exists L, w, h. split_and!; [done..|].
  etrans; [exact Hr|apply demo_process_run].
Qed.

(** * Witnesses *)

Lemma concurrent_writers_accounted_witness : ∃ L, process_of L demo_process ∧ ¬ sys_panics demo_process.
Proof.
  destruct demo_process_of as [L Hp]. exists L. split; [exact Hp|].
  exact (proj1 (concurrent_writers_accounted L demo_process Hp)).
Defined.

Lemma concurrent_writers_terminate_witness :
  ∃ wr' s', sys_step demo_process (s', <[1%nat := wr']> demo_process.2) ∧
    ∀ n sys', nsteps sys_step n demo_process sys' → (n + total_steps_left sys' ≤ 11)%nat.
Proof.
  destruct demo_process_of as [L Hp].
  assert (total_steps_left demo_process = 11%nat) as E by (vm_compute; reflexivity).
  destruct (concurrent_writers_terminate L demo_process Hp) as [Hstep Hbound]. rewrite E in Hbound.
  destruct (Hstep 1%nat writer_b eq_refl eq_refl) as (wr' & s' & Hs).
  exists wr', s'. split; [exact Hs|exact Hbound].
Defined.

(** The code that writes object 7 to an empty store, up to step 2. *)
Definition objects7 : gmap Z (option bytes) := batch_map batch7.

Definition data7 : outcome (File * WriteState * option bytes * ZstdDict) * World :=
  write_data Config_default objects7 "tmp" demo0.

Definition file7 : File := match data7.1 with Ok (f, _, _, _) => f | _ => 0 end.
Definition state7 : WriteState :=
  match data7.1 with Ok (_, st, _, _) => st | _ => MkWriteState (BufWriter_with_capacity 0 0) ∅ 0 0 None end.

Definition insert7 : outcome (Z * list Z) * World :=
  fm (FileMap.insert file7 (written_bytes state7) 1 0 false Config_default ZstdDict_default) data7.2.

Definition finish7 : outcome () * World :=
  finally (install_and_finish Config_default objects7 0 ∅ "tmp" file7 state7 None (base_of insert7.1))
    (fm (drop_claims [base_of insert7.1])) insert7.2.

Lemma writer_steps_are_code_witness :
  ∃ md path wr' w1 h',
    let rels := new_relative_locations state7 in
    let wr := MkWriter (base_of insert7.1) ∅ rels md path (start_phase rels) in
    run_writer (steps_left wr) wr (insert7.2, DebugHistory_default) = (Ok wr', (w1, h')) ∧
    finished wr' = true ∧ abandoned wr' = false ∧ w_table finish7.2 = w_table w1 ∧ w_fm finish7.2 = w_fm w1.
Proof.
  assert (finally (install_and_finish Config_default objects7 0 ∅ "tmp" file7 state7 None (base_of insert7.1))
    (fm (drop_claims [base_of insert7.1])) insert7.2 = (Ok (), finish7.2)) as Erun.
  { fold finish7. assert (finish7.1 = Ok ()) as E by (vm_compute; reflexivity).
    destruct finish7 as [r w]. simpl in E. by subst r. }
  destruct (writer_steps_are_code Config_default objects7 0 ∅ "tmp" file7 state7 None (base_of insert7.1) insert7.2
    DebugHistory_default finish7.2 Erun) as (md & path & Emd & Hsteps).
  exists md, path. cbv zeta in *.
  set (wr := MkWriter (base_of insert7.1) ∅ (new_relative_locations state7) md path
               (start_phase (new_relative_locations state7))) in *.
  assert (match (run_writer (steps_left wr) wr (insert7.2, DebugHistory_default)).1 with
          | Ok wr' => negb (abandoned wr') | _ => false end = true) as Eok by (vm_compute; reflexivity).
  destruct (run_writer (steps_left wr) wr (insert7.2, DebugHistory_default)) as [[wr'| | |] [w1 h']] eqn:E;
    [|discriminate Eok..].
  destruct (Hsteps wr' w1 h' eq_refl) as [Hf Hw]. cbn [fst] in Eok.
  destruct (abandoned wr') eqn:Ea; [discriminate Eok|].
  exists wr', w1, h'. split; [reflexivity|]. split; [exact Hf|]. split; [exact Ea|exact Hw].
Defined.

(** A reader that has loaded the location of object 7 before the writers came. *)
Lemma reads_linearize_witness :
  load (w_table demo_process.1.1) 7 ≠ load (w_table demo_start.1.1) 7 ∧
  (read_located 7 (load (w_table demo_start.1.1) 7) demo_process.1.1).1 = Ok (Some (bytes_of [1; 2; 3])).
Proof.
  split; [apply (bool_decide_unpack _); vm_compute; exact I|].
  destruct demo_start_of as [L Hp].
  destruct (read_located 7 (load (w_table demo_start.1.1) 7) demo_process.1.1) as [r w'] eqn:E.
  destruct (reads_linearize L demo_start demo_process 7 r w' Hp demo_process_run E) as [Er _].
  assert ((read 7 demo_start.1.1).1 = Ok (Some (bytes_of [1; 2; 3]))) as Ev by (vm_compute; reflexivity).
  rewrite Ev in Er. exact Er.
Defined.
