(* ===== verification/DeletionWitnesses.v ===== *)
(** DeletionWitnesses: the theorems of [DeletionsSpec] and [MaintenanceSteps] on a concrete
    process. Its store has an empty file; one call of [maintenance] removes it, while
    another one has claimed the other file, and a collector comes too late for the object it
    has rewritten. *)
From S2P Require Import Prelude Effects Os Deps Locations LocationTable Config Metadata.
From S2P Require Import ZstdDict Storage State FileMap WritePath ReadPath DebugHistory Interleaving Deletions Store.
From S2P Require Import Instances Spec FileMapSpec Layout Invariant ShardSpec InterleavingSpec ConcurrentReads.
From S2P Require Import DeletionsSpec Gc MaintenanceSteps Demo ConcurrencyWitnesses.

(** ** The store *)

(** Object 7 has been written twice; nothing is left in the first file. *)
Definition rewritten7 : World := (write_batch Config_default batch7' demo1).2.

Lemma rewritten7_inv : ∃ L, Inv rewritten7 L unclaimed ∧ vals L = {[7 := Some (bytes_of [5; 6])]}.
Proof.
  destruct demo1_inv as (L & Hi & Ev).
  destruct (demo_step Config_default demo1 batch7' L Hi) as (L' & ? & Ev');
    [apply batch_fits_demo; vm_compute; reflexivity|vm_compute; reflexivity|].
  exists L'. split; [done|]. rewrite Ev', Ev. vm_compute. reflexivity.
Qed.

(** ** The process *)

(** A collector has read the location of object 7 in the first file, and has its file ready. *)
Definition stale : gmap Z DiskLocation.t := {[7 := default 0 (load (w_table demo1) 7)]}.

Definition insert_c : outcome (Z * list Z) * FileMap :=
  FileMap.insert 12 23 1 1 true Config_default ZstdDict_default (w_fm rewritten7).

Definition writer_c : Writer :=
  MkWriter (base_of insert_c.1) stale rels_b some_md "c" (start_phase rels_b).

Definition idle : process := (((rewritten7, lone_history rewritten7), []), []).

Definition joined_c : process :=
  (((set_file_map insert_c.2 rewritten7, lone_history rewritten7), [writer_c]), []).

(** the only writer takes a step *)
Definition step_c (pr : process) : process :=
  match pr.1.2 with
  | [wr] => match writer_step wr pr.1.1 with (Ok wr', s') => ((s', [wr']), pr.2) | _ => pr end
  | _ => pr
  end.

(** something else happens *)
Definition act (m : M VWorld (list Writer * list Pass)) (pr : process) : process :=
  match m pr.1.1 with (Ok (ws, prs), s') => ((s', ws), prs) | _ => pr end.

(** The two files of the store, and the pointers to their records. *)
Definition old_file : Z := default 0 (load (w_table demo1) 7).
Definition old_ptr : Z := default 0 (cm_get (fams (w_fm rewritten7)) old_file).
Definition new_file : Z := default 0 (load (w_table rewritten7) 7).
Definition new_ptr : Z := default 0 (cm_get (fams (w_fm rewritten7)) new_file).

(** Every file is small enough to be rewritten. *)
Definition config_tidy : Config := {|
  path := ""; zstd_compression_level := None; fsync_each_batch := true;
  target_file_size := Z.shiftl 1 28; file_compaction_percent := 66;
  max_object_size := 1024; small_file_cleanup_threshold := 0;
  partition_function := default_partition_function; min_compaction_files := 1;
|}.

Definition nothing : gmap Z (list Z) * list Z := (∅, []).

(** Two calls of [maintenance] begin; the first one has nothing to rewrite. *)
Definition begun : process := act (mret ([writer_c], [Claiming nothing])) joined_c.
Definition both : process := act (mret ([writer_c], [Claiming nothing; Claiming nothing])) begun.
Definition no_rewrite : process := act (mret ([writer_c], [Rewriting []; Claiming nothing])) both.
Definition ready : process := act (mret ([writer_c], [Choosing ([], []); Claiming nothing])) no_rewrite.

(** It chooses the first file to remove it, and the second call the second file to rewrite it. *)
Definition choosing : process :=
  act (x ← prune_choose ([], []) (old_file, old_ptr); mret ([writer_c], [x; Claiming nothing])) ready.
Definition acc_a : list (Z * string) * list Z := match choosing.2 with [Choosing acc; _] => acc | _ => ([], []) end.
Definition claiming : process :=
  act (x ← defrag_choose config_tidy 3 nothing (new_file, new_ptr); mret ([writer_c], [Choosing acc_a; x])) choosing.
Definition acc_b : gmap Z (list Z) * list Z := match claiming.2 with [_; Claiming acc] => acc | _ => nothing end.

(** The collector finds that object 7 is elsewhere, *)
Definition too_late : process := step_c (step_c claiming).
Definition writer_c' : Writer := default writer_c (head too_late.1.2).

(** and both calls have looked at enough files. *)
Definition chosen_all : process := act (mret ([writer_c'], [Removing acc_a.1 acc_a.2; Claiming acc_b])) too_late.
Definition busy : process := act (mret ([writer_c'], [Removing acc_a.1 acc_a.2; Rewriting acc_b.2])) chosen_all.

(** Both files are deleted. *)
Definition removed : process :=
  act (x ← prune_remove acc_a.1 acc_a.2; mret ([writer_c'], [x; Rewriting acc_b.2])) busy.
Definition cleaned : process :=
  act (wr ← abandon "c" writer_c'; mret ([wr], removed.2)) removed.

(** ** It may happen *)

Lemma act_next pr ws prs m :
  pr.1.2 = ws → pr.2 = prs → action ((pr.1.1, ws), prs) m →
  (if (m pr.1.1).1 is Ok _ then true else false) = true → process_next pr (act m pr).
Proof.
  destruct pr as [[s ?] ?]. cbn [fst snd]. intros -> -> Hd. unfold act. cbn [fst snd].
  destruct (m s) as [[[ws' prs']| | |] s'] eqn:E; try done. intros _.
  by eapply process_next_action.
Qed.

Lemma step_c_next pr :
  (if pr.1.2 is [wr] then negb (finished wr) && (if (writer_step wr pr.1.1).1 is Ok _ then true else false)
   else false) = true →
  process_next pr (step_c pr).
Proof.
  destruct pr as [[s [|wr [|]]] prs]; try done. unfold step_c. cbn [fst snd].
  destruct (writer_step wr s) as [[wr'| | |] s'] eqn:E; rewrite ?andb_false_r; try done.
  intros [Hf%negb_true_iff _]%andb_true_iff. apply process_next_writers. left.
  by apply (sys_step_writer s s' [wr] 0 wr wr').
Qed.

Lemma joins_c : joins rewritten7 23 stale rels_b.
Proof.
  split; [lia|vm_compute; reflexivity..| |].
  - intros oid rel. unfold rels_b. intros [_ <-]%lookup_singleton_Some. exists 0, false. done.
  - intros oid. unfold stale. intros [x [<- _]%lookup_singleton_Some].
    assert (bool_decide (load (w_table rewritten7) 7 = None) = false) as E by (vm_compute; reflexivity).
    apply bool_decide_eq_false in E. by apply not_eq_None_Some.
Qed.

Lemma joined_c_next : process_next idle joined_c.
Proof.
  destruct (insert_ok insert_c) as [claims E]; [vm_compute; reflexivity|].
  apply process_next_writers. right. unfold joined_c, writer_c.
  exact (sys_join_writer rewritten7 _ [] 12 23 1 true Config_default ZstdDict_default
    stale rels_b some_md "c" (base_of insert_c.1) claims insert_c.2 joins_c (ltac:(done) : present_objects some_md ≠ 0) E).
Qed.

Lemma ready_run : rtc process_next idle ready.
Proof.
  eapply (rtc_l _ _ joined_c); [apply joined_c_next|].
  eapply (rtc_l _ _ begun); [apply (act_next joined_c [writer_c] []); [reflexivity..|apply (action_start _ [writer_c] [])|reflexivity]|].
  eapply (rtc_l _ _ both); [apply (act_next begun [writer_c] [Claiming nothing]);
    [reflexivity..|apply (action_start _ [writer_c] [Claiming nothing])|reflexivity]|].
  eapply (rtc_l _ _ no_rewrite); [apply (act_next both [writer_c] [Claiming nothing; Claiming nothing]);
    [reflexivity..|apply (action_claimed _ [writer_c] [Claiming nothing; Claiming nothing] 0 nothing eq_refl)|reflexivity]|].
  apply rtc_once. apply (act_next no_rewrite [writer_c] [Rewriting []; Claiming nothing]);
    [reflexivity..|apply (action_rewritten _ [writer_c] [Rewriting []; Claiming nothing] 0 eq_refl)|reflexivity].
Qed.

Lemma claiming_run : rtc process_next ready claiming.
Proof.
  eapply (rtc_l _ _ choosing).
  - apply (act_next ready [writer_c] [Choosing ([], []); Claiming nothing]); [reflexivity..| |vm_compute; reflexivity].
    apply (action_choose _ [writer_c] [Choosing ([], []); Claiming nothing] 0 ([], []) old_file old_ptr eq_refl).
    vm_compute. reflexivity.
  - apply rtc_once.
    apply (act_next choosing [writer_c] [Choosing acc_a; Claiming nothing]); [vm_compute; reflexivity..| |vm_compute; reflexivity].
    apply (action_claim _ [writer_c] [Choosing acc_a; Claiming nothing] 1 config_tidy 3 nothing new_file new_ptr eq_refl).
    vm_compute. reflexivity.
Qed.

Lemma too_late_run : rtc process_next claiming too_late.
Proof.
  eapply rtc_l; [apply step_c_next; vm_compute; reflexivity|].
  apply rtc_once. apply step_c_next. vm_compute. reflexivity.
Qed.

Lemma busy_run : rtc process_next too_late busy.
Proof.
  eapply (rtc_l _ _ chosen_all).
  - apply (act_next too_late [writer_c'] [Choosing acc_a; Claiming acc_b]); [vm_compute; reflexivity..| |vm_compute; reflexivity].
    apply (action_chosen _ [writer_c'] [Choosing acc_a; Claiming acc_b] 0 acc_a eq_refl).
  - apply rtc_once. apply (act_next chosen_all [writer_c'] [Removing acc_a.1 acc_a.2; Claiming acc_b]);
      [vm_compute; reflexivity..| |vm_compute; reflexivity].
    apply (action_claimed _ [writer_c'] [Removing acc_a.1 acc_a.2; Claiming acc_b] 1 acc_b eq_refl).
Qed.

Lemma removed_next : process_next busy removed.
Proof.
  apply (act_next busy [writer_c'] [Removing acc_a.1 acc_a.2; Rewriting acc_b.2]);
    [vm_compute; reflexivity..| |vm_compute; reflexivity].
  apply (action_remove _ [writer_c'] [Removing acc_a.1 acc_a.2; Rewriting acc_b.2] 0 acc_a.1 acc_a.2 eq_refl).
Qed.

Lemma cleaned_next : process_next removed cleaned.
Proof.
  apply (act_next removed [writer_c'] removed.2); [vm_compute; reflexivity..| |vm_compute; reflexivity].
  by apply (action_abandon _ [writer_c'] removed.2 0 writer_c' 1 "c" eq_refl).
Qed.

Lemma busy_in : ∃ L, process_in L busy.
Proof.
  destruct rewritten7_inv as (L & Hi & Ev). exists L, rewritten7, (lone_history rewritten7).
  split_and!; [done|by eapply lone_history_run|].
  etrans; [apply ready_run|]. etrans; [apply claiming_run|].
  etrans; [apply too_late_run|apply busy_run].
Qed.

(** * Witnesses *)

(** A file is about to be removed by a call of [maintenance], and another one by its writer;
    a third one is being rewritten. *)
Lemma deletions_are_safe_witness :
  ∃ L, process_in L busy ∧ to_remove busy.2 = [old_file] ∧ ¬ process_panics busy.
Proof.
  destruct busy_in as [L Hp]. exists L. split; [exact Hp|]. split; [vm_compute; reflexivity|].
  exact (proj1 (deletions_are_safe L busy Hp)).
Defined.

(** A reader that has loaded the location of object 7 before the files go. *)
Lemma reads_survive_deletions_witness :
  ∃ loc, load (w_table busy.1.1.1) 7 = Some loc ∧ fam_at (w_fm cleaned.1.1.1) old_file = None ∧
    (read_located 7 (Some loc) cleaned.1.1.1).1 = Ok (Some (bytes_of [5; 6])).
Proof.
  destruct busy_in as [L Hp]. exists (default 0 (load (w_table busy.1.1.1) 7)).
  split; [vm_compute; reflexivity|]. split; [apply (bool_decide_unpack _); vm_compute; exact I|].
  rewrite (reads_survive_deletions L busy cleaned 7 (default 0 (load (w_table busy.1.1.1) 7)) Hp
    (rtc_l _ _ _ _ removed_next (rtc_once _ _ cleaned_next))); vm_compute; reflexivity.
Defined.

Lemma claims_are_exclusive_witness :
  ∃ L, process_in L busy ∧ held_by_all busy = [base_of insert_c.1; old_file; new_file] ∧ NoDup (held_by_all busy).
Proof.
  destruct busy_in as [L Hp]. exists L. split; [exact Hp|]. split; [vm_compute; reflexivity|].
  exact (proj1 (claims_are_exclusive L busy Hp)).
Defined.

(** A call that rewrites an object. *)
Definition tidied : outcome Z * World := maintenance config_eager demo3.

Lemma maintenance_steps_are_code_witness :
  ∃ claims w1 w2,
    (∀ h ws prs, rtc process_next (((demo3, h), ws), prs) (((w1, h), ws), prs ++ [Rewriting claims])) ∧
    (∀ h ws prs, rtc process_next (((w2, h), ws), prs ++ [Rewriting claims]) (((tidied.2, h), ws), prs ++ [Over])).
Proof.
  assert (maintenance config_eager demo3 = (Ok 1, tidied.2)) as Erun.
  { fold tidied. assert (tidied.1 = Ok 1) as E by (vm_compute; reflexivity).
    destruct tidied as [r w]. simpl in E. by subst r. }
  destruct (maintenance_steps_are_code config_eager demo3 1 tidied.2 Erun) as (ftd & claims & w1 & w2 & H1 & _ & H2).
  exists claims, w1, w2. split; [exact H1|exact H2].
Defined.
