(* ===== verification/Witnesses.v ===== *)
(** Witnesses: every property with hypotheses, at concrete inputs where they hold. *)
From S2P Require Import Prelude Effects Os Deps Locations LocationTable Config Metadata.
From S2P Require Import ZstdDict Storage State FileMap WritePath ReadPath Gc Recovery Store.
From S2P Require Import Instances Spec FileMapSpec Layout Invariant PowerLoss ReadSpec WriteSpec.
From S2P Require Import InstallSpec BatchSpec ShardSpec RecoverySpec StoreSpec Refinement Durability.
From S2P Require Import FrameSpec GcSpec RewriteSpec CountSpec ClaimSpec MaintSpec ResultSpec SyncSpec.
From S2P Require Import Queries Demo.

(** ** Locations and tables *)

Lemma disk_location_new_decodes_witness :
  DiskLocation.new 5 true = Some 11 ∧ DiskLocation.lsn 11 = 5 ∧ DiskLocation.is_delete 11 = true.
Proof.
  assert (is_u64 5) as Hu by (unfold is_u64, two64; lia).
  pose proof (disk_location_new_decodes 5 true Hu) as (_ & Hl & Hd & _). by split_and!.
Defined.

Lemma to_absolute_adds_base_witness :
  RelativeDiskLocation.is_delete 47 = true ∧
  RelativeDiskLocation.to_absolute 47 100 = DiskLocation.new 123 true.
Proof.
  apply (to_absolute_adds_base 23 true 100 47); [unfold is_u64, two64; lia..|lia|reflexivity].
Defined.

Lemma new_writes_above_gc_witness :
  ∃ new_write gc,
    RelativeDiskLocation.to_absolute 40 (Z.lor 3 NEW_WRITE_BATCH_BIT) = Some new_write ∧
    RelativeDiskLocation.to_absolute 81 1000 = Some gc ∧ gc < new_write.
Proof.
  destruct (new_writes_above_gc 3 1000 20 40 false true) as (a & b & ? & ? & ? & _); [lia..|].
  by exists a, b.
Defined.

Lemma fetch_max_behaviour_witness :
  let '(r, t') := fetch_max (pt_write pt_default 7 12) 7 20 in
  r = Some (inl (Some 12)) ∧ load t' 7 = Some 20 ∧ ∀ j, j ≠ 7 → load t' j = None.
Proof.
  assert (is_u64 (pt_read (pt_write pt_default 7 12) 7)) as Hu by by split.
  pose proof (fetch_max_behaviour (pt_write pt_default 7 12) 7 20 Hu ltac:(lia)) as H.
  destruct (fetch_max (pt_write pt_default 7 12) 7 20) as [r t']. destruct H as (Hr & Hl & Ho).
  split_and!; [by rewrite Hr|by rewrite Hl|]. intros j Hj. rewrite (Ho j Hj).
  unfold load. rewrite pt_read_write, decide_False by done. reflexivity.
Defined.

Lemma installs_commute_witness :
  load (install_all pt_default [(7, 30); (8, 5); (7, 20)]) 7
  = load (install_all pt_default [(7, 20); (7, 30); (8, 5)]) 7.
Proof.
  apply (installs_commute pt_default [(7, 30); (8, 5); (7, 20)] [(7, 20); (7, 30); (8, 5)]).
  symmetry. apply (Permutation_cons_append [(7, 30); (8, 5)] (7, 20)).
Defined.

Lemma gc_never_hides_a_write_witness :
  let t := pt_write pt_default 7 10 in
  load (cas (fetch_max t 7 30).2 7 10 20).2 7 = Some 30.
Proof.
  apply (gc_never_hides_a_write (pt_write pt_default 7 10) 7 10 20 30); [reflexivity|lia..].
Defined.

(** ** Configuration and names *)

Lemma default_partition_ranges_witness :
  default_partition_function 3 5000 = 1.
Proof.
  assert (is_u64 5000) as Hu by (unfold is_u64, two64; lia).
  destruct (default_partition_ranges 3 5000 Hu) as (_ & H1 & _). apply H1. lia.
Defined.

Definition demo_metadata : Metadata := MkMetadata 0x4000000000000001 100 2 0 136.

Lemma demo_metadata_typed : Metadata_typed demo_metadata.
Proof. split; unfold demo_metadata, is_u64, two64; simpl; lia. Defined.

Lemma file_name_roundtrip_witness :
  parse (to_file_name demo_metadata) 136 = Some demo_metadata.
Proof. apply (file_name_roundtrip demo_metadata demo_metadata demo_metadata_typed demo_metadata_typed). Defined.

Lemma file_names_distinguished_witness :
  ends_with (tmp_file_name 3) "tmp" = true ∧ ends_with (to_file_name demo_metadata) "tmp" = false.
Proof.
  assert (0 ≤ generation demo_metadata) as Hg by (simpl; lia).
  destruct (file_names_distinguished demo_metadata 3 0 Hg) as (? & ? & _). by split.
Defined.

(** ** Dictionaries and trailers *)

Definition demo_dict : bytes := bytes_of [1; 1; 2; 3; 5].

Lemma decompress_stored_witness :
  ∃ z', decompress (S := unit) (from_dict_bytes demo_dict) 1
          (to_le_bytes 8 2 ++ dict_tag demo_dict ++ bytes_of [8; 9]) tt = (Ok (bytes_of [8; 9], z'), tt).
Proof.
  destruct (decompress_stored (from_dict_bytes demo_dict) (Some demo_dict) 1 (bytes_of [8; 9])
              (to_le_bytes 8 2 ++ dict_tag demo_dict ++ bytes_of [8; 9]) tt) as (z' & E & _).
  - apply zstd_dict_for_bytes.
  - destruct (@cctx_load_ok _ deps_zstd_laws demo_dict) as (c & [= <-] & Hc).
    exists demo_dict, 3, demo_dict. split_and!; [exact Hc|vm_compute; discriminate|reflexivity].
  - by exists z'.
Defined.

Definition demo_samples : gmap Z (option bytes) :=
  list_to_map ((λ i, (i, Some (replicate 40 (byte_of_Z i)))) <$> seqZ 0 12).


Definition demo_locations : gmap Z RelativeDiskLocation.t := {[7 := 40; 8 := 81]}.

Lemma trailer_roundtrip_witness :
  ∃ entries,
    read_trailer_from_buf (S := unit) (trailer_buf (iter_order demo_locations) (Some demo_dict)) tt
    = (Ok (entries, trailer_dict (Some demo_dict)), tt) ∧ list_to_map entries = demo_locations.
Proof.
  destruct (trailer_roundtrip demo_locations (Some demo_dict) tt) as (es & E & Hm & _).
  - apply map_Forall_insert_2; [|apply map_Forall_singleton]; split; unfold is_u64, two64; lia.
  - vm_compute. reflexivity.
  - vm_compute. reflexivity.
  - exists es. split; [exact E|exact Hm].
Defined.

Lemma read_trailer_rejects_witness :
  read_trailer_from_buf (S := unit) (bytes_of [1; 2; 3]) tt = (Err InvalidData, tt).
Proof. apply (read_trailer_rejects (bytes_of [1; 2; 3]) tt). left. reflexivity. Defined.

(** ** The store *)

Lemma read_returns_value_witness :
  ∃ w', read 7 demo1 = (Ok (Some (bytes_of [1; 2; 3])), w') ∧ os_fs (w_os w') = os_fs (w_os demo1).
Proof.
  destruct demo1_inv as (L & Hi & Hv).
  assert ((read 7 demo1).1 = Ok (Some (bytes_of [1; 2; 3]))) as Ho by (vm_compute; reflexivity).
  destruct (read 7 demo1) as [o w'] eqn:E. exists w'. change (o = Ok (Some (bytes_of [1; 2; 3]))) in Ho.
  destruct (read_returns_value demo1 L unclaimed 7 o w' Hi E) as [Hfs _].
  rewrite Ho. split; [reflexivity|exact Hfs].
Defined.

Lemma write_batch_atomic_witness :
  ∃ w', write_batch Config_default batch8 demo1 = (Ok (), w') ∧
    ∀ thread, ∃ w'' o'',
      open_store Config_default (new_process [] thread (w_os w')) = (Ok w'', o'') ∧
      reads w'' (spec_write batch8 (spec_write batch7 ∅)).
Proof.
  destruct demo1_inv as (L & Hi & Hv).
  assert ((write_batch Config_default batch8 demo1).1 = Ok ()) as Ho by (vm_compute; reflexivity).
  destruct (write_batch Config_default batch8 demo1) as [r w'] eqn:E. exists w'.
  change (r = Ok ()) in Ho. split; [by rewrite Ho|]. intros thread.
  destruct (write_batch_atomic Config_default demo1 L batch8 r w' Hi demo1_fits eq_refl E) as [_ Hopen].
  destruct (Hopen thread) as (w'' & o'' & m & E' & Hr & _ & Hm). exists w'', o''.
  rewrite <- (demo1_view L Hv), <- (Hm Ho). split; [exact E'|exact Hr].
Defined.

Lemma open_recovers_witness :
  ∃ w o', open_store Config_default demo_os = (Ok w, o') ∧ reads w ∅.
Proof.
  assert (match (open_store Config_default demo_os).1 with Ok _ => True | _ => False end) as Hok
    by (vm_compute; exact I).
  destruct (open_store Config_default demo_os) as [r o'] eqn:E.
  destruct r as [w| | |]; [|destruct Hok..]. exists w, o'. split; [reflexivity|].
  assert (0 ≤ os_tmp_counter demo_os) as Hc by (simpl; lia).
  destruct (open_recovers Config_default demo_os [] (Ok w) o' disk_ok_empty Hc eq_refl E)
    as (_ & _ & _ & Hr). exact (Hr eq_refl).
Defined.

Definition demo_ops : list op :=
  [Maintain; Read 7; Read 8; Restart; WriteBatch batch8; Read 7; Restart; Read 8; Read 9].

Lemma store_refines_map_witness :
  ∃ w', run config_eager demo3 demo_ops
        = Some ([Done; Value (Some (bytes_of [5; 6])); Value (Some (bytes_of [4])); Done; Done;
                 Value None; Done; Value (Some (bytes_of [4])); Value None], w').
Proof.
  destruct demo3_inv as (L & Hi & Ev).
  assert (maintain_fits_check config_eager demo3 (batch_map batch7' ∪ (batch_map batch78 ∪ ∅)) = true) as Hc
    by (vm_compute; reflexivity).
  assert (run_fits config_eager demo3 demo_ops) as Hfits.
  { split; [exists L; split; [exact Hi|exact (maintain_fits_check_sound _ _ _ _ Hi Ev Hc)]|].
    destruct (run_op config_eager demo3 Maintain) as [[e w]|] eqn:E; [|exact I].
    apply run_fits_check_sound. change w with (e, w).2.
    assert (e = Done ∧ w = (maintenance config_eager demo3).2) as [_ ->].
    { unfold run_op in E. destruct (maintenance config_eager demo3) as [[] w2]; try discriminate E.
      injection E as <- <-. by split. }
    vm_compute. reflexivity. }
  assert (os_faults (w_os demo3) = []) as Hf by (vm_compute; reflexivity).
  destruct (store_refines_map config_eager demo_ops demo3 L eq_refl config_eager_typed Hi Hf Hfits) as [w' E].
  exists w'. rewrite E. unfold view. rewrite Ev. do 2 f_equal.
Defined.

Lemma maintenance_preserves_witness :
  ∃ L L' w', Inv demo3 L unclaimed ∧ Inv w' L' unclaimed ∧ view L' = view L ∧
    maintenance config_eager demo3 = (Ok 1, w') ∧
    ∀ f, f ∈ L' → live (locs L') f ≠ 0.
Proof.
  destruct demo3_inv as (L & Hi & Ev).
  assert (maintain_fits_check config_eager demo3 (batch_map batch7' ∪ (batch_map batch78 ∪ ∅)) = true) as Hc
    by (vm_compute; reflexivity).
  assert ((maintenance config_eager demo3).1 = Ok 1) as Ho by (vm_compute; reflexivity).
  assert (os_faults (w_os demo3) = []) as Hf by (vm_compute; reflexivity).
  destruct (maintain_fits_check_sound _ _ _ _ Hi Ev Hc) as [Hfit _].
  destruct (maintenance config_eager demo3) as [r w'] eqn:E. change (r = Ok 1) in Ho. subst r.
  destruct (maintenance_preserves config_eager demo3 L (Ok 1) w' Hi Hfit eq_refl config_eager_typed E)
    as [Hok _].
  destruct (Hok Hf) as (L' & Hi' & Hv & Hl). exists L, L', w'.
  split; [exact Hi|]. split; [exact Hi'|]. split; [exact Hv|]. split; [reflexivity|exact Hl].
Defined.

Lemma object_ids_partition_witness :
  ∃ L free allocated, Inv demo2 L unclaimed ∧
    free_object_ids demo2 = (Ok (9, free), demo2) ∧ allocated_object_ids demo2 = (Ok allocated, demo2) ∧
    (∀ oid, oid ∈ allocated ↔ mentioned L oid).
Proof.
  destruct demo2_inv as (L & Hi & _).
  assert (wrap64 (max_object_id (w_marble demo2) + 1) = 9) as Hm by (vm_compute; reflexivity).
  destruct (object_ids_partition demo2 L unclaimed Hi) as (free & allocated & E1 & E2 & _ & Ha).
  rewrite Hm in E1. exists L, free, allocated. repeat (split; [assumption|]). exact Ha.
Defined.


(** With [fsync_each_batch] off the file of the batch is not marked as synced. *)
Lemma sync_all_syncs_witness :
  ∃ L w', Inv demo1 L unclaimed ∧ sync_all demo1 = (Ok (), w') ∧ Inv w' L unclaimed ∧
    (∀ f, f ∈ L → marked_synced w' f) ∧
    ∀ f, f ∈ L → ¬ marked_synced demo1 f → durable w' f ∧ durable_dir w'.
Proof.
  destruct demo1_inv as (L & Hi & _).
  assert ((sync_all demo1).1 = Ok ()) as Ho by (vm_compute; reflexivity).
  destruct (sync_all demo1) as [r w'] eqn:E. change (r = Ok ()) in Ho. subst r. exists L, w'.
  split; [exact Hi|]. split; [reflexivity|]. exact (sync_all_syncs demo1 L unclaimed (Ok ()) w' Hi E).
Defined.

Lemma sharding_partitions_witness :
  concat (map_to_list <$> sharding_iter (shard_objects config_eager 1 ∅ batch78)) ≡ₚ batch78.
Proof.
  assert (0 ≤ target_file_size config_eager) as Ht by (vm_compute; discriminate).
  assert (NoDup batch78.*1) as Hn by (apply (bool_decide_unpack _); vm_compute; exact I).
  exact (proj1 (sharding_partitions config_eager 1 ∅ batch78 Ht Hn)).
Defined.

(** The products of [files_to_defrag] fit for a store of two objects. *)
Lemma two_objects_products config w L :
  Inv w L unclaimed → size (vals L) = 2%nat → min_compaction_files config = 1 → products_fit config L.
Proof.
  intros Hi E2 Emin f Hf. pose proof (inv_wf _ _ _ Hi) as Hwf.
  pose proof (wf_alloc f (proj1 (Forall_forall _ _) Hwf f Hf)).
  assert (live (locs L) f ≤ 2) as Hl.
  { assert (dom (locs L) = dom (vals L)) as Ed.
    { apply set_eq. intros oid. rewrite !elem_of_dom. by apply locs_vals_dom. }
    rewrite <- size_dom, <- Ed, size_dom in E2. unfold live.
    pose proof (map_subseteq_size _ _ (map_filter_subseteq (λ kv : Z * Z, in_file f kv.2) (locs L))). lia. }
  rewrite Emin. split; u64_lia.
Qed.

(** [demo3] has two files. Of the two objects of the first one is live, that of the second
    is: only the first is worth rewriting. *)
Lemma files_to_defrag_selects_witness :
  ∃ L f, Inv demo3 L unclaimed ∧ f ∈ L ∧ lf_location f = 9223372036854775810 ∧ worth_rewriting config_eager L f ∧
    ∀ g, g ∈ L → worth_rewriting config_eager L g → g = f.
Proof.
  destruct demo3_inv as (L & Hi & Ev).
  destruct (files_to_defrag_selects config_eager demo3 L Hi) as (ftd & claims & m' & E & _ & Hk & _ & _ & _);
    [vm_compute; discriminate|apply (two_objects_products _ demo3); [exact Hi|rewrite Ev|]; vm_compute; reflexivity|].
  assert (outcome_map snd (files_to_defrag config_eager (w_fm demo3)).1 = Ok [9223372036854775810]) as Hc
    by (vm_compute; reflexivity).
  rewrite E in Hc. injection Hc as Hc. clear E. rewrite Hc in Hk.
  destruct (proj1 (Hk 9223372036854775810)) as (f & Hf & El & Hw); [by left|].
  exists L, f. split; [exact Hi|]. split; [exact Hf|]. split; [by symmetry|]. split; [exact Hw|].
  intros g Hg Hwg. apply (lf_location_inj L); [by eapply inv_sorted|by eapply inv_wf|done|done|].
  rewrite <- El. apply list_elem_of_singleton, Hk. by exists g.
Defined.

(** A limit of three bytes, and a store whose first file holds object 7, which has three
    bytes, and object 8, which has been written again since. *)
Definition config_tight : Config := {|
  path := ""; zstd_compression_level := None; fsync_each_batch := true;
  target_file_size := Z.shiftl 1 28; file_compaction_percent := 66;
  max_object_size := 3; small_file_cleanup_threshold := 64;
  partition_function := default_partition_function; min_compaction_files := 1;
|}.

Definition tight : World :=
  (write_batch config_tight [(8, Some (bytes_of [9]))] (write_batch config_tight batch78 demo0).2).2.

Lemma config_tight_typed : Config_typed config_tight.
Proof. by destruct config_eager_typed; split. Qed.

Lemma tight_inv : ∃ L, Inv tight L unclaimed ∧
  vals L = batch_map [(8, Some (bytes_of [9]))] ∪ (batch_map batch78 ∪ ∅).
Proof.
  destruct demo0_inv as (Hi & _ & _).
  destruct (demo_step config_tight demo0 batch78 [] Hi) as (L & Hi' & Ev).
  { apply batch_fits_demo; vm_compute; reflexivity. }
  { vm_compute. reflexivity. }
  destruct (demo_step config_tight _ [(8, Some (bytes_of [9]))] L Hi') as (L' & ? & Ev').
  { apply batch_fits_demo; vm_compute; reflexivity. }
  { vm_compute. reflexivity. }
  exists L'. rewrite Ev', Ev. by split.
Qed.

(** What the records of its files say: there are no dictionaries, and of the two objects of
    the first file one is live. *)
Definition tight_fam (fam : FileAndMetadata) : bool :=
  (if decompressor (fam_zstd_dict fam) is None then true else false) &&
  (if fam_location fam =? 9223372036854775810 then
     (fam_live_objects fam =? 1) && (if fam_metadata fam is Some md then present_objects md =? 2 else false)
   else fam_location fam =? 9223372036854775900).

Lemma tight_fams L f :
  Inv tight L unclaimed → f ∈ L → ∃ fam, tight_fam fam = true ∧ fam_ok (locs L) unclaimed f fam.
Proof.
  intros Hi Hf. destruct (fs_fam _ _ _ (inv_fams _ _ _ Hi) f Hf) as (fam & (p & _ & Hp)%fam_at_Some & Hfam).
  assert (forallb (λ e : Z * FileAndMetadata, tight_fam e.2) (map_to_list (arcs (w_fm tight))) = true) as Hall
    by (vm_compute; reflexivity).
  rewrite forallb_forall in Hall. specialize (Hall (p, fam)).
  rewrite <- list_elem_of_In, elem_of_map_to_list in Hall. exists fam. split; [by apply Hall|done].
Qed.

(** Object 7 is in the first file, which is worth rewriting. *)
Lemma tight_file L :
  Inv tight L unclaimed → vals L = batch_map [(8, Some (bytes_of [9]))] ∪ (batch_map batch78 ∪ ∅) →
  ∃ f stored, f ∈ L ∧ worth_rewriting config_tight L f ∧
    (7, stored) ∈ lf_objs f ∧ max_object_size config_tight ≤ len stored.
Proof.
  intros Hi Ev. pose proof (inv_wf _ _ _ Hi) as Hwf.
  assert (load (w_table tight) 7 = Some (2 * 4611686018427387905)) as Hl by (vm_compute; reflexivity).
  rewrite (inv_load _ _ _ _ Hi) in Hl. destruct (locs_owner L 7 _ Hwf Hl) as (f & Hf & Ha & Hv).
  pose proof (proj1 (Forall_forall _ _) Hwf f Hf) as Hff.
  destruct (abs_object f 7 _ Hff Ha) as (a & st & b & raw & E & _ & Hst & Hraw).
  assert (vals L !! 7 = Some (Some (bytes_of [1; 2; 3]))) as E7 by (rewrite Ev; vm_compute; reflexivity).
  rewrite Hv, Hraw in E7. injection E7 as ->.
  destruct (tight_fams L f Hi Hf) as (fam & [Hd Hc]%andb_true_iff & [_ Eloc _ Emd Elive _ _ Hdict]).
  unfold zstd_dict_for in Hdict. destruct (decompressor (fam_zstd_dict fam)); [discriminate Hd|].
  destruct (lf_dict f); [destruct Hdict|]. simpl in Hst. subst st.
  apply (lf_abs_in_file f 7 _ Hff) in Ha as [Hle _]. rewrite Eloc, Emd, Elive in Hc.
  destruct (Z.eqb_spec (lf_location f) 9223372036854775810) as [_|_];
    [|apply Z.eqb_eq in Hc; unfold lf_location in Hc; lia].
  apply andb_true_iff in Hc as [Elive1 Epresent]. apply Z.eqb_eq in Elive1, Epresent.
  exists f, (bytes_of [1; 2; 3]). split; [exact Hf|]. split; [|split; [rewrite E; set_solver|vm_compute; discriminate]].
  split; [lia|]. left. rewrite Elive1, Epresent. vm_compute. reflexivity.
Qed.

Lemma maintenance_rejects_limit_witness :
  (write_batch config_tight batch78 demo0).1 = Ok () ∧
  ∃ w', maintenance config_tight tight = (Err InvalidData, w').
Proof.
  split; [vm_compute; reflexivity|].
  destruct tight_inv as (L & Hi & Ev). destruct (tight_file L Hi Ev) as (f & st & Hf & Hw & Hst & Hlen).
  assert (size (vals L) = 2%nat) as E2 by (rewrite Ev; vm_compute; reflexivity).
  assert (os_faults (w_os tight) = []) as Hfaults by (vm_compute; reflexivity).
  destruct (maintenance_rejects_limit config_tight tight L Hi) with (f := f) as (w' & E & _).
  - exact config_tight_typed.
  - split; [unfold rewrite_room|]; rewrite Ev; vm_compute; reflexivity.
  - exact (two_objects_products config_tight tight L Hi E2 eq_refl).
  - exact Hfaults.
  - intros oid v Hv (raw & -> & Hbig). rewrite Ev in Hv.
    assert (map_Forall (λ _ v, len (default [] v) ≤ 3)
      (batch_map [(8, Some (bytes_of [9]))] ∪ (batch_map batch78 ∪ ∅) : gmap Z (option bytes))) as Hall
      by (apply (bool_decide_unpack _); vm_compute; exact I).
    specialize (Hall oid _ Hv). simpl in Hall, Hbig. lia.
  - exact Hf.
  - split; [exact Hw|]. assert (f ∈ rewritten_with config_tight L f) as Hin.
    { apply list_elem_of_filter. split; [split; [exact Hw|reflexivity]|exact Hf]. }
    clear -Hin. destruct (rewritten_with config_tight L f) as [|g gs]; [apply not_elem_of_nil in Hin as []|].
    change (1 ≤ Z.of_nat (length (g :: gs))). rewrite length_cons. lia.
  - exists 7, st. exact (conj Hst Hlen).
  - exists w'. exact E.
Defined.

(** The one file of [demo3] that is rewritten has one live object. *)
Lemma maintenance_counts_witness :
  ∃ L w' f, Inv demo3 L unclaimed ∧ maintenance config_eager demo3 = (Ok 1, w') ∧
    f ∈ L ∧ is_rewritten config_eager L f ∧ total (live (locs L)) (filter (is_rewritten config_eager L) L) = 1.
Proof.
  destruct demo3_inv as (L & Hi & Ev).
  assert (size (vals L) = 2%nat) as E2 by (rewrite Ev; vm_compute; reflexivity).
  assert (maintenance_fits demo3 L) as Hfit by (split; [unfold rewrite_room|]; rewrite Ev; vm_compute; reflexivity).
  assert ((maintenance config_eager demo3).1 = Ok 1) as Ho by (vm_compute; reflexivity).
  destruct (maintenance config_eager demo3) as [r w'] eqn:E. change (r = Ok 1) in Ho. subst r.
  destruct (maintenance_counts config_eager demo3 L Hi config_eager_typed Hfit
    (two_objects_products config_eager demo3 L Hi E2 eq_refl) 1 w' E) as [Hn _].
  destruct (filter (is_rewritten config_eager L) L) as [|f fs] eqn:Ef; [discriminate Hn|].
  assert (f ∈ filter (is_rewritten config_eager L) L) as Hin by (rewrite Ef; apply list_elem_of_here).
  apply list_elem_of_filter in Hin as [Hr Hf]. exists L, w', f.
  split; [exact Hi|]. split; [reflexivity|]. split; [exact Hf|]. split; [exact Hr|]. rewrite Ef. exact (eq_sym Hn).
Defined.

(** A batch that replaces object 7 of [demo1] and creates object 5; its rename fails with
    errno 5. *)
Definition torn_objects : gmap Z (option bytes) := {[ 5 := Some (bytes_of [9]); 7 := Some (bytes_of [8]) ]}.

Definition torn_batch : outcome () * World :=
  write_batch_inner Config_default torn_objects 0 ∅ (with_faults (fail_at 6 5) demo1).

Lemma torn_pre : ∃ L, Inv demo1 L unclaimed ∧ batch_pre (with_faults (fail_at 6 5) demo1) L unclaimed torn_objects 0 ∅.
Proof.
  destruct demo1_inv as (L & Hi & _). exists L. split; [exact Hi|]. split.
  - by apply inv_with_faults.
  - done.
  - intros oid Ho. assert (oid = 5 ∨ oid = 7) as [-> | ->].
    { revert Ho. unfold torn_objects. rewrite lookup_insert_is_Some, lookup_singleton_is_Some. naive_solver. }
    + split; [by apply (bool_decide_unpack _); vm_compute|vm_compute; discriminate].
    + split; [by apply (bool_decide_unpack _); vm_compute|vm_compute; discriminate].
  - lia.
  - vm_compute. reflexivity.
  - vm_compute. reflexivity.
  - by left.
  - done.
Qed.

Lemma failed_batch_tables_witness :
  torn_batch.1 = Err (OsError 5) ∧
  ∃ f, load (w_table torn_batch.2) 7 = load (w_table demo1) 7 ∧ load (w_table demo1) 5 = None ∧
    load (w_table torn_batch.2) 5 = lf_abs f !! 5 ∧ is_Some (lf_abs f !! 5) ∧
    fam_at (w_fm torn_batch.2) (lf_location f) = None.
Proof.
  assert (torn_batch.1 = Err (OsError 5)) as Eres by (vm_compute; reflexivity). split; [exact Eres|].
  assert (load (w_table torn_batch.2) 7 = load (w_table demo1) 7) as E7 by (vm_compute; reflexivity).
  assert (load (w_table demo1) 5 = None) as E5 by (vm_compute; reflexivity).
  assert (is_Some (load (w_table torn_batch.2) 5)) as Hnew by (vm_compute; eexists; reflexivity).
  assert (load (w_table demo1) 7 ≠ None) as Hn7 by (vm_compute; discriminate).
  assert (torn_batch = (Err (OsError 5), torn_batch.2)) as Erun.
  { revert Eres. clear. destruct torn_batch as [r w]. simpl. by intros ->. }
  destruct torn_pre as (L & Hi & Hpre).
  assert (∀ oid, load (w_table demo1) oid = locs L !! oid) as Hload0 by (intros oid; exact (inv_load _ _ _ oid Hi)).
  destruct (failed_batch_tables Config_default _ L unclaimed torn_objects 0 ∅ (OsError 5) torn_batch.2 Hpre Erun)
    as (_ & [Hsame|(f & Hv & Hs & Hwf & Hdom & Hcase)]).
  - rewrite Hsame, w_table_with_faults, E5 in Hnew. destruct Hnew as [? Hnew]. discriminate Hnew.
  - exists f. clear Eres Erun Hpre. assert (is_Some (lf_abs f !! 5)) as H5 by (apply Hdom; eexists; reflexivity).
    assert (is_Some (lf_abs f !! 7)) as [loc H7] by (apply Hdom; eexists; reflexivity).
    destruct Hcase as [[_ Hload]|[Hat Hload]].
    + exfalso. specialize (Hload 7). rewrite E7, H7, Hload0 in Hload. clear E7 E5 Hnew Hn7 Hload0.
      assert (sorted L ∧ Forall lf_wf L) as [HsL HwfL].
      { split; [apply sorted_app in Hs as []|apply Forall_app in Hwf as []]; assumption. }
      destruct (locs_owner L 7 loc HwfL Hload) as (g & Hg & Ha & _).
      apply (files_disjoint L f Hs Hwf f g loc); [set_solver|set_solver| | |].
      * intros <-. exact (new_not_old L f Hs Hwf Hg).
      * apply (lf_abs_in_file f 7); [apply (file_wf L f Hwf); set_solver|exact H7].
      * apply (lf_abs_in_file g 7); [apply (file_wf L f Hwf); set_solver|exact Ha].
    + specialize (Hload 5). rewrite w_table_with_faults, E5 in Hload.
      split; [exact E7|]. split; [exact E5|]. split; [exact Hload|]. split; [exact H5|exact Hat].
Defined.

(** [demo1] with a byte of the object of its only file changed. *)
Definition flipped : World :=
  set_os (MkOs (fs_write 2 22 (bytes_of [4]) (os_fs (w_os demo1))) []
            (os_tmp_counter (w_os demo1)) (os_thread (w_os demo1))) demo1.

Definition flipped_content : bytes := default [] (fs_inodes (os_fs (w_os flipped)) !! 2).

Lemma flipped_found : found_at flipped 7 0 flipped_content.
Proof.
  assert (fam_file <$> arcs (w_fm flipped) !! 0 = Some 2) as Hfile by (vm_compute; reflexivity).
  assert (fam_location <$> arcs (w_fm flipped) !! 0 = Some 9223372036854775810) as Hloc
    by (vm_compute; reflexivity).
  assert (fs_inodes (os_fs (w_os flipped)) !! 2 = Some flipped_content) as Hino by (vm_compute; reflexivity).
  assert (load (w_table flipped) 7 = Some 9223372036854775810) as Hload by (vm_compute; reflexivity).
  assert (range_next 9223372036854775810 (w_fm flipped) = Some (9223372036854775810, 0)) as Hnext
    by (vm_compute; reflexivity).
  destruct (arcs (w_fm flipped) !! 0) as [fam|] eqn:Ea; [|discriminate Hfile].
  injection Hfile as Hfile. injection Hloc as Hloc.
  exists 9223372036854775810, 9223372036854775810, 0, fam. rewrite Hfile, Hloc.
  split; [exact Hload|]. split; [vm_compute; reflexivity|]. split; [exact Hnext|].
  split; [exact Ea|]. split; [exact Hino|]. vm_compute. reflexivity.
Qed.

Lemma read_rejects_corruption_witness : read 7 flipped = (Err InvalidData, flipped).
Proof.
  assert (os_faults (w_os flipped) = []) as Hf by (vm_compute; reflexivity).
  pose (crc := take 4 flipped_content). pose (pid := take 8 (drop 4 flipped_content)).
  pose (size := take 8 (drop 12 flipped_content)).
  assert (slice flipped_content 0 (0 + HEADER_LEN) = Some (crc ++ pid ++ size)) as Hh
    by (vm_compute; reflexivity).
  assert (length crc = 4%nat) as L1 by (vm_compute; reflexivity).
  assert (length pid = 8%nat) as L2 by (vm_compute; reflexivity).
  assert (length size = 8%nat) as L3 by (vm_compute; reflexivity).
  assert (data_at flipped_content 0 size = Some (bytes_of [1; 2; 4])) as Hd by (vm_compute; reflexivity).
  assert (from_le_bytes size ≤ isize_max) as Hs by (vm_compute; discriminate).
  assert (hash size pid (bytes_of [1; 2; 4]) ≠ crc) as Hc
    by (apply (bool_decide_unpack _); vm_compute; exact I).
  clearbody crc pid size.
  pose proof (read_rejects_corruption flipped 7 0 flipped_content crc pid size flipped_found Hf Hh
    L1 L2 L3 Hs) as Hr.
  rewrite Hd in Hr. exact (Hr Hc).
Defined.

(** The first file of [demo3]: object 7, which has been written again since, object 8 and a
    trailer. *)
Definition fam_demo : FileAndMetadata :=
  MkFam 2 9223372036854775810 None None 1 0 false true ZstdDict_default.

Definition two_objects : bytes := default [] (fs_inodes (os_fs (w_os demo3)) !! 2).

Definition rewritten_two : outcome (option Rewrite) * World :=
  rewrite_objects 5 config_eager 1 fam_demo 44 two_objects 0 ZstdDict_default (MkRewrite ∅ ∅) demo3.

Lemma rewrite_objects_terminates_witness :
  ∃ n acc w', loop_ends config_eager 1 fam_demo 44 n two_objects 0 ZstdDict_default (MkRewrite ∅ ∅) demo3 (Ok acc) w' ∧
    (n ≤ 4)%nat ∧ batch acc = {[ 8 := Some (bytes_of [4]) ]}.
Proof.
  assert (length two_objects = 96%nat) as Hl by (vm_compute; reflexivity).
  assert (outcome_map (fmap batch) rewritten_two.1 = Ok (Some {[ 8 := Some (bytes_of [4]) ]})) as Hrun
    by (vm_compute; reflexivity).
  unfold rewritten_two in Hrun.
  destruct (rewrite_objects_terminates config_eager 1 fam_demo 44 5 two_objects 0 ZstdDict_default
    (MkRewrite ∅ ∅) demo3) as (n & r & w' & Hends & Hn & E & _); [rewrite Hl; apply Nat.ltb_lt; reflexivity|].
  rewrite E in Hrun. rewrite Hl in Hn. destruct r as [acc| | |]; [|discriminate Hrun..].
  injection Hrun as Hb. exists n, acc, w'. split; [exact Hends|]. split; [lia|exact Hb].
Defined.

(** The store of a process that was killed, opened by another one. *)
Lemma sync_all_after_open_witness :
  ∃ w o', open_store Config_default (new_process [] 1 (w_os demo1)) = (Ok w, o') ∧ sync_all w = (Ok (), w).
Proof.
  destruct demo1_inv as (L & Hi & _).
  destruct (reopen Config_default 1 (w_os demo1) L (inv_disk _ _ _ Hi) eq_refl) as (w & o' & E & _ & _).
  exists w, o'. split; [exact E|].
  exact (sync_all_after_open Config_default [] 1 (w_os demo1) L w o' (inv_disk _ _ _ Hi) E).
Defined.

(** ** Power losses *)

Lemma demo0_durably : durably demo0 ∅.
Proof.
  destruct (reopen_passes Config_default 1 demo_os []) as (w & o & E & _ & _ & Hp); [apply disk_ok_empty|done|].
  change (new_process [] 1 demo_os) with demo_os in E.
  assert (demo0 = w) as -> by (unfold demo0; by rewrite E).
  apply Hp; [by apply lasting_empty|]. by apply Forall_singleton.
Qed.

(** One batch written with [fsync_each_batch], and the power lost right after. *)
Definition synced7 : World := (write_batch config_eager batch7 demo0).2.

Lemma write_batch_durable_witness :
  ∃ w o m,
    open_store config_eager (new_process [] 1 (set_fs (lose 0 (os_fs (w_os synced7))) (w_os synced7))) = (Ok w, o) ∧
    reads w m ∧ m = spec_write batch7 ∅.
Proof.
  destruct demo0_inv as (Hi & Hv & _).
  assert (write_batch config_eager batch7 demo0 = (Ok (), synced7)) as Hrun.
  { assert ((write_batch config_eager batch7 demo0).1 = Ok ()) as E by (vm_compute; reflexivity).
    unfold synced7. destruct (write_batch config_eager batch7 demo0) as [r w]. simpl in *. by rewrite E. }
  assert (power_loss (os_fs (w_os synced7)) (lose 0 (os_fs (w_os synced7)))) as Hpl.
  { apply lose_power_loss. vm_compute. reflexivity. }
  destruct (write_batch_durable config_eager demo0 [] batch7 (Ok ()) synced7 _
    Hi demo0_fits (eq_refl : validate config_eager = inl ()) demo0_durably Hrun Hpl 1)
    as (w & o & m & E & Hr & _ & Hm).
  exists w, o, m. split; [exact E|]. split; [exact Hr|]. apply Hm; reflexivity.
Defined.

(** [demo1] was written without [fsync_each_batch]; [sync_all] makes up for it. *)
Definition synced_demo1 : World := (sync_all demo1).2.

Lemma demo1_unmarked L :
  Inv demo1 L unclaimed → vals L = batch_map batch7 ∪ ∅ → ∃ f, f ∈ L ∧ ¬ marked_synced demo1 f.
Proof.
  intros Hi Hv. destruct L as [|f L].
  { exfalso. assert (vals [] !! 7 = (batch_map batch7 ∪ ∅) !! 7) as E by (by rewrite Hv).
    vm_compute in E. discriminate E. }
  exists f. split; [by apply list_elem_of_here|].
  intros (fam & Hfam & Hs).
  assert (map_Forall (λ _ fam, fam_synced fam = false) (arcs (w_fm demo1))) as Hall.
  { apply (bool_decide_unpack _). vm_compute. exact I. }
  apply fam_at_Some in Hfam as (p & _ & Ha). pose proof (Hall _ _ Ha) as Hf. cbv beta in Hf.
  rewrite Hs in Hf. discriminate Hf.
Qed.

Lemma sync_all_durable_witness :
  ∃ L, Inv demo1 L unclaimed ∧ settled (lose 0 (os_fs (w_os synced_demo1))) L.
Proof.
  destruct demo0_inv as (Hi0 & Hv0 & _). destruct demo1_inv as (L & Hi & Hv).
  exists L. split; [exact Hi|].
  assert (∃ P : list LogFile → Prop, lasting P (os_fs (w_os demo1))) as [P HP].
  { destruct (written_durably Config_default demo0 [] batch7 _ demo1 Hi0 demo0_fits demo0_durably
      (surjective_pairing _)) as [HP _]. eexists. exact HP. }
  assert (sync_all demo1 = (Ok (), synced_demo1)) as Hrun.
  { assert ((sync_all demo1).1 = Ok ()) as E by (vm_compute; reflexivity).
    unfold synced_demo1. destruct (sync_all demo1) as [r w]. simpl in *. by rewrite E. }
  apply (sync_all_durable demo1 L unclaimed P synced_demo1 _ Hi HP (demo1_unmarked L Hi Hv) Hrun).
  apply lose_power_loss. vm_compute. reflexivity.
Defined.
